(* ===== verification/_CoqProject ===== *)
-Q . S2P
Prelude.v
Strconv.v
Utf8.v
Json.v
JsonFacts.v
PacketHeader.v
GoIO.v
Scan.v
GoStrings.v
Packet.v
Message.v
Connection.v
ConnFaults.v
Acks.v
Timestamp.v
ServiceProxy.v
Base64.v
Verify.v
Ticket.v
Scanner.v
ServiceCache.v
ServiceCacheFacts.v
Service.v
ServiceFacts.v
Client.v
Sorter.v
Handler.v
RemoteCall.v
Refresher.v
Requester.v
ConfigLine.v
Config.v
ConfigFacts.v
Authorized.v
ServiceRun.v
Stats.v
Announcer.v
Tools.v
Debugger.v
Startup.v
