(* ===== verification/Prelude.v ===== *)
(** * scamp-go: a verified model of the SCAMP service bus library

    SCAMP services announce themselves in a signed cache file, and talk over
    persistent connections in packets that carry JSON messages.  This
    development models the Go package under src/scamp/ and proves what makes
    it work, or shows by theorem where it does not.  Definitions are pure
    functions named as in the source: a call takes the state it reads and
    returns the state it leaves, its result and its error.

    ** Conventions

    Bytes, Go strings and byte slices are [list ascii].  Integers are [Z]
    with the 64-bit wrap-around ([u64], [i64]) written where the code can
    reach it.  [outcome E A] is a return, an error or a panic; a model that
    can run out of fuel returns an [option], and a theorem shows that its fuel
    is enough.  Go maps are [gmap]s; where the code iterates over one, the
    order is a parameter.  A mutable object that only one holder sees is
    passed as a value; where sharing is visible (the buffer of the
    configuration scanner) there is a heap.

    ** The files

    Go and its standard library:
    - Prelude: bytes, outcomes, machine integers, shared lemmas;
    - Strconv, Utf8, Json, JsonFacts, GoStrings, Scan, Base64: strconv,
      unicode/utf8, encoding/json (values, rendering, parsing, and that
      parsing inverts rendering), strings, fmt.Sscanf, encoding/base64;
    - GoIO: bufio.Reader and bufio.Writer over a socket that can break;
    - Scanner: bufio.Scanner over lines, by value.

    The wire (packet.go, packetheader.go, message.go, connection.go):
    - PacketHeader: [header_Write] and [unmarshal_header];
    - Packet: [ReadPacket] and [packet_Write], each of a whole packet;
    - Message: building a message, cutting it into packets;
    - Connection: [conn_Send], [routePacket], [run_reader] (the loop of
      packetReader, with the bytes received as its input), [conn_Close];
    - ConnFaults: the same operations on broken and closed connections;
    - Acks: the acknowledgements a reader writes back, and that the other
      side reads them without a change.

    Clients and services (client.go, service.go, action_options.go,
    multicast.go, stats.go, service_stats.go, discoveryannounce.go):
    - Client: numbering of requests, [dispatch] (the goroutine
      splitReqsAndReps), [client_Close]; channels are logs of what was sent;
    - Sorter: the same goroutine with unbuffered channels, where it can be
      stuck in a send; it refines [dispatch];
    - Service, ServiceFacts: registration, tracking of clients, the
      announcement and the address in it;
    - Handler: [options_Call] (ticket and privileges) and [Handle];
    - RemoteCall: client, connections and [Handle] put together, each stage
      on the state the one before it left, acknowledgements included;
    - ServiceRun: [NewService], the liveness file over an interface [Files]
      of the disk, and [Run] with the goroutines it starts as [run_step]s:
      the append and the count of an accepted client are two steps, and what
      the goroutines of a client do to it ([work]) are the operations of
      Client and Connection;
    - Stats: the loops that print statistics, over what they receive;
    - Announcer: the sockets of multicast.go, a round of announcements
      ([doAnnounce]), and [AnnounceLoop], one datagram at a time, with [Stop]
      and [Track] as [an_step]s.

    Trust (ticket.go, verify.go, cert.go):
    - Verify: signatures and fingerprints over an interface [Crypto] of the
      primitives, with [CryptoLaws] for what signing promises, and an
      instance that satisfies both;
    - Ticket: [VerifyTicket], [Expired], [CheckPrivs].

    Discovery (serviceproxy.go, servicecache.go, refresher.go,
    authorizedservices.go, timestamp.go):
    - Timestamp: the floating-point time stamp of an announcement;
    - ServiceProxy: the class record, written and read, [GetClient];
    - ServiceCache, ServiceCacheFacts: the two indexes, the reading of the
      cache file, the retry loop [Do];
    - Refresher: when the file is read again; calls of [Run] and [Stop],
      lookups and any number of refresh goroutines are threads, whose
      accesses to the shared fields ([move]) interleave as [step]s;
    - Authorized: lines of the authorised-services file.

    The rest (requester.go, config.go, init.go, mocked.go, debugger.go,
    scamp.go):
    - Requester: [MakeJSONRequest], over the refresher and the clients;
    - ConfigLine: the regular expression of a line; Config, ConfigFacts: the
      file and the values, which share the scanner's buffer;
    - Debugger: the files of the protocol debugger; the numbering of its
      instances by compare-and-swap as [id_step]s;
    - Startup: the package variables, [Initialize], the mock;
    - Tools: the two commands.

    ** What is shown

    - Round trips: packets and their headers; messages over a healthy
      connection, in order and with their contents, except for the
      identifying token, which the receiver drops; class records; a
      service's announcement, through the cache file, its signature check
      and a search by action; the entry the signing command prints; the
      statistics of a running service.
    - A whole call: request, callback, answer, and when the answer is matched
      to the request ([remote_call]).
    - Safety: an accepted ticket is signed and current; a guarded callback
      runs only with its privileges; a verifying cache holds only verified
      services; a closed connection sends nothing.
    - Requests: a reply reaches its request and no other; the request goes
      to the least loaded client that takes it.
    - Invariants: message numbers of a connection, the two indexes of the
      cache (what is known by identity is listed under its names; the
      converse holds after a file of distinct identities, and an eviction
      breaks it), one refresh goroutine at a time, the clients a running
      service tracks, the numbers of debuggers.
    - Bounds: how often lookups read the cache file: once per tick, and at
      the start once per lookup of those that run together.
    - Liveness: a [Stop], called at any point, ends the announcing loop
      after the round under way; and its failure: [Run] never returns, the
      liveness file stays.
    - Termination: the packet reader, the reading of cache, configuration
      and authorised services, with the fuel a function of the input's
      length (each round consumes at least a byte).
    - Refinement: the announcement against the reader of the cache file; the
      sorting goroutine, under any interleaving, against [dispatch].
    - Faults, stated as theorems about the same definitions: panics on
      malformed packets and records, lost early replies,
      late replies that block a client, a send that reports
      success on a broken pipe, message numbers lost by a failed send, a
      race of [Run] with [Stop], first lookups that all read the file,
      values overwritten in the configuration.

    ** Parameters

    Cryptography (RSA, SHA, x509, PEM), case mapping outside ASCII, URL and
    IP parsing, dialling, the file system, the clock, random bytes and the
    order of map iteration are arguments.  Theorems that need something of
    them say so in a hypothesis, and their witnesses give an instance.

    ** Bounds

    The line and buffer sizes of bufio are Go's constants, or parameters
    where a theorem holds for all sizes.  Counters that overflow only after
    [2^63] messages are bounded in hypotheses, as [reader_invariant] and
    [reply_reaches_request] show.

    ** Not modelled

    The inside of sockets and TLS; locks as such (what runs under an
    exclusive lock is one step, and the interleavings that matter are
    explicit; the read lock of the refresher excludes nothing and is left
    out); more than one [AnnounceLoop] at a time on one announcer; the
    loggers (logger.go); panicjson (debug.go), which nothing calls; the fields [Connection.Fingerprint] and
    [Connection.client], which nothing reads. *)
From Stdlib Require Export Ascii String ZArith NArith Lia.
From stdpp Require Export prelude strings list gmap.

(** ** Bytes

    Go's [string] and [[]byte] are both finite sequences of bytes, and
    the program converts between them freely; one type serves for both. *)

Abbreviation byte := ascii.
Abbreviation bytes := (list ascii).

(** A Go string literal. *)
Definition bs (s : string) : bytes := list_ascii_of_string s.

(** The numeric value of a byte, and the byte of a number (mod 256). *)
Definition bv (c : byte) : N := N_of_ascii c.
Definition chr (n : N) : byte := ascii_of_N n.

Arguments bs : simpl never.
Arguments bv : simpl never.
Arguments chr : simpl never.

(** ** Outcomes of Go code

    A call returns normally, returns a non-nil [error], or panics. *)

Inductive outcome (E A : Type) : Type :=
| Ok (a : A)
| Err (e : E)
| Panic (why : bytes).

Arguments Ok {E A} a.
Arguments Err {E A} e.
Arguments Panic {E A} why.

Definition obind {E A B} (k : A → outcome E B) (m : outcome E A) : outcome E B :=
  match m with
  | Ok a => k a
  | Err e => Err e
  | Panic w => Panic w
  end.

#[export] Instance outcome_bind E : MBind (outcome E) := λ A B k m, obind k m.
#[export] Instance outcome_ret E : MRet (outcome E) := λ A a, Ok a.

(** Sequencing for code that may also run out of fuel. *)
Definition and_then {A B} (o : option (outcome unit A)) (k : A → option (outcome unit B))
    : option (outcome unit B) :=
  match o with
  | Some (Ok a) => k a
  | Some (Err e) => Some (Err e)
  | Some (Panic w) => Some (Panic w)
  | None => None
  end.

(** Change the error, as [fmt.Errorf("...: %s", err)] does. *)
Definition map_err {E F A} (f : E → F) (m : outcome E A) : outcome F A :=
  match m with
  | Ok a => Ok a
  | Err e => Err (f e)
  | Panic w => Panic w
  end.

(** An option read as "value, or this error". *)
Definition or_err {E A} (e : E) (o : option A) : outcome E A :=
  match o with
  | Some a => Ok a
  | None => Err e
  end.

Definition is_panic {E A} (m : outcome E A) : bool :=
  match m with Panic _ => true | _ => false end.

Definition is_ok {E A} (m : outcome E A) : bool :=
  match m with Ok _ => true | _ => false end.

(** ** Machine integers

    [int] and [int64] are 64-bit two's complement, [uint64] is modulo
    [2^64]; values are kept in [Z] with the wrap-around explicit. *)

Definition u64 (z : Z) : Z := (z mod 2 ^ 64)%Z.
Definition i64 (z : Z) : Z := ((z + 2 ^ 63) mod 2 ^ 64 - 2 ^ 63)%Z.
Definition in_u64 (z : Z) : Prop := (0 ≤ z < 2 ^ 64)%Z.
Definition in_i64 (z : Z) : Prop := (- 2 ^ 63 ≤ z < 2 ^ 63)%Z.

#[export] Instance in_u64_dec z : Decision (in_u64 z).
Proof. unfold in_u64. apply _. Defined.
#[export] Instance in_i64_dec z : Decision (in_i64 z).
Proof. unfold in_i64. apply _. Defined.

(** The longest prefix whose elements satisfy [p], and the rest. *)
Fixpoint span {A} (p : A → bool) (l : list A) : list A * list A :=
  match l with
  | [] => ([], [])
  | x :: r => if p x then let '(a, b) := span p r in (x :: a, b) else ([], l)
  end.

(** How many elements satisfy [p]. *)
Fixpoint how_many {A} (p : A → bool) (l : list A) : nat :=
  match l with
  | [] => 0
  | x :: r => (if p x then 1 else 0) + how_many p r
  end.

(** ** Notation *)

Declare Scope go_scope.
Delimit Scope go_scope with go.
Notation "a =b b" := (bool_decide (a = b)) (at level 70, no associativity) : go_scope.
Global Open Scope go_scope.

(** ** Automation *)

Create Rewrite HintDb go_rw.
Create HintDb go discriminated.
#[export] Hint Constants Opaque : go.

(** Split conjunctions and existentials in the context. *)
Ltac decomp :=
  repeat match goal with
  | H : _ ∧ _ |- _ => destruct H
  | H : ∃ _, _ |- _ => destruct H
  end.

(** Reduce the outcome monad where the computation's head is known. *)
Ltac go_simpl :=
  cbn [obind mbind mret outcome_bind outcome_ret map_err or_err is_ok fst snd] in *.

(** [lia] with division and modulo by constants. *)
Ltac dm_lia := zify; Z.to_euclidean_division_equations; lia.

(** Decide a boolean test whose truth is in the context. *)
Ltac decide_bool :=
  repeat match goal with
  | |- context [bool_decide ?P] =>
      first [ rewrite (bool_decide_true P) by (done || lia || congruence)
            | rewrite (bool_decide_false P) by (done || lia || congruence) ]
  | H : context [bool_decide ?P] |- _ =>
      first [ rewrite (bool_decide_true P) in H by (done || lia || congruence)
            | rewrite (bool_decide_false P) in H by (done || lia || congruence) ]
  end.

(** Case split on the innermost match scrutinee of the goal. *)
Ltac go_case :=
  match goal with
  | |- context [match ?x with _ => _ end] =>
      lazymatch x with
      | context [match _ with _ => _ end] => fail
      | _ => destruct x eqn:?
      end
  end.

(** Invert equations between outcomes. *)
Ltac inv_ok :=
  repeat match goal with
  | H : Ok _ = Ok _ |- _ => injection H as H; subst
  | H : Err _ = Err _ |- _ => injection H as H; subst
  | H : Ok _ = Err _ |- _ => discriminate H
  | H : Err _ = Ok _ |- _ => discriminate H
  | H : Panic _ = Ok _ |- _ => discriminate H
  | H : Ok _ = Panic _ |- _ => discriminate H
  | H : Panic _ = Err _ |- _ => discriminate H
  | H : Err _ = Panic _ |- _ => discriminate H
  end.

(** Read the outcome monad forwards: split the first step of [H]. *)
Ltac step_ok H x E :=
  match type of H with
  | (?m ≫= _) = _ => destruct m as [x| |] eqn:E; go_simpl; try discriminate H
  end.

(** ** Lemmas shared by the components *)

(** *** Outcomes *)

Lemma map_err_Ok {E F A} (f : E → F) (m : outcome E A) a : map_err f m = Ok a → m = Ok a.
Proof. by destruct m; intros [= ->]. Qed.

Lemma map_err_Panic {E F A} (f : E → F) (m : outcome E A) w :
  map_err f m = Panic w → m = Panic w.
Proof. by destruct m; intros [= ->]. Qed.

Lemma or_err_Ok {E A} (e : E) o (a : A) : or_err e o = Ok a → o = Some a.
Proof. by destruct o; intros [= ->]. Qed.

Lemma bind_Ok {E A B} (m : outcome E A) (k : A → outcome E B) b :
  (m ≫= k) = Ok b → ∃ a, m = Ok a ∧ k a = Ok b.
Proof. destruct m; [by eauto | done | done]. Qed.

Lemma Ok_inj {E A} (a b : A) : Ok (E := E) a = Ok b → a = b.
Proof. congruence. Qed.

Lemma bind_Panic {E A B} (m : outcome E A) (k : A → outcome E B) w :
  (m ≫= k) = Panic w → m = Panic w ∨ ∃ a, m = Ok a ∧ k a = Panic w.
Proof. destruct m; cbn; [by eauto | done | intros [= ->]; by left]. Qed.

Lemma or_err_Panic {E A} (e : E) (o : option A) w : or_err e o ≠ Panic w.
Proof. by destruct o. Qed.

Lemma and_then_Ok {A B} (o : option (outcome unit A)) (k : A → option (outcome unit B)) b :
  and_then o k = Some (Ok b) → ∃ a, o = Some (Ok a) ∧ k a = Some (Ok b).
Proof. destruct o as [[a| |]|]; try done. by exists a. Qed.

(** *** Bytes and lists *)

Lemma bv_chr n : (n < 256)%N → bv (chr n) = n.
Proof. apply N_ascii_embedding. Qed.

Lemma chr_bv c : chr (bv c) = c.
Proof. apply ascii_N_embedding. Qed.

Lemma bv_bound c : (bv c < 256)%N.
Proof. apply N_ascii_bounded. Qed.

Lemma bv_inj c d : bv c = bv d → c = d.
Proof. intros H. rewrite <- (chr_bv c), <- (chr_bv d). by rewrite H. Qed.

Lemma bs_app s t : bs (s +:+ t)%string = bs s ++ bs t.
Proof.
  unfold bs. induction s as [|c s IH]; [done|].
  change (String c s +:+ t)%string with (String c (s +:+ t)%string).
  cbn. by rewrite IH.
Qed.

(** To check a boolean property of every byte it suffices to compute it
    on the 256 of them. *)
Definition all_bytes : bytes := map chr (map N.of_nat (seq 0 256)).

Lemma elem_of_all_bytes c : In c all_bytes.
Proof.
  unfold all_bytes. rewrite <- (chr_bv c). apply in_map.
  rewrite <- (N2Nat.id (bv c)). apply in_map. apply in_seq.
  pose proof (bv_bound c). lia.
Qed.

Lemma forall_byte (p : byte → bool) :
  forallb p all_bytes = true → ∀ c, p c = true.
Proof.
  intros H c. rewrite forallb_forall in H. apply H, elem_of_all_bytes.
Qed.

(** An implication between byte tests, by the same computation. *)
Lemma forall_byte_impl (p q : byte → bool) :
  forallb (λ c, implb (p c) (q c)) all_bytes = true → ∀ c, p c = true → q c = true.
Proof.
  intros H c Hp. pose proof (forall_byte _ H c) as Hc. cbn in Hc.
  by rewrite Hp in Hc.
Qed.

Lemma u64_id z : in_u64 z → u64 z = z.
Proof. unfold in_u64, u64. intros. by apply Z.mod_small. Qed.

Lemma u64_range z : in_u64 (u64 z).
Proof. unfold in_u64, u64. apply Z.mod_pos_bound. lia. Qed.

Lemma i64_id z : in_i64 z → i64 z = z.
Proof. unfold in_i64, i64. intros. rewrite Z.mod_small; lia. Qed.

Lemma i64_range z : in_i64 (i64 z).
Proof.
  unfold in_i64, i64. pose proof (Z.mod_pos_bound (z + 2 ^ 63) (2 ^ 64)). lia.
Qed.

Lemma u64_add_l a b : u64 (u64 a + b) = u64 (a + b).
Proof. unfold u64. by rewrite Zplus_mod_idemp_l. Qed.

Section span.
Context {A : Type} (p : A → bool).

Lemma span_app l r :
  forallb p l = true → span p (l ++ r) = (l ++ (span p r).1, (span p r).2).
Proof.
  induction l as [|x l IH]; cbn; intros H.
  - by destruct (span p r).
  - apply andb_true_iff in H as [Hx Hl]. rewrite Hx, (IH Hl). done.
Qed.

Lemma span_stop x r : p x = false → span p (x :: r) = ([], x :: r).
Proof. intros H. cbn. by rewrite H. Qed.

(** A block of [p]-elements followed by something that stops the scan. *)
Lemma span_block l r :
  forallb p l = true → (∀ x r', r = x :: r' → p x = false) → span p (l ++ r) = (l, r).
Proof.
  intros Hl Hr. rewrite span_app by done.
  destruct r as [|x r']; [by rewrite app_nil_r|].
  rewrite (span_stop x r') by (by eapply Hr). by rewrite app_nil_r.
Qed.

Lemma span_eq l a b : span p l = (a, b) → l = a ++ b.
Proof.
  revert a b. induction l as [|x l IH]; cbn; intros a b H.
  - by injection H as <- <-.
  - destruct (p x); [|by injection H as <- <-].
    destruct (span p l) as [u v]. injection H as <- <-. cbn. f_equal. by apply IH.
Qed.

End span.

Lemma forallb_app_iff {A} (p : A → bool) l r :
  forallb p (l ++ r) = true ↔ forallb p l = true ∧ forallb p r = true.
Proof. rewrite forallb_app. apply andb_true_iff. Qed.

Lemma forallb_impl {A} (p q : A → bool) l :
  (∀ x, p x = true → q x = true) → forallb p l = true → forallb q l = true.
Proof. rewrite !forallb_forall. auto. Qed.

Lemma take_app_exact {A} (l r : list A) : take (length l) (l ++ r) = l.
Proof. apply take_app_length. Qed.

Lemma drop_app_exact {A} (l r : list A) : drop (length l) (l ++ r) = r.
Proof. apply drop_app_length. Qed.

(** *** Counting *)

Section how_many.
Context {A : Type} (p q : A → bool).

Lemma how_many_app a b : how_many p (a ++ b) = how_many p a + how_many p b.
Proof. induction a as [|x a IH]; [done|]. cbn. rewrite IH. lia. Qed.

(** One element changes. *)
Lemma how_many_insert l k x y :
  l !! k = Some x →
  how_many p (<[k:=y]> l) + (if p x then 1 else 0) = how_many p l + (if p y then 1 else 0).
Proof.
  revert k. induction l as [|z l IH]; intros [|k]; [done..| |].
  - cbn. intros [= ->]. lia.
  - intros Hk. change (<[S k:=y]> (z :: l)) with (z :: <[k:=y]> l). cbn [how_many].
    specialize (IH k Hk). lia.
Qed.

Lemma how_many_pos l : 0 < how_many p l ↔ ∃ x, x ∈ l ∧ p x = true.
Proof.
  induction l as [|z l IH]; cbn; [split; [lia|]; by intros (x & Hx%elem_of_nil & _)|].
  destruct (p z) eqn:Ez.
  - split; [|lia]. intros _. exists z. split; [left | done].
  - rewrite Nat.add_0_l, IH. split.
    + intros (x & Hx & Hp). exists x. split; [by right | done].
    + intros (x & [->|Hx]%elem_of_cons & Hp); [congruence|]. by exists x.
Qed.

Lemma how_many_0 l : how_many p l = 0 ↔ ∀ x, x ∈ l → p x = false.
Proof.
  split.
  - intros H0 x Hx. destruct (p x) eqn:E; [|done]. assert (0 < how_many p l) by (apply how_many_pos; eauto). lia.
  - intros H. destruct (how_many p l) eqn:E; [done|].
    destruct (proj1 (how_many_pos l)) as (x & Hx & Hp); [lia|]. by rewrite H in Hp.
Qed.

Lemma how_many_le l : (∀ x, p x = true → q x = true) → how_many p l ≤ how_many q l.
Proof.
  intros H. induction l as [|x l IH]; cbn; [done|]. specialize (H x).
  destruct (p x), (q x); try lia; by specialize (H eq_refl).
Qed.

End how_many.

#[export] Hint Rewrite @take_app_exact @drop_app_exact @app_nil_r : go_rw.
#[export] Hint Resolve u64_range i64_range bv_bound : go.
