(* ===== verification/Strconv.v ===== *)
(** Decimal integers as the program reads and writes them: the parts of
    Go's [strconv] ([FormatInt], [ParseUint], [ParseInt], [Atoi]) and of
    [fmt]'s ["%d"] that the sources under src/scamp call.  Base 10 only. *)
From S2P Require Import Prelude.

(** ** Formatting *)

Definition digit (n : N) : byte := chr (48 + n).

(** [dec_aux fuel n]: the digits of [n], most significant first. *)
Fixpoint dec_aux (fuel : nat) (n : N) : bytes :=
  match fuel with
  | O => [digit (n mod 10)]
  | S f => if (n <? 10)%N then [digit n] else dec_aux f (n / 10) ++ [digit (n mod 10)]
  end.

(** [N.size n] bits are at least as many as the decimal digits. *)
Definition format_uint (n : N) : bytes := dec_aux (N.to_nat (N.size n)) n.

Definition format_int (z : Z) : bytes :=
  if (z <? 0)%Z then bs "-" ++ format_uint (Z.to_N (- z)) else format_uint (Z.to_N z).

(** ** Parsing *)

Inductive num_error := ErrSyntax | ErrRange.

Definition is_digit (c : byte) : bool := (48 <=? bv c)%N && (bv c <=? 57)%N.

Definition dval (c : byte) : N := (bv c - 48)%N.

(** The loop of [strconv.ParseUint]: stop at the first byte that is not a
    digit, or as soon as the value exceeds [maxv]. *)
Fixpoint parse_uint_loop (maxv acc : N) (l : bytes) : num_error + N :=
  match l with
  | [] => inr acc
  | c :: r =>
      if is_digit c then
        let n := (acc * 10 + dval c)%N in
        if (maxv <? n)%N then inl ErrRange else parse_uint_loop maxv n r
      else inl ErrSyntax
  end.

Definition max_uint64 : N := 18446744073709551615.

(** [strconv.ParseUint(s, 10, 64)]. *)
Definition ParseUint (s : bytes) : num_error + Z :=
  match s with
  | [] => inl ErrSyntax
  | _ =>
      match parse_uint_loop max_uint64 0 s with
      | inl e => inl e
      | inr n => inr (Z.of_N n)
      end
  end.

Definition split_sign (s : bytes) : bool * bytes :=
  match s with
  | c :: r =>
      if c =b "+"%char then (false, r) else if c =b "-"%char then (true, r) else (false, s)
  | [] => (false, [])
  end.

(** [strconv.ParseInt(s, 10, 64)]; a bit size of 0 means the same on a
    64-bit platform. *)
Definition ParseInt (s : bytes) : num_error + Z :=
  match s with
  | [] => inl ErrSyntax
  | _ =>
      let '(neg, r) := split_sign s in
      match ParseUint r with
      | inl e => inl e
      | inr un =>
          if neg then if (2 ^ 63 <? un)%Z then inl ErrRange else inr (- un)%Z
          else if (2 ^ 63 <=? un)%Z then inl ErrRange else inr un
      end
  end.

(** [strconv.Atoi]. *)
Definition Atoi : bytes → num_error + Z := ParseInt.

(** ** Values of digit strings *)

Definition digits_val (l : bytes) : N := fold_left (λ a c, a * 10 + dval c)%N l 0%N.

(** ** Lemmas *)

Lemma digit_is_digit n : (n < 10)%N → is_digit (digit n) = true.
Proof.
  intros H. unfold is_digit, digit. rewrite bv_chr by lia.
  apply andb_true_iff. split; apply N.leb_le; lia.
Qed.

Lemma dval_digit n : (n < 10)%N → dval (digit n) = n.
Proof. intros H. unfold dval, digit. rewrite bv_chr; lia. Qed.

Lemma dec_aux_digits fuel n : forallb is_digit (dec_aux fuel n) = true.
Proof.
  revert n. induction fuel as [|f IH]; intros n; cbn.
  - rewrite digit_is_digit; [done | dm_lia].
  - destruct (n <? 10)%N eqn:E.
    + apply N.ltb_lt in E. cbn. by rewrite digit_is_digit.
    + apply forallb_app_iff. split; [apply IH|]. cbn.
      rewrite digit_is_digit; [done | dm_lia].
Qed.

Lemma format_uint_digits n : forallb is_digit (format_uint n) = true.
Proof. apply dec_aux_digits. Qed.

Lemma digits_val_snoc l c : digits_val (l ++ [c]) = (digits_val l * 10 + dval c)%N.
Proof. unfold digits_val. by rewrite fold_left_app. Qed.

Lemma dec_aux_val fuel n : (n < 2 ^ N.of_nat fuel)%N → digits_val (dec_aux fuel n) = n.
Proof.
  revert n. induction fuel as [|f IH]; intros n H; cbn [dec_aux].
  - change (2 ^ N.of_nat 0)%N with 1%N in H. replace n with 0%N by lia. reflexivity.
  - rewrite Nat2N.inj_succ, N.pow_succ_r' in H. destruct (n <? 10)%N eqn:E.
    + apply N.ltb_lt in E. unfold digits_val. cbn. rewrite dval_digit; lia.
    + apply N.ltb_ge in E. rewrite digits_val_snoc, dval_digit, IH by dm_lia. dm_lia.
Qed.

Lemma format_uint_val n : digits_val (format_uint n) = n.
Proof. apply dec_aux_val. rewrite N2Nat.id. apply N.size_gt. Qed.

Lemma dec_aux_nonempty fuel n : dec_aux fuel n ≠ [].
Proof.
  destruct fuel; cbn; [done|]. destruct (n <? 10)%N; [done|]. by destruct (dec_aux fuel _).
Qed.

Lemma format_uint_nonempty n : format_uint n ≠ [].
Proof. apply dec_aux_nonempty. Qed.

(** No leading zero, except for the number zero itself. *)
Lemma dec_aux_head fuel n :
  (n < 2 ^ N.of_nat fuel)%N → n ≠ 0%N →
  ∃ c r, dec_aux fuel n = c :: r ∧ (49 <= bv c <= 57)%N.
Proof.
  revert n. induction fuel as [|f IH]; intros n H Hn; cbn [dec_aux].
  - change (2 ^ N.of_nat 0)%N with 1%N in H. lia.
  - rewrite Nat2N.inj_succ, N.pow_succ_r' in H. destruct (n <? 10)%N eqn:E.
    + apply N.ltb_lt in E. exists (digit n), []. split; [done|].
      unfold digit. rewrite bv_chr; lia.
    + apply N.ltb_ge in E. destruct (IH (n / 10)%N) as (c & r & Hc & Hb); [dm_lia..|].
      exists c, (r ++ [digit (n mod 10)]). by rewrite Hc.
Qed.

Lemma format_uint_head n :
  n ≠ 0%N → ∃ c r, format_uint n = c :: r ∧ (49 <= bv c <= 57)%N.
Proof. apply dec_aux_head. rewrite N2Nat.id. apply N.size_gt. Qed.

(** A number below [10^k] has at most [k] digits. *)
Lemma dec_aux_length fuel n k :
  (n < 10 ^ N.of_nat (S k))%N → length (dec_aux fuel n) ≤ S k.
Proof.
  revert n k. induction fuel as [|f IH]; intros n k H; cbn [dec_aux]; [cbn; lia|].
  destruct (n <? 10)%N eqn:E; [cbn; lia|]. apply N.ltb_ge in E.
  rewrite Nat2N.inj_succ, N.pow_succ_r' in H. destruct k as [|k].
  - change (10 ^ N.of_nat 0)%N with 1%N in H. lia.
  - rewrite length_app. cbn. specialize (IH (n / 10)%N k). lapply IH; [lia|]. dm_lia.
Qed.

Lemma format_uint_length n k : (n < 10 ^ N.of_nat (S k))%N → length (format_uint n) ≤ S k.
Proof. apply dec_aux_length. Qed.

Lemma fold_digits_mono l a : (a <= fold_left (λ a c, a * 10 + dval c)%N l a)%N.
Proof.
  revert a. induction l as [|c l IH]; intros a; cbn; [lia|].
  specialize (IH (a * 10 + dval c)%N). lia.
Qed.

Lemma parse_uint_loop_digits maxv l a :
  forallb is_digit l = true →
  (fold_left (λ a c, a * 10 + dval c)%N l a <= maxv)%N →
  parse_uint_loop maxv a l = inr (fold_left (λ a c, a * 10 + dval c)%N l a).
Proof.
  revert a. induction l as [|c l IH]; intros a Hl Hv; cbn in *; [done|].
  apply andb_true_iff in Hl as [Hc Hl]. rewrite Hc.
  pose proof (fold_digits_mono l (a * 10 + dval c)%N).
  destruct (maxv <? _)%N eqn:E; [apply N.ltb_lt in E; lia|]. by apply IH.
Qed.

Lemma ParseUint_format n :
  (n <= max_uint64)%N → ParseUint (format_uint n) = inr (Z.of_N n).
Proof.
  intros H. unfold ParseUint. pose proof (format_uint_nonempty n).
  destruct (format_uint n) as [|c r] eqn:E; [done|]. rewrite <- E.
  pose proof (format_uint_val n) as Hv. unfold digits_val in Hv.
  by rewrite parse_uint_loop_digits, Hv by (rewrite ?Hv; auto using format_uint_digits).
Qed.

Lemma digit_not_sign c : is_digit c = true → c ≠ "+"%char ∧ c ≠ "-"%char.
Proof. intros H. split; intros ->; discriminate. Qed.

Lemma split_sign_digits l : forallb is_digit l = true → split_sign l = (false, l).
Proof.
  destruct l as [|c r]; [done|]. cbn. intros [Hc _]%andb_true_iff.
  destruct (digit_not_sign c Hc). by decide_bool.
Qed.

Lemma split_sign_minus l : split_sign (bs "-" ++ l) = (true, l).
Proof. reflexivity. Qed.

Lemma format_int_nonempty z : format_int z ≠ [].
Proof. unfold format_int. destruct (z <? 0)%Z; [done|]. apply format_uint_nonempty. Qed.

(** Printing and parsing are inverse on the 64-bit range. *)
Lemma ParseInt_format z : in_i64 z → ParseInt (format_int z) = inr z.
Proof.
  intros [Hlo Hhi]. unfold ParseInt. pose proof (format_int_nonempty z).
  destruct (format_int z) as [|c r] eqn:E; [done|]. rewrite <- E. clear E.
  unfold format_int, max_uint64 in *. destruct (z <? 0)%Z eqn:E.
  - rewrite split_sign_minus.
    rewrite ParseUint_format by (unfold max_uint64; lia).
    case Z.ltb_spec; intros; [lia|]. f_equal. lia.
  - rewrite split_sign_digits by apply format_uint_digits.
    rewrite ParseUint_format by (unfold max_uint64; lia).
    case Z.leb_spec; intros; [lia|]. f_equal. lia.
Qed.

Lemma parse_uint_loop_bound maxv l a n :
  (a <= maxv)%N → parse_uint_loop maxv a l = inr n → (n <= maxv)%N.
Proof.
  revert a. induction l as [|c l IH]; intros a Ha; cbn; [by intros [= <-]|].
  destruct (is_digit c); [|done]. case N.ltb_spec; [done|]. intros Hn. by apply IH.
Qed.

Lemma ParseUint_range s z : ParseUint s = inr z → in_u64 z.
Proof.
  unfold ParseUint. destruct s as [|c s]; [done|].
  destruct (parse_uint_loop _ _ _) as [|n] eqn:E; [done|]. intros [= <-].
  apply parse_uint_loop_bound in E; [|done]. unfold in_u64, max_uint64 in *. lia.
Qed.

Lemma ParseInt_range s z : ParseInt s = inr z → in_i64 z.
Proof.
  unfold ParseInt, ParseUint, in_i64. intros H.
  destruct s; [done|]. destruct (split_sign _) as [neg l]. destruct l; [done|].
  destruct (parse_uint_loop _ _ _) as [|n]; [done|].
  destruct neg; repeat case_match; simplify_eq; lia.
Qed.

#[export] Hint Resolve format_uint_digits format_uint_nonempty format_int_nonempty : go.
