(* ===== verification/Utf8.v ===== *)
(** UTF-8 as Go's [unicode/utf8] treats it: [DecodeRune] with its
    one-byte [RuneError] for malformed input, [EncodeRune], the sequence of
    runes a [range] loop sees, and [unicode.IsSpace].  Used by the JSON
    string codec and by [fmt.Sscanf]. *)
From S2P Require Import Prelude.

(** [utf8.RuneError], U+FFFD. *)
Definition rune_error : N := 65533.

Definition in_rng (lo hi : N) (c : byte) : bool := (lo <=? bv c)%N && (bv c <=? hi)%N.
Definition is_cont : byte → bool := in_rng 128 191.

(** The accepted ranges of the second byte. *)
Definition lo3 (x : N) : N := if (x =? 224)%N then 160 else 128.
Definition hi3 (x : N) : N := if (x =? 237)%N then 159 else 191.
Definition lo4 (x : N) : N := if (x =? 240)%N then 144 else 128.
Definition hi4 (x : N) : N := if (x =? 244)%N then 143 else 191.

(** [utf8.DecodeRune]: the first rune and its width in bytes. *)
Definition DecodeRune (s : bytes) : N * nat :=
  match s with
  | [] => (rune_error, 0)
  | a :: r =>
      let x := bv a in
      if (x <? 128)%N then (x, 1)
      else if ((194 <=? x)%N && (x <=? 223)%N) then
        match r with
        | b :: _ =>
            if is_cont b then (((x mod 32) * 64 + bv b mod 64)%N, 2%nat) else (rune_error, 1)
        | _ => (rune_error, 1)
        end
      else if ((224 <=? x)%N && (x <=? 239)%N) then
        match r with
        | b :: c :: _ =>
            if in_rng (lo3 x) (hi3 x) b && is_cont c
            then (((x mod 16) * 4096 + (bv b mod 64) * 64 + bv c mod 64)%N, 3%nat)
            else (rune_error, 1)
        | _ => (rune_error, 1)
        end
      else if ((240 <=? x)%N && (x <=? 244)%N) then
        match r with
        | b :: c :: d :: _ =>
            if in_rng (lo4 x) (hi4 x) b && is_cont c && is_cont d
            then (((x mod 8) * 262144 + (bv b mod 64) * 4096 + (bv c mod 64) * 64
                  + bv d mod 64)%N, 4%nat)
            else (rune_error, 1)
        | _ => (rune_error, 1)
        end
      else (rune_error, 1)
  end.

(** A Unicode scalar value. *)
Definition valid_rune (r : N) : bool :=
  (r <? 55296)%N || ((57344 <=? r)%N && (r <=? 1114111)%N).

Definition encode_valid (r : N) : bytes :=
  if (r <? 128)%N then [chr r]
  else if (r <? 2048)%N then [chr (192 + r / 64); chr (128 + r mod 64)]
  else if (r <? 65536)%N then
    [chr (224 + r / 4096); chr (128 + (r / 64) mod 64); chr (128 + r mod 64)]
  else
    [chr (240 + r / 262144); chr (128 + (r / 4096) mod 64);
     chr (128 + (r / 64) mod 64); chr (128 + r mod 64)].

(** [utf8.EncodeRune]: what is not a scalar value is written as U+FFFD. *)
Definition EncodeRune (r : N) : bytes :=
  if valid_rune r then encode_valid r else encode_valid rune_error.

(** The runes of a byte string, each with the bytes it came from. *)
Fixpoint chunks_fuel (fuel : nat) (s : bytes) : list (N * bytes) :=
  match fuel, s with
  | S f, _ :: _ =>
      let '(r, w) := DecodeRune s in (r, take w s) :: chunks_fuel f (drop w s)
  | _, _ => []
  end.

(** Every rune takes at least one byte: [length s] rounds are enough. *)
Definition chunks (s : bytes) : list (N * bytes) := chunks_fuel (length s) s.

(** The UTF-8 text of a list of runes. *)
Definition utf8 (rs : list N) : bytes := concat (map EncodeRune rs).

(** Well-formed UTF-8. *)
Definition valid_utf8 (s : bytes) : Prop :=
  ∃ rs, forallb valid_rune rs = true ∧ s = utf8 rs.

Definition is_ascii (s : bytes) : bool := forallb (λ c, bv c <? 128)%N s.

(** [unicode.IsSpace]; [fmt]'s scanner has the same table. *)
Definition is_space (r : N) : bool :=
  ((9 <=? r)%N && (r <=? 13)%N) || (r =? 32)%N || (r =? 133)%N || (r =? 160)%N
  || (r =? 5760)%N || ((8192 <=? r)%N && (r <=? 8202)%N) || (r =? 8232)%N
  || (r =? 8233)%N || (r =? 8239)%N || (r =? 8287)%N || (r =? 12288)%N.

(** ** Lemmas *)

(** Decide the comparisons of [N] in the goal from the context. *)
Ltac n_tests :=
  repeat match goal with
  | |- context [(?a <? ?b)%N] =>
      first [ replace (a <? b)%N with true by (symmetry; apply N.ltb_lt; dm_lia)
            | replace (a <? b)%N with false by (symmetry; apply N.ltb_ge; dm_lia) ]
  | |- context [(?a <=? ?b)%N] =>
      first [ replace (a <=? b)%N with true by (symmetry; apply N.leb_le; dm_lia)
            | replace (a <=? b)%N with false by (symmetry; apply N.leb_gt; dm_lia) ]
  | |- context [(?a =? ?b)%N] =>
      first [ replace (a =? b)%N with true by (symmetry; apply N.eqb_eq; dm_lia)
            | replace (a =? b)%N with false by (symmetry; apply N.eqb_neq; dm_lia) ]
  end.

Lemma valid_rune_spec r :
  valid_rune r = true ↔ (r < 55296 ∨ 57344 <= r <= 1114111)%N.
Proof.
  unfold valid_rune. rewrite orb_true_iff, andb_true_iff, N.ltb_lt, !N.leb_le. lia.
Qed.

Lemma in_rng_spec lo hi c : in_rng lo hi c = true ↔ (lo <= bv c <= hi)%N.
Proof. unfold in_rng. rewrite andb_true_iff, !N.leb_le. lia. Qed.

Lemma is_cont_chr n : (n < 64)%N → is_cont (chr (128 + n)) = true.
Proof. intros. apply in_rng_spec. rewrite bv_chr; lia. Qed.

Lemma lo3_bound x y : (lo3 x <= y ↔ 128 <= y ∧ (x = 224 → 160 <= y))%N.
Proof. unfold lo3. destruct (N.eqb_spec x 224); lia. Qed.
Lemma hi3_bound x y : (y <= hi3 x ↔ y <= 191 ∧ (x = 237 → y <= 159))%N.
Proof. unfold hi3. destruct (N.eqb_spec x 237); lia. Qed.
Lemma lo4_bound x y : (lo4 x <= y ↔ 128 <= y ∧ (x = 240 → 144 <= y))%N.
Proof. unfold lo4. destruct (N.eqb_spec x 240); lia. Qed.
Lemma hi4_bound x y : (y <= hi4 x ↔ y <= 191 ∧ (x = 244 → y <= 143))%N.
Proof. unfold hi4. destruct (N.eqb_spec x 244); lia. Qed.

(** The payload of a marker byte [k*m + x]. *)
Lemma payload k m x : (x < m)%N → ((k * m + x) mod m = x)%N.
Proof.
  intros H. rewrite N.add_comm, N.Div0.mod_add. by apply N.mod_small.
Qed.

Lemma payload_cont x : (x < 64)%N → ((128 + x) mod 64 = x)%N.
Proof. apply (payload 2). Qed.

Lemma decode_encode_1 r t :
  (r < 128)%N → DecodeRune (chr r :: t) = (r, 1).
Proof. intros H. unfold DecodeRune. rewrite bv_chr by lia. by n_tests. Qed.

Lemma decode_encode_2 r t :
  (128 <= r < 2048)%N →
  DecodeRune (chr (192 + r / 64) :: chr (128 + r mod 64) :: t) = (r, 2).
Proof.
  intros H. unfold DecodeRune. rewrite is_cont_chr, !bv_chr by dm_lia.
  n_tests. cbn [andb]. f_equal. dm_lia.
Qed.

Lemma decode_encode_3 r t :
  (2048 <= r < 55296 ∨ 57344 <= r < 65536)%N →
  DecodeRune (chr (224 + r / 4096) :: chr (128 + (r / 64) mod 64)
              :: chr (128 + r mod 64) :: t) = (r, 3).
Proof.
  intros H. unfold DecodeRune.
  replace (in_rng (lo3 _) _ _) with true.
  2:{ symmetry. apply in_rng_spec. rewrite lo3_bound, hi3_bound, !bv_chr by dm_lia.
      repeat split; intros; dm_lia. }
  rewrite !is_cont_chr, !bv_chr by dm_lia. n_tests. cbn [andb]. f_equal.
  rewrite !payload_cont, (payload 14 16) by dm_lia. dm_lia.
Qed.

Lemma decode_encode_4 r t :
  (65536 <= r <= 1114111)%N →
  DecodeRune (chr (240 + r / 262144) :: chr (128 + (r / 4096) mod 64)
              :: chr (128 + (r / 64) mod 64) :: chr (128 + r mod 64) :: t) = (r, 4).
Proof.
  intros H. unfold DecodeRune.
  replace (in_rng (lo4 _) _ _) with true.
  2:{ symmetry. apply in_rng_spec. rewrite lo4_bound, hi4_bound, !bv_chr by dm_lia.
      repeat split; intros; dm_lia. }
  rewrite !is_cont_chr, !bv_chr by dm_lia. n_tests. cbn [andb]. f_equal.
  rewrite !payload_cont, (payload 30 8) by dm_lia. dm_lia.
Qed.

(** Decoding reads back exactly the rune that was encoded. *)
Lemma DecodeRune_encode r t :
  valid_rune r = true → DecodeRune (EncodeRune r ++ t) = (r, length (EncodeRune r)).
Proof.
  intros Hv. unfold EncodeRune. rewrite Hv. apply valid_rune_spec in Hv.
  unfold encode_valid. repeat case_match; cbn [app length].
  - apply N.ltb_lt in H. by apply decode_encode_1.
  - apply N.ltb_ge in H. apply N.ltb_lt in H0. by apply decode_encode_2.
  - apply N.ltb_ge in H, H0. apply N.ltb_lt in H1. apply decode_encode_3. lia.
  - apply N.ltb_ge in H, H0, H1. apply decode_encode_4. lia.
Qed.

Lemma EncodeRune_nonempty r : EncodeRune r ≠ [].
Proof. unfold EncodeRune, encode_valid. by repeat case_match. Qed.

Lemma EncodeRune_length r : (1 ≤ length (EncodeRune r) ≤ 4)%nat.
Proof. unfold EncodeRune, encode_valid. repeat case_match; cbn; lia. Qed.

Lemma EncodeRune_ascii r : (r < 128)%N → EncodeRune r = [chr r].
Proof.
  intros H. unfold EncodeRune.
  rewrite (proj2 (valid_rune_spec r)) by lia. unfold encode_valid. by n_tests.
Qed.

Lemma utf8_cons r rs : utf8 (r :: rs) = EncodeRune r ++ utf8 rs.
Proof. reflexivity. Qed.

(** The first byte of a multi-byte rune is not ASCII. *)
Lemma EncodeRune_head r :
  (128 <= r)%N → ∃ c t, EncodeRune r = c :: t ∧ (128 <= bv c)%N.
Proof.
  intros H. unfold EncodeRune. destruct (valid_rune r) eqn:Hv.
  - apply valid_rune_spec in Hv. unfold encode_valid. repeat case_match;
    repeat match goal with
    | H : (_ <? _)%N = true |- _ => apply N.ltb_lt in H
    | H : (_ <? _)%N = false |- _ => apply N.ltb_ge in H
    end; [lia|..]; eexists _, _; (split; [done|]); rewrite bv_chr; dm_lia.
  - eexists _, _. split; [reflexivity|]. vm_compute. discriminate.
Qed.

(** No byte of a multi-byte rune is ASCII. *)
Lemma EncodeRune_high r :
  (128 <= r)%N → forallb (λ c, 128 <=? bv c)%N (EncodeRune r) = true.
Proof.
  intros H. unfold EncodeRune. destruct (valid_rune r) eqn:Hv; [|done].
  apply valid_rune_spec in Hv. unfold encode_valid. repeat case_match;
  repeat match goal with
  | H : (_ <? _)%N = true |- _ => apply N.ltb_lt in H
  | H : (_ <? _)%N = false |- _ => apply N.ltb_ge in H
  end; [lia|..]; cbn [forallb]; rewrite !bv_chr by dm_lia; by n_tests.
Qed.

(** The runes of well-formed text are the ones it was made of. *)
Lemma chunks_fuel_utf8 rs f :
  forallb valid_rune rs = true → (length (utf8 rs) ≤ f)%nat →
  chunks_fuel f (utf8 rs) = map (λ r, (r, EncodeRune r)) rs.
Proof.
  revert f. induction rs as [|r rs IH]; intros f Hv Hf; [by destruct f|].
  cbn [forallb] in Hv. apply andb_true_iff in Hv as [Hr Hrs].
  rewrite utf8_cons in *. rewrite length_app in Hf.
  pose proof (EncodeRune_length r). destruct f as [|f]; [lia|].
  pose proof (EncodeRune_nonempty r). cbn [chunks_fuel].
  destruct (EncodeRune r ++ utf8 rs) as [|c t] eqn:E; [by destruct (EncodeRune r)|].
  rewrite <- E, DecodeRune_encode by done. autorewrite with go_rw.
  cbn [map]. rewrite IH by (done || lia). done.
Qed.

Lemma chunks_utf8 rs :
  forallb valid_rune rs = true →
  chunks (utf8 rs) = map (λ r, (r, EncodeRune r)) rs.
Proof. intros. by apply chunks_fuel_utf8. Qed.

Lemma valid_utf8_ascii s : is_ascii s = true → valid_utf8 s.
Proof.
  intros H. exists (map bv s). induction s as [|c s IH]; [done|].
  cbn in H. apply andb_true_iff in H as [Hc Hs]. destruct (IH Hs) as [Hv Hu].
  apply N.ltb_lt in Hc. split.
  - cbn. rewrite (proj2 (valid_rune_spec _)) by lia. done.
  - cbn [map]. rewrite utf8_cons, EncodeRune_ascii, chr_bv by lia. cbn. by rewrite <- Hu.
Qed.

#[export] Hint Resolve valid_utf8_ascii : go.
