(* ===== verification/Json.v ===== *)
(** JSON as Go's [encoding/json] reads and writes it, as far as the program
    relies on it: the scanner's grammar with its nesting limit, string
    quoting with HTML escaping, unquoting with UTF-16 escapes, and the
    rules by which [Unmarshal] fills strings, integers and struct fields.

    A parsed value keeps the source text of numbers and strings, because
    [json.RawMessage] fields and the program's own [UnmarshalJSON] methods
    look at that text. *)
From S2P Require Import Prelude Strconv Utf8.

(** ** Values *)

#[warnings="-register-all"]
Inductive json :=
| JNull
| JBool (b : bool)
| JNum (raw : bytes)
| JStr (raw : bytes)
| JArr (l : list json)
| JObj (l : list (bytes * json)).

Definition quote_char : byte := chr 34.
Definition backslash : byte := chr 92.

(** ** Quoting *)

Definition hex_digit (n : N) : byte := if (n <? 10)%N then chr (48 + n) else chr (87 + n).

(** [appendString] on an ASCII byte, with [escapeHTML] set. *)
Definition quote_ascii (c : byte) : bytes :=
  let n := bv c in
  if (n =? 34)%N || (n =? 92)%N then [backslash; c]
  else if (n =? 8)%N then bs "\b"
  else if (n =? 12)%N then bs "\f"
  else if (n =? 10)%N then bs "\n"
  else if (n =? 13)%N then bs "\r"
  else if (n =? 9)%N then bs "\t"
  else if (n <? 32)%N || (n =? 60)%N || (n =? 62)%N || (n =? 38)%N
  then bs "\u00" ++ [hex_digit (n / 16); hex_digit (n mod 16)]
  else [c].

Definition quote_chunk (ch : N * bytes) : bytes :=
  let '(r, raw) := ch in
  match raw with
  | [c] => if (bv c <? 128)%N then quote_ascii c else bs "\ufffd"
  | _ =>
      if (r =? 8232)%N || (r =? 8233)%N then bs "\u202" ++ [hex_digit (r mod 16)] else raw
  end.

(** The text between the quotes, and the whole literal. *)
Definition quote_body (s : bytes) : bytes := concat (map quote_chunk (chunks s)).
Definition quote (s : bytes) : bytes := quote_char :: quote_body s ++ [quote_char].

(** ** Unquoting *)

Definition hex_val (c : byte) : option N :=
  let n := bv c in
  if (48 <=? n)%N && (n <=? 57)%N then Some (n - 48)%N
  else if (97 <=? n)%N && (n <=? 102)%N then Some (n - 87)%N
  else if (65 <=? n)%N && (n <=? 70)%N then Some (n - 55)%N
  else None.

(** [getu4]: the code unit of a \uXXXX escape at the start of [s]. *)
Definition getu4 (s : bytes) : option N :=
  match s with
  | b :: u :: h3 :: h2 :: h1 :: h0 :: _ =>
      if (b =b backslash) && (u =b "u"%char) then
        a3 ← hex_val h3; a2 ← hex_val h2; a1 ← hex_val h1; a0 ← hex_val h0;
        Some (((a3 * 16 + a2) * 16 + a1) * 16 + a0)%N
      else None
  | _ => None
  end.

Definition is_surrogate (r : N) : bool := (55296 <=? r)%N && (r <? 57344)%N.

(** [utf16.DecodeRune] on a first code unit and, if there is one, a second. *)
Definition utf16_decode (r1 : N) (r2 : option N) : N :=
  match r2 with
  | Some x =>
      if ((55296 <=? r1) && (r1 <? 56320))%N && ((56320 <=? x) && (x <? 57344))%N
      then ((r1 - 55296) * 1024 + (x - 56320) + 65536)%N
      else rune_error
  | None => rune_error
  end.

Definition simple_escape (c : byte) : option byte :=
  let n := bv c in
  if (n =? 34)%N || (n =? 92)%N || (n =? 47)%N || (n =? 39)%N then Some c
  else if (n =? 98)%N then Some (chr 8)
  else if (n =? 102)%N then Some (chr 12)
  else if (n =? 110)%N then Some (chr 10)
  else if (n =? 114)%N then Some (chr 13)
  else if (n =? 116)%N then Some (chr 9)
  else None.

(** [unquoteBytes], between the quotes. *)
Fixpoint unquote_fuel (fuel : nat) (s : bytes) : option bytes :=
  match fuel, s with
  | _, [] => Some []
  | O, _ => None
  | S f, c :: r =>
      if c =b backslash then
        match r with
        | [] => None
        | d :: r2 =>
            if d =b "u"%char then
              rr ← getu4 s;
              let t := drop 4 r2 in
              if is_surrogate rr then
                let dec := utf16_decode rr (getu4 t) in
                if (dec =? rune_error)%N
                then app (EncodeRune rune_error) <$> unquote_fuel f t
                else app (EncodeRune dec) <$> unquote_fuel f (drop 6 t)
              else app (EncodeRune rr) <$> unquote_fuel f t
            else e ← simple_escape d; cons e <$> unquote_fuel f r2
        end
      else if (c =b quote_char) || (bv c <? 32)%N then None
      else if (bv c <? 128)%N then cons c <$> unquote_fuel f r
      else let '(rr, w) := DecodeRune s in
           app (EncodeRune rr) <$> unquote_fuel f (drop w s)
  end.

Definition unquote (s : bytes) : option bytes := unquote_fuel (length s) s.

(** ** The scanner *)

Definition is_ws (c : byte) : bool :=
  let n := bv c in (n =? 32)%N || (n =? 9)%N || (n =? 10)%N || (n =? 13)%N.

Fixpoint skip_ws (s : bytes) : bytes :=
  match s with
  | c :: r => if is_ws c then skip_ws r else s
  | [] => []
  end.

Definition is_hex (c : byte) : bool := if hex_val c is Some _ then true else false.

(** Escapes the scanner accepts after a backslash, other than [u]. *)
Definition scan_escape (c : byte) : bool :=
  negb (c =b "'"%char) && (if simple_escape c is Some _ then true else false).

(** After an opening quote: the raw text and what follows the closing quote. *)
Fixpoint scan_str (s : bytes) : option (bytes * bytes) :=
  match s with
  | [] => None
  | c :: r =>
      if c =b quote_char then Some ([], r)
      else if c =b backslash then
        match r with
        | [] => None
        | d :: r2 =>
            if d =b "u"%char then
              match r2 with
              | h3 :: h2 :: h1 :: h0 :: r3 =>
                  if is_hex h3 && is_hex h2 && is_hex h1 && is_hex h0 then
                    '(raw, t) ← scan_str r3;
                    Some (c :: d :: h3 :: h2 :: h1 :: h0 :: raw, t)
                  else None
              | _ => None
              end
            else if scan_escape d then
              '(raw, t) ← scan_str r2; Some (c :: d :: raw, t)
            else None
        end
      else if (bv c <? 32)%N then None
      else '(raw, t) ← scan_str r; Some (c :: raw, t)
  end.

Definition is_exp (c : byte) : bool := (c =b "e"%char) || (c =b "E"%char).
Definition is_sign (c : byte) : bool := (c =b "+"%char) || (c =b "-"%char).

(** At least one digit. *)
Definition scan_digits (s : bytes) : option (bytes * bytes) :=
  match span is_digit s with
  | ([], _) => None
  | (ds, t) => Some (ds, t)
  end.

Definition scan_int_part (s : bytes) : option (bytes * bytes) :=
  match s with
  | c :: r => if c =b "0"%char then Some ([c], r) else scan_digits s
  | [] => None
  end.

Definition scan_frac (s : bytes) : option (bytes * bytes) :=
  match s with
  | c :: r =>
      if c =b "."%char then '(ds, t) ← scan_digits r; Some (c :: ds, t) else Some ([], s)
  | [] => Some ([], [])
  end.

Definition scan_exp (s : bytes) : option (bytes * bytes) :=
  match s with
  | c :: r =>
      if is_exp c then
        match r with
        | d :: r2 =>
            if is_sign d then '(ds, t) ← scan_digits r2; Some (c :: d :: ds, t)
            else '(ds, t) ← scan_digits r; Some (c :: ds, t)
        | [] => None
        end
      else Some ([], s)
  | [] => Some ([], [])
  end.

Definition scan_unsigned (s : bytes) : option (bytes * bytes) :=
  '(i, t1) ← scan_int_part s;
  '(f, t2) ← scan_frac t1;
  '(e, t3) ← scan_exp t2;
  Some (i ++ f ++ e, t3).

Definition scan_num (s : bytes) : option (bytes * bytes) :=
  match s with
  | c :: r =>
      if c =b "-"%char then '(u, t) ← scan_unsigned r; Some (c :: u, t)
      else scan_unsigned s
  | [] => None
  end.

Fixpoint strip_prefix (p s : bytes) : option bytes :=
  match p, s with
  | [], _ => Some s
  | a :: p', b :: s' => if a =b b then strip_prefix p' s' else None
  | _ :: _, [] => None
  end.

(** [maxNestingDepth]. *)
Definition max_depth : N := 10000.

Fixpoint p_value (fuel : nat) (depth : N) (s : bytes) {struct fuel}
    : option (json * bytes) :=
  match fuel with
  | O => None
  | S f =>
      match skip_ws s with
      | [] => None
      | c :: r =>
          if c =b quote_char then '(raw, t) ← scan_str r; Some (JStr raw, t)
          else if c =b "["%char then
            if (depth <? max_depth)%N then
              match skip_ws r with
              | [] => None
              | d :: t =>
                  if d =b "]"%char then Some (JArr [], t)
                  else '(l, u) ← p_elems f (depth + 1)%N r; Some (JArr l, u)
              end
            else None
          else if c =b "{"%char then
            if (depth <? max_depth)%N then
              match skip_ws r with
              | [] => None
              | d :: t =>
                  if d =b "}"%char then Some (JObj [], t)
                  else '(l, u) ← p_members f (depth + 1)%N r; Some (JObj l, u)
              end
            else None
          else if c =b "t"%char then t ← strip_prefix (bs "rue") r; Some (JBool true, t)
          else if c =b "f"%char then t ← strip_prefix (bs "alse") r; Some (JBool false, t)
          else if c =b "n"%char then t ← strip_prefix (bs "ull") r; Some (JNull, t)
          else '(raw, t) ← scan_num (c :: r); Some (JNum raw, t)
      end
  end
with p_elems (fuel : nat) (depth : N) (s : bytes) {struct fuel}
    : option (list json * bytes) :=
  match fuel with
  | O => None
  | S f =>
      '(v, t) ← p_value f depth s;
      match skip_ws t with
      | [] => None
      | c :: u =>
          if c =b ","%char then '(l, w) ← p_elems f depth u; Some (v :: l, w)
          else if c =b "]"%char then Some ([v], u)
          else None
      end
  end
with p_members (fuel : nat) (depth : N) (s : bytes) {struct fuel}
    : option (list (bytes * json) * bytes) :=
  match fuel with
  | O => None
  | S f =>
      match skip_ws s with
      | [] => None
      | q :: r =>
          if q =b quote_char then
            '(k, t) ← scan_str r;
            match skip_ws t with
            | [] => None
            | d :: t2 =>
                if d =b ":"%char then
                  '(v, t3) ← p_value f depth t2;
                  match skip_ws t3 with
                  | [] => None
                  | c :: u =>
                      if c =b ","%char
                      then '(l, w) ← p_members f depth u; Some ((k, v) :: l, w)
                      else if c =b "}"%char then Some ([(k, v)], u)
                      else None
                  end
                else None
            end
          else None
      end
  end.

(** Each byte is behind at most two nested calls. *)
Definition parse_fuel (s : bytes) : nat := 2 * length s + 2.

(** A complete JSON text. *)
Definition parse (s : bytes) : option json :=
  '(v, t) ← p_value (parse_fuel s) 0 s;
  match skip_ws t with [] => Some v | _ => None end.

(** ** Writing *)

Fixpoint commas (l : list bytes) : bytes :=
  match l with
  | [] => []
  | [x] => x
  | x :: r => x ++ ","%char :: commas r
  end.

(** The text of a raw string literal. *)
Definition in_quotes (raw : bytes) : bytes := quote_char :: raw ++ [quote_char].

Fixpoint render (v : json) : bytes :=
  match v with
  | JNull => bs "null"
  | JBool b => if b then bs "true" else bs "false"
  | JNum raw => raw
  | JStr raw => in_quotes raw
  | JArr l => "["%char :: commas (map render l) ++ ["]"%char]
  | JObj l =>
      "{"%char :: commas (map (λ '(k, x), in_quotes k ++ ":"%char :: render x) l)
      ++ ["}"%char]
  end.

(** The Go values the program marshals. *)
Definition jstring (s : bytes) : json := JStr (quote_body s).
Definition jint (z : Z) : json := JNum (format_int z).

(** ** Filling Go values

    [None] is any error; on error the program discards the target. *)

(** Into a [string] that holds [old]: [null] leaves it alone. *)
Definition into_string (old : bytes) (v : json) : option bytes :=
  match v with
  | JNull => Some old
  | JStr raw => unquote raw
  | _ => None
  end.

(** Into an [int] or [int64] that holds [old]. *)
Definition into_int (old : Z) (v : json) : option Z :=
  match v with
  | JNull => Some old
  | JNum raw => match ParseInt raw with inr z => Some z | inl _ => None end
  | _ => None
  end.

(** [foldName]: struct fields are matched without regard to case.  The two
    non-ASCII runes whose simple folding is an ASCII letter are U+017F
    (long s) and U+212A (Kelvin sign). *)
Definition fold_rune (r : N) : N :=
  if (97 <=? r)%N && (r <=? 122)%N then (r - 32)%N
  else if (r =? 383)%N then 83%N
  else if (r =? 8490)%N then 75%N
  else r.

Definition fold_name (s : bytes) : list N := map (λ ch, fold_rune ch.1) (chunks s).

(** The field a key selects: an exact match first, then a folded one. *)
Definition find_field (names : list bytes) (key : bytes) : option bytes :=
  match list_find (λ n, n = key) names with
  | Some (_, n) => Some n
  | None =>
      match list_find (λ n, fold_name n = fold_name key) names with
      | Some (_, n) => Some n
      | None => None
      end
  end.
