(* ===== verification/JsonFacts.v ===== *)
(** Facts about the JSON codec: a quoted string scans back to its raw text
    and unquotes to the string it came from, and rendering a value in the
    compact form and parsing it gives the value back, with the fuel
    [Json.parse] uses. *)
From S2P Require Import Prelude Strconv Utf8 Json.

(** ** Scanning what [quote_body] wrote *)

(** A piece of raw text that the scanner passes over whole. *)
Definition raw_piece (b : bytes) : Prop :=
  ∀ x, scan_str (b ++ x) = ('(raw, t) ← scan_str x; Some (b ++ raw, t)).

Lemma raw_piece_nil : raw_piece [].
Proof. intros x. cbn. by destruct (scan_str x) as [[]|]. Qed.

Lemma raw_piece_app a b : raw_piece a → raw_piece b → raw_piece (a ++ b).
Proof.
  intros Ha Hb x. rewrite <- app_assoc, Ha, Hb.
  destruct (scan_str x) as [[]|]; cbn; by rewrite <- ?app_assoc.
Qed.

Lemma raw_piece_concat l : Forall raw_piece l → raw_piece (concat l).
Proof. induction 1; cbn; [apply raw_piece_nil | by apply raw_piece_app]. Qed.

(** A byte that needs no escape. *)
Definition plain (c : byte) : bool :=
  negb (c =b quote_char) && negb (c =b backslash) && negb (bv c <? 32)%N.

Lemma raw_piece_plain c : plain c = true → raw_piece [c].
Proof.
  unfold plain. rewrite !andb_true_iff, !negb_true_iff. intros [[H1 H2] H3] x.
  cbn. by rewrite H1, H2, H3.
Qed.

Lemma raw_piece_all_plain l : forallb plain l = true → raw_piece l.
Proof.
  induction l as [|c l IH]; cbn; [intros; apply raw_piece_nil|].
  intros [Hc Hl]%andb_true_iff. apply (raw_piece_app [c]); auto using raw_piece_plain.
Qed.

Lemma raw_piece_quote_ascii c : (bv c < 128)%N → raw_piece (quote_ascii c).
Proof.
  intros _ x. destruct c as [[] [] [] [] [] [] [] []]; reflexivity.
Qed.

Lemma high_plain c : (128 <=? bv c)%N = true → plain c = true.
Proof. apply (forall_byte_impl (λ c, 128 <=? bv c)%N plain). reflexivity. Qed.

Lemma raw_piece_encode r : (128 <= r)%N → raw_piece (EncodeRune r).
Proof.
  intros Hr. apply raw_piece_all_plain. pose proof (EncodeRune_high r Hr) as H.
  rewrite forallb_forall in *. intros c Hc. by apply high_plain, H.
Qed.

(** The chunk of a rune of well-formed text. *)
Lemma quote_chunk_encode r :
  valid_rune r = true →
  quote_chunk (r, EncodeRune r) =
  (if (r <? 128)%N then quote_ascii (chr r)
   else if (r =? 8232)%N || (r =? 8233)%N then bs "\u202" ++ [hex_digit (r mod 16)]
   else EncodeRune r).
Proof.
  intros Hv. destruct (N.ltb_spec r 128).
  - rewrite EncodeRune_ascii by done. unfold quote_chunk. rewrite bv_chr by lia. by n_tests.
  - unfold quote_chunk, EncodeRune. rewrite Hv. unfold encode_valid.
    apply valid_rune_spec in Hv. n_tests. by repeat case_match.
Qed.

Lemma raw_piece_quote_chunk r :
  valid_rune r = true → raw_piece (quote_chunk (r, EncodeRune r)).
Proof.
  intros Hv. rewrite quote_chunk_encode by done. destruct (N.ltb_spec r 128).
  - apply raw_piece_quote_ascii. rewrite bv_chr; lia.
  - destruct (_ || _) eqn:E; [|by apply raw_piece_encode].
    apply orb_true_iff in E as [E|E]; apply N.eqb_eq in E; subst; intros x; reflexivity.
Qed.

Lemma quote_body_utf8 rs :
  forallb valid_rune rs = true →
  quote_body (utf8 rs) = concat (map (λ r, quote_chunk (r, EncodeRune r)) rs).
Proof. intros H. unfold quote_body. by rewrite chunks_utf8, map_map. Qed.

Lemma raw_piece_quote_body s : valid_utf8 s → raw_piece (quote_body s).
Proof.
  intros (rs & Hv & ->). rewrite quote_body_utf8 by done. apply raw_piece_concat.
  rewrite Forall_map. rewrite forallb_forall in Hv.
  apply Forall_forall. intros r Hr. apply raw_piece_quote_chunk, Hv.
  by apply list_elem_of_In.
Qed.

(** Raw text that a closing quote ends. *)
Definition raw_ok (raw : bytes) : Prop :=
  ∀ x, scan_str (raw ++ quote_char :: x) = Some (raw, x).

Lemma raw_piece_ok b : raw_piece b → raw_ok b.
Proof.
  intros H x. rewrite H. change (scan_str (quote_char :: x)) with (Some ([] : bytes, x)).
  cbn. by rewrite app_nil_r.
Qed.

Lemma raw_ok_quote_body s : valid_utf8 s → raw_ok (quote_body s).
Proof. intros. by apply raw_piece_ok, raw_piece_quote_body. Qed.

(** ** Unquoting what [quote_body] wrote *)

(** A piece of raw text that unquotes to [out] in one round. *)
Definition unq_piece (b out : bytes) : Prop :=
  ∀ f x, unquote_fuel (S f) (b ++ x) = app out <$> unquote_fuel f x.

Lemma unq_piece_ascii c : (bv c < 128)%N → unq_piece (quote_ascii c) [c].
Proof.
  intros H f x. destruct c as [[] [] [] [] [] [] [] []];
    first [ reflexivity | vm_compute in H; discriminate H ].
Qed.

Lemma unq_piece_encode r :
  valid_rune r = true → (128 <= r)%N → unq_piece (EncodeRune r) (EncodeRune r).
Proof.
  intros Hv Hr f x. destruct (EncodeRune_head r Hr) as (c & t & E & Hc).
  pose proof (high_plain c) as Hp. lapply Hp; [|by apply N.leb_le].
  unfold plain. rewrite !andb_true_iff, !negb_true_iff. intros [[H1 H2] H3].
  pose proof (DecodeRune_encode r x Hv) as Hd. rewrite E in *.
  cbn [app] in *. cbn [unquote_fuel]. rewrite Hd, H1, H2, H3.
  replace (bv c <? 128)%N with false by (symmetry; apply N.ltb_ge; lia).
  cbn [orb]. change (c :: t ++ x) with ((c :: t) ++ x).
  by rewrite drop_app_exact, E.
Qed.

Lemma unq_piece_chunk r :
  valid_rune r = true → unq_piece (quote_chunk (r, EncodeRune r)) (EncodeRune r).
Proof.
  intros Hv. rewrite quote_chunk_encode by done. destruct (N.ltb_spec r 128).
  - rewrite EncodeRune_ascii by done. apply unq_piece_ascii. rewrite bv_chr; lia.
  - destruct (_ || _) eqn:E; [|by apply unq_piece_encode].
    apply orb_true_iff in E as [E|E]; apply N.eqb_eq in E; subst; intros f x; reflexivity.
Qed.

Lemma unquote_pieces rs f :
  forallb valid_rune rs = true → (length rs ≤ f)%nat →
  unquote_fuel f (concat (map (λ r, quote_chunk (r, EncodeRune r)) rs)) = Some (utf8 rs).
Proof.
  revert f. induction rs as [|r rs IH]; intros f Hv Hf; [by destruct f|].
  cbn [forallb] in Hv. apply andb_true_iff in Hv as [Hr Hrs].
  destruct f as [|f]; [cbn in Hf; lia|]. cbn [map concat].
  rewrite (unq_piece_chunk r Hr), IH by (cbn in *; done || lia). done.
Qed.

Lemma quote_chunk_nonempty r : valid_rune r = true → quote_chunk (r, EncodeRune r) ≠ [].
Proof.
  intros Hv E. pose proof (unq_piece_chunk r Hv 0 []) as H. rewrite E in H. cbn in H.
  injection H as H. pose proof (EncodeRune_length r). rewrite app_nil_r in H.
  rewrite <- H in *. cbn in *. lia.
Qed.

Lemma length_quote_pieces rs :
  forallb valid_rune rs = true →
  (length rs ≤ length (concat (map (λ r, quote_chunk (r, EncodeRune r)) rs)))%nat.
Proof.
  induction rs as [|r rs IH]; [done|]. cbn [forallb map concat length].
  intros [Hr Hrs]%andb_true_iff. rewrite length_app. specialize (IH Hrs).
  pose proof (quote_chunk_nonempty r Hr). destruct (quote_chunk _); [done|]. cbn [length]. lia.
Qed.

(** Quoting then unquoting is the identity on well-formed UTF-8. *)
Lemma unquote_quote_body s : valid_utf8 s → unquote (quote_body s) = Some s.
Proof.
  intros (rs & Hv & ->). rewrite quote_body_utf8 by done. unfold unquote.
  apply unquote_pieces; [done | by apply length_quote_pieces].
Qed.

(** ** Rendering then parsing *)

Section json_ind'.
Context (P : json → Prop).
Context (Hnull : P JNull) (Hbool : ∀ b, P (JBool b)) (Hnum : ∀ r, P (JNum r)).
Context (Hstr : ∀ r, P (JStr r)).
Context (Harr : ∀ l, Forall P l → P (JArr l)).
Context (Hobj : ∀ l, Forall (λ kx, P kx.2) l → P (JObj l)).

(** Induction on a value with the hypothesis for every nested value. *)
Fixpoint json_ind' (v : json) : P v :=
  match v with
  | JNull => Hnull
  | JBool b => Hbool b
  | JNum r => Hnum r
  | JStr r => Hstr r
  | JArr l =>
      Harr l ((fix go l : Forall P l :=
        match l with
        | [] => Forall_nil_2 P
        | x :: r => Forall_cons_2 P x r (json_ind' x) (go r)
        end) l)
  | JObj l =>
      Hobj l ((fix go l : Forall (λ kx, P kx.2) l :=
        match l with
        | [] => Forall_nil_2 _
        | (k, x) :: r => Forall_cons_2 (λ kx, P kx.2) (k, x) r (json_ind' x) (go r)
        end) l)
  end.
End json_ind'.

(** What may follow a number without being taken for part of it. *)
Definition num_stop (rest : bytes) : Prop :=
  match rest with
  | [] => True
  | c :: _ => is_digit c = false ∧ (c =b "."%char) = false ∧ is_exp c = false
  end.

Definition num_head (c : byte) : bool := is_digit c || (c =b "-"%char).

Definition num_ok (raw : bytes) : Prop :=
  (∃ c r, raw = c :: r ∧ num_head c = true)
  ∧ ∀ rest, num_stop rest → scan_num (raw ++ rest) = Some (raw, rest).

Fixpoint wf_json (v : json) : Prop :=
  match v with
  | JNull | JBool _ => True
  | JNum raw => num_ok raw
  | JStr raw => raw_ok raw
  | JArr l => foldr (λ x p, wf_json x ∧ p) True l
  | JObj l => foldr (λ '(k, x) p, (raw_ok k ∧ wf_json x) ∧ p) True l
  end.

Fixpoint jsize (v : json) : nat :=
  match v with
  | JArr l => S (foldr (λ x n, S (jsize x) + n) 0 l)
  | JObj l => S (foldr (λ '(_, x) n, S (jsize x) + n) 0 l)
  | _ => 1
  end.

Fixpoint jdepth (v : json) : N :=
  match v with
  | JArr l => 1 + foldr (λ x n, N.max (jdepth x) n) 0 l
  | JObj l => 1 + foldr (λ '(_, x) n, N.max (jdepth x) n) 0 l
  | _ => 0
  end%N.

Lemma scan_digits_block ds rest :
  forallb is_digit ds = true → ds ≠ [] → num_stop rest →
  scan_digits (ds ++ rest) = Some (ds, rest).
Proof.
  intros Hd Hn Hr. unfold scan_digits. rewrite span_block; [|done|].
  - by destruct ds.
  - intros c r' ->. apply Hr.
Qed.

Lemma scan_tail_stop rest :
  num_stop rest → scan_frac rest = Some ([], rest) ∧ scan_exp rest = Some ([], rest).
Proof. destruct rest as [|c r]; [done|]. intros (_ & H2 & H3). cbn. by rewrite H2, H3. Qed.

Lemma scan_int_part_format n rest :
  (∀ c r, rest = c :: r → is_digit c = false) →
  scan_int_part (format_uint n ++ rest) = Some (format_uint n, rest).
Proof.
  intros Hr. destruct (decide (n = 0%N)) as [->|Hn].
  - change (format_uint 0) with [chr 48]. destruct rest; reflexivity.
  - destruct (format_uint_head n Hn) as (c & r & E & Hb).
    pose proof (format_uint_digits n) as Hd. rewrite E in *. cbn [app scan_int_part].
    rewrite bool_decide_false by (intros ->; destruct Hb as [Hb _]; by apply Hb).
    change (c :: r ++ rest) with ((c :: r) ++ rest). unfold scan_digits.
    by rewrite span_block.
Qed.

Lemma scan_unsigned_format n rest :
  num_stop rest → scan_unsigned (format_uint n ++ rest) = Some (format_uint n, rest).
Proof.
  intros Hr. destruct (scan_tail_stop rest Hr) as [Hf He].
  unfold scan_unsigned. rewrite scan_int_part_format by (intros c r ->; apply Hr).
  cbn. rewrite Hf. cbn. rewrite He. cbn. by rewrite app_nil_r.
Qed.

(** A number with decimals. *)
Lemma scan_unsigned_decimal n f rest :
  forallb is_digit f = true → f ≠ [] → num_stop rest →
  scan_unsigned (format_uint n ++ "."%char :: f ++ rest) = Some (format_uint n ++ "."%char :: f, rest).
Proof.
  intros Hf Hne Hr. destruct (scan_tail_stop rest Hr) as [_ He].
  unfold scan_unsigned. rewrite scan_int_part_format by by intros c r [= <- _].
  cbn [mbind option_bind scan_frac]. rewrite bool_decide_true by done.
  rewrite scan_digits_block by done. cbn [mbind option_bind]. rewrite He. cbn.
  by rewrite app_nil_r.
Qed.

(** A literal is a number if its digits scan, with or without a sign. *)
Lemma num_ok_unsigned (neg : bool) n f :
  (∀ rest, num_stop rest → scan_unsigned (format_uint n ++ f ++ rest) = Some (format_uint n ++ f, rest)) →
  num_ok ((if neg then bs "-" else []) ++ format_uint n ++ f).
Proof.
  intros Hs. pose proof (format_uint_digits n) as Hd. pose proof (format_uint_nonempty n) as Hn.
  destruct neg.
  - split; [by eexists _, _|]. intros rest Hr. specialize (Hs rest Hr).
    set (u := format_uint n) in *. clearbody u. change (bs "-") with ["-"%char]. cbn [app].
    unfold scan_num. rewrite bool_decide_true, <- app_assoc, Hs by done. done.
  - cbn [app]. destruct (format_uint n) as [|c r] eqn:E; [done|].
    cbn in Hd. apply andb_true_iff in Hd as [Hc _]. split.
    + exists c, (r ++ f). split; [done|]. unfold num_head. by rewrite Hc.
    + intros rest Hr. apply digit_not_sign in Hc as [_ Hc]. specialize (Hs rest Hr).
      rewrite <- app_assoc. cbn [app scan_num] in *. by rewrite bool_decide_false.
Qed.

Lemma num_ok_int z : num_ok (format_int z).
Proof.
  unfold format_int. set (n := if (z <? 0)%Z then _ else _).
  assert (∀ k, num_ok ((if (z <? 0)%Z then bs "-" else []) ++ format_uint k ++ [])) as H.
  { intros k. apply num_ok_unsigned. intros rest Hr. rewrite app_nil_r. by apply scan_unsigned_format. }
  unfold n. destruct (z <? 0)%Z; [specialize (H (Z.to_N (- z))) | specialize (H (Z.to_N z))];
    by rewrite app_nil_r in H.
Qed.

(** A byte that can begin a rendered value. *)
Definition value_head (c : byte) : bool :=
  num_head c || (c =b quote_char) || (c =b "["%char) || (c =b "{"%char)
  || (c =b "t"%char) || (c =b "f"%char) || (c =b "n"%char).

Lemma value_head_not c :
  value_head c = true → is_ws c = false ∧ (c =b "]"%char) = false ∧ (c =b "}"%char) = false.
Proof.
  intros H.
  assert (negb (is_ws c) && negb (c =b "]"%char) && negb (c =b "}"%char) = true) as Hn.
  { revert c H. apply forall_byte_impl. reflexivity. }
  rewrite !andb_true_iff, !negb_true_iff in Hn. tauto.
Qed.

(** A number's first byte selects the last branch of the value parser. *)
Lemma num_head_not c :
  num_head c = true →
  (c =b quote_char) = false ∧ (c =b "["%char) = false ∧ (c =b "{"%char) = false
  ∧ (c =b "t"%char) = false ∧ (c =b "f"%char) = false ∧ (c =b "n"%char) = false.
Proof.
  intros H.
  assert (negb (c =b quote_char) && negb (c =b "["%char) && negb (c =b "{"%char)
          && negb (c =b "t"%char) && negb (c =b "f"%char) && negb (c =b "n"%char) = true) as Hn.
  { revert c H. apply forall_byte_impl. reflexivity. }
  rewrite !andb_true_iff, !negb_true_iff in Hn. tauto.
Qed.

Lemma render_head v : wf_json v → ∃ c r, render v = c :: r ∧ value_head c = true.
Proof.
  destruct v as [|[]|raw|raw|l|l]; cbn [wf_json render]; intros H;
    try (eexists _, _; split; reflexivity).
  destruct H as [(c & r & -> & Hc) _]. exists c, r. split; [done|].
  unfold value_head. by rewrite Hc.
Qed.

Lemma skip_ws_head c r : is_ws c = false → skip_ws (c :: r) = c :: r.
Proof. intros H. cbn. by rewrite H. Qed.

Lemma skip_ws_render v t : wf_json v → skip_ws (render v ++ t) = render v ++ t.
Proof.
  intros H. destruct (render_head v H) as (c & r & -> & Hc).
  by apply skip_ws_head, value_head_not.
Qed.

(** What the induction hypothesis gives for one value. *)
Definition parses (v : json) : Prop :=
  ∀ f depth rest, (jsize v ≤ f)%nat → (depth + jdepth v <= max_depth)%N → num_stop rest →
  p_value f depth (render v ++ rest) = Some (v, rest).

Lemma num_stop_lit c r : negb (is_digit c || (c =b "."%char) || is_exp c) = true → num_stop (c :: r).
Proof. rewrite negb_true_iff, !orb_false_iff. cbn. tauto. Qed.

Ltac stop := first [ by apply num_stop_lit | done | cbn [foldr]; lia ].

Lemma commas_cons x y r : commas (x :: y :: r) = x ++ ","%char :: commas (y :: r).
Proof. reflexivity. Qed.

Lemma p_elems_render v l f depth rest :
  Forall wf_json (v :: l) → Forall parses (v :: l) →
  (foldr (λ x n, S (jsize x) + n) 0 (v :: l) ≤ f)%nat →
  (depth + foldr (λ x n, N.max (jdepth x) n) 0 (v :: l) <= max_depth)%N →
  p_elems f depth (commas (map render (v :: l)) ++ "]"%char :: rest) = Some (v :: l, rest).
Proof.
  revert v f. induction l as [|w l IH]; intros v f Hwf Hp Hf Hd;
    apply Forall_cons in Hp as [Hv Hp]; apply Forall_cons in Hwf as [Hw Hwf];
    cbn [foldr] in Hf, Hd; (destruct f as [|f]; [lia|]); cbn [p_elems].
  - cbn [map commas]. rewrite Hv by stop. reflexivity.
  - cbn [map]. rewrite commas_cons.
    change (render w :: map render l) with (map render (w :: l)).
    rewrite <- app_assoc. cbn [app]. rewrite Hv by stop.
    cbn [mbind option_bind]. rewrite skip_ws_head by done. rewrite bool_decide_true by done.
    rewrite IH by stop. reflexivity.
Qed.

Lemma p_members_render k v l f depth rest :
  Forall (λ '(k, x), raw_ok k ∧ wf_json x) ((k, v) :: l) →
  Forall (λ kx, parses kx.2) ((k, v) :: l) →
  (foldr (λ '(_, x) n, S (jsize x) + n) 0 ((k, v) :: l) ≤ f)%nat →
  (depth + foldr (λ '(_, x) n, N.max (jdepth x) n) 0 ((k, v) :: l) <= max_depth)%N →
  p_members f depth
    (commas (map (λ '(k, x), in_quotes k ++ ":"%char :: render x) ((k, v) :: l))
     ++ "}"%char :: rest)
  = Some ((k, v) :: l, rest).
Proof.
  revert k v f. induction l as [|[k' w] l IH]; intros k v f Hwf Hp Hf Hd;
    apply Forall_cons in Hp as [Hv Hp]; apply Forall_cons in Hwf as [[Hk Hw] Hwf];
    cbn [foldr snd] in Hf, Hd, Hv; (destruct f as [|f]; [lia|]); cbn [p_members].
  - cbn [map commas]. unfold in_quotes. rewrite <- !app_assoc. cbn [app].
    rewrite skip_ws_head by done. rewrite bool_decide_true by done.
    rewrite <- app_assoc. cbn [app]. rewrite Hk. cbn [mbind option_bind].
    rewrite skip_ws_head by done. rewrite bool_decide_true by done.
    rewrite Hv by stop. reflexivity.
  - set (rd := λ '(k, x), in_quotes k ++ ":"%char :: render x) in *. cbn [map]. rewrite commas_cons.
    change (rd (k', w) :: map rd l) with (map rd ((k', w) :: l)).
    change (rd (k, v)) with (in_quotes k ++ ":"%char :: render v). unfold in_quotes.
    rewrite <- !app_assoc. cbn [app].
    rewrite skip_ws_head by done. rewrite bool_decide_true by done.
    rewrite <- !app_assoc. cbn [app]. rewrite Hk. cbn [mbind option_bind].
    rewrite skip_ws_head by done. rewrite bool_decide_true by done.
    rewrite Hv by stop. cbn [mbind option_bind].
    rewrite skip_ws_head by done. rewrite bool_decide_true by done.
    rewrite IH by stop. reflexivity.
Qed.

Lemma foldr_and_Forall {A} (P : A → Prop) l : foldr (λ x p, P x ∧ p) True l → Forall P l.
Proof. induction l; cbn; [constructor|]. intros []. constructor; auto. Qed.

Lemma wf_members l :
  foldr (λ '(k, x) p, (raw_ok k ∧ wf_json x) ∧ p) True l →
  Forall (λ '(k, x), raw_ok k ∧ wf_json x) l.
Proof. induction l as [|[]]; cbn; [constructor|]. intros []. constructor; auto. Qed.

Lemma Forall_mp {A} (P Q : A → Prop) l : Forall (λ x, P x → Q x) l → Forall P l → Forall Q l.
Proof. induction 1; intros Hp; [constructor|]. apply Forall_cons in Hp as []. auto. Qed.

Lemma depth_ok depth n : (depth + (1 + n) <= max_depth)%N → (depth <? max_depth)%N = true.
Proof. intros. apply N.ltb_lt. lia. Qed.

Lemma parses_num raw : num_ok raw → parses (JNum raw).
Proof.
  intros [(c & r & E & Hc) Hs] f depth rest Hf Hd Hr. destruct f as [|f]; [cbn in Hf; lia|].
  cbn [p_value render]. destruct (num_head_not c Hc) as (H1 & H2 & H3 & H4 & H5 & H6).
  specialize (Hs rest Hr). rewrite E in *. cbn [app] in *.
  rewrite skip_ws_head by (apply value_head_not; unfold value_head; by rewrite Hc).
  rewrite H1, H2, H3, H4, H5, H6. by rewrite Hs.
Qed.

Lemma parses_str raw : raw_ok raw → parses (JStr raw).
Proof.
  intros Hwf f depth rest Hf Hd Hr. destruct f as [|f]; [cbn in Hf; lia|].
  cbn [p_value render]. unfold in_quotes. cbn [app]. rewrite skip_ws_head by done.
  rewrite bool_decide_true by done. rewrite <- app_assoc. cbn [app]. by rewrite Hwf.
Qed.

Lemma commas_head l x rest c r :
  x = c :: r → ∃ t, commas (x :: l) ++ rest = c :: t.
Proof. intros ->. destruct l; rewrite ?commas_cons; eexists; reflexivity. Qed.

Lemma parses_arr l : Forall wf_json l → Forall parses l → parses (JArr l).
Proof.
  intros Hwf Hp f depth rest Hf Hd Hr. destruct f as [|f]; [cbn in Hf; lia|].
  cbn [p_value render jsize jdepth] in *. cbn [app]. rewrite <- app_assoc. cbn [app].
  rewrite skip_ws_head by done. decide_bool. rewrite (depth_ok _ _ Hd).
  destruct l as [|x l]; [reflexivity|].
  pose proof (p_elems_render x l f (depth + 1) rest Hwf Hp) as He.
  apply Forall_cons in Hwf as [Hx _].
  destruct (render_head x Hx) as (c & r & Ec & Hc).
  destruct (value_head_not c Hc) as (Hw & Hb & _).
  cbn [map] in *. destruct (commas_head (map render l) _ ("]"%char :: rest) c r Ec) as [t Et].
  rewrite Et in *. rewrite skip_ws_head by done. rewrite Hb, He by lia. reflexivity.
Qed.

Lemma parses_obj l :
  Forall (λ '(k, x), raw_ok k ∧ wf_json x) l → Forall (λ kx, parses kx.2) l → parses (JObj l).
Proof.
  intros Hwf Hp f depth rest Hf Hd Hr. destruct f as [|f]; [cbn in Hf; lia|].
  cbn [p_value render jsize jdepth] in *. cbn [app]. rewrite <- app_assoc. cbn [app].
  rewrite skip_ws_head by done. decide_bool. rewrite (depth_ok _ _ Hd).
  destruct l as [|[k x] l]; [reflexivity|].
  pose proof (p_members_render k x l f (depth + 1) rest Hwf Hp) as He.
  set (rd := λ '(k, x), in_quotes k ++ ":"%char :: render x) in *. cbn [map] in *.
  destruct (commas_head (map rd l) (rd (k, x)) ("}"%char :: rest) quote_char
              ((k ++ [quote_char]) ++ ":"%char :: render x) eq_refl) as [t Et].
  rewrite Et in *. rewrite skip_ws_head by done. decide_bool. rewrite He by lia. reflexivity.
Qed.

(** The value parser reads back any rendered value and stops after it. *)
Lemma p_value_render v : wf_json v → parses v.
Proof.
  induction v as [|b|raw|raw|l IH|l IH] using json_ind'; intros Hwf.
  - intros [|f] depth rest Hf; [cbn in Hf; lia | reflexivity].
  - intros [|f] depth rest Hf; [cbn in Hf; lia | destruct b; reflexivity].
  - by apply parses_num.
  - by apply parses_str.
  - apply foldr_and_Forall in Hwf. apply parses_arr; [done | by eapply Forall_mp].
  - apply wf_members in Hwf. apply parses_obj; [done|].
    eapply Forall_mp; [exact IH|]. eapply Forall_impl; [exact Hwf|]. intros [] []. done.
Qed.

(** The fuel of [parse] covers every value that renders to the text. *)
Lemma length_commas l : (list_sum (map length l) ≤ length (commas l))%nat.
Proof.
  induction l as [|x [|y r] IH]; [done|cbn; lia|].
  rewrite commas_cons, length_app. cbn [map foldr length] in *. unfold list_sum in *. cbn [foldr] in *. lia.
Qed.

Lemma render_nonempty v : wf_json v → (1 ≤ length (render v))%nat.
Proof. intros H. destruct (render_head v H) as (c & r & -> & _). cbn. lia. Qed.

Lemma jsize_render v : wf_json v → (jsize v < 2 * length (render v))%nat.
Proof.
  induction v as [|b|raw|raw|l IH|l IH] using json_ind'; intros Hwf;
    try (pose proof (render_nonempty _ Hwf); cbn [jsize]; lia).
  - apply foldr_and_Forall in Hwf. pose proof (length_commas (map render l)) as Hc.
    cbn [jsize render length]. rewrite length_app. cbn [length].
    enough (foldr (λ x n, S (jsize x) + n) 0 l ≤ 2 * list_sum (map length (map render l)))%nat
      by lia. clear Hc.
    induction l as [|x l IHl]; [cbn; lia|].
    apply Forall_cons in Hwf as [Hx Hwf]. apply Forall_cons in IH as [Hxs IH].
    specialize (IHl IH Hwf). specialize (Hxs Hx). cbn [foldr map] in *. unfold list_sum in *. cbn [foldr] in *. lia.
  - apply wf_members in Hwf.
    set (rd := λ '(k, x), in_quotes k ++ ":"%char :: render x).
    pose proof (length_commas (map rd l)) as Hc.
    cbn [jsize render length]. fold rd. rewrite length_app. cbn [length].
    enough (foldr (λ '(_, x) n, S (jsize x) + n) 0 l ≤ 2 * list_sum (map length (map rd l)))%nat
      by lia. clear Hc.
    induction l as [|[k x] l IHl]; [cbn; lia|].
    apply Forall_cons in Hwf as [[Hk Hx] Hwf]. apply Forall_cons in IH as [Hxs IH].
    specialize (IHl IH Hwf). specialize (Hxs Hx). cbn [foldr map snd] in *. unfold list_sum in *. cbn [foldr] in *.
    change (rd (k, x)) with (in_quotes k ++ ":"%char :: render x).
    rewrite length_app. cbn [length]. lia.
Qed.

(** Parsing a rendered value, with white space after it, gives it back. *)
Lemma parse_render v ws :
  wf_json v → (jdepth v <= max_depth)%N → forallb is_ws ws = true →
  parse (render v ++ ws) = Some v.
Proof.
  intros Hwf Hd Hws. unfold parse, parse_fuel. pose proof (jsize_render v Hwf).
  rewrite (p_value_render v Hwf); [|rewrite length_app; lia|lia|].
  - cbn. clear -Hws. induction ws as [|c ws IH]; [done|]. cbn in *.
    apply andb_true_iff in Hws as [Hc Hws]. rewrite Hc. auto.
  - destruct ws as [|c ws]; [done|]. cbn in Hws. apply andb_true_iff in Hws as [Hc _].
    apply num_stop_lit. revert c Hc. by apply forall_byte_impl.
Qed.

Lemma wf_jstring s : valid_utf8 s → wf_json (jstring s).
Proof. apply raw_ok_quote_body. Qed.

(** Depth is the largest of the elements' depths, plus one. *)
Lemma jdepth_arr l n : Forall (λ v, (jdepth v <= n)%N) l → (jdepth (JArr l) <= 1 + n)%N.
Proof. cbn. induction 1; cbn; lia. Qed.

Lemma wf_arr l : Forall wf_json l → wf_json (JArr l).
Proof. cbn. by induction 1. Qed.

Lemma wf_jint z : wf_json (jint z).
Proof. apply num_ok_int. Qed.

Lemma into_string_jstring old s : valid_utf8 s → into_string old (jstring s) = Some s.
Proof. apply unquote_quote_body. Qed.

Lemma into_int_jint old z : in_i64 z → into_int old (jint z) = Some z.
Proof. intros H. cbn. by rewrite ParseInt_format. Qed.

#[export] Hint Resolve wf_jstring wf_jint : go.

(** ** Rendered text has no control characters *)

Definition printable (c : byte) : bool := (32 <=? bv c)%N.

Fixpoint clean (v : json) : Prop :=
  match v with
  | JNull | JBool _ => True
  | JNum raw | JStr raw => forallb printable raw = true
  | JArr l => foldr (λ x p, clean x ∧ p) True l
  | JObj l => foldr (λ '(k, x) p, (forallb printable k = true ∧ clean x) ∧ p) True l
  end.

Lemma clean_arr l : Forall clean l → clean (JArr l).
Proof. cbn. by induction 1. Qed.

Lemma printable_app a b :
  forallb printable a = true → forallb printable b = true → forallb printable (a ++ b) = true.
Proof. intros. apply forallb_app_iff. auto. Qed.

Lemma printable_commas l :
  Forall (λ x, forallb printable x = true) l → forallb printable (commas l) = true.
Proof.
  induction 1 as [|x l Hx Hl IH]; [done|]. destruct l as [|y l]; [done|]. rewrite commas_cons.
  apply printable_app; [done|]. cbn [forallb]. by rewrite IH.
Qed.

Lemma clean_render v : clean v → forallb printable (render v) = true.
Proof.
  induction v as [|b|raw|raw|l IH|l IH] using json_ind'; cbn [clean render]; intros Hc.
  - done.
  - by destruct b.
  - done.
  - unfold in_quotes. cbn [forallb]. apply andb_true_iff. split; [done|]. by apply printable_app.
  - cbn [forallb]. apply andb_true_iff. split; [done|]. apply printable_app; [|done].
    apply printable_commas. rewrite Forall_map. apply foldr_and_Forall in Hc.
    by eapply Forall_mp.
  - cbn [forallb]. apply andb_true_iff. split; [done|]. apply printable_app; [|done].
    apply printable_commas. rewrite Forall_map. induction l as [|[k x] l IHl]; [constructor|].
    apply Forall_cons in IH as [Hx IH]. cbn in Hc. destruct Hc as [[Hk Hcx] Hc].
    constructor; [|by apply IHl]. apply printable_app.
    + unfold in_quotes. cbn [forallb]. apply andb_true_iff. split; [done|]. by apply printable_app.
    + cbn [forallb]. apply andb_true_iff. split; [done | by apply Hx].
Qed.

Lemma printable_quote_body s : valid_utf8 s → forallb printable (quote_body s) = true.
Proof.
  intros (rs & Hv & ->). rewrite quote_body_utf8 by done. rewrite forallb_forall in Hv.
  induction rs as [|r rs IH]; [done|]. cbn [map concat]. apply printable_app.
  - rewrite quote_chunk_encode by (apply Hv; by left). destruct (N.ltb_spec r 128).
    + assert (∀ c, forallb printable (quote_ascii c) = true \/ (128 <= bv c)%N) as Hq.
      { intros c. destruct c as [[] [] [] [] [] [] [] []]; first [by left | by right]. }
      destruct (Hq (chr r)) as [|Hh]; [done|]. rewrite bv_chr in Hh by lia. lia.
    + case_match; [|].
      * apply printable_app; [done|]. cbn. rewrite andb_true_r.
        assert (∀ n, (n < 16)%N → printable (hex_digit n) = true) as Hx.
        { intros n Hn. unfold hex_digit, printable. destruct (N.ltb_spec n 10);
            rewrite bv_chr by lia; apply N.leb_le; lia. }
        apply Hx. apply N.mod_lt. done.
      * pose proof (EncodeRune_high r H) as Hh. rewrite forallb_forall in *.
        intros c Hc. apply Hh, N.leb_le in Hc. unfold printable. apply N.leb_le. lia.
  - apply IH. intros x Hx. apply Hv. by right.
Qed.

Lemma clean_jstring s : valid_utf8 s → clean (jstring s).
Proof. apply printable_quote_body. Qed.

Lemma clean_jint z : clean (jint z).
Proof.
  cbn. assert (∀ n, forallb printable (format_uint n) = true) as Hn.
  { intros n. pose proof (format_uint_digits n) as H. rewrite forallb_forall in *. intros c Hc.
    apply H in Hc. unfold is_digit, printable in *. apply andb_true_iff in Hc as [Hc%N.leb_le _].
    apply N.leb_le. lia. }
  unfold format_int. destruct (z <? 0)%Z; [|done]. by apply printable_app.
Qed.

#[export] Hint Resolve clean_jstring clean_jint : go.
