(* ===== verification/PacketHeader.v ===== *)
(** src/scamp/packetheader.go: the JSON header of a packet, its two
    enumerations and [flexInt], with the proof that a header that was
    written can be read back. *)
From S2P Require Import Prelude Strconv Utf8 Json JsonFacts.

(** ** Envelope format

    [type envelopeFormat int]: any [int] is a value of the type, two of
    them are named. *)

Definition EnvelopeJSON : Z := 0.
Definition EnvelopeJSONSTORE : Z := 1.

Definition envelopeJSONBytes : bytes := in_quotes (bs "json").
Definition envelopeJSONStoreBytes : bytes := in_quotes (bs "jsonstore").

(** [None] is a non-nil [error]. *)
Definition marshal_envelope (envFormat : Z) : option bytes :=
  if envFormat =b EnvelopeJSON then Some envelopeJSONBytes
  else if envFormat =b EnvelopeJSONSTORE then Some envelopeJSONStoreBytes
  else None.

Definition unmarshal_envelope (incoming : bytes) : option Z :=
  if envelopeJSONBytes =b incoming then Some EnvelopeJSON
  else if envelopeJSONStoreBytes =b incoming then Some EnvelopeJSONSTORE
  else None.

(** ** Message type *)

Definition MessageTypeRequest : Z := 1.
Definition MessageTypeReply : Z := 2.

Definition requestBytes : bytes := in_quotes (bs "request").
Definition replyBytes : bytes := in_quotes (bs "reply").

Definition marshal_message_type (messageType : Z) : option bytes :=
  if messageType =b MessageTypeRequest then Some requestBytes
  else if messageType =b MessageTypeReply then Some replyBytes
  else None.

Definition unmarshal_message_type (incoming : bytes) : option Z :=
  if requestBytes =b incoming then Some MessageTypeRequest
  else if replyBytes =b incoming then Some MessageTypeReply
  else None.

(** ** flexInt

    A JSON string or a JSON number.  [json.Unmarshal] of [data] into a
    fresh [string] comes first: it also succeeds on [null], which leaves
    the empty string for [Atoi] to reject. *)
Definition unmarshal_flexInt (data : json) : option Z :=
  match into_string [] data with
  | Some stringValue =>
      match Atoi stringValue with
      | inr v => Some v
      | inl _ => None
      end
  | None => into_int 0 data
  end.

(** ** The header *)

Record PacketHeader := mkPacketHeader {
  ph_Action : bytes;
  ph_Envelope : Z;
  ph_Error : bytes;
  ph_ErrorCode : bytes;
  ph_RequestID : Z;
  ph_ClientID : Z;
  ph_Ticket : bytes;
  ph_IdentifyingToken : bytes;
  ph_MessageType : Z;
  ph_Version : Z
}.

#[export] Instance PacketHeader_eq_dec : EqDecision PacketHeader.
Proof. solve_decision. Defined.

(** The zero value of the struct. *)
Definition zeroHeader : PacketHeader := mkPacketHeader [] 0 [] [] 0 0 [] [] 0 0.

(** A member named [k]. *)
Definition member (k : string) (v : json) : bytes * json := (bs k, v).

(** [json:",omitempty"] on a string field. *)
Definition omitempty (k : string) (s : bytes) : list (bytes * json) :=
  match s with [] => [] | _ => [member k (jstring s)] end.

(** The literal a [MarshalJSON] method returned, as a value.  [compact]
    copies a string literal unchanged. *)
Definition literal (b : bytes) : json := JStr (take (length b - 2) (drop 1 b)).

(** The fields in declaration order, under their tags. *)
Definition header_members (h : PacketHeader) (env mtype : bytes) : list (bytes * json) :=
  [member "action" (jstring (ph_Action h)); member "envelope" (literal env)]
  ++ omitempty "error" (ph_Error h)
  ++ omitempty "error_code" (ph_ErrorCode h)
  ++ [member "request_id" (jint (ph_RequestID h));
      member "client_id" (jint (ph_ClientID h));
      member "ticket" (jstring (ph_Ticket h));
      member "identifying_token" (jstring (ph_IdentifyingToken h));
      member "type" (literal mtype);
      member "version" (jint (ph_Version h))].

(** [json.Marshal] of the header; the first failing field is the error. *)
Definition marshal_header (h : PacketHeader) : option json :=
  env ← marshal_envelope (ph_Envelope h);
  mtype ← marshal_message_type (ph_MessageType h);
  Some (JObj (header_members h env mtype)).

(** [func (pktHdr *PacketHeader) Write(writer io.Writer) error], into a
    buffer: [Encode] writes the value and a newline, or nothing. *)
Definition header_Write (h : PacketHeader) : option bytes :=
  v ← marshal_header h; Some (render v ++ [chr 10]).

Definition field_names : list bytes :=
  map bs ["action"; "envelope"; "error"; "error_code"; "request_id"; "client_id";
          "ticket"; "identifying_token"; "type"; "version"]%string.

(** Decode one member into its field. *)
Definition set_field (h : PacketHeader) (name : bytes) (v : json) : option PacketHeader :=
  let 'mkPacketHeader action env err code rid cid ticket tok mtype ver := h in
  if name =b bs "action" then
    x ← into_string action v; Some (mkPacketHeader x env err code rid cid ticket tok mtype ver)
  else if name =b bs "envelope" then
    x ← unmarshal_envelope (render v);
    Some (mkPacketHeader action x err code rid cid ticket tok mtype ver)
  else if name =b bs "error" then
    x ← into_string err v; Some (mkPacketHeader action env x code rid cid ticket tok mtype ver)
  else if name =b bs "error_code" then
    x ← into_string code v; Some (mkPacketHeader action env err x rid cid ticket tok mtype ver)
  else if name =b bs "request_id" then
    x ← into_int rid v; Some (mkPacketHeader action env err code x cid ticket tok mtype ver)
  else if name =b bs "client_id" then
    x ← unmarshal_flexInt v;
    Some (mkPacketHeader action env err code rid x ticket tok mtype ver)
  else if name =b bs "ticket" then
    x ← into_string ticket v;
    Some (mkPacketHeader action env err code rid cid x tok mtype ver)
  else if name =b bs "identifying_token" then
    x ← into_string tok v;
    Some (mkPacketHeader action env err code rid cid ticket x mtype ver)
  else if name =b bs "type" then
    x ← unmarshal_message_type (render v);
    Some (mkPacketHeader action env err code rid cid ticket tok x ver)
  else if name =b bs "version" then
    x ← into_int ver v;
    Some (mkPacketHeader action env err code rid cid ticket tok mtype x)
  else Some h.

(** A member of the object: unknown keys are skipped. *)
Definition decode_member (h : PacketHeader) (m : bytes * json) : option PacketHeader :=
  key ← unquote m.1;
  match find_field field_names key with
  | None => Some h
  | Some name => set_field h name m.2
  end.

Fixpoint decode_members (h : PacketHeader) (l : list (bytes * json)) : option PacketHeader :=
  match l with
  | [] => Some h
  | m :: r => h' ← decode_member h m; decode_members h' r
  end.

(** [json.Unmarshal(body, &pkt.packetHeader)] on a header that holds [h]. *)
Definition unmarshal_header (h : PacketHeader) (body : bytes) : option PacketHeader :=
  v ← parse body;
  match v with
  | JObj l => decode_members h l
  | JNull => Some h
  | _ => None
  end.

(** ** Well-formed headers *)

(** Values the wire format can carry: 64-bit integers, the two named
    constants of each enumeration, and UTF-8 strings. *)
Definition wf_header (h : PacketHeader) : Prop :=
  valid_utf8 (ph_Action h) ∧ valid_utf8 (ph_Error h) ∧ valid_utf8 (ph_ErrorCode h)
  ∧ valid_utf8 (ph_Ticket h) ∧ valid_utf8 (ph_IdentifyingToken h)
  ∧ in_i64 (ph_RequestID h) ∧ in_i64 (ph_ClientID h) ∧ in_i64 (ph_Version h)
  ∧ (ph_Envelope h = EnvelopeJSON ∨ ph_Envelope h = EnvelopeJSONSTORE)
  ∧ (ph_MessageType h = MessageTypeRequest ∨ ph_MessageType h = MessageTypeReply).

(** ** Lemmas *)

Lemma unmarshal_marshal_envelope e b :
  marshal_envelope e = Some b → unmarshal_envelope b = Some e ∧ render (literal b) = b
  ∧ wf_json (literal b).
Proof.
  unfold marshal_envelope. intros H.
  repeat case_bool_decide; simplify_eq; (split; [done | split; [done | intros x; done]]).
Qed.

Lemma unmarshal_marshal_message_type t b :
  marshal_message_type t = Some b →
  unmarshal_message_type b = Some t ∧ render (literal b) = b ∧ wf_json (literal b).
Proof.
  unfold marshal_message_type. intros H.
  repeat case_bool_decide; simplify_eq; (split; [done | split; [done | intros x; done]]).
Qed.

(** Anything the enumerations do not name is an error, on both sides. *)
Lemma marshal_message_type_None t :
  marshal_message_type t = None ↔ t ≠ MessageTypeRequest ∧ t ≠ MessageTypeReply.
Proof. unfold marshal_message_type. repeat case_bool_decide; intuition congruence. Qed.

Lemma marshal_envelope_None e :
  marshal_envelope e = None ↔ e ≠ EnvelopeJSON ∧ e ≠ EnvelopeJSONSTORE.
Proof. unfold marshal_envelope. repeat case_bool_decide; intuition congruence. Qed.

Lemma unmarshal_flexInt_jint z : in_i64 z → unmarshal_flexInt (jint z) = Some z.
Proof. intros H. unfold unmarshal_flexInt. cbn [into_string jint]. by apply into_int_jint. Qed.

Lemma decode_members_app h l r :
  decode_members h (l ++ r) = (h' ← decode_members h l; decode_members h' r).
Proof.
  revert h. induction l as [|m l IH]; intros h; [done|]. cbn.
  destruct (decode_member h m); [apply IH | done].
Qed.

(** The member written for a field is decoded into that field. *)
Lemma decode_known h k v :
  In (bs k) field_names → is_ascii (bs k) = true → unquote (bs k) = Some (bs k) →
  decode_member h (member k v) = set_field h (bs k) v.
Proof.
  intros Hin Ha Hu. unfold decode_member, member. cbn [fst snd]. rewrite Hu. cbn [mbind option_bind].
  unfold find_field.
  assert (∃ i, list_find (λ n, n = bs k) field_names = Some (i, bs k)) as [i ->]; [|done].
  apply list_elem_of_In in Hin. destruct (list_find_elem_of (λ n, n = bs k) _ _ Hin eq_refl) as [[i x] Hx].
  pose proof (list_find_Some (λ n, n = bs k) field_names i x) as [H _].
  destruct (H Hx) as (_ & -> & _). eauto.
Qed.

Lemma decode_omitempty h k s (upd : PacketHeader) :
  valid_utf8 s → decode_member h (member k (jstring s)) = Some upd → (s = [] → upd = h) →
  decode_members h (omitempty k s) = Some upd.
Proof.
  intros Hs Hd Hnil. destruct s as [|c s]; cbn [omitempty decode_members]; [by rewrite Hnil|].
  by rewrite Hd.
Qed.

Lemma wf_omitempty k s p :
  raw_ok (bs k) → valid_utf8 s → p →
  foldr (λ '(k, x) p, (raw_ok k ∧ wf_json x) ∧ p) p (omitempty k s).
Proof. intros Hk Hs Hp. destruct s; cbn -[jstring]; auto using wf_jstring. Qed.

Lemma raw_ok_ascii k : is_ascii k = true → quote_body k = k → raw_ok k.
Proof. intros Ha <-. apply raw_ok_quote_body. auto with go. Qed.

Ltac raw_key := apply raw_ok_ascii; reflexivity.

Lemma wf_header_members h env mtype :
  wf_header h → wf_json (literal env) → wf_json (literal mtype) →
  wf_json (JObj (header_members h env mtype)).
Proof.
  intros (H1 & H2 & H3 & H4 & H5 & _) He Hm. unfold header_members. cbn [wf_json].
  rewrite !foldr_app. cbn [foldr member].
  repeat match goal with
  | |- _ ∧ _ => split
  | |- foldr _ _ (omitempty _ _) => apply wf_omitempty
  | |- raw_ok (bs _) => raw_key
  | |- wf_json (jstring _) => by apply wf_jstring
  | |- wf_json (jint _) => apply wf_jint
  end; done.
Qed.

Lemma header_depth h env mtype : (jdepth (JObj (header_members h env mtype)) <= max_depth)%N.
Proof.
  unfold header_members, omitempty, member. cbn [jdepth].
  destruct (ph_Error h), (ph_ErrorCode h); unfold max_depth; cbn; lia.
Qed.

(** Evaluate the comparisons of literal keys. *)
Ltac eval_keys :=
  repeat match goal with
  | |- context [bool_decide (bs ?a = bs ?b)] =>
      let v := eval vm_compute in (bool_decide (bs a = bs b)) in
      change (bool_decide (bs a = bs b)) with v
  end; cbv iota beta.

(** One step of the decoder over the members the encoder wrote. *)
Ltac decode_step :=
  rewrite decode_known by (vm_compute; tauto || reflexivity);
  unfold set_field; eval_keys;
  first [ rewrite into_string_jstring by done | rewrite into_int_jint by done
        | rewrite unmarshal_flexInt_jint by done | idtac ];
  cbn [mbind option_bind].

Lemma decode_header_members h env mtype :
  wf_header h → marshal_envelope (ph_Envelope h) = Some env →
  marshal_message_type (ph_MessageType h) = Some mtype →
  decode_members zeroHeader (header_members h env mtype) = Some h.
Proof.
  destruct h as [action e err code rid cid ticket tok mt ver].
  intros (H1 & H2 & H3 & H4 & H5 & H6 & H7 & H8 & _) He Hm.
  cbn [ph_Action ph_Envelope ph_Error ph_ErrorCode ph_RequestID ph_ClientID ph_Ticket
    ph_IdentifyingToken ph_MessageType ph_Version] in *.
  destruct (unmarshal_marshal_envelope e env He) as (He1 & He2 & _).
  destruct (unmarshal_marshal_message_type mt mtype Hm) as (Hm1 & Hm2 & _).
  unfold header_members, zeroHeader. cbn [ph_Action ph_Error ph_ErrorCode ph_RequestID
    ph_ClientID ph_Ticket ph_IdentifyingToken ph_Version app].
  cbn [decode_members]. decode_step. decode_step. rewrite He2, He1. cbn [mbind option_bind].
  rewrite decode_members_app, (decode_omitempty _ "error" err (mkPacketHeader action e err [] 0 0 [] [] 0 0));
    [cbn [mbind option_bind]|done|by decode_step|by intros ->].
  rewrite decode_members_app, (decode_omitempty _ "error_code" code
             (mkPacketHeader action e err code 0 0 [] [] 0 0));
    [cbn [mbind option_bind]|done|by decode_step|by intros ->].
  cbn [decode_members]. do 4 decode_step. decode_step. rewrite Hm2, Hm1.
  cbn [mbind option_bind]. by decode_step.
Qed.

(** What [Write] wrote, the decoder turns back into the same header. *)
Lemma unmarshal_header_Write h b :
  wf_header h → header_Write h = Some b → unmarshal_header zeroHeader b = Some h.
Proof.
  intros Hwf. unfold header_Write, marshal_header.
  destruct (marshal_envelope _) as [env|] eqn:He; [|done].
  destruct (marshal_message_type _) as [mtype|] eqn:Hm; [|done].
  cbn [mbind option_bind]. intros Hw. apply (inj Some) in Hw. subst b.
  unfold unmarshal_header.
  rewrite parse_render; [|apply wf_header_members; [done|..]|apply header_depth|done].
  - cbn [mbind option_bind]. by apply decode_header_members.
  - by apply (unmarshal_marshal_envelope (ph_Envelope h)).
  - by apply (unmarshal_marshal_message_type (ph_MessageType h)).
Qed.

(** A header can be written exactly when its two enumerations are named. *)
Lemma header_Write_Some h :
  is_Some (header_Write h) ↔
  (ph_Envelope h = EnvelopeJSON ∨ ph_Envelope h = EnvelopeJSONSTORE)
  ∧ (ph_MessageType h = MessageTypeRequest ∨ ph_MessageType h = MessageTypeReply).
Proof.
  unfold header_Write, marshal_header, marshal_envelope, marshal_message_type.
  split.
  - intros [b Hb]. repeat case_bool_decide; try discriminate; intuition congruence.
  - intros [[E|E] [T|T]]; rewrite E, T; vm_compute bool_decide; eexists; reflexivity.
Qed.
