(* ===== verification/GoIO.v ===== *)
(** Byte streams: the input side of [bufio.ReadWriter] ([ReadLine],
    [io.ReadFull]) and its output side ([bufio.Writer] over a connection
    that may start to fail), behind an interface [Writer] that
    [Packet.Write] is written against, as the code is against [io.Writer]. *)
From S2P Require Import Prelude.

(** [defaultBufSize]. *)
Definition bufio_size : nat := Z.to_nat 4096.

(** ** Reading *)

(** The bytes still to come, and the error the stream ends with. *)
Record reader := mkReader { rd_data : bytes; rd_err : bytes }.

Definition io_EOF : bytes := bs "EOF".
Definition io_ErrUnexpectedEOF : bytes := bs "unexpected EOF".

Definition LF : byte := chr 10.
Definition CR : byte := chr 13.

Definition not_lf (c : byte) : bool := negb (c =b LF).

(** Drop a carriage return at the end of a line. *)
Definition drop_cr (l : bytes) : bytes :=
  match last l with
  | Some c => if c =b CR then take (length l - 1) l else l
  | None => l
  end.

(** [bufio.Reader.ReadLine]: the line without its end and the rest of the
    stream.  A line longer than the buffer comes in pieces, and a CR at the
    very end of such a piece is put back. *)
Definition ReadLine (r : reader) : outcome bytes (bytes * reader) :=
  let '(a, b) := span not_lf (take bufio_size (rd_data r)) in
  match b with
  | _ :: _ => Ok (drop_cr a, mkReader (drop (S (length a)) (rd_data r)) (rd_err r))
  | [] =>
      if (bufio_size <=? length (rd_data r))%nat then
        let l := drop_cr (take bufio_size (rd_data r)) in
        Ok (l, mkReader (drop (length l) (rd_data r)) (rd_err r))
      else match rd_data r with
           | [] => Err (rd_err r)
           | _ => Ok (rd_data r, mkReader [] (rd_err r))
           end
  end.

(** [io.ReadFull] into a buffer of [n] bytes, [0 <= n]. *)
Definition ReadFull (r : reader) (n : Z) : outcome bytes (bytes * reader) :=
  if (n <=? Z.of_nat (length (rd_data r)))%Z then
    Ok (take (Z.to_nat n) (rd_data r), mkReader (drop (Z.to_nat n) (rd_data r)) (rd_err r))
  else match rd_data r with
       | [] => Err (rd_err r)
       | _ => Err (if rd_err r =b io_EOF then io_ErrUnexpectedEOF else rd_err r)
       end.

(** The largest slice the 64-bit runtime will try to allocate. *)
Definition maxAlloc : Z := 2 ^ 48.

(** [make([]byte, n)]: a negative or impossible length panics. *)
Definition make_bytes {E} (n : Z) : outcome E bytes :=
  if (n <? 0)%Z || (maxAlloc <? n)%Z then Panic (bs "makeslice: len out of range")
  else Ok [].

(** ** Writing *)

(** What an [io.Writer] does with [p]: its new state, the count of bytes it
    took, and an error. *)
Class Writer (W : Type) := {
  write : W → bytes → W * nat * option bytes;
  (** everything accepted so far, in order *)
  written : W → bytes
}.

(** A write that reports no error took all of [p], at the end. *)
Class WriterLaws (W : Type) `{Writer W} :=
  write_ok : ∀ w p w' n, write w p = (w', n, None) →
    written w' = written w ++ p ∧ n = length p.

(** [bytes.Buffer] never fails. *)
#[export] Instance buffer_Writer : Writer bytes := {|
  write b p := (b ++ p, length p, None);
  written b := b
|}.

#[export] Instance buffer_laws : WriterLaws bytes.
Proof. intros w p w' n [= <- <-]. done. Qed.

(** A connection: what it has sent, how much more it takes before it starts
    to fail ([None]: it never does), and the error it then returns. *)
Record sink := mkSink { sk_out : bytes; sk_room : option nat; sk_err : bytes }.

Definition sink_write (s : sink) (p : bytes) : sink * nat * option bytes :=
  match sk_room s with
  | None => (mkSink (sk_out s ++ p) None (sk_err s), length p, None)
  | Some room =>
      if (length p <=? room)%nat
      then (mkSink (sk_out s ++ p) (Some (room - length p)%nat) (sk_err s), length p, None)
      else (mkSink (sk_out s ++ take room p) (Some 0) (sk_err s), room, Some (sk_err s))
  end.

(** [bufio.Writer]: the buffered bytes, the sticky error, the connection. *)
Record bufwriter := mkBuf { bw_buf : bytes; bw_err : option bytes; bw_sink : sink }.

Definition Flush (w : bufwriter) : bufwriter * option bytes :=
  match bw_err w with
  | Some e => (w, Some e)
  | None =>
      match bw_buf w with
      | [] => (w, None)
      | _ =>
          let '(s, n, e) := sink_write (bw_sink w) (bw_buf w) in
          match e with
          | Some _ => (mkBuf (drop n (bw_buf w)) e s, e)
          | None => (mkBuf [] None s, None)
          end
      end
  end.

(** Write straight to the connection, as is done with an empty buffer. *)
Definition direct_write (w : bufwriter) (p : bytes) : bufwriter * nat * option bytes :=
  let '(s, n, e) := sink_write (bw_sink w) p in (mkBuf (bw_buf w) e s, n, e).

(** [bufio.Writer.Write].  Its loop runs at most twice: fill and flush,
    then either buffer the rest or write it directly. *)
Definition buf_write (w : bufwriter) (p : bytes) : bufwriter * nat * option bytes :=
  match bw_err w with
  | Some e => (w, 0, Some e)
  | None =>
      let avail := (bufio_size - length (bw_buf w))%nat in
      if (length p <=? avail)%nat then
        (mkBuf (bw_buf w ++ p) None (bw_sink w), length p, None)
      else match bw_buf w with
      | [] => direct_write w p
      | _ =>
          let '(w1, e) := Flush (mkBuf (bw_buf w ++ take avail p) None (bw_sink w)) in
          match e with
          | Some _ => (w1, avail, e)
          | None =>
              let p' := drop avail p in
              if (length p' <=? bufio_size)%nat
              then (mkBuf p' None (bw_sink w1), length p, None)
              else let '(w2, n, e2) := direct_write w1 p' in (w2, avail + n, e2)
          end
      end
  end.

#[export] Instance bufwriter_Writer : Writer bufwriter := {|
  write := buf_write;
  written w := sk_out (bw_sink w) ++ bw_buf w
|}.

(** ** Lemmas *)

Lemma sink_write_ok s p s' n :
  sink_write s p = (s', n, None) → sk_out s' = sk_out s ++ p ∧ n = length p.
Proof. unfold sink_write. intros H. repeat case_match; simplify_eq; done. Qed.

Lemma Flush_ok w w' :
  Flush w = (w', None) →
  sk_out (bw_sink w') = sk_out (bw_sink w) ++ bw_buf w ∧ bw_buf w' = [] ∧ bw_err w' = None.
Proof.
  unfold Flush. destruct (bw_err w) eqn:Ee; [done|]. destruct (bw_buf w) as [|c b] eqn:E.
  - intros [= <-]. by rewrite E, app_nil_r.
  - destruct (sink_write _ _) as [[s n] [e|]] eqn:Es; [done|].
    intros [= <-]. cbn. by apply sink_write_ok in Es as [-> _].
Qed.

Lemma direct_write_ok w p w' n :
  bw_buf w = [] → direct_write w p = (w', n, None) →
  sk_out (bw_sink w') ++ bw_buf w' = sk_out (bw_sink w) ++ p ∧ n = length p.
Proof.
  intros Hb. unfold direct_write. destruct (sink_write _ _) as [[s m] e] eqn:Es.
  intros [= <- <- ->]. apply sink_write_ok in Es as [Hs ->]. cbn [bw_sink bw_buf].
  by rewrite Hb, Hs, app_nil_r.
Qed.

#[export] Instance bufwriter_laws : WriterLaws bufwriter.
Proof.
  intros w p w' n. cbn [write written bufwriter_Writer]. unfold buf_write.
  destruct (bw_err w); [done|]. destruct (Nat.leb_spec (length p) (bufio_size - length (bw_buf w))).
  { intros [= <- <-]. cbn. by rewrite app_assoc. }
  destruct (bw_buf w) as [|c b] eqn:E.
  { intros Hd. rewrite app_nil_r. by apply direct_write_ok in Hd. }
  rewrite <- E in *. clear E.
  set (avail := (bufio_size - length (bw_buf w))%nat) in *.
  destruct (Flush _) as [w1 [e|]] eqn:Ef; [done|].
  apply Flush_ok in Ef as (Ho & Hb & _). cbn in Ho.
  destruct (length (drop avail p) <=? bufio_size)%nat.
  - intros [= <- <-]. cbn. rewrite Ho, <- !app_assoc, take_drop. done.
  - destruct (direct_write w1 _) as [[w2 m] e] eqn:Ed. intros [= -> <- ->].
    apply direct_write_ok in Ed as [-> ->]; [|done].
    rewrite Ho, <- !app_assoc, take_drop, length_drop. split; [done | lia].
Qed.

(** A failed [bufio.Writer] stays failed. *)
Lemma buf_write_sticky w e p : bw_err w = Some e → write w p = (w, 0, Some e).
Proof. intros H. cbn. unfold buf_write. by rewrite H. Qed.

(** A connection that never fails. *)
Definition healthy (w : bufwriter) : Prop := bw_err w = None ∧ sk_room (bw_sink w) = None.

Lemma sink_write_healthy s p :
  sk_room s = None →
  ∃ s', sink_write s p = (s', length p, None) ∧ sk_room s' = None.
Proof. intros H. unfold sink_write. rewrite H. eexists. split; done. Qed.

Lemma direct_write_healthy w p :
  healthy w → ∃ w', direct_write w p = (w', length p, None) ∧ healthy w'.
Proof.
  intros [He Hr]. destruct (sink_write_healthy (bw_sink w) p Hr) as (s' & E & Hs).
  unfold direct_write. rewrite E. eexists. split; done.
Qed.

Lemma Flush_healthy w : healthy w → ∃ w', Flush w = (w', None) ∧ healthy w'.
Proof.
  intros [He Hr]. unfold Flush. rewrite He. destruct (bw_buf w) eqn:E.
  - by exists w.
  - destruct (sink_write_healthy (bw_sink w) (a :: l) Hr) as (s' & -> & Hs).
    eexists. split; done.
Qed.

Lemma buf_write_healthy (w : bufwriter) p :
  healthy w → ∃ w', write w p = (w', length p, None) ∧ healthy w'.
Proof.
  intros Hh. pose proof Hh as [He Hr]. cbn [write bufwriter_Writer]. unfold buf_write.
  rewrite He. case_match; [eexists; by split|].
  destruct (bw_buf w) as [|c b] eqn:E.
  { destruct (direct_write_healthy w p Hh) as (w' & Hd & Hh'). eauto. }
  set (a := (bufio_size - length (c :: b))%nat) in *. clearbody a.
  destruct (Flush_healthy (mkBuf ((c :: b) ++ take a p) None (bw_sink w))) as (w1 & -> & Hh1);
    [done|].
  apply Nat.leb_gt in H.
  case_match; [eexists; split; [done|by destruct Hh1]|].
  destruct (direct_write_healthy w1 (drop a p) Hh1) as (w2 & -> & Hh2).
  exists w2. split; [|done]. rewrite length_drop. do 2 f_equal. lia.
Qed.

(** A line that ends in CRLF and fits the buffer is read whole. *)
Lemma ReadLine_crlf l t e :
  forallb not_lf l = true → (length l + 2 ≤ bufio_size)%nat →
  ReadLine (mkReader (l ++ CR :: LF :: t) e) = Ok (l, mkReader t e).
Proof.
  intros Hl Hn. unfold ReadLine. cbn [rd_data rd_err].
  replace (l ++ CR :: LF :: t) with ((l ++ [CR]) ++ LF :: t) by by rewrite <- app_assoc.
  assert (∃ t', take bufio_size ((l ++ [CR]) ++ LF :: t) = (l ++ [CR]) ++ LF :: t') as [t' Et].
  { rewrite take_app_ge by (rewrite length_app; cbn; lia).
    destruct (bufio_size - length (l ++ [CR]))%nat eqn:E;
      [rewrite length_app in E; cbn in E; lia|]. cbn. eauto. }
  rewrite Et, span_block; [|by apply forallb_app_iff|by intros ? ? [= <- _]].
  unfold drop_cr. rewrite last_snoc. decide_bool.
  rewrite length_app. cbn [length].
  replace (length l + 1 - 1)%nat with (length l) by lia. rewrite take_app_exact.
  f_equal. f_equal. f_equal. replace (S (length l + 1)) with (length ((l ++ [CR]) ++ [LF]))
    by (rewrite !length_app; cbn; lia).
  change (LF :: t) with ([LF] ++ t). rewrite app_assoc. apply drop_app_exact.
Qed.

Lemma ReadFull_exact b t e :
  ReadFull (mkReader (b ++ t) e) (Z.of_nat (length b)) = Ok (b, mkReader t e).
Proof.
  unfold ReadFull. cbn. rewrite length_app. case Z.leb_spec; intros; [|lia].
  by rewrite Nat2Z.id, take_app_exact, drop_app_exact.
Qed.
