(* ===== verification/Scan.v ===== *)
(** [fmt.Sscanf(line, "%s %d %d", &b, &u, &i)] as [ReadPacket] calls it: the
    scanner's treatment of white space and newlines, a [%s] into a byte
    slice, a [%d] into a [uint64] and one into an [int].  The input is the
    sequence of runes of the line. *)
From S2P Require Import Prelude Strconv Utf8.

(** [ss.SkipSpace] when newlines do not count as space; [None] is the
    scan error "unexpected newline". *)
Fixpoint skip_space (l : list N) : option (list N) :=
  match l with
  | [] => Some []
  | r :: t =>
      if (r =? 13)%N && (if head t is Some 10%N then true else false) then skip_space t
      else if (r =? 10)%N then None
      else if is_space r then skip_space t
      else Some l
  end.

(** The blanks a space of the format may take after the first one. *)
Fixpoint skip_blanks (l : list N) : list N :=
  match l with
  | r :: t => if is_space r && negb (r =? 10)%N then skip_blanks t else l
  | [] => []
  end.

(** A space in the format: at least one blank that is not a newline, or
    the end of the input. *)
Definition format_space (l : list N) : option (list N) :=
  match l with
  | [] => Some []
  | r :: _ => if negb (is_space r) || (r =? 10)%N then None else Some (skip_blanks l)
  end.

(** Skip space, then fail at the end of the input ([notEOF]). *)
Definition skip_not_eof (l : list N) : option (list N) :=
  t ← skip_space l; match t with [] => None | _ => Some t end.

(** [%s]: the runes up to the next space, written back as UTF-8. *)
Definition scan_word (l : list N) : option (bytes * list N) :=
  t ← skip_not_eof l;
  let '(w, rest) := span (λ r, negb (is_space r)) t in Some (utf8 w, rest).

Definition rune_digit (r : N) : bool := (48 <=? r)%N && (r <=? 57)%N.

(** [scanNumber]: at least one digit. *)
Definition scan_number (l : list N) : option (bytes * list N) :=
  match span rune_digit l with
  | ([], _) => None
  | (ds, rest) => Some (map chr ds, rest)
  end.

(** [%d] into a [*uint64]. *)
Definition scan_uint (l : list N) : option (Z * list N) :=
  t ← skip_not_eof l;
  '(tok, rest) ← scan_number t;
  match ParseUint tok with inr v => Some (v, rest) | inl _ => None end.

(** [%d] into a [*int]: a sign may come first. *)
Definition scan_int (l : list N) : option (Z * list N) :=
  t ← skip_not_eof l;
  let '(sign, u) :=
    match t with
    | r :: u => if (r =? 43)%N || (r =? 45)%N then ([chr r], u) else ([], t)
    | [] => ([], t)
    end in
  '(tok, rest) ← scan_number u;
  match ParseInt (sign ++ tok) with inr v => Some (v, rest) | inl _ => None end.

(** All three operands, or [None] when fewer were read.  What follows the
    third one is not looked at. *)
Definition Sscanf_header (line : bytes) : option (bytes * Z * Z) :=
  let runes := map fst (chunks line) in
  '(ty, l1) ← scan_word runes;
  l2 ← format_space l1;
  '(n, l3) ← scan_uint l2;
  l4 ← format_space l3;
  '(len, _) ← scan_int l4;
  Some (ty, n, len).

(** ** Lemmas *)

(** An ASCII word without blanks. *)
Definition word_byte (c : byte) : bool := (bv c <? 128)%N && negb (is_space (bv c)).

Lemma word_byte_ascii w : forallb word_byte w = true → is_ascii w = true.
Proof.
  unfold is_ascii. rewrite !forallb_forall. intros H c Hc. specialize (H c Hc).
  unfold word_byte in H. by apply andb_true_iff in H as [H _].
Qed.

Lemma digit_word c : is_digit c = true → word_byte c = true.
Proof. revert c. by apply forall_byte_impl. Qed.

Lemma digits_word l : forallb is_digit l = true → forallb word_byte l = true.
Proof. rewrite !forallb_forall. intros H c Hc. by apply digit_word, H. Qed.

Lemma utf8_map_bv s : is_ascii s = true → utf8 (map bv s) = s ∧ forallb valid_rune (map bv s) = true.
Proof.
  unfold is_ascii. induction s as [|c s IH]; [done|]. cbn [map forallb].
  intros [Hc Hs]%andb_true_iff. destruct (IH Hs) as [E V]. apply N.ltb_lt in Hc. split.
  - rewrite utf8_cons, EncodeRune_ascii, chr_bv, E by lia. done.
  - by rewrite (proj2 (valid_rune_spec _)) by lia.
Qed.

Lemma runes_ascii s : is_ascii s = true → map fst (chunks s) = map bv s.
Proof.
  intros H. destruct (utf8_map_bv s H) as [E V]. rewrite <- E at 1.
  rewrite chunks_utf8, map_map by done. apply map_id.
Qed.

Lemma skip_space_word r t : is_space r = false → skip_space (r :: t) = Some (r :: t).
Proof.
  intros H. cbn [skip_space]. rewrite H.
  destruct (N.eqb_spec r 13) as [->|]; [done|].
  destruct (N.eqb_spec r 10) as [->|]; [done|]. done.
Qed.

Lemma word_not_space w r t :
  forallb word_byte w = true → map bv w = r :: t → is_space r = false.
Proof.
  destruct w as [|c w]; [done|]. cbn. intros [Hc _]%andb_true_iff [= <- _].
  unfold word_byte in Hc. apply andb_true_iff in Hc as [_ Hc]. by apply negb_true_iff in Hc.
Qed.

Lemma skip_not_eof_word w t :
  forallb word_byte w = true → w ≠ [] →
  skip_not_eof (map bv w ++ t) = Some (map bv w ++ t).
Proof.
  intros Hw Hn. destruct (map bv w) as [|r l] eqn:E; [by destruct w|].
  unfold skip_not_eof. cbn [app]. rewrite skip_space_word; [done | by eapply word_not_space].
Qed.

Lemma scan_word_spec w t :
  forallb word_byte w = true → w ≠ [] →
  scan_word (map bv w ++ 32%N :: t) = Some (w, 32%N :: t).
Proof.
  intros Hw Hn. unfold scan_word. rewrite skip_not_eof_word by done. cbn [mbind option_bind].
  rewrite span_block.
  - f_equal. f_equal. by apply utf8_map_bv, word_byte_ascii.
  - rewrite forallb_forall in *. intros r Hr. apply in_map_iff in Hr as (c & <- & Hc).
    specialize (Hw c Hc). unfold word_byte in Hw. by apply andb_true_iff in Hw as [_ ?].
  - intros x r' [= <- _]. done.
Qed.

Lemma format_space_one w t :
  forallb word_byte w = true → w ≠ [] →
  format_space (32%N :: map bv w ++ t) = Some (map bv w ++ t).
Proof.
  intros Hw Hn. destruct (map bv w) as [|r l] eqn:E; [by destruct w|].
  apply (word_not_space w r l) in E; [|done]. cbn. by rewrite E.
Qed.

(** What can follow a number. *)
Definition digit_stop (t : list N) : Prop :=
  match t with [] => True | r :: _ => rune_digit r = false end.

Lemma scan_number_digits ds t :
  forallb is_digit ds = true → ds ≠ [] → digit_stop t →
  scan_number (map bv ds ++ t) = Some (ds, t).
Proof.
  intros Hd Hn Ht. unfold scan_number. rewrite span_block.
  - destruct ds as [|c ds]; [done|]. cbn [map]. f_equal. f_equal.
    rewrite chr_bv. f_equal. rewrite map_map. erewrite map_ext; [apply map_id | apply chr_bv].
  - rewrite forallb_forall in *. intros r Hr. apply in_map_iff in Hr as (c & <- & Hc).
    by apply Hd.
  - intros x r' ->. apply Ht.
Qed.

Lemma scan_uint_format n t :
  (n <= max_uint64)%N → digit_stop t →
  scan_uint (map bv (format_uint n) ++ t) = Some (Z.of_N n, t).
Proof.
  intros Hn Ht. unfold scan_uint.
  rewrite skip_not_eof_word by auto using digits_word with go. cbn [mbind option_bind].
  rewrite scan_number_digits by auto with go. cbn [mbind option_bind].
  by rewrite ParseUint_format.
Qed.

Lemma scan_int_digits n t :
  (Z.of_N n < 2 ^ 63)%Z → digit_stop t →
  scan_int (map bv (format_uint n) ++ t) = Some (Z.of_N n, t).
Proof.
  intros Hn Ht. unfold scan_int.
  rewrite skip_not_eof_word by auto using digits_word with go. cbn [mbind option_bind].
  pose proof (format_uint_digits n) as Hd. pose proof (format_uint_nonempty n) as Hne.
  pose proof (scan_number_digits _ t Hd Hne Ht) as Hs.
  destruct (format_uint n) as [|c r] eqn:E; [done|]. cbn [map app] in *.
  cbn [forallb] in Hd. apply andb_true_iff in Hd as [Hc _].
  assert ((bv c =? 43)%N || (bv c =? 45)%N = false) as ->.
  { apply negb_true_iff. clear -Hc. revert c Hc. by apply forall_byte_impl. }
  rewrite Hs. cbn [mbind option_bind app]. rewrite <- E.
  pose proof (ParseInt_format (Z.of_N n)) as Hp.
  unfold format_int in Hp. rewrite (proj2 (Z.ltb_ge _ _)), N2Z.id in Hp by lia.
  rewrite Hp by (unfold in_i64; lia). done.
Qed.

(** A sign in front of the number is taken with it. *)
Lemma scan_int_format z t :
  in_i64 z → digit_stop t → scan_int (map bv (format_int z) ++ t) = Some (z, t).
Proof.
  intros Hz Ht. pose proof (ParseInt_format z Hz) as Hp. unfold format_int in *.
  destruct (Z.ltb_spec z 0).
  - unfold scan_int. change (map bv (bs "-" ++ ?l)) with (45%N :: map bv l).
    set (u := format_uint _) in *. cbn [bs list_ascii_of_string app map] in *.
    change (bv "-") with 45%N. unfold skip_not_eof. rewrite skip_space_word by done.
    cbn [mbind option_bind]. change ((45 =? 43)%N || (45 =? 45)%N) with true. cbv iota.
    rewrite scan_number_digits by (subst u; auto with go). cbn [mbind option_bind].
    change ([chr 45] ++ u) with (bs "-" ++ u). by rewrite Hp.
  - unfold in_i64 in Hz. rewrite scan_int_digits by lia || done. f_equal. f_equal. lia.
Qed.

Lemma format_int_word z : forallb word_byte (format_int z) = true.
Proof.
  unfold format_int. destruct (z <? 0)%Z; [|auto using digits_word with go].
  apply forallb_app_iff. split; [done | auto using digits_word with go].
Qed.

(** A packet line as [Packet.Write] prints it is read back. *)
Lemma Sscanf_header_format ty n len :
  forallb word_byte ty = true → ty ≠ [] → in_u64 n → in_i64 len →
  Sscanf_header (ty ++ bs " " ++ format_uint (Z.to_N n) ++ bs " " ++ format_int len)
  = Some (ty, n, len).
Proof.
  intros Hty Hne Hn Hlen. unfold Sscanf_header, in_u64 in *.
  pose proof (format_uint_digits (Z.to_N n)) as Hdn. pose proof (format_int_word len) as Hdl.
  rewrite runes_ascii.
  2:{ unfold is_ascii. rewrite !forallb_app_iff. repeat split; try done;
      apply word_byte_ascii; auto using digits_word. }
  rewrite !map_app. change (map bv (bs " ")) with [32%N]. cbn [app].
  rewrite scan_word_spec by done. cbn [mbind option_bind].
  rewrite format_space_one by auto using digits_word with go. cbn [mbind option_bind].
  rewrite scan_uint_format by (unfold max_uint64; done || lia). cbn [mbind option_bind].
  rewrite <- (app_nil_r (map bv (format_int len))).
  rewrite format_space_one by auto with go. cbn [mbind option_bind].
  rewrite scan_int_format by done. cbn [mbind option_bind].
  by rewrite Z2N.id by lia.
Qed.

Lemma scan_uint_range l n r : scan_uint l = Some (n, r) → in_u64 n.
Proof.
  unfold scan_uint. destruct (skip_not_eof l); [|done]. cbn [mbind option_bind].
  destruct (scan_number _) as [[tok u]|]; [|done]. cbn [mbind option_bind].
  destruct (ParseUint tok) eqn:E; [done|]. intros [= <- _]. by eapply ParseUint_range.
Qed.

Lemma scan_int_range l n r : scan_int l = Some (n, r) → in_i64 n.
Proof.
  unfold scan_int. destruct (skip_not_eof l) as [t|]; [|done]. cbn [mbind option_bind].
  destruct (match t with [] => _ | _ => _ end) as [sg u].
  destruct (scan_number _) as [[tok v]|]; [|done]. cbn [mbind option_bind].
  destruct (ParseInt _) eqn:E; [done|]. intros [= <- _]. by eapply ParseInt_range.
Qed.

(** The numbers that were scanned fit their Go types. *)
Lemma Sscanf_header_range line ty n len :
  Sscanf_header line = Some (ty, n, len) → in_u64 n ∧ in_i64 len.
Proof.
  unfold Sscanf_header. destruct (scan_word _) as [[w l1]|]; [|done]. cbn [mbind option_bind].
  destruct (format_space l1) as [l2|]; [|done]. cbn [mbind option_bind].
  destruct (scan_uint l2) as [[m l3]|] eqn:Eu; [|done]. cbn [mbind option_bind].
  destruct (format_space l3) as [l4|]; [|done]. cbn [mbind option_bind].
  destruct (scan_int l4) as [[k l5]|] eqn:Ei; [|done]. cbn [mbind option_bind].
  intros [= _ <- <-]. eauto using scan_uint_range, scan_int_range.
Qed.
