(* ===== verification/GoStrings.v ===== *)
(** The functions of Go's [strings] and [bytes] the program calls. *)
From S2P Require Import Prelude Utf8.

(** [strings.HasPrefix]. *)
Fixpoint has_prefix (p s : bytes) : bool :=
  match p, s with
  | [], _ => true
  | a :: p', b :: s' => (a =b b) && has_prefix p' s'
  | _ :: _, [] => false
  end.

(** [strings.Contains(s, sub)]. *)
Fixpoint contains (sub s : bytes) : bool :=
  has_prefix sub s || match s with [] => false | _ :: r => contains sub r end.

(** [strings.Split(s, sep)] for a separator of one byte. *)
Fixpoint split_on (sep : byte) (s : bytes) : list bytes :=
  match s with
  | [] => [[]]
  | c :: r =>
      if c =b sep then [] :: split_on sep r
      else match split_on sep r with
           | [] => [[c]]
           | x :: l => (c :: x) :: l
           end
  end.

(** [strings.Join(l, sep)]. *)
Fixpoint join (sep : bytes) (l : list bytes) : bytes :=
  match l with
  | [] => []
  | [x] => x
  | x :: r => x ++ sep ++ join sep r
  end.

(** Drop the leading white space, rune by rune. *)
Fixpoint trim_left (fuel : nat) (s : bytes) : bytes :=
  match fuel, s with
  | S f, _ :: _ =>
      let '(r, w) := DecodeRune s in
      if is_space r then trim_left f (drop w s) else s
  | _, _ => s
  end.

(** [utf8.DecodeLastRune]: the longest suffix of at most four bytes that
    is one rune, or the last byte on its own. *)
Definition DecodeLastRune (s : bytes) : N * nat :=
  let try k := let t := drop (length s - k) s in
               (k <=? length s)%nat && ((DecodeRune t).2 =? k)%nat in
  if try 4 then DecodeRune (drop (length s - 4) s)
  else if try 3 then DecodeRune (drop (length s - 3) s)
  else if try 2 then DecodeRune (drop (length s - 2) s)
  else DecodeRune (drop (length s - 1) s).

Fixpoint trim_right (fuel : nat) (s : bytes) : bytes :=
  match fuel, s with
  | S f, _ :: _ =>
      let '(r, w) := DecodeLastRune s in
      if is_space r then trim_right f (take (length s - w) s) else s
  | _, _ => s
  end.

(** [strings.TrimSpace] and [bytes.TrimSpace]. *)
Definition trim_space (s : bytes) : bytes :=
  let t := trim_left (length s) s in trim_right (length t) t.

(** [strings.LastIndex(s, sep)] for one byte; [None] is -1. *)
Fixpoint last_index (sep : byte) (s : bytes) : option nat :=
  match s with
  | [] => None
  | c :: r =>
      match last_index sep r with
      | Some i => Some (S i)
      | None => if c =b sep then Some 0 else None
      end
  end.

(** [strings.Replace(s, old, new, -1)] for one byte. *)
Definition replace_byte (old new : byte) (s : bytes) : bytes :=
  map (λ c, if c =b old then new else c) s.

(** ** Lemmas *)

Lemma has_prefix_app p s : has_prefix p (p ++ s) = true.
Proof. induction p as [|a p IH]; [done|]. cbn. by rewrite bool_decide_true, IH. Qed.

Lemma contains_suffix sub a s : contains sub s = true → contains sub (a ++ s) = true.
Proof.
  intros H. induction a as [|c a IH]; [done|]. cbn. rewrite IH. apply orb_true_r.
Qed.

Lemma contains_prefix sub a s : contains sub a = true → contains sub (a ++ s) = true.
Proof.
  assert (∀ p q r, has_prefix p q = true → has_prefix p (q ++ r) = true) as Hp.
  { induction p as [|x p IH]; [done|]. intros [|y q] r; [done|]. cbn.
    intros [-> Hq]%andb_true_iff. by apply IH. }
  induction a as [|c a IH]; cbn.
  - rewrite orb_false_r. intros H. apply (Hp _ [] s) in H. by destruct s; cbn in *; rewrite H.
  - intros [H|H]%orb_true_iff.
    + apply (Hp _ (c :: a) s) in H. cbn in H. by rewrite H.
    + rewrite IH by done. apply orb_true_r.
Qed.

Lemma split_on_nonempty sep s : split_on sep s ≠ [].
Proof. destruct s as [|c r]; cbn; [done|]. case_bool_decide; [done|]. by destruct (split_on _ _). Qed.

Lemma join_cons sep x l : l ≠ [] → join sep (x :: l) = x ++ sep ++ join sep l.
Proof. by destruct l. Qed.

(** Splitting and joining. *)
Lemma join_split sep s : join [sep] (split_on sep s) = s.
Proof.
  induction s as [|c r IH]; [done|]. cbn [split_on]. pose proof (split_on_nonempty sep r).
  case_bool_decide as E.
  - subst. by rewrite join_cons, IH.
  - destruct (split_on sep r) as [|x l]; [done|]. rewrite <- IH. by destruct l.
Qed.

Lemma split_on_no_sep sep s : Forall (λ x, sep ∉ x) (split_on sep s).
Proof.
  induction s as [|c r IH]; cbn; [repeat constructor; set_solver|]. case_bool_decide as E.
  - constructor; [set_solver | done].
  - destruct (split_on sep r) as [|x l]; [repeat constructor; set_solver|].
    apply Forall_cons in IH as [Hx Hl]. constructor; [set_solver | done].
Qed.

Lemma split_on_none sep x : sep ∉ x → split_on sep x = [x].
Proof.
  induction x as [|c x IH]; [done|]. intros [Hc Hx]%not_elem_of_cons. cbn.
  rewrite bool_decide_false, IH by congruence. done.
Qed.

Lemma split_on_app sep x y : sep ∉ x → split_on sep (x ++ sep :: y) = x :: split_on sep y.
Proof.
  induction x as [|c x IH]; cbn.
  - intros _. by rewrite bool_decide_true.
  - intros [Hc Hx]%not_elem_of_cons. by rewrite bool_decide_false, IH by congruence.
Qed.

(** Joining and splitting. *)
Lemma split_join sep l :
  l ≠ [] → Forall (λ x, sep ∉ x) l → split_on sep (join [sep] l) = l.
Proof.
  intros Hne H. induction H as [|x l Hx Hl IH]; [done|]. destruct l as [|y l].
  - by apply split_on_none.
  - rewrite join_cons by done. cbn [app]. rewrite split_on_app by done. by rewrite IH.
Qed.

Lemma join_snoc sep l x : l ≠ [] → join sep (l ++ [x]) = join sep l ++ sep ++ x.
Proof.
  induction l as [|y l IH]; [done|]. intros _. destruct l as [|z l]; [done|].
  cbn [app]. rewrite (join_cons _ y (z :: l)) by done. rewrite join_cons by by destruct l.
  rewrite <- !app_assoc. f_equal. f_equal. by apply IH.
Qed.

(** ** Trimming ASCII text *)

Definition ascii_byte (c : byte) : bool := (bv c <? 128)%N.

Lemma DecodeRune_ascii_head c r : ascii_byte c = true → DecodeRune (c :: r) = (bv c, 1).
Proof. intros H%N.ltb_lt. unfold DecodeRune. by rewrite (proj2 (N.ltb_lt _ _) H). Qed.

Lemma DecodeLastRune_ascii s c :
  forallb ascii_byte (s ++ [c]) = true → DecodeLastRune (s ++ [c]) = (bv c, 1).
Proof.
  intros H.
  assert (∀ k, (1 < k)%nat → (k <=? length (s ++ [c]))%nat
    && ((DecodeRune (drop (length (s ++ [c]) - k) (s ++ [c]))).2 =? k)%nat = false) as Hk.
  { intros k Hk. apply andb_false_iff. destruct (Nat.leb_spec k (length (s ++ [c]))); [right|by left].
    destruct (drop _ (s ++ [c])) as [|d t] eqn:E.
    - apply (f_equal length) in E. rewrite length_drop in E. cbn in E. lia.
    - rewrite DecodeRune_ascii_head; [apply Nat.eqb_neq; cbn; lia|].
      rewrite <- (take_drop (length (s ++ [c]) - k) (s ++ [c])), E in H.
      apply forallb_app_iff in H as [_ H]. cbn in H. by apply andb_true_iff in H as []. }
  unfold DecodeLastRune. rewrite !Hk by lia.
  rewrite length_app. cbn [length]. replace (length s + 1 - 1)%nat with (length s) by lia.
  rewrite drop_app_exact. apply DecodeRune_ascii_head.
  apply forallb_app_iff in H as [_ H]. cbn in H. by apply andb_true_iff in H as [].
Qed.

(** ASCII text that starts and ends with something else than white space. *)
Lemma trim_space_ascii a s z :
  forallb ascii_byte (a :: s ++ [z]) = true → is_space (bv a) = false → is_space (bv z) = false →
  trim_space (a :: s ++ [z]) = a :: s ++ [z].
Proof.
  intros H Ha Hz. unfold trim_space.
  assert (trim_left (length (a :: s ++ [z])) (a :: s ++ [z]) = a :: s ++ [z]) as ->.
  { cbn [length trim_left]. rewrite DecodeRune_ascii_head, Ha; [done|]. cbn in H.
    by apply andb_true_iff in H as []. }
  cbn [length trim_right]. change (a :: s ++ [z]) with ((a :: s) ++ [z]).
  by rewrite DecodeLastRune_ascii, Hz.
Qed.
