(* ===== verification/Packet.v ===== *)
(** src/scamp/packet.go: packets on the wire.  [ReadPacket] and
    [Packet.Write] are translated statement by statement; the theorems say
    that what [Write] puts on any lawful writer, [ReadPacket] takes off the
    stream again, that a read always consumes input, and when it panics. *)
From S2P Require Import Prelude Strconv Utf8 Json JsonFacts GoIO Scan PacketHeader.

(** ** Data *)

Definition HEADER : Z := 0.
Definition DATA : Z := 1.
Definition EOF : Z := 2.
Definition TXERR : Z := 3.
Definition ACK : Z := 4.

Definition headerBytes : bytes := bs "HEADER".
Definition dataBytes : bytes := bs "DATA".
Definition eofBytes : bytes := bs "EOF".
Definition txerrBytes : bytes := bs "TXERR".
Definition ackBytes_lit : bytes := bs "ACK".
Definition theRestSize : Z := 5.
Definition theRestBytes : bytes := bs "END" ++ [CR; LF].

Record Packet := mkPacket {
  packetType : Z;
  msgNo : Z;
  packetHeader : PacketHeader;
  body : bytes
}.

(** ** Reading *)

Inductive read_error :=
| ReadlineError (e : bytes)        (* "readline error: %s" *)
| HeaderParts                      (* "header must have 3 parts" *)
| UnknownType (ty : bytes)         (* "unknown packet type `%s`" *)
| BodyError (e : bytes)            (* "failed to read body: `%s`" *)
| TrailingBytes                    (* "packet was missing trailing bytes" *)
| ParseHeaderError.                (* "parseHeader err: `%s`" *)

(** The chain of [bytes.Equal] tests. *)
Definition packet_type_of (pktTypeBytes : bytes) : option Z :=
  if headerBytes =b pktTypeBytes then Some HEADER
  else if dataBytes =b pktTypeBytes then Some DATA
  else if eofBytes =b pktTypeBytes then Some EOF
  else if txerrBytes =b pktTypeBytes then Some TXERR
  else if ackBytes_lit =b pktTypeBytes then Some ACK
  else None.

(** [pkt.parseHeader()] on a new packet, whose header is the zero value. *)
Definition parseHeader (b : bytes) : option PacketHeader := unmarshal_header zeroHeader b.

Definition ReadPacket (r : reader) : outcome read_error (Packet * reader) :=
  '(hdrBytes, r1) ← map_err ReadlineError (ReadLine r);
  '(pktTypeBytes, n, bodyBytesNeeded) ← or_err HeaderParts (Sscanf_header hdrBytes);
  ty ← or_err (UnknownType pktTypeBytes) (packet_type_of pktTypeBytes);
  _ ← make_bytes bodyBytesNeeded;
  '(b, r2) ← map_err BodyError (ReadFull r1 bodyBytesNeeded);
  '(theRest, r3) ← map_err (λ _, TrailingBytes) (ReadFull r2 theRestSize);
  if theRest =b theRestBytes then
    if ty =b HEADER then
      h ← or_err ParseHeaderError (parseHeader b);
      Ok (mkPacket ty n h [], r3)
    else Ok (mkPacket ty n zeroHeader b, r3)
  else Err TrailingBytes.

(** ** Writing *)

(** The text of the error [json] returns for a header it cannot marshal:
    the first field, in declaration order, whose [MarshalJSON] fails. *)
Definition header_error (h : PacketHeader) : bytes :=
  match marshal_envelope (ph_Envelope h) with
  | None => bs "json: error calling MarshalJSON for type scamp.envelopeFormat: unknown format `"
            ++ format_int (ph_Envelope h) ++ bs "`"
  | Some _ => bs "json: error calling MarshalJSON for type scamp.messageType: unknown message type `"
              ++ format_int (ph_MessageType h) ++ bs "`"
  end.

Definition type_bytes (ty : Z) : option bytes :=
  if ty =b HEADER then Some headerBytes
  else if ty =b DATA then Some dataBytes
  else if ty =b EOF then Some eofBytes
  else if ty =b TXERR then Some txerrBytes
  else if ty =b ACK then Some ackBytes_lit
  else None.

(** [bodyBytes], or the text of the error. *)
Definition body_bytes (pkt : Packet) : bytes + bytes :=
  if packetType pkt =b HEADER then
    match header_Write (packetHeader pkt) with
    | Some b => inr b
    | None => inl (bs "err writing packet header: " ++ header_error (packetHeader pkt))
    end
  else inr (body pkt).

(** [fmt.Fprintf(writer, "%s %d %d\r\n", ...)] formats, then writes once. *)
Definition packet_line (tyBytes : bytes) (n : Z) (len : nat) : bytes :=
  tyBytes ++ bs " " ++ format_uint (Z.to_N n) ++ bs " " ++ format_int (Z.of_nat len)
  ++ [CR; LF].

(** [func (pkt *Packet) Write(writer io.Writer) (written int, err error)]. *)
Definition packet_Write {W} `{Writer W} (pkt : Packet) (w : W) : W * nat * option bytes :=
  match type_bytes (packetType pkt) with
  | None => (w, 0, Some (bs "unknown packetType `" ++ format_int (packetType pkt) ++ bs "`"))
  | Some packetTypeBytes =>
      match body_bytes pkt with
      | inl e => (w, 0, Some e)
      | inr bodyBytes =>
          let '(w1, n1, e1) := write w (packet_line packetTypeBytes (msgNo pkt) (length bodyBytes)) in
          match e1 with
          | Some e => (w1, n1, Some (bs "err writing packet header: " ++ e))
          | None =>
              let '(w2, n2, e2) := write w1 bodyBytes in
              match e2 with
              | Some _ => (w2, n1 + n2, e2)
              | None =>
                  let '(w3, n3, e3) := write w2 theRestBytes in
                  (w3, n1 + n2 + n3, e3)
              end
          end
      end
  end.

(** ** Specification *)

(** The wire image of a packet. *)
Definition encode_packet (pkt : Packet) : option bytes :=
  tb ← type_bytes (packetType pkt);
  match body_bytes pkt with
  | inl _ => None
  | inr b => Some (packet_line tb (msgNo pkt) (length b) ++ b ++ theRestBytes)
  end.

(** What the other side makes of it: a header packet comes back without a
    body, any other packet without a header. *)
Definition received (pkt : Packet) : Packet :=
  if packetType pkt =b HEADER
  then mkPacket HEADER (msgNo pkt) (packetHeader pkt) []
  else mkPacket (packetType pkt) (msgNo pkt) zeroHeader (body pkt).

Definition body_length (pkt : Packet) : Z :=
  match body_bytes pkt with inr b => Z.of_nat (length b) | inl _ => 0 end.

(** Packets the wire format can carry. *)
Definition wf_packet (pkt : Packet) : Prop :=
  (0 ≤ packetType pkt ≤ 4)%Z ∧ in_u64 (msgNo pkt) ∧ (body_length pkt ≤ maxAlloc)%Z
  ∧ (packetType pkt = HEADER → wf_header (packetHeader pkt)).

(** ** Lemmas *)

Lemma type_bytes_of ty tb :
  type_bytes ty = Some tb →
  packet_type_of tb = Some ty ∧ forallb word_byte tb = true ∧ tb ≠ [] ∧ (length tb ≤ 6)%nat.
Proof.
  unfold type_bytes. intros H.
  repeat case_bool_decide; simplify_eq; (repeat split; [done..|vm_compute; lia]).
Qed.

Lemma type_bytes_Some ty : (0 ≤ ty ≤ 4)%Z → ∃ tb, type_bytes ty = Some tb.
Proof.
  intros H. assert (ty = 0 ∨ ty = 1 ∨ ty = 2 ∨ ty = 3 ∨ ty = 4)%Z as Hc by lia.
  destruct Hc as [->|[->|[->|[->| ->]]]]; eexists; reflexivity.
Qed.

Lemma packet_type_of_range tb ty : packet_type_of tb = Some ty → (0 ≤ ty ≤ 4)%Z.
Proof. unfold packet_type_of. intros H. repeat case_bool_decide; simplify_eq; done. Qed.

(** The line of a packet, without its CRLF. *)
Definition packet_line_text (tb : bytes) (n len : Z) : bytes :=
  tb ++ bs " " ++ format_uint (Z.to_N n) ++ bs " " ++ format_int len.

Lemma packet_line_eq tb n len :
  packet_line tb n len = packet_line_text tb n (Z.of_nat len) ++ [CR; LF].
Proof. unfold packet_line, packet_line_text. by rewrite <- !app_assoc. Qed.

Lemma word_not_lf l : forallb word_byte l = true → forallb not_lf l = true.
Proof.
  rewrite !forallb_forall. intros H c Hc. specialize (H c Hc).
  clear Hc. revert c H. by apply forall_byte_impl.
Qed.

Lemma format_int_length z : in_i64 z → (length (format_int z) ≤ 20)%nat.
Proof.
  intros H. unfold in_i64 in H. unfold format_int. destruct (Z.ltb_spec z 0).
  - rewrite length_app. change (length (bs "-")) with 1.
    pose proof (format_uint_length (Z.to_N (- z)) 18). lapply H1; [lia|]. cbn. lia.
  - pose proof (format_uint_length (Z.to_N z) 18). lapply H1; [lia|]. cbn. lia.
Qed.

Lemma format_u64_length n : in_u64 n → (length (format_uint (Z.to_N n)) ≤ 20)%nat.
Proof. intros H. unfold in_u64 in H. apply (format_uint_length _ 19). cbn. lia. Qed.

(** The line a packet begins with is read whole and scanned back. *)
Lemma read_packet_line tb n len t e :
  forallb word_byte tb = true → tb ≠ [] → (length tb ≤ 6)%nat → in_u64 n → in_i64 len →
  ReadLine (mkReader (packet_line_text tb n len ++ CR :: LF :: t) e)
  = Ok (packet_line_text tb n len, mkReader t e)
  ∧ Sscanf_header (packet_line_text tb n len) = Some (tb, n, len).
Proof.
  intros Hw Hne Hl Hn Hlen. split; [|by apply Sscanf_header_format]. apply ReadLine_crlf.
  - unfold packet_line_text. rewrite !forallb_app_iff.
    repeat split; try done; apply word_not_lf; auto using digits_word, format_int_word with go.
  - unfold packet_line_text. rewrite !length_app.
    change (length (bs " ")) with 1. unfold bufio_size.
    pose proof (format_u64_length n Hn). pose proof (format_int_length len Hlen). lia.
Qed.

Lemma ReadFull_rest t e :
  ReadFull (mkReader (theRestBytes ++ t) e) theRestSize = Ok (theRestBytes, mkReader t e).
Proof. exact (ReadFull_exact theRestBytes t e). Qed.

Lemma body_bytes_header pkt b :
  packetType pkt = HEADER → body_bytes pkt = inr b →
  header_Write (packetHeader pkt) = Some b.
Proof.
  intros Ht. unfold body_bytes. rewrite Ht. decide_bool.
  destruct (header_Write _); [|done]. by intros [= ->].
Qed.

Lemma body_bytes_header_not pkt b :
  body_bytes pkt = inr b → packetType pkt ≠ HEADER → body pkt = b.
Proof. unfold body_bytes. intros H Ht. rewrite bool_decide_false in H by done. by injection H. Qed.

Lemma make_bytes_ok {E} n : (0 ≤ n ≤ maxAlloc)%Z → make_bytes (E := E) n = Ok [].
Proof.
  intros H. unfold make_bytes. rewrite (proj2 (Z.ltb_ge _ _)), (proj2 (Z.ltb_ge _ _)) by lia. done.
Qed.

(** Reading the image of a packet, whatever follows it. *)
Lemma read_encoded pkt enc t e :
  wf_packet pkt → encode_packet pkt = Some enc →
  ReadPacket (mkReader (enc ++ t) e) = Ok (received pkt, mkReader t e).
Proof.
  intros (Hty & Hn & Hlen & Hh) Henc. unfold encode_packet in Henc.
  destruct (type_bytes_Some _ Hty) as [tb Htb]. rewrite Htb in Henc.
  cbn [mbind option_bind] in Henc. unfold body_length in Hlen.
  destruct (body_bytes pkt) as [|b] eqn:Hb; [done|]. apply (inj Some) in Henc. subst enc.
  destruct (type_bytes_of _ _ Htb) as (Hpt & Hw & Hne & Hl).
  assert (in_i64 (Z.of_nat (length b))) as Hi by (unfold in_i64, maxAlloc in *; lia).
  destruct (read_packet_line tb (msgNo pkt) (Z.of_nat (length b)) (b ++ theRestBytes ++ t) e
    Hw Hne Hl Hn Hi) as [Hr Hs].
  rewrite packet_line_eq, <- !app_assoc. cbn [app]. unfold ReadPacket.
  rewrite Hr. go_simpl. rewrite Hs. go_simpl. rewrite Hpt. go_simpl.
  rewrite make_bytes_ok by lia. go_simpl. rewrite ReadFull_exact. go_simpl.
  rewrite ReadFull_rest. go_simpl. rewrite bool_decide_true by done. unfold received.
  case_bool_decide as E; [|by rewrite (body_bytes_header_not _ _ Hb E)].
  pose proof (body_bytes_header _ _ E Hb) as Hhw. unfold parseHeader.
  rewrite (unmarshal_header_Write _ _ (Hh E) Hhw). go_simpl. by rewrite E.
Qed.

(** [Write] on a lawful writer appends exactly the image. *)
Lemma packet_Write_encode {W} `{WriterLaws W} pkt (w w' : W) n :
  packet_Write pkt w = (w', n, None) →
  ∃ enc, encode_packet pkt = Some enc ∧ written w' = written w ++ enc ∧ n = length enc.
Proof.
  unfold packet_Write, encode_packet. destruct (type_bytes _) as [tb|]; [|done].
  destruct (body_bytes pkt) as [|b]; [done|].
  destruct (write w _) as [[w1 n1] [e1|]] eqn:E1; [done|].
  destruct (write w1 _) as [[w2 n2] [e2|]] eqn:E2; [done|].
  destruct (write w2 _) as [[w3 n3] [e3|]] eqn:E3; [done|]. intros [= <- <-].
  apply write_ok in E1 as [E1 ->], E2 as [E2 ->], E3 as [E3 ->].
  eexists. split; [reflexivity|]. rewrite E3, E2, E1, <- !app_assoc. split; [done|].
  rewrite !length_app. lia.
Qed.

(** A packet that cannot be encoded leaves the writer alone. *)
Lemma packet_Write_unencodable {W} `{Writer W} pkt (w : W) :
  encode_packet pkt = None → ∃ e, packet_Write pkt w = (w, 0, Some e).
Proof.
  unfold packet_Write, encode_packet. destruct (type_bytes _); [|by eauto].
  cbn [mbind option_bind]. destruct (body_bytes pkt); [by eauto|done].
Qed.

Lemma encode_packet_None pkt :
  (0 ≤ packetType pkt ≤ 4)%Z →
  encode_packet pkt = None ↔
  packetType pkt = HEADER ∧ header_Write (packetHeader pkt) = None.
Proof.
  intros Hty. destruct (type_bytes_Some _ Hty) as [tb Htb].
  unfold encode_packet, body_bytes. rewrite Htb. cbn [mbind option_bind].
  case_bool_decide; [|by split; [|intros []]].
  destruct (header_Write _); split; try done. by intros [].
Qed.

Lemma ReadLine_split r l r' :
  ReadLine r = Ok (l, r') → ∃ a, rd_data r = a ++ rd_data r' ∧ rd_err r' = rd_err r.
Proof.
  unfold ReadLine. destruct (span _ _) as [a b] eqn:Es. intros H.
  assert (∀ k, ∃ a, rd_data r = a ++ drop k (rd_data r) ∧ rd_err r = rd_err r) as Hk.
  { intros k. exists (take k (rd_data r)). by rewrite take_drop. }
  destruct b as [|c b]; [|injection H as <- <-; apply Hk].
  destruct (_ <=? _)%nat; [injection H as <- <-; apply Hk|].
  destruct (rd_data r) eqn:E; [done|]. injection H as <- <-. exists (a0 :: l0).
  cbn. by rewrite app_nil_r.
Qed.

Lemma ReadFull_split r n b r' :
  ReadFull r n = Ok (b, r') → rd_data r = b ++ rd_data r' ∧ rd_err r' = rd_err r.
Proof.
  unfold ReadFull. intros H. destruct (_ <=? _)%Z.
  - injection H as <- <-. cbn. by rewrite take_drop.
  - by destruct (rd_data r).
Qed.

Lemma ReadLine_no_panic r w : ReadLine r ≠ Panic w.
Proof.
  unfold ReadLine. destruct (span _ _) as [a [|c b]]; [|done].
  destruct (_ <=? _)%nat; [done|]. by destruct (rd_data r).
Qed.

Lemma ReadFull_no_panic r n w : ReadFull r n ≠ Panic w.
Proof. unfold ReadFull. destruct (_ <=? _)%Z; [done|]. by destruct (rd_data r). Qed.

Lemma make_bytes_Ok {E} n b : make_bytes (E := E) n = Ok b → (0 ≤ n ≤ maxAlloc)%Z.
Proof.
  unfold make_bytes. destruct (Z.ltb_spec n 0), (Z.ltb_spec maxAlloc n); done || lia.
Qed.

(** The steps behind a packet that was read. *)
Lemma ReadPacket_inv r pkt r' :
  ReadPacket r = Ok (pkt, r') →
  ∃ line r1 tb len b r2,
    ReadLine r = Ok (line, r1) ∧ Sscanf_header line = Some (tb, msgNo pkt, len)
    ∧ packet_type_of tb = Some (packetType pkt) ∧ (0 ≤ len ≤ maxAlloc)%Z
    ∧ ReadFull r1 len = Ok (b, r2) ∧ ReadFull r2 theRestSize = Ok (theRestBytes, r')
    ∧ if packetType pkt =b HEADER
      then parseHeader b = Some (packetHeader pkt) ∧ body pkt = []
      else packetHeader pkt = zeroHeader ∧ body pkt = b.
Proof.
  unfold ReadPacket. intros H. step_ok H x E1. destruct x as [line r1]. go_simpl.
  step_ok H x E2. destruct x as [[tb n] len]. step_ok H ty E3. step_ok H u E4.
  step_ok H x E5. destruct x as [b r2]. step_ok H x E6. destruct x as [t r3]. go_simpl.
  apply map_err_Ok in E1, E5, E6. apply or_err_Ok in E2, E3. apply make_bytes_Ok in E4.
  case_bool_decide as Ht; [subst t|discriminate H].
  case_bool_decide as Hty.
  - step_ok H h E7. apply or_err_Ok in E7. injection H as <- <-.
    exists line, r1, tb, len, b, r2. cbn. rewrite bool_decide_true by done. done.
  - injection H as <- <-. exists line, r1, tb, len, b, r2. cbn.
    rewrite bool_decide_false by done. done.
Qed.

(** ** Properties *)

(** C11. Round trip: when [Packet.Write] reports success on any lawful
    writer, the bytes it appended are read back by [ReadPacket] as the same
    packet (as [received] describes), whatever comes next on the stream. *)
Theorem write_read_packet {W} `{WriterLaws W} (w w' : W) pkt n t e :
  wf_packet pkt → packet_Write pkt w = (w', n, None) →
  ∃ enc, written w' = written w ++ enc ∧ n = length enc
         ∧ ReadPacket (mkReader (enc ++ t) e) = Ok (received pkt, mkReader t e).
Proof.
  intros Hwf Hw. apply packet_Write_encode in Hw as (enc & Henc & Ho & Hn).
  exists enc. auto using read_encoded.
Qed.

(** C30. A packet that [ReadPacket] returns was cut off the front of the
    stream, ending in END CR LF; its type is one of the five, its number a
    [uint64], and it carries a header or a body according to its type. *)
Theorem ReadPacket_sound r pkt r' :
  ReadPacket r = Ok (pkt, r') →
  (∃ pre, rd_data r = pre ++ theRestBytes ++ rd_data r') ∧ rd_err r' = rd_err r
  ∧ (0 ≤ packetType pkt ≤ 4)%Z ∧ in_u64 (msgNo pkt)
  ∧ (packetType pkt = HEADER → body pkt = [])
  ∧ (packetType pkt ≠ HEADER → packetHeader pkt = zeroHeader).
Proof.
  intros (line & r1 & tb & len & b & r2 & E1 & E2 & E3 & _ & E5 & E6 & H)%ReadPacket_inv.
  apply ReadLine_split in E1 as (a & Ha & He1).
  apply ReadFull_split in E5 as [Hb He2], E6 as [Hc He3].
  split; [|split; [|split; [|split; [|split]]]].
  - exists (a ++ b). by rewrite Ha, Hb, Hc, <- app_assoc.
  - congruence.
  - exact (packet_type_of_range _ _ E3).
  - exact (proj1 (Sscanf_header_range _ _ _ _ E2)).
  - intros Ht. rewrite bool_decide_true in H by done. by destruct H.
  - intros Ht. rewrite bool_decide_false in H by done. by destruct H.
Qed.

(** [ReadPacket] panics exactly when the line parses, names a known type
    and declares a length that is negative or beyond what the runtime can
    allocate. *)
Theorem ReadPacket_panics r :
  (∃ w, ReadPacket r = Panic w) ↔
  ∃ line r1 tb ty n len,
    ReadLine r = Ok (line, r1) ∧ Sscanf_header line = Some (tb, n, len)
    ∧ packet_type_of tb = Some ty ∧ (len < 0 ∨ maxAlloc < len)%Z.
Proof.
  split.
  - intros [w H]. unfold ReadPacket in H. step_ok H x E1.
    2:{ by apply map_err_Panic, ReadLine_no_panic in E1. }
    destruct x as [line r1]. go_simpl. apply map_err_Ok in E1.
    step_ok H x E2; [|by destruct (Sscanf_header line)]. apply or_err_Ok in E2.
    destruct x as [[tb n] len].
    step_ok H ty E3; [|by destruct (packet_type_of tb)]. apply or_err_Ok in E3.
    exists line, r1, tb, ty, n, len. repeat split; try done.
    unfold make_bytes in H.
    destruct (Z.ltb_spec len 0), (Z.ltb_spec maxAlloc len); try lia. exfalso.
    cbn [orb] in H. go_simpl.
    step_ok H x E5; [|by apply map_err_Panic, ReadFull_no_panic in E5]. destruct x as [b r2].
    step_ok H x E6; [|by apply map_err_Panic, ReadFull_no_panic in E6]. destruct x as [t r3].
    go_simpl. repeat case_bool_decide; try done. destruct (parseHeader b); done.
  - intros (line & r1 & tb & ty & n & len & E1 & E2 & E3 & Hlen).
    exists (bs "makeslice: len out of range"). unfold ReadPacket. rewrite E1. go_simpl.
    rewrite E2. go_simpl. rewrite E3. go_simpl. unfold make_bytes.
    destruct (Z.ltb_spec len 0), (Z.ltb_spec maxAlloc len); done || lia.
Qed.

(** A peer can crash the process: a packet line with a negative length,
    of any type and number and followed by anything, makes [ReadPacket]
    panic instead of returning an error. *)
Theorem negative_length_panics ty tb n len t e :
  type_bytes ty = Some tb → in_u64 n → (- 2 ^ 63 ≤ len < 0)%Z →
  ReadPacket (mkReader (packet_line_text tb n len ++ [CR; LF] ++ t) e)
  = Panic (bs "makeslice: len out of range").
Proof.
  intros Ht Hn Hlen. destruct (type_bytes_of _ _ Ht) as (Hpt & Hw & Hne & Hl).
  assert (in_i64 len) as Hi by (unfold in_i64; lia).
  destruct (read_packet_line tb n len t e Hw Hne Hl Hn Hi) as [Hr Hs].
  cbn [app]. unfold ReadPacket. rewrite Hr. go_simpl. rewrite Hs. go_simpl. rewrite Hpt.
  go_simpl. unfold make_bytes. by rewrite (proj2 (Z.ltb_lt _ _)) by lia.
Qed.

(** [Write] fails without touching the writer when the packet has no
    encoding, and for a packet type the protocol knows that happens exactly
    when it is a HEADER whose envelope or message type is not named. *)
Theorem packet_Write_error {W} `{WriterLaws W} (w : W) pkt :
  (0 ≤ packetType pkt ≤ 4)%Z →
  (packetType pkt = HEADER ∧ header_Write (packetHeader pkt) = None →
   ∃ e, packet_Write pkt w = (w, 0, Some e))
  ∧ (∀ w' n, packet_Write pkt w = (w', n, None) →
     ¬ (packetType pkt = HEADER ∧ header_Write (packetHeader pkt) = None)).
Proof.
  intros Hty. pose proof (encode_packet_None pkt Hty) as Hn. split.
  - intros Hh. by apply packet_Write_unencodable, Hn.
  - intros w' n Hw Hh. apply Hn in Hh. apply packet_Write_encode in Hw as (enc & E & _).
    congruence.
Qed.

(** ** Concrete packets *)

(** A literal with apostrophes for its double quotes. *)
Definition bsq (s : string) : bytes :=
  map (λ c, if c =b "'"%char then quote_char else c) (bs s).

Definition hello_header : PacketHeader :=
  mkPacketHeader (bs "hello.helloworld") EnvelopeJSON [] [] 1 2 [] [] MessageTypeRequest 1.

(** The expectation of TestWritePacketHeader. *)
Example hello_header_text :
  header_Write hello_header =
  Some (bsq "{'action':'hello.helloworld','envelope':'json','request_id':1,'client_id':2,'ticket':'','identifying_token':'','type':'request','version':1}"
        ++ [LF]).
Proof. vm_compute. reflexivity. Qed.

(** TestReadHeaderPacketOK and TestReadDataPacketOK. *)
Definition foo_json : bytes := bsq "{'action':'foo','version':1,'envelope':'json'}".

Example read_header_ok :
  ReadPacket (mkReader (bs "HEADER 1 46" ++ [CR; LF] ++ foo_json ++ theRestBytes) io_EOF)
  = Ok (mkPacket HEADER 1 (mkPacketHeader (bs "foo") EnvelopeJSON [] [] 0 0 [] [] 0 1) [],
        mkReader [] io_EOF).
Proof. vm_compute. reflexivity. Qed.

Example read_data_ok :
  ReadPacket (mkReader (bs "DATA 1 46" ++ [CR; LF] ++ foo_json ++ theRestBytes) io_EOF)
  = Ok (mkPacket DATA 1 zeroHeader foo_json, mkReader [] io_EOF).
Proof. vm_compute. reflexivity. Qed.

(** TestFailGarbage and TestFailHeaderParams. *)
Example read_garbage : ReadPacket (mkReader (bs "asdfasdf") io_EOF) = Err HeaderParts.
Proof. vm_compute. reflexivity. Qed.

Example read_header_params :
  ReadPacket (mkReader (bs "HEADER 1" ++ [CR; LF] ++ foo_json ++ theRestBytes) io_EOF)
  = Err HeaderParts.
Proof. vm_compute. reflexivity. Qed.

Lemma hello_header_wf : wf_header hello_header.
Proof.
  do 5 (split; [by apply valid_utf8_ascii|]). do 3 (split; [by vm_compute|]).
  split; by left.
Qed.

Lemma hello_packet_wf : wf_packet (mkPacket HEADER 7 hello_header []).
Proof.
  split; [by vm_compute|]. split; [by vm_compute|]. split; [by vm_compute|].
  intros _; exact hello_header_wf.
Qed.

Lemma write_read_packet_witness :
  wf_packet (mkPacket HEADER 7 hello_header [])
  ∧ ∃ enc, (packet_Write (mkPacket HEADER 7 hello_header []) (bs "old")).1.1 = bs "old" ++ enc
    ∧ ReadPacket (mkReader (enc ++ bs "next") io_EOF)
      = Ok (mkPacket HEADER 7 hello_header [], mkReader (bs "next") io_EOF).
Proof.
  split; [exact hello_packet_wf|].
  destruct (packet_Write (mkPacket HEADER 7 hello_header []) (bs "old")) as [[w' n] e] eqn:E.
  assert (e = None) as -> by (vm_compute in E; congruence).
  destruct (write_read_packet (bs "old") w' _ n (bs "next") io_EOF hello_packet_wf E)
    as (enc & H1 & _ & H2).
  exists enc. split; [exact H1 | exact H2].
Defined.

Lemma ReadPacket_sound_witness :
  ReadPacket (mkReader (bs "EOF 3 0" ++ [CR; LF] ++ theRestBytes ++ bs "x") io_EOF)
  = Ok (mkPacket EOF 3 zeroHeader [], mkReader (bs "x") io_EOF)
  ∧ (0 ≤ EOF ≤ 4)%Z.
Proof.
  split; [vm_compute; reflexivity|].
  destruct (ReadPacket_sound (mkReader (bs "EOF 3 0" ++ [CR; LF] ++ theRestBytes ++ bs "x") io_EOF)
    (mkPacket EOF 3 zeroHeader []) (mkReader (bs "x") io_EOF)) as (_ & _ & H & _);
    [vm_compute; reflexivity | exact H].
Defined.

Lemma negative_length_panics_witness :
  ReadPacket (mkReader (bs "DATA 0 -5" ++ [CR; LF] ++ bs "END") io_EOF)
  = Panic (bs "makeslice: len out of range").
Proof.
  exact (negative_length_panics DATA dataBytes 0 (-5) (bs "END") io_EOF eq_refl
           ltac:(vm_compute; split; congruence) ltac:(vm_compute; split; congruence)).
Defined.

Lemma packet_Write_error_witness :
  ∃ e, packet_Write (mkPacket HEADER 0 zeroHeader []) (bs "old") = (bs "old", 0, Some e).
Proof.
  destruct (packet_Write_error (bs "old") (mkPacket HEADER 0 zeroHeader [])) as [H _];
    [vm_compute; split; congruence|].
  apply H. split; reflexivity.
Defined.
