(* ===== verification/Message.v ===== *)
(** src/scamp/message.go: a message as a sequence of packets.  [Write] and
    [WriteJSON] append data packets, [toPackets] frames them with a header
    and an EOF packet, [Bytes] reads the body back. *)
From S2P Require Import Prelude GoIO PacketHeader Packet.

(** ** Data *)

Record Message := mkMessage {
  m_Action : bytes;
  m_Envelope : Z;
  m_RequestID : Z;
  m_ClientID : Z;
  m_Version : Z;
  m_MessageType : Z;
  m_packets : list Packet;
  m_bytesWritten : Z;
  m_Ticket : bytes;
  m_IdentifyingToken : bytes;
  m_Error : bytes;
  m_ErrorCode : bytes
}.

(** [new(Message)]. *)
Definition NewMessage : Message := mkMessage [] 0 0 0 0 0 [] 0 [] [] [] [].

Definition SetAction (x : bytes) (m : Message) : Message :=
  mkMessage x (m_Envelope m) (m_RequestID m) (m_ClientID m) (m_Version m) (m_MessageType m)
    (m_packets m) (m_bytesWritten m) (m_Ticket m) (m_IdentifyingToken m) (m_Error m)
    (m_ErrorCode m).
Definition SetEnvelope (x : Z) (m : Message) : Message :=
  mkMessage (m_Action m) x (m_RequestID m) (m_ClientID m) (m_Version m) (m_MessageType m)
    (m_packets m) (m_bytesWritten m) (m_Ticket m) (m_IdentifyingToken m) (m_Error m)
    (m_ErrorCode m).
Definition SetVersion (x : Z) (m : Message) : Message :=
  mkMessage (m_Action m) (m_Envelope m) (m_RequestID m) (m_ClientID m) x (m_MessageType m)
    (m_packets m) (m_bytesWritten m) (m_Ticket m) (m_IdentifyingToken m) (m_Error m)
    (m_ErrorCode m).
Definition SetMessageType (x : Z) (m : Message) : Message :=
  mkMessage (m_Action m) (m_Envelope m) (m_RequestID m) (m_ClientID m) (m_Version m) x
    (m_packets m) (m_bytesWritten m) (m_Ticket m) (m_IdentifyingToken m) (m_Error m)
    (m_ErrorCode m).
Definition SetRequestID (x : Z) (m : Message) : Message :=
  mkMessage (m_Action m) (m_Envelope m) x (m_ClientID m) (m_Version m) (m_MessageType m)
    (m_packets m) (m_bytesWritten m) (m_Ticket m) (m_IdentifyingToken m) (m_Error m)
    (m_ErrorCode m).
Definition SetClientID (x : Z) (m : Message) : Message :=
  mkMessage (m_Action m) (m_Envelope m) (m_RequestID m) x (m_Version m) (m_MessageType m)
    (m_packets m) (m_bytesWritten m) (m_Ticket m) (m_IdentifyingToken m) (m_Error m)
    (m_ErrorCode m).
Definition SetTicket (x : bytes) (m : Message) : Message :=
  mkMessage (m_Action m) (m_Envelope m) (m_RequestID m) (m_ClientID m) (m_Version m)
    (m_MessageType m) (m_packets m) (m_bytesWritten m) x (m_IdentifyingToken m) (m_Error m)
    (m_ErrorCode m).
Definition SetIdentifyingToken (x : bytes) (m : Message) : Message :=
  mkMessage (m_Action m) (m_Envelope m) (m_RequestID m) (m_ClientID m) (m_Version m)
    (m_MessageType m) (m_packets m) (m_bytesWritten m) (m_Ticket m) x (m_Error m)
    (m_ErrorCode m).
Definition SetError (x : bytes) (m : Message) : Message :=
  mkMessage (m_Action m) (m_Envelope m) (m_RequestID m) (m_ClientID m) (m_Version m)
    (m_MessageType m) (m_packets m) (m_bytesWritten m) (m_Ticket m) (m_IdentifyingToken m) x
    (m_ErrorCode m).
Definition SetErrorCode (x : bytes) (m : Message) : Message :=
  mkMessage (m_Action m) (m_Envelope m) (m_RequestID m) (m_ClientID m) (m_Version m)
    (m_MessageType m) (m_packets m) (m_bytesWritten m) (m_Ticket m) (m_IdentifyingToken m)
    (m_Error m) x.

(** The packet list and the byte count, as the write operations set them. *)
Definition set_packets (ps : list Packet) (n : Z) (m : Message) : Message :=
  mkMessage (m_Action m) (m_Envelope m) (m_RequestID m) (m_ClientID m) (m_Version m)
    (m_MessageType m) ps n (m_Ticket m) (m_IdentifyingToken m) (m_Error m) (m_ErrorCode m).

Definition NewRequestMessage : Message := SetMessageType 1 NewMessage.
Definition NewResponseMessage : Message := SetMessageType 2 NewMessage.

Definition GetError : Message → bytes := m_Error.
Definition GetErrorCode : Message → bytes := m_ErrorCode.
Definition GetClientID : Message → Z := m_ClientID.
Definition GetTicket : Message → bytes := m_Ticket.
Definition GetIdentifyingToken : Message → bytes := m_IdentifyingToken.
Definition BytesWritten : Message → Z := m_bytesWritten.

(** [&Packet{packetType: DATA, body: blob}]. *)
Definition data_packet (blob : bytes) : Packet := mkPacket DATA 0 zeroHeader blob.

(** [func (msg *Message) Write(blob []byte) (n int, err error)]; never an error. *)
Definition msg_Write (blob : bytes) (m : Message) : Message * nat :=
  (set_packets (m_packets m ++ [data_packet blob])
     (u64 (m_bytesWritten m + Z.of_nat (length blob))) m, length blob).

Definition msgChunkSize : nat := Z.to_nat (128 * 1024).

(** The loop of [WriteJSON], with the packets it appends.  [None]: the loop
    has not ended within the fuel. *)
Fixpoint chunk_loop (fuel : nat) (size : nat) (slice : bytes) : option (list Packet) :=
  match fuel with
  | O => None
  | S f =>
      if (length slice <? size)%nat then Some [data_packet slice]
      else
        let chunk := take size slice in
        ps ← chunk_loop f size (drop size slice);
        Some (data_packet chunk :: ps)
  end.

(** [WriteJSON], given what [json.NewEncoder(&buf).Encode(data)] left in the
    buffer or its error.  The result is the message, [n] (which the code
    never sets) and the error.  [size] is the package variable
    [msgChunkSize]; one round per byte of the text is enough fuel. *)
Definition WriteJSON (size : nat) (encoded : bytes + bytes) (m : Message)
    : option (Message * Z * option bytes) :=
  match encoded with
  | inl err => Some (m, 0%Z, Some err)
  | inr buf =>
      let n' := u64 (m_bytesWritten m + Z.of_nat (length buf)) in
      if (size <? length buf)%nat then
        ps ← chunk_loop (S (length buf)) size buf;
        Some (set_packets (m_packets m ++ ps) n' m, 0%Z, None)
      else Some (set_packets (m_packets m ++ [data_packet buf]) n' m, 0%Z, None)
  end.

Definition header_of (m : Message) : PacketHeader :=
  mkPacketHeader (m_Action m) (m_Envelope m) (m_Error m) (m_ErrorCode m) (m_RequestID m)
    (m_ClientID m) (m_Ticket m) (m_IdentifyingToken m) (m_MessageType m) (m_Version m).

(** [dataPacket.msgNo = msgNo]. *)
Definition set_msgNo (n : Z) (p : Packet) : Packet :=
  mkPacket (packetType p) n (packetHeader p) (body p).

(** [toPackets]: the packets to send, and the message, whose own packets
    have been renumbered in place. *)
Definition toPackets (n : Z) (m : Message) : list Packet * Message :=
  let ds := map (set_msgNo n) (m_packets m) in
  ([mkPacket HEADER n (header_of m) []] ++ ds ++ [mkPacket EOF n zeroHeader []],
   set_packets ds (m_bytesWritten m) m).

(** [func (msg *Message) Bytes() []byte]. *)
Definition msg_Bytes (m : Message) : bytes := concat (map body (m_packets m)).

(** ** Invariant *)

(** The counter counts the bytes of the packets, modulo [2^64]; every packet
    is a data packet. *)
Definition msg_inv (m : Message) : Prop :=
  m_bytesWritten m = u64 (Z.of_nat (length (msg_Bytes m)))
  ∧ Forall (λ p, packetType p = DATA) (m_packets m).

(** ** Lemmas *)

Lemma concat_bodies_app a b :
  concat (map body (a ++ b)) = concat (map body a) ++ concat (map body b).
Proof. by rewrite map_app, concat_app. Qed.

Lemma bodies_renumbered n ps : map body (map (set_msgNo n) ps) = map body ps.
Proof. rewrite map_map. by apply map_ext. Qed.

Definition is_data (p : Packet) : Prop := p = data_packet (body p).

(** Full chunks and one shorter one, possibly empty. *)
Lemma chunk_loop_spec fuel size slice :
  (0 < size)%nat → (length slice < fuel)%nat →
  ∃ ps q, chunk_loop fuel size slice = Some (ps ++ [q])
    ∧ concat (map body (ps ++ [q])) = slice
    ∧ Forall (λ p, is_data p ∧ length (body p) = size) ps
    ∧ is_data q ∧ (length (body q) < size)%nat.
Proof.
  intros Hs. revert slice. induction fuel as [|f IH]; intros slice Hf; [lia|]. cbn [chunk_loop].
  destruct (Nat.ltb_spec (length slice) size).
  - exists [], (data_packet slice). cbn. by rewrite app_nil_r.
  - destruct (IH (drop size slice)) as (ps & q & -> & Hc & Hall & Hq);
      [rewrite length_drop; lia|].
    exists (data_packet (take size slice) :: ps), q. split; [done|]. split; [|split; [|done]].
    + cbn [app map concat]. rewrite Hc. apply take_drop.
    + constructor; [|done]. cbn. rewrite length_take. split; [done | lia].
Qed.

Lemma msg_Bytes_append ps n m :
  msg_Bytes (set_packets (m_packets m ++ ps) n m) = msg_Bytes m ++ concat (map body ps).
Proof. apply concat_bodies_app. Qed.

Lemma msg_inv_append m ps :
  msg_inv m → Forall is_data ps →
  msg_inv (set_packets (m_packets m ++ ps)
    (u64 (m_bytesWritten m + Z.of_nat (length (concat (map body ps))))) m).
Proof.
  intros [Hn Hd] Hps. split.
  - rewrite msg_Bytes_append, length_app, Nat2Z.inj_add. cbn. by rewrite Hn, u64_add_l.
  - cbn. apply Forall_app. split; [done|]. eapply Forall_impl; [exact Hps|].
    intros p ->. done.
Qed.

Lemma msg_Write_inv b m : msg_inv m → msg_inv (msg_Write b m).1.
Proof.
  intros H. pose proof (msg_inv_append m [data_packet b] H) as Hi.
  cbn in Hi. rewrite app_nil_r in Hi. apply Hi. by constructor.
Qed.

Lemma toPackets_inv n m : msg_inv m → msg_inv (toPackets n m).2.
Proof.
  intros [Hn Hd]. unfold toPackets, msg_inv, msg_Bytes. cbn. rewrite bodies_renumbered.
  split; [done|]. rewrite Forall_map. eapply Forall_impl; [exact Hd|]. done.
Qed.

(** ** Properties *)

(** C31. [WriteJSON] with a positive chunk size always ends, without error:
    it appends the encoded text, cut into data packets of exactly the chunk
    size and a last one that is not longer (shorter if there are several);
    it reports [n = 0]; the byte counter keeps counting the packets. *)
Theorem WriteJSON_chunks size buf m :
  (0 < size)%nat → msg_inv m →
  ∃ ps q m', WriteJSON size (inr buf) m = Some (m', 0%Z, None)
    ∧ m_packets m' = m_packets m ++ ps ++ [q]
    ∧ msg_Bytes m' = msg_Bytes m ++ buf
    ∧ Forall (λ p, is_data p ∧ length (body p) = size) ps
    ∧ is_data q ∧ (length (body q) ≤ size)%nat
    ∧ msg_inv m'.
Proof.
  intros Hs Hinv. unfold WriteJSON. destruct (Nat.ltb_spec size (length buf)).
  - destruct (chunk_loop_spec (S (length buf)) size buf Hs) as (ps & q & -> & Hc & Hp & Hq & Hl);
      [lia|]. cbn [mbind option_bind].
    eexists ps, q, _. split; [done|]. split; [done|]. rewrite msg_Bytes_append, Hc.
    split; [done|]. split; [done|]. split; [done|]. split; [lia|].
    rewrite <- Hc at 1. apply msg_inv_append; [done|]. apply Forall_app. split; [|by constructor].
    eapply Forall_impl; [exact Hp|]. by intros p [].
  - eexists [], (data_packet buf), _. split; [done|]. split; [done|].
    rewrite msg_Bytes_append. cbn [map concat body data_packet]. rewrite app_nil_r.
    split; [done|]. split; [done|]. split; [done|]. split; [cbn; lia|].
    pose proof (msg_inv_append m [data_packet buf] Hinv) as Hi. cbn in Hi.
    rewrite app_nil_r in Hi. apply Hi. by constructor.
Qed.

(** [toPackets] frames the body: a header packet with the message's
    fields first, an EOF packet last, every packet numbered [n], the data
    packets in between with the body unchanged; and the renumbered message
    still satisfies its invariant. *)
Theorem toPackets_frame n m :
  msg_inv m →
  let '(ps, m') := toPackets n m in
  (∃ ds, ps = mkPacket HEADER n (header_of m) [] :: ds ++ [mkPacket EOF n zeroHeader []]
         ∧ Forall (λ p, packetType p = DATA) ds ∧ concat (map body ds) = msg_Bytes m)
  ∧ Forall (λ p, msgNo p = n) ps ∧ msg_Bytes m' = msg_Bytes m ∧ header_of m' = header_of m
  ∧ msg_inv m'.
Proof.
  intros Hinv. pose proof (toPackets_inv n m Hinv) as Hi. destruct Hinv as [_ Hd].
  unfold toPackets in *. cbn [fst snd] in *. split; [|split; [|split; [|split]]].
  - exists (map (set_msgNo n) (m_packets m)). split; [done|]. split.
    + by rewrite Forall_map.
    + apply (f_equal (λ l, concat l)), bodies_renumbered.
  - constructor; [done|]. apply Forall_app. split; [|by constructor].
    rewrite Forall_map. by apply Forall_true.
  - apply (f_equal (λ l, concat l)), bodies_renumbered.
  - done.
  - done.
Qed.

Lemma msg_inv_new : msg_inv NewMessage.
Proof. by split. Qed.

Lemma WriteJSON_chunks_witness :
  ∃ m', WriteJSON 3 (inr (bs "abcdef")) NewMessage = Some (m', 0%Z, None)
        ∧ map body (m_packets m') = [bs "abc"; bs "def"; []].
Proof.
  destruct (WriteJSON_chunks 3 (bs "abcdef") NewMessage ltac:(lia) msg_inv_new)
    as (ps & q & m' & H & _).
  exists m'. split; [exact H|]. vm_compute in H. injection H as <-. reflexivity.
Defined.

Lemma toPackets_frame_witness :
  msg_inv (msg_Write (bs "hi") NewMessage).1
  ∧ msg_Bytes (toPackets 5 (msg_Write (bs "hi") NewMessage).1).2 = bs "hi".
Proof.
  assert (msg_inv (msg_Write (bs "hi") NewMessage).1) as Hi by apply msg_Write_inv, msg_inv_new.
  split; [exact Hi|].
  pose proof (toPackets_frame 5 (msg_Write (bs "hi") NewMessage).1 Hi) as H.
  destruct (toPackets _ _) as [ps m'] eqn:E. destruct H as (_ & _ & H & _). exact H.
Defined.
