(* ===== verification/Connection.v ===== *)
(** src/scamp/connection.go: numbering, framing and routing of messages on
    one connection.  The sending side writes packets through a
    [bufio.Writer] with the code's retry rules; the receiving side reads
    packets until an error and assembles messages.  The write tee of the
    protocol debugger is off ([enableWriteTee] is false and never set). *)
From S2P Require Import Prelude Strconv GoIO GoStrings PacketHeader Packet Message.

(** ** State

    [c_msgs] logs the messages sent on the channel [conn.msgs], in order. *)
Record Connection := mkConn {
  c_incomingmsgno : Z;
  c_outgoingmsgno : Z;
  c_pktToMsg : gmap Z Message;
  c_msgs : list Message;
  c_msgs_closed : bool;
  c_writer : bufwriter;
  c_isClosed : bool
}.

(** [NewConnection], before its reader goroutine runs. *)
Definition NewConnection (s : sink) : Connection :=
  mkConn 0 0 ∅ [] false (mkBuf [] None s) false.

(** The configuration [DialConnection] gives TLS: no verification of the
    peer, and the suites of the library with four of RSA added (by their
    numbers in [crypto/tls]). *)
Record tls_config := mkTls { InsecureSkipVerify : bool; CipherSuites : list Z }.

Definition dial_config (library_suites : list Z) : tls_config :=
  mkTls true (library_suites ++ [156; 157; 47; 53]%Z).

(** [func DialConnection(connspec string) (conn *Connection, err error)]. *)
Definition DialConnection (library_suites : list Z) (tls_Dial : tls_config → bytes → bytes + sink)
    (connspec : bytes) : bytes + Connection :=
  match tls_Dial (dial_config library_suites) connspec with
  | inl err => inl err
  | inr tlsConn => inr (NewConnection tlsConn)
  end.

Definition set_writer (w : bufwriter) (c : Connection) : Connection :=
  mkConn (c_incomingmsgno c) (c_outgoingmsgno c) (c_pktToMsg c) (c_msgs c) (c_msgs_closed c)
    w (c_isClosed c).
Definition set_tracked (t : gmap Z Message) (c : Connection) : Connection :=
  mkConn (c_incomingmsgno c) (c_outgoingmsgno c) t (c_msgs c) (c_msgs_closed c)
    (c_writer c) (c_isClosed c).
Definition deliver (m : Message) (c : Connection) : Connection :=
  mkConn (c_incomingmsgno c) (c_outgoingmsgno c) (c_pktToMsg c) (c_msgs c ++ [m])
    (c_msgs_closed c) (c_writer c) (c_isClosed c).
Definition next_incoming (c : Connection) : Connection :=
  mkConn (u64 (c_incomingmsgno c + 1)) (c_outgoingmsgno c) (c_pktToMsg c) (c_msgs c)
    (c_msgs_closed c) (c_writer c) (c_isClosed c).
Definition next_outgoing (c : Connection) : Connection :=
  mkConn (c_incomingmsgno c) (u64 (c_outgoingmsgno c + 1)) (c_pktToMsg c) (c_msgs c)
    (c_msgs_closed c) (c_writer c) (c_isClosed c).
Definition close_msgs (c : Connection) : Connection :=
  mkConn (c_incomingmsgno c) (c_outgoingmsgno c) (c_pktToMsg c) (c_msgs c) true
    (c_writer c) (c_isClosed c).

(** ** Acknowledgements *)

(** [func (conn *Connection) ackBytes(msgno, unackedByteCount) error]. *)
Definition ackBytes (msgno unackedByteCount : Z) (c : Connection)
    : Connection * option bytes :=
  let ackPacket := mkPacket ACK msgno zeroHeader (format_uint (Z.to_N unackedByteCount)) in
  let '(w, _, e) := packet_Write ackPacket (c_writer c) in
  match e with
  | Some _ => (set_writer w c, e)
  | None => (set_writer (Flush w).1 c, None)
  end.

(** ** Receiving *)

Definition num (z : Z) : bytes := format_uint (Z.to_N z).

(** The message a HEADER packet starts.  The code copies nine of the ten
    fields of the header; [IdentifyingToken] is not among them. *)
Definition message_of_header (h : PacketHeader) : Message :=
  SetTicket (ph_Ticket h) (SetErrorCode (ph_ErrorCode h) (SetError (ph_Error h)
    (SetClientID (ph_ClientID h) (SetRequestID (ph_RequestID h)
      (SetMessageType (ph_MessageType h) (SetVersion (ph_Version h)
        (SetEnvelope (ph_Envelope h) (SetAction (ph_Action h) NewMessage)))))))).

(** [func (conn *Connection) routePacket(pkt *Packet) error]. *)
Definition routePacket (pkt : Packet) (c : Connection) : Connection * option bytes :=
  let ty := packetType pkt in
  let n := msgNo pkt in
  if ty =b HEADER then
    if n =b c_incomingmsgno c then
      match c_pktToMsg c !! n with
      | Some _ => (c, Some (bs "Bad HEADER; already tracking msgno " ++ num n))
      | None =>
          let msg := message_of_header (packetHeader pkt) in
          (next_incoming (set_tracked (<[n := msg]> (c_pktToMsg c)) c), None)
      end
    else (c, Some (bs "out of sequence msgno: expected " ++ num (c_incomingmsgno c)
                   ++ bs " but got " ++ num n))
  else if ty =b DATA then
    match c_pktToMsg c !! n with
    | None => (c, Some (bs "not tracking message number " ++ num n))
    | Some msg =>
        let msg' := (msg_Write (body pkt) msg).1 in
        let c1 := set_tracked (<[n := msg']> (c_pktToMsg c)) c in
        ((ackBytes n (m_bytesWritten msg') c1).1, None)
    end
  else if ty =b EOF then
    match c_pktToMsg c !! n with
    | None => (c, Some (bs "cannot process EOF for unknown msgno " ++ num n))
    | Some msg => (deliver msg (set_tracked (delete n (c_pktToMsg c)) c), None)
    end
  else if ty =b TXERR then
    match c_pktToMsg c !! n with
    | None => (c, Some (bs "cannot process EOF for unknown msgno " ++ num n))
    | Some msg =>
        let errMessage := match body pkt with
                          | [] => bs "There was an unkown error with the connection"
                          | b => b
                          end in
        let msg' := (msg_Write (body pkt) (SetError errMessage msg)).1 in
        let c1 := set_tracked (<[n := msg']> (c_pktToMsg c)) c in
        let c2 := (ackBytes n (m_bytesWritten msg') c1).1 in
        (deliver msg' (set_tracked (delete n (c_pktToMsg c2)) c2), None)
    end
  else (c, None).

(** Why the reader loop ended. *)
Inductive reader_stop :=
| StopRead (e : read_error)
| StopRoute (e : bytes).

(** [func (conn *Connection) packetReader() error].  [None]: not finished
    within the fuel.  Every packet takes bytes off the stream, so
    [S (length (rd_data r))] rounds always suffice. *)
Fixpoint packetReader (fuel : nat) (r : reader) (c : Connection)
    : option (outcome reader_stop (Connection * reader_stop)) :=
  match fuel with
  | O => None
  | S f =>
      match ReadPacket r with
      | Panic w => Some (Panic w)
      | Err e => Some (Ok (close_msgs c, StopRead e))
      | Ok (pkt, r') =>
          match routePacket pkt c with
          | (c', Some e) => Some (Ok (close_msgs c', StopRoute e))
          | (c', None) => packetReader f r' c'
          end
      end
  end.

Definition run_reader (r : reader) (c : Connection)
    : option (outcome reader_stop (Connection * reader_stop)) :=
  packetReader (S (length (rd_data r))) r c.

(** ** Sending *)

Definition RetryLimit : nat := 50.

(** The retry loop around one [pkt.Write].  The code counts [retries] up
    from 0 and gives up when it is above [RetryLimit] on a failure; [left]
    counts the failures it will still retry, from [S RetryLimit] down.
    A "closed" or "broken pipe" error only ends the loop: the assignments
    to [err] there are to the inner variable. *)
Fixpoint write_retry (left : nat) (pkt : Packet) (w : bufwriter) : bufwriter * option bytes :=
  match packet_Write pkt w with
  | (w', _, None) => (w', None)
  | (w', _, Some e) =>
      if contains (bs "use of closed connection") e then (w', None)
      else if contains (bs "broken pipe") e then (w', None)
      else match left with
           | O => (w', Some (bs "Retried too many times: " ++ e))
           | S l => write_retry l pkt w'
           end
  end.

Fixpoint write_packets (pkts : list Packet) (w : bufwriter) : bufwriter * option bytes :=
  match pkts with
  | [] => (w, None)
  | pkt :: rest =>
      match write_retry (S RetryLimit) pkt w with
      | (w', Some e) => (w', Some e)
      | (w', None) => write_packets rest w'
      end
  end.

(** [func (conn *Connection) Send(msg *Message) error] on a non-nil
    connection: the new connection, the message with its packets renumbered,
    and the error. *)
Definition conn_Send (m : Message) (c : Connection) : Connection * Message * option bytes :=
  let err := if c_isClosed c then Some (bs "connection already closed") else None in
  if m_RequestID m =b 0%Z then
    (c, m, Some (bs "must specify `ReqestId` on msg before sending"))
  else
    let outgoingmsgno := c_outgoingmsgno c in
    let c1 := next_outgoing c in
    let '(pkts, m') := toPackets outgoingmsgno m in
    match write_packets pkts (c_writer c1) with
    | (w, Some e) => (set_writer w c1, m', Some e)
    | (w, None) => (set_writer (Flush w).1 c1, m', err)
    end.

(** [func (conn *Connection) Close()]: the socket stops taking bytes. *)
Definition conn_Close (c : Connection) : Connection :=
  if c_isClosed c then c
  else
    let w := c_writer c in
    let s := mkSink (sk_out (bw_sink w)) (Some 0) (bs "use of closed network connection") in
    mkConn (c_incomingmsgno c) (c_outgoingmsgno c) (c_pktToMsg c) (c_msgs c) (c_msgs_closed c)
      (mkBuf (bw_buf w) (bw_err w) s) true.

(** ** Specification *)

(** Messages the protocol can carry. *)
Definition sendable (m : Message) : Prop :=
  m_RequestID m ≠ 0%Z ∧ wf_header (header_of m) ∧ msg_inv m
  ∧ Forall (λ p, Z.of_nat (length (body p)) ≤ maxAlloc)%Z (m_packets m)
  ∧ ∀ n, (body_length (mkPacket HEADER n (header_of m) []) ≤ maxAlloc)%Z.

(** What the peer's handler gets for a message that was sent: everything but
    the identifying token. *)
Definition delivered (m : Message) : Message :=
  mkMessage (m_Action m) (m_Envelope m) (m_RequestID m) (m_ClientID m) (m_Version m)
    (m_MessageType m) (map (λ p, data_packet (body p)) (m_packets m))
    (u64 (Z.of_nat (length (msg_Bytes m)))) (m_Ticket m) [] (m_Error m) (m_ErrorCode m).

(** Two messages that say the same, the identifying token apart. *)
Definition same_but_token (m d : Message) : Prop :=
  m_Action d = m_Action m ∧ m_Envelope d = m_Envelope m ∧ m_RequestID d = m_RequestID m
  ∧ m_ClientID d = m_ClientID m ∧ m_Version d = m_Version m ∧ m_MessageType d = m_MessageType m
  ∧ m_Ticket d = m_Ticket m ∧ m_Error d = m_Error m ∧ m_ErrorCode d = m_ErrorCode m
  ∧ msg_Bytes d = msg_Bytes m.

(** Every tracked message number has been announced by a header already. *)
Definition conn_inv (c : Connection) : Prop :=
  ∀ n, is_Some (c_pktToMsg c !! n) → (0 ≤ n < c_incomingmsgno c)%Z.

Fixpoint send_all (ms : list Message) (c : Connection) : Connection * list (option bytes) :=
  match ms with
  | [] => (c, [])
  | m :: r =>
      let '(c1, _, e) := conn_Send m c in
      let '(c2, es) := send_all r c1 in (c2, e :: es)
  end.

Fixpoint route_all (pkts : list Packet) (c : Connection) : Connection * option bytes :=
  match pkts with
  | [] => (c, None)
  | p :: r =>
      match routePacket p c with
      | (c', Some e) => (c', Some e)
      | (c', None) => route_all r c'
      end
  end.

(** ** Lemmas: sending *)

Lemma packet_Write_healthy pkt (w : bufwriter) enc :
  healthy w → encode_packet pkt = Some enc →
  ∃ w', packet_Write pkt w = (w', length enc, None) ∧ healthy w'
        ∧ written w' = written w ++ enc.
Proof.
  intros Hh He.
  assert (∃ w' n, packet_Write pkt w = (w', n, None) ∧ healthy w') as (w' & n & Hw & Hh').
  { unfold packet_Write. unfold encode_packet in He.
    destruct (type_bytes _) as [tb|]; [|done]. cbn [mbind option_bind] in He.
    destruct (body_bytes pkt) as [|b]; [done|].
    destruct (buf_write_healthy w (packet_line tb (msgNo pkt) (length b)) Hh) as (w1 & -> & H1).
    destruct (buf_write_healthy w1 b H1) as (w2 & -> & H2).
    destruct (buf_write_healthy w2 theRestBytes H2) as (w3 & -> & H3). eauto. }
  exists w'. apply packet_Write_encode in Hw as Hw'. destruct Hw' as (enc' & E & Ho & ->).
  replace enc' with enc in * by congruence. auto.
Qed.

Lemma write_retry_healthy left pkt w enc :
  healthy w → encode_packet pkt = Some enc →
  ∃ w', write_retry left pkt w = (w', None) ∧ healthy w' ∧ written w' = written w ++ enc.
Proof.
  intros Hh He. destruct (packet_Write_healthy pkt w enc Hh He) as (w' & Hw & Hh' & Ho).
  exists w'. by destruct left; cbn; rewrite Hw.
Qed.

Lemma write_packets_healthy pkts w encs :
  healthy w → mapM encode_packet pkts = Some encs →
  ∃ w', write_packets pkts w = (w', None) ∧ healthy w' ∧ written w' = written w ++ concat encs.
Proof.
  revert w encs. induction pkts as [|p r IH]; intros w encs Hh He.
  - cbn in He. injection He as <-. exists w. cbn. by rewrite app_nil_r.
  - cbn in He. destruct (encode_packet p) as [b|] eqn:Eb; [|done]. cbn in He.
    destruct (mapM encode_packet r) as [bs'|] eqn:Er; [|done]. injection He as <-.
    destruct (write_retry_healthy (S RetryLimit) p w b Hh Eb) as (w1 & Hw1 & Hh1 & Ho1).
    destruct (IH w1 bs' Hh1 eq_refl) as (w2 & Hw2 & Hh2 & Ho2).
    exists w2. cbn [write_packets]. rewrite Hw1. split; [done|]. split; [done|].
    rewrite Ho2, Ho1. cbn. by rewrite app_assoc.
Qed.

Lemma Flush_healthy_out w :
  healthy w → healthy (Flush w).1 ∧ sk_out (bw_sink (Flush w).1) = written w
              ∧ bw_buf (Flush w).1 = [].
Proof.
  intros Hh. destruct (Flush_healthy w Hh) as (w' & E & Hh'). rewrite E. cbn [fst].
  apply Flush_ok in E as (Ho & Hb & _). auto.
Qed.

(** A packet that has no encoding is retried to the limit; the writer never
    sees a byte. *)
Lemma write_retry_unencodable left pkt w e :
  packet_Write pkt w = (w, 0, Some e) →
  contains (bs "use of closed connection") e = false → contains (bs "broken pipe") e = false →
  write_retry left pkt w = (w, Some (bs "Retried too many times: " ++ e)).
Proof. intros Hw H1 H2. induction left as [|l IH]; cbn; by rewrite Hw, H1, H2. Qed.

(** A writer stuck on a "broken pipe" error: nothing is written, and no
    error comes out. *)
Lemma write_packets_broken pkts w e :
  bw_err w = Some e → contains (bs "broken pipe") e = true →
  Forall (λ p, is_Some (encode_packet p)) pkts → write_packets pkts w = (w, None).
Proof.
  intros He Hc. induction 1 as [|p r [enc Henc] _ IH]; [done|]. cbn [write_packets].
  assert (∃ e', packet_Write p w = (w, 0, Some e') ∧ contains (bs "broken pipe") e' = true)
    as (e' & Hp & Hc').
  { unfold packet_Write. unfold encode_packet in Henc. destruct (type_bytes _); [|done].
    cbn [mbind option_bind] in Henc. destruct (body_bytes p); [done|].
    rewrite (buf_write_sticky w e) by done. eauto using contains_suffix. }
  unfold write_retry. cbn [RetryLimit]. rewrite Hp, Hc'.
  by destruct (contains (bs "use of closed connection") e').
Qed.

(** ** Lemmas: receiving *)

(** [ackBytes] only touches the writer. *)
Lemma ackBytes_frame n k c :
  ∃ w, (ackBytes n k c).1 = set_writer w c.
Proof.
  unfold ackBytes. destruct (packet_Write _ _) as [[w m] [e|]]; cbn; eauto.
Qed.

(** The receiver's state up to its writer. *)
Definition same_recv (c d : Connection) : Prop :=
  c_incomingmsgno c = c_incomingmsgno d ∧ c_pktToMsg c = c_pktToMsg d
  ∧ c_msgs c = c_msgs d ∧ c_msgs_closed c = c_msgs_closed d
  ∧ c_isClosed c = c_isClosed d ∧ c_outgoingmsgno c = c_outgoingmsgno d.

#[export] Instance same_recv_equiv : Equivalence same_recv.
Proof.
  unfold same_recv. split; [intros c | intros c d | intros c d x]; intuition congruence.
Qed.

Lemma same_recv_writer w c : same_recv (set_writer w c) c.
Proof. done. Qed.

#[export] Instance set_tracked_proper t : Proper (same_recv ==> same_recv) (set_tracked t).
Proof. intros c d H. unfold same_recv in *. cbn. tauto. Qed.

#[export] Instance deliver_proper m : Proper (same_recv ==> same_recv) (deliver m).
Proof. intros c d H. unfold same_recv in *. cbn. intuition congruence. Qed.

#[export] Instance next_incoming_proper : Proper (same_recv ==> same_recv) next_incoming.
Proof. intros c d H. unfold same_recv in *. cbn. intuition congruence. Qed.

(** What each packet of a well-sequenced message does. *)
Lemma route_header h n b c :
  n = c_incomingmsgno c → c_pktToMsg c !! n = None →
  routePacket (mkPacket HEADER n h b) c
  = (next_incoming (set_tracked (<[n := message_of_header h]> (c_pktToMsg c)) c), None).
Proof.
  intros -> Hn. unfold routePacket. cbn [packetType msgNo packetHeader].
  by rewrite !bool_decide_true, Hn by done.
Qed.

Lemma route_data n h b msg c :
  c_pktToMsg c !! n = Some msg →
  ∃ c', routePacket (mkPacket DATA n h b) c = (c', None)
        ∧ same_recv c' (set_tracked (<[n := (msg_Write b msg).1]> (c_pktToMsg c)) c).
Proof.
  intros Hn. unfold routePacket. cbn [packetType msgNo body]. rewrite Hn.
  destruct (ackBytes_frame n (m_bytesWritten (msg_Write b msg).1)
    (set_tracked (<[n := (msg_Write b msg).1]> (c_pktToMsg c)) c)) as [w Hw].
  eexists. split; [reflexivity|]. rewrite Hw. apply same_recv_writer.
Qed.

Lemma route_eof n h b msg c :
  c_pktToMsg c !! n = Some msg →
  routePacket (mkPacket EOF n h b) c
  = (deliver msg (set_tracked (delete n (c_pktToMsg c)) c), None).
Proof. intros Hn. unfold routePacket. cbn [packetType msgNo]. by rewrite Hn. Qed.

Lemma set_tracked_twice t t' c : set_tracked t (set_tracked t' c) = set_tracked t c.
Proof. done. Qed.

Definition append_packets (ps : list Packet) (m : Message) : Message :=
  set_packets (m_packets m ++ map (λ p, data_packet (body p)) ps)
    (u64 (m_bytesWritten m + Z.of_nat (length (concat (map body ps))))) m.

Lemma append_packets_cons p ps m :
  in_u64 (m_bytesWritten m) →
  append_packets ps (msg_Write (body p) m).1 = append_packets (p :: ps) m.
Proof.
  intros _. unfold append_packets, msg_Write, set_packets. cbn.
  rewrite <- app_assoc, u64_add_l, length_app. cbn. do 2 f_equal. lia.
Qed.

(** The data packets of one message. *)
Lemma route_all_data n ps msg c :
  Forall (λ p, packetType p = DATA ∧ msgNo p = n) ps →
  c_pktToMsg c !! n = Some msg → in_u64 (m_bytesWritten msg) →
  ∃ c', route_all ps c = (c', None)
        ∧ same_recv c' (set_tracked (<[n := append_packets ps msg]> (c_pktToMsg c)) c).
Proof.
  intros Hps. revert msg c. induction Hps as [|p ps [Ht Hn] _ IH]; intros msg c Hm Hb.
  - exists c. split; [done|]. unfold append_packets. cbn. rewrite app_nil_r, Z.add_0_r.
    rewrite u64_id by done. replace (set_packets _ _ msg) with msg by by destruct msg.
    unfold same_recv. cbn. by rewrite insert_id.
  - destruct p as [ty k h b]. cbn in Ht, Hn. subst ty k.
    destruct (route_data n h b msg c Hm) as (c1 & Hr & Hs1). cbn [route_all]. rewrite Hr.
    destruct Hs1 as (H1 & H2 & H3 & H4 & H5 & H6). cbn in *.
    destruct (IH (msg_Write b msg).1 c1) as (c2 & -> & Hs2);
      [by rewrite H2, lookup_insert_eq | apply u64_range |].
    exists c2. split; [done|]. rewrite Hs2. unfold same_recv. cbn [set_tracked c_incomingmsgno
      c_pktToMsg c_msgs c_msgs_closed c_isClosed c_outgoingmsgno].
    rewrite H2, insert_insert_eq.
    rewrite <- (append_packets_cons (mkPacket DATA n h b)) by done.
    repeat split; done.
Qed.

Lemma route_all_app a b c :
  route_all (a ++ b) c =
  match route_all a c with (c', None) => route_all b c' | (c', Some e) => (c', Some e) end.
Proof.
  revert c. induction a as [|p a IH]; intros c; [done|]. cbn [app route_all].
  destruct (routePacket p c) as [c' [e|]]; [done | apply IH].
Qed.

Lemma received_data n ps :
  Forall (λ p, packetType p = DATA) ps →
  Forall (λ p, packetType p = DATA ∧ msgNo p = n) (map received (map (set_msgNo n) ps)).
Proof.
  intros H. rewrite !Forall_map. eapply Forall_impl; [exact H|]. intros p Hp.
  unfold received. cbn. by rewrite Hp.
Qed.

Lemma received_bodies n ps :
  Forall (λ p, packetType p = DATA) ps →
  map body (map received (map (set_msgNo n) ps)) = map body ps.
Proof.
  induction 1 as [|p ps Hp _ IH]; [done|]. cbn [map]. rewrite IH. f_equal.
  unfold received. cbn. by rewrite Hp.
Qed.

Lemma append_delivered n m :
  Forall (λ p, packetType p = DATA) (m_packets m) →
  append_packets (map received (map (set_msgNo n) (m_packets m)))
    (message_of_header (header_of m)) = delivered m.
Proof.
  intros Hd. unfold append_packets, delivered, msg_Bytes.
  rewrite received_bodies by done. cbn. f_equal.
  rewrite <- (map_map body data_packet), received_bodies by done. by rewrite map_map.
Qed.

(** The packets of a whole message, in order, deliver it. *)
Lemma route_all_message m c :
  msg_inv m → conn_inv c → (0 ≤ c_incomingmsgno c)%Z → (c_incomingmsgno c + 1 < 2 ^ 64)%Z →
  ∃ c', route_all (map received (toPackets (c_incomingmsgno c) m).1) c = (c', None)
    ∧ same_recv c' (deliver (delivered m)
        (mkConn (c_incomingmsgno c + 1) (c_outgoingmsgno c) (c_pktToMsg c) (c_msgs c)
           (c_msgs_closed c) (c_writer c) (c_isClosed c))).
Proof.
  intros [Hcnt Hd] Hinv Hlo Hhi. set (n := c_incomingmsgno c) in *.
  assert (c_pktToMsg c !! n = None) as Hn.
  { destruct (c_pktToMsg c !! n) eqn:E; [|done].
    assert (is_Some (c_pktToMsg c !! n)) as Hs by eauto. apply Hinv in Hs. lia. }
  unfold toPackets. cbn [fst]. rewrite !map_app. cbn [map app route_all].
  unfold received at 1. cbn [packetType]. rewrite bool_decide_true by done.
  cbn [msgNo packetHeader]. rewrite route_header by done. rewrite route_all_app.
  set (c1 := next_incoming _).
  assert (c_pktToMsg c1 !! n = Some (message_of_header (header_of m))) as Hc1
    by apply lookup_insert_eq.
  destruct (route_all_data n (map received (map (set_msgNo n) (m_packets m))) _ c1
    (received_data n _ Hd) Hc1 ltac:(done)) as (c2 & -> & Hs2).
  destruct Hs2 as (H1 & H2 & H3 & H4 & H5 & H6). cbn in H1, H2, H3, H4, H5, H6.
  cbn [route_all received packetType]. unfold received. cbn [packetType].
  rewrite bool_decide_false by done.
  erewrite route_eof by (rewrite H2; apply lookup_insert_eq).
  eexists. split; [reflexivity|]. unfold same_recv. cbn.
  rewrite H1, H2, H3, H4, H5, H6. rewrite u64_id by (unfold in_u64; lia).
  rewrite delete_insert_eq, delete_insert_eq, delete_id by done.
  repeat split. f_equal. f_equal. by apply append_delivered.
Qed.

(** ** Lemmas: the reader loop *)

Lemma ReadPacket_shrinks r pkt r' :
  ReadPacket r = Ok (pkt, r') → (length (rd_data r') < length (rd_data r))%nat.
Proof.
  intros (line & r1 & tb & len & b & r2 & E1 & _ & _ & _ & E5 & E6 & _)%ReadPacket_inv.
  apply ReadLine_split in E1 as (a & Ha & _). apply ReadFull_split in E5 as [Hb _], E6 as [Hc _].
  rewrite Ha, Hb, Hc, !length_app. change (length theRestBytes) with 5. lia.
Qed.

(** Enough fuel, and then more fuel makes no difference. *)
Lemma packetReader_fuel f f' r c :
  (length (rd_data r) < f)%nat → (length (rd_data r) < f')%nat →
  packetReader f r c = packetReader f' r c.
Proof.
  revert f' r c. induction f as [|f IH]; intros f' r c Hf Hf'; [lia|].
  destruct f' as [|f']; [lia|]. cbn [packetReader].
  destruct (ReadPacket r) as [[pkt r']|e|w] eqn:E; [|done|done].
  apply ReadPacket_shrinks in E. destruct (routePacket pkt c) as [c' [e|]]; [done|].
  apply IH; lia.
Qed.


Lemma run_reader_cons enc pkt t e c :
  wf_packet pkt → encode_packet pkt = Some enc →
  run_reader (mkReader (enc ++ t) e) c =
  match routePacket (received pkt) c with
  | (c', Some err) => Some (Ok (close_msgs c', StopRoute err))
  | (c', None) => run_reader (mkReader t e) c'
  end.
Proof.
  intros Hwf He. unfold run_reader at 1. cbn [packetReader].
  pose proof (read_encoded pkt enc t e Hwf He) as Hr. rewrite Hr.
  apply ReadPacket_shrinks in Hr. cbn [rd_data] in *.
  destruct (routePacket _ c) as [c' [err|]]; [done|].
  apply packetReader_fuel; cbn; lia.
Qed.

(** Reading a run of encoded packets is routing them one by one. *)
Lemma run_reader_packets pkts encs t e c :
  Forall wf_packet pkts → mapM encode_packet pkts = Some encs →
  run_reader (mkReader (concat encs ++ t) e) c =
  match route_all (map received pkts) c with
  | (c', Some err) => Some (Ok (close_msgs c', StopRoute err))
  | (c', None) => run_reader (mkReader t e) c'
  end.
Proof.
  intros Hwf. revert encs c. induction Hwf as [|p r Hp _ IH]; intros encs c He.
  - cbn in He. by injection He as <-.
  - cbn in He. destruct (encode_packet p) as [b|] eqn:Eb; [|done]. cbn in He.
    destruct (mapM encode_packet r) as [bs'|] eqn:Er; [|done]. injection He as <-.
    cbn [concat]. rewrite <- app_assoc, (run_reader_cons b p) by done. cbn [map route_all].
    destruct (routePacket (received p) c) as [c' [err|]]; [done | by apply IH].
Qed.

Lemma run_reader_eof e c :
  run_reader (mkReader [] e) c = Some (Ok (close_msgs c, StopRead (ReadlineError e))).
Proof. reflexivity. Qed.

(** ** Lemmas: whole messages *)

Lemma sendable_packets m n :
  sendable m → in_u64 n →
  Forall wf_packet (toPackets n m).1
  ∧ ∃ encs, mapM encode_packet (toPackets n m).1 = Some encs.
Proof.
  intros (Hr & Hh & [Hc Hd] & Hl & Hb) Hn.
  assert (Forall wf_packet (toPackets n m).1) as Hwf.
  { unfold toPackets. cbn [fst app]. constructor.
    - split; [done|]. split; [done|]. split; [apply Hb | done].
    - apply Forall_app. split; [|constructor; [|constructor]].
      + rewrite Forall_map. apply Forall_forall. intros p Hp. rewrite Forall_forall in Hd, Hl.
        pose proof (Hd p Hp) as Hdp. pose proof (Hl p Hp) as Hlp. unfold wf_packet, body_length, body_bytes. cbn. rewrite Hdp.
        done.
      + done. }
  split; [done|]. apply mapM_is_Some. apply Forall_forall. intros p Hp.
  rewrite Forall_forall in Hwf. destruct (Hwf p Hp) as (Hty & _ & _ & Hph).
  destruct (encode_packet p) eqn:E; [by eauto|]. exfalso.
  apply encode_packet_None in E as [Et Ew]; [|done].
  destruct (Hph Et) as (_ & _ & _ & _ & _ & _ & _ & _ & He & Hm).
  assert (is_Some (header_Write (packetHeader p))) as [? Hs] by by apply header_Write_Some.
  congruence.
Qed.

(** A send on a healthy, open connection. *)
Lemma conn_Send_healthy m c encs :
  sendable m → healthy (c_writer c) → c_isClosed c = false →
  mapM encode_packet (toPackets (c_outgoingmsgno c) m).1 = Some encs →
  ∃ w, conn_Send m c
       = (set_writer w (next_outgoing c), (toPackets (c_outgoingmsgno c) m).2, None)
       ∧ healthy w ∧ sk_out (bw_sink w) = written (c_writer c) ++ concat encs ∧ bw_buf w = [].
Proof.
  intros (Hr & _) Hh Hcl He. unfold conn_Send. rewrite bool_decide_false by done.
  destruct (toPackets _ m) as [pkts m'] eqn:Et. cbn [fst snd] in *.
  destruct (write_packets_healthy pkts (c_writer c) encs Hh He) as (w & Hw & Hhw & Ho).
  cbn [next_outgoing c_writer]. rewrite Hw, Hcl.
  destruct (Flush_healthy_out w Hhw) as (H1 & H2 & H3).
  exists (Flush w).1. rewrite H2, Ho. done.
Qed.

Lemma delivered_same m : same_but_token m (delivered m).
Proof.
  do 9 (split; [done|]). unfold msg_Bytes, delivered. cbn. by rewrite map_map.
Qed.

(** The receiver of a run of sent messages. *)
Definition received_all (ms : list Message) (c : Connection) : Connection :=
  mkConn (c_incomingmsgno c + Z.of_nat (length ms)) (c_outgoingmsgno c) (c_pktToMsg c)
    (c_msgs c ++ map delivered ms) (c_msgs_closed c) (c_writer c) (c_isClosed c).

Lemma received_all_cons m ms c c1 :
  same_recv c1 (deliver (delivered m)
    (mkConn (c_incomingmsgno c + 1) (c_outgoingmsgno c) (c_pktToMsg c) (c_msgs c)
       (c_msgs_closed c) (c_writer c) (c_isClosed c))) →
  same_recv (received_all ms c1) (received_all (m :: ms) c).
Proof.
  intros (H1 & H2 & H3 & H4 & H5 & H6). cbn in *. unfold same_recv. cbn.
  rewrite H1, H3, <- app_assoc. repeat split; (done || lia).
Qed.

(** The wire image of a message, and of a run of messages numbered from [n]. *)
Definition message_bytes (n : Z) (m : Message) : option bytes :=
  (λ l : list bytes, concat l) <$> mapM encode_packet (toPackets n m).1.

Fixpoint stream (n : Z) (ms : list Message) : option bytes :=
  match ms with
  | [] => Some []
  | m :: r => a ← message_bytes n m; b ← stream (n + 1) r; Some (a ++ b)
  end.

Lemma message_bytes_Some n m :
  sendable m → in_u64 n →
  ∃ encs, mapM encode_packet (toPackets n m).1 = Some encs
          ∧ message_bytes n m = Some (concat encs) ∧ Forall wf_packet (toPackets n m).1.
Proof.
  intros Hs Hn. destruct (sendable_packets m n Hs Hn) as [Hwf [encs He]].
  exists encs. unfold message_bytes. by rewrite He.
Qed.

(** The stream of a run of sends delivers the run. *)
Lemma run_reader_stream ms n t e r :
  Forall sendable ms → c_incomingmsgno r = n → conn_inv r → (0 ≤ n)%Z →
  (n + Z.of_nat (length ms) < 2 ^ 64)%Z →
  ∃ enc r', stream n ms = Some enc
    ∧ run_reader (mkReader (enc ++ t) e) r = run_reader (mkReader t e) r'
    ∧ same_recv r' (received_all ms r).
Proof.
  intros Hms. revert n r. induction Hms as [|m ms Hm _ IH]; intros n r Hn Hinv Hlo Hhi.
  - exists [], r. split; [done|]. split; [done|]. unfold same_recv. cbn.
    rewrite app_nil_r. repeat split; (done || lia).
  - cbn [length] in Hhi. subst n. set (n := c_incomingmsgno r) in *.
    destruct (message_bytes_Some n m Hm) as (encs & He & Hb & Hwf); [unfold in_u64; lia|].
    destruct Hm as (_ & _ & Hmi & _).
    destruct (route_all_message m r Hmi Hinv) as (r1 & Hr1 & Hs1); [lia..|].
    assert (c_incomingmsgno r1 = n + 1)%Z as Hn1 by (destruct Hs1 as [-> _]; done).
    destruct (IH (n + 1)%Z r1 Hn1) as (enc & r2 & Hst & Hrun & Hs2); [|lia|lia|].
    { intros k Hk. destruct Hs1 as (_ & H2 & _). cbn in H2. rewrite H2 in Hk.
      apply Hinv in Hk. lia. }
    exists (concat encs ++ enc), r2. cbn [stream]. rewrite Hb. cbn [mbind option_bind].
    rewrite Hst. split; [done|]. split.
    + rewrite <- app_assoc, (run_reader_packets _ _ _ _ _ Hwf He). fold n in Hr1.
      by rewrite Hr1.
    + rewrite Hs2. by apply received_all_cons.
Qed.

(** A run of sends on a healthy connection puts its stream on the wire. *)
Lemma send_all_healthy ms s enc :
  Forall sendable ms → healthy (c_writer s) → c_isClosed s = false → bw_buf (c_writer s) = [] →
  (0 ≤ c_outgoingmsgno s)%Z → (c_outgoingmsgno s + Z.of_nat (length ms) < 2 ^ 64)%Z →
  stream (c_outgoingmsgno s) ms = Some enc →
  ∃ s', send_all ms s = (s', replicate (length ms) None)
    ∧ sk_out (bw_sink (c_writer s')) = sk_out (bw_sink (c_writer s)) ++ enc
    ∧ c_outgoingmsgno s' = (c_outgoingmsgno s + Z.of_nat (length ms))%Z.
Proof.
  intros Hms. revert s enc. induction Hms as [|m ms Hm _ IH]; intros s enc Hh Hcl Hb Hlo Hhi Hst.
  - cbn in *. injection Hst as <-. exists s. rewrite app_nil_r. repeat split. lia.
  - cbn [length] in Hhi. cbn [stream] in Hst.
    destruct (message_bytes_Some (c_outgoingmsgno s) m Hm) as (encs & He & Hmb & _);
      [unfold in_u64; lia|].
    rewrite Hmb in Hst. cbn [mbind option_bind] in Hst.
    destruct (stream _ ms) as [enc'|] eqn:Es; [|done]. injection Hst as <-.
    destruct (conn_Send_healthy m s encs Hm Hh Hcl He) as (w & Hsend & Hhw & Ho & Hbw).
    assert (u64 (c_outgoingmsgno s + 1) = c_outgoingmsgno s + 1)%Z as Hu
      by (apply u64_id; unfold in_u64; lia).
    destruct (IH (set_writer w (next_outgoing s)) enc') as (s' & Hall & Ho' & Hn');
      [done|done|done|cbn; lia|cbn; lia|cbn; by rewrite Hu|].
    exists s'. cbn [send_all replicate length]. rewrite Hsend, Hall. split; [done|].
    rewrite Ho', Hn'. cbn. rewrite Ho, Hu. cbn. rewrite Hb, app_nil_r, <- app_assoc.
    split; [done | lia].
Qed.

(** ** Properties *)

(** C1. End to end: a run of messages sent over an open, healthy connection
    is reported as sent without error, and the peer's reader, fed exactly
    the bytes that reached the wire, delivers the same number of messages in
    the same order, leaves no message half tracked that it was not tracking
    before, and ends at the end of the stream.  Each message arrives with its
    header fields and its bytes, except for its identifying token, which is
    sent and which the receiver drops. *)
Theorem send_receive ms s r e :
  Forall sendable ms → healthy (c_writer s) → c_isClosed s = false → bw_buf (c_writer s) = [] →
  c_incomingmsgno r = c_outgoingmsgno s → conn_inv r → (0 ≤ c_outgoingmsgno s)%Z →
  (c_outgoingmsgno s + Z.of_nat (length ms) < 2 ^ 64)%Z →
  ∃ enc s' r', send_all ms s = (s', replicate (length ms) None)
    ∧ sk_out (bw_sink (c_writer s')) = sk_out (bw_sink (c_writer s)) ++ enc
    ∧ run_reader (mkReader enc e) r = Some (Ok (r', StopRead (ReadlineError e)))
    ∧ c_msgs r' = c_msgs r ++ map delivered ms ∧ c_pktToMsg r' = c_pktToMsg r
    ∧ c_incomingmsgno r' = c_outgoingmsgno s' ∧ c_msgs_closed r' = true
    ∧ Forall (λ m, same_but_token m (delivered m) ∧ m_IdentifyingToken (delivered m) = []) ms.
Proof.
  intros Hms Hh Hcl Hb Hn Hinv Hlo Hhi.
  destruct (run_reader_stream ms (c_outgoingmsgno s) [] e r Hms Hn Hinv Hlo Hhi)
    as (enc & r1 & Hst & Hrun & H1 & H2 & H3 & _).
  destruct (send_all_healthy ms s enc Hms Hh Hcl Hb Hlo Hhi Hst) as (s' & Hall & Ho & Hn').
  exists enc, s', (close_msgs r1). rewrite app_nil_r in Hrun. rewrite Hrun, Hn'. cbn in *.
  do 5 (split; [done|]). split; [lia|]. split; [done|].
  apply Forall_forall. intros m _. split; [apply delivered_same | done].
Qed.


(** When [routePacket] accepts a packet. *)
Definition acceptable (pkt : Packet) (c : Connection) : Prop :=
  if packetType pkt =b HEADER
  then msgNo pkt = c_incomingmsgno c ∧ c_pktToMsg c !! msgNo pkt = None
  else if bool_decide (packetType pkt = DATA ∨ packetType pkt = EOF ∨ packetType pkt = TXERR)
  then is_Some (c_pktToMsg c !! msgNo pkt)
  else True.

(** C18. [routePacket] accepts a HEADER only when it carries the next message
    number and nothing is tracked under it, DATA, EOF and TXERR only for a
    tracked message, anything else always; and when it reports an error the
    connection is exactly as before. *)
Theorem routePacket_accepts pkt c :
  ((routePacket pkt c).2 = None ↔ acceptable pkt c)
  ∧ ((routePacket pkt c).2 ≠ None → (routePacket pkt c).1 = c).
Proof.
  unfold routePacket, acceptable. destruct pkt as [ty n h b]. cbn [packetType msgNo body].
  destruct (decide (ty = HEADER)) as [->|H0]; [rewrite !bool_decide_true by done|
    rewrite !(bool_decide_false (ty = HEADER)) by done].
  - case_bool_decide as En; [|split; [split; [done|by intros []]|done]]. subst n.
    destruct (c_pktToMsg c !! _) eqn:E; (split; [split; [done|by intros []]|done]).
  - destruct (decide (ty = DATA)) as [->|H1]; [rewrite !bool_decide_true by tauto|
      rewrite (bool_decide_false (ty = DATA)) by done].
    { destruct (c_pktToMsg c !! n) eqn:E; split; try done; split; try done;
        by intros [? [=]]. }
    destruct (decide (ty = EOF)) as [->|H2]; [rewrite !bool_decide_true by tauto|
      rewrite (bool_decide_false (ty = EOF)) by done].
    { destruct (c_pktToMsg c !! n) eqn:E; split; try done; split; try done;
        by intros [? [=]]. }
    destruct (decide (ty = TXERR)) as [->|H3]; [rewrite !bool_decide_true by tauto|
      rewrite !bool_decide_false by tauto; done].
    destruct (c_pktToMsg c !! n) eqn:E; split; try done; split; try done;
      by intros [? [=]].
Qed.

Lemma conn_inv_tracked c n x t :
  conn_inv c → is_Some (c_pktToMsg c !! n) →
  (t = <[n := x]> (c_pktToMsg c) ∨ t = delete n (c_pktToMsg c)
   ∨ t = delete n (<[n := x]> (c_pktToMsg c))) →
  ∀ k, is_Some (t !! k) → (0 ≤ k < c_incomingmsgno c)%Z.
Proof.
  intros Hc Hn Ht k Hk. destruct (decide (k = n)) as [->|Hne]; [by apply Hc|]. apply Hc.
  destruct Ht as [->|[->| ->]]; by simplify_map_eq.
Qed.

(** One packet keeps the invariant, as long as the counter does not wrap. *)
Lemma routePacket_conn_inv pkt c :
  conn_inv c → (0 ≤ c_incomingmsgno c)%Z → (c_incomingmsgno c + 1 < 2 ^ 64)%Z →
  conn_inv (routePacket pkt c).1
  ∧ (c_incomingmsgno c ≤ c_incomingmsgno (routePacket pkt c).1 ≤ c_incomingmsgno c + 1)%Z.
Proof.
  intros Hc Hlo Hhi. unfold routePacket. destruct pkt as [ty n h b]. cbn [packetType msgNo body].
  case_bool_decide.
  { case_bool_decide as En; [|split; [done|cbn; lia]]. subst n.
    destruct (c_pktToMsg c !! _) eqn:E; (split; [|cbn; rewrite ?u64_id by (unfold in_u64; lia); lia]).
    - done.
    - intros k. cbn. rewrite u64_id by (unfold in_u64; lia).
      destruct (decide (k = c_incomingmsgno c)) as [->|]; [lia|].
      rewrite lookup_insert_ne by done. intros Hk. apply Hc in Hk. lia. }
  assert (∀ msg k, c_pktToMsg c !! n = Some msg → is_Some (c_pktToMsg c !! n)) as Hs by eauto.
  repeat case_bool_decide; try (split; [done|cbn; lia]);
    (destruct (c_pktToMsg c !! n) as [msg|] eqn:E; [|split; [done|cbn; lia]]).
  - match goal with |- context [ackBytes ?a ?k ?x] => destruct (ackBytes_frame a k x) as [w ->] end.
    split; [|cbn; lia]. exact (conn_inv_tracked c n _ _ Hc ltac:(eauto) ltac:(by left)).
  - split; [|cbn; lia]. exact (conn_inv_tracked c n msg _ Hc ltac:(eauto) ltac:(by right; left)).
  - match goal with |- context [ackBytes ?a ?k ?x] => destruct (ackBytes_frame a k x) as [w ->] end.
    split; [|cbn; lia]. exact (conn_inv_tracked c n _ _ Hc ltac:(eauto) ltac:(by right; right)).
Qed.

(** C19. From a new connection, whatever packets arrive (fewer than [2^64] of
    them), every tracked number is below the next expected one; so the
    "already tracking" error of a HEADER never occurs. *)
Theorem reader_invariant pkts s c' e pkt :
  (Z.of_nat (length pkts) + 1 < 2 ^ 64)%Z → route_all pkts (NewConnection s) = (c', e) →
  conn_inv c'
  ∧ (packetType pkt = HEADER → msgNo pkt = c_incomingmsgno c' → (routePacket pkt c').2 = None).
Proof.
  intros Hlen Hr.
  assert (∀ ps c, conn_inv c → (0 ≤ c_incomingmsgno c)%Z →
    (c_incomingmsgno c + Z.of_nat (length ps) + 1 < 2 ^ 64)%Z →
    ∀ c' e, route_all ps c = (c', e) → conn_inv c') as Hall.
  { induction ps as [|p ps IH]; intros c Hc Hlo Hhi d x Hd; [by injection Hd as <- _|].
    cbn [length] in Hhi. cbn [route_all] in Hd.
    destruct (routePacket_conn_inv p c Hc Hlo) as [Hi Hb]; [lia|].
    destruct (routePacket p c) as [c1 [e1|]]; [by injection Hd as <- _|].
    cbn [fst] in *. eapply (IH c1); [done|lia|lia|exact Hd]. }
  assert (conn_inv c') as Hc.
  { eapply (Hall pkts (NewConnection s)); [|cbn; lia|cbn; lia|exact Hr].
    intros n [m Hm]. cbn in Hm. by rewrite lookup_empty in Hm. }
  split; [done|]. intros Ht Hn. unfold routePacket. rewrite Ht, Hn. rewrite !bool_decide_true by done.
  destruct (c_pktToMsg c' !! _) eqn:E; [|done].
  assert (is_Some (c_pktToMsg c' !! c_incomingmsgno c')) as Hs by eauto. apply Hc in Hs. lia.
Qed.

(** ** A concrete exchange *)

Definition open_sink : sink := mkSink [] None [].

Definition hello_message : Message :=
  (msg_Write (bs "hi") (SetAction (bs "hello.helloworld") (SetVersion 1 (SetMessageType 1
    (SetClientID 2 (SetRequestID 1 NewMessage)))))).1.

Lemma hello_sendable : sendable hello_message.
Proof.
  split; [done|]. split; [exact hello_header_wf|].
  split; [apply msg_Write_inv; by split|]. split; [by repeat constructor|].
  intros n. by vm_compute.
Qed.

Lemma conn_inv_new s : conn_inv (NewConnection s).
Proof. intros n [m Hm]. cbn in Hm. by rewrite lookup_empty in Hm. Qed.

Lemma send_receive_witness :
  ∃ enc s' r', send_all [hello_message; hello_message] (NewConnection open_sink)
               = (s', [None; None])
    ∧ run_reader (mkReader enc io_EOF) (NewConnection open_sink)
      = Some (Ok (r', StopRead (ReadlineError io_EOF)))
    ∧ c_msgs r' = [delivered hello_message; delivered hello_message].
Proof.
  destruct (send_receive [hello_message; hello_message] (NewConnection open_sink)
    (NewConnection open_sink) io_EOF) as (enc & s' & r' & H1 & _ & H2 & H3 & _).
  - constructor; [exact hello_sendable|]. constructor; [exact hello_sendable | constructor].
  - by split.
  - reflexivity.
  - reflexivity.
  - reflexivity.
  - apply conn_inv_new.
  - by vm_compute.
  - by vm_compute.
  - exists enc, s', r'. split; [exact H1|]. split; [exact H2 | exact H3].
Defined.

Lemma reader_invariant_witness :
  ∃ c', route_all [mkPacket HEADER 0 hello_header []] (NewConnection open_sink) = (c', None)
    ∧ (routePacket (mkPacket HEADER 1 hello_header []) c').2 = None.
Proof.
  eexists. split; [reflexivity|].
  destruct (reader_invariant [mkPacket HEADER 0 hello_header []] open_sink _ None
    (mkPacket HEADER 1 hello_header []) ltac:(by vm_compute) eq_refl) as [_ H].
  apply H; reflexivity.
Defined.
