(* ===== verification/ConnFaults.v ===== *)
(** src/scamp/connection.go, the unhappy paths: what [Send] does with a
    message that has no encoding, with a broken or closed socket, and what
    [routePacket] does with the acknowledgement and the TXERR packet. *)
From S2P Require Import Prelude Strconv GoIO GoStrings PacketHeader Packet Message Connection.

(** ** Lemmas *)

(** The error of a message whose type was never set. *)
Definition unset_type_error : bytes :=
  bs "err writing packet header: json: error calling MarshalJSON for type scamp.messageType: unknown message type `0`".

Lemma write_unset_type m n (w : bufwriter) :
  m_MessageType m = 0%Z → is_Some (marshal_envelope (m_Envelope m)) →
  packet_Write (mkPacket HEADER n (header_of m) []) w = (w, 0, Some unset_type_error).
Proof.
  intros Ht [env He]. unfold packet_Write, body_bytes, header_Write, marshal_header, header_error.
  cbn [packetType packetHeader type_bytes header_of ph_Envelope ph_MessageType].
  rewrite Ht, He. cbn [mbind option_bind marshal_message_type]. reflexivity.
Qed.

Lemma write_packets_unset_type m n rest (w : bufwriter) :
  m_MessageType m = 0%Z → is_Some (marshal_envelope (m_Envelope m)) →
  write_packets (mkPacket HEADER n (header_of m) [] :: rest) w
  = (w, Some (bs "Retried too many times: " ++ unset_type_error)).
Proof.
  intros Ht He. cbn [write_packets]. rewrite (write_retry_unencodable _ _ w unset_type_error).
  - done.
  - by apply write_unset_type.
  - by vm_compute.
  - by vm_compute.
Qed.

(** A socket that takes nothing more. *)
Definition dead (w : bufwriter) : Prop := sk_room (bw_sink w) = Some 0.

Lemma sink_write_dead s p :
  sk_room s = Some 0 → sk_room (sink_write s p).1.1 = Some 0 ∧ sk_out (sink_write s p).1.1 = sk_out s.
Proof.
  intros H. unfold sink_write. rewrite H. destruct p; cbn; by rewrite app_nil_r.
Qed.

Lemma Flush_dead w :
  dead w → dead (Flush w).1 ∧ sk_out (bw_sink (Flush w).1) = sk_out (bw_sink w).
Proof.
  intros H. unfold Flush. destruct (bw_err w); [done|]. destruct (bw_buf w) as [|x l]; [done|].
  pose proof (sink_write_dead (bw_sink w) (x :: l) H) as [H1 H2].
  destruct (sink_write _ _) as [[s n] [e|]]; done.
Qed.

Lemma direct_write_dead w p :
  dead w → dead (direct_write w p).1.1 ∧ sk_out (bw_sink (direct_write w p).1.1) = sk_out (bw_sink w).
Proof.
  intros H. unfold direct_write. pose proof (sink_write_dead (bw_sink w) p H) as [H1 H2].
  by destruct (sink_write _ _) as [[s n] e].
Qed.

Lemma buf_write_dead w p :
  dead w → dead (write w p).1.1 ∧ sk_out (bw_sink (write w p).1.1) = sk_out (bw_sink w).
Proof.
  intros H. cbn [write bufwriter_Writer]. unfold buf_write. destruct (bw_err w); [done|].
  case_match; [done|]. destruct (bw_buf w) as [|x l] eqn:E; [by apply direct_write_dead|].
  set (a := (_ - _)%nat).
  pose proof (Flush_dead (mkBuf ((x :: l) ++ take a p) None (bw_sink w)) H) as [Hd Ho].
  destruct (Flush _) as [w1 [e|]]; cbn [fst] in *; [done|]. case_match; [done|].
  pose proof (direct_write_dead w1 (drop a p) Hd) as [Hd2 Ho2].
  destruct (direct_write _ _) as [[w2 n] e2]; cbn [fst] in *. split; [done|]. by rewrite Ho2, Ho.
Qed.

Lemma packet_Write_dead pkt (w : bufwriter) :
  dead w → dead (packet_Write pkt w).1.1
  ∧ sk_out (bw_sink (packet_Write pkt w).1.1) = sk_out (bw_sink w).
Proof.
  intros H. unfold packet_Write. destruct (type_bytes _) as [tb|]; [|done].
  destruct (body_bytes pkt) as [|b]; [done|].
  destruct (buf_write_dead w (packet_line tb (msgNo pkt) (length b)) H) as [H1 E1].
  destruct (write w _) as [[w1 n1] [e1|]]; cbn [fst] in *; [done|].
  destruct (buf_write_dead w1 b H1) as [H2 E2].
  destruct (write w1 _) as [[w2 n2] [e2|]]; cbn [fst] in *; [split; congruence|].
  destruct (buf_write_dead w2 theRestBytes H2) as [H3 E3].
  destruct (write w2 _) as [[w3 n3] e3]; cbn [fst] in *. split; congruence.
Qed.

Lemma write_retry_dead left pkt w :
  dead w → dead (write_retry left pkt w).1
  ∧ sk_out (bw_sink (write_retry left pkt w).1) = sk_out (bw_sink w).
Proof.
  revert w. induction left as [|l IH]; intros w H; cbn [write_retry];
    destruct (packet_Write_dead pkt w H) as [H1 E1];
    destruct (packet_Write pkt w) as [[w1 n] [e|]]; cbn [fst] in *; try done;
    repeat case_match; try done.
  destruct (IH w1 H1) as [Hd2 Ho2]. split; congruence.
Qed.

Lemma write_packets_dead pkts w :
  dead w → dead (write_packets pkts w).1
  ∧ sk_out (bw_sink (write_packets pkts w).1) = sk_out (bw_sink w).
Proof.
  revert w. induction pkts as [|p r IH]; intros w H; [done|]. cbn [write_packets].
  destruct (write_retry_dead (S RetryLimit) p w H) as [H1 E1].
  destruct (write_retry _ p w) as [w1 [e|]]; cbn [fst] in *; [done|].
  destruct (IH w1 H1) as [H2 E2]. split; congruence.
Qed.

(** An acknowledgement on a healthy connection is on the wire at once. *)
Lemma ackBytes_healthy n k c :
  in_u64 k → healthy (c_writer c) → bw_buf (c_writer c) = [] →
  ∃ w enc, ackBytes n k c = (set_writer w c, None) ∧ healthy w ∧ bw_buf w = []
    ∧ encode_packet (mkPacket ACK n zeroHeader (format_uint (Z.to_N k))) = Some enc
    ∧ sk_out (bw_sink w) = sk_out (bw_sink (c_writer c)) ++ enc.
Proof.
  intros Hk Hh Hb.
  assert (∃ enc, encode_packet (mkPacket ACK n zeroHeader (format_uint (Z.to_N k))) = Some enc)
    as [enc He] by by eexists.
  destruct (packet_Write_healthy _ (c_writer c) enc Hh He) as (w & Hw & Hhw & Ho).
  destruct (Flush_healthy_out w Hhw) as (H1 & H2 & H3). unfold ackBytes. rewrite Hw.
  exists (Flush w).1, enc. split; [done|]. split; [done|]. split; [done|]. split; [done|].
  rewrite H2, Ho. cbn. by rewrite Hb, app_nil_r.
Qed.

(** ** Properties *)

(** C28. A message whose type was never set cannot be encoded: [Send] gives
    up after its retries with an error and writes nothing, but has used up a
    message number.  The next good message goes out under the following
    number, and a peer that was in step rejects it as out of sequence and
    stops reading. *)
Theorem failed_send_desync m bad s r e :
  sendable m → healthy (c_writer s) → c_isClosed s = false → bw_buf (c_writer s) = [] →
  m_RequestID bad ≠ 0%Z → m_MessageType bad = 0%Z → is_Some (marshal_envelope (m_Envelope bad)) →
  c_incomingmsgno r = c_outgoingmsgno s → (0 ≤ c_outgoingmsgno s)%Z →
  (c_outgoingmsgno s + 2 < 2 ^ 64)%Z →
  ∃ s1 bad' s2 m' enc,
    conn_Send bad s = (s1, bad', Some (bs "Retried too many times: " ++ unset_type_error))
    ∧ c_writer s1 = c_writer s
    ∧ conn_Send m s1 = (s2, m', None)
    ∧ sk_out (bw_sink (c_writer s2)) = sk_out (bw_sink (c_writer s)) ++ enc
    ∧ run_reader (mkReader enc e) r
      = Some (Ok (close_msgs r,
          StopRoute (bs "out of sequence msgno: expected " ++ num (c_outgoingmsgno s)
                     ++ bs " but got " ++ num (c_outgoingmsgno s + 1)))).
Proof.
  intros Hm Hh Hcl Hb Hrid Hty He Hn Hlo Hhi.
  assert (u64 (c_outgoingmsgno s + 1) = c_outgoingmsgno s + 1)%Z as Hu
    by (apply u64_id; unfold in_u64; lia).
  destruct (sendable_packets m (c_outgoingmsgno s + 1)%Z Hm) as [Hwf [encs Henc]];
    [unfold in_u64; lia|].
  destruct (conn_Send_healthy m (next_outgoing s) encs) as (w & Hs2 & _ & Ho & _);
    [done|done|done|by cbn; rewrite Hu|].
  eexists (next_outgoing s), _, _, _, (concat encs). split; [|split; [|split; [|split]]].
  - unfold conn_Send. rewrite bool_decide_false by done. unfold toPackets. cbn [app].
    rewrite write_packets_unset_type by done. reflexivity.
  - done.
  - exact Hs2.
  - cbn in Ho |- *. by rewrite Ho, Hb, app_nil_r.
  - rewrite <- (app_nil_r (concat encs)), (run_reader_packets _ _ _ _ _ Hwf Henc).
    unfold toPackets. cbn [fst app map route_all]. unfold received at 1. cbn [packetType].
    rewrite bool_decide_true by done. unfold routePacket. cbn [packetType msgNo].
    rewrite bool_decide_true by done. rewrite bool_decide_false by lia. by rewrite Hn.
Qed.

(** C29. On a connection whose writer has already failed with a broken pipe,
    [Send] of any message the protocol can carry reports success, although
    it writes nothing. *)
Theorem broken_pipe_success m c e :
  sendable m → in_u64 (c_outgoingmsgno c) → c_isClosed c = false →
  bw_err (c_writer c) = Some e → contains (bs "broken pipe") e = true →
  ∃ m', conn_Send m c = (next_outgoing c, m', None).
Proof.
  intros Hm Hn Hcl He Hc. destruct (sendable_packets m (c_outgoingmsgno c) Hm Hn) as [_ [encs Henc]].
  destruct Hm as (Hr & _). unfold conn_Send. rewrite bool_decide_false by done.
  destruct (toPackets _ m) as [pkts m'] eqn:Et. cbn [fst] in Henc.
  rewrite (write_packets_broken pkts _ e); [|done|done|].
  - exists m'. unfold Flush. cbn [next_outgoing c_writer]. rewrite He, Hcl. done.
  - apply mapM_Some_1 in Henc. clear -Henc. induction Henc; constructor; eauto.
Qed.

(** After [Close], [Send] always reports an error and no byte reaches
    the socket, whatever the message and the state of the buffer; the close
    itself is idempotent. *)
Theorem send_after_close m c :
  c_isClosed c = false →
  (conn_Send m (conn_Close c)).2 ≠ None
  ∧ sk_out (bw_sink (c_writer (conn_Send m (conn_Close c)).1.1)) = sk_out (bw_sink (c_writer c))
  ∧ conn_Close (conn_Close c) = conn_Close c.
Proof.
  intros Hcl. unfold conn_Close. rewrite Hcl. cbn [c_isClosed].
  set (d := mkConn _ _ _ _ _ _ _). unfold conn_Send. cbn [c_isClosed d].
  case_bool_decide; [done|]. destruct (toPackets _ m) as [pkts m'].
  destruct (write_packets_dead pkts (c_writer (next_outgoing d)) eq_refl) as [Hd Ho].
  destruct (write_packets pkts _) as [w [e|]]; cbn [fst snd set_writer c_writer] in *; [done|].
  destruct (Flush_dead w Hd) as [_ Hf]. split; [done|]. split; [|done]. by rewrite Hf, Ho.
Qed.

(** Each DATA packet of a tracked message is acknowledged at once, under
    the message's number, with the cumulative count of body bytes received
    so far, in decimal. *)
Theorem data_ack n h b msg c :
  c_pktToMsg c !! n = Some msg → msg_inv msg →
  healthy (c_writer c) → bw_buf (c_writer c) = [] →
  ∃ c' enc, routePacket (mkPacket DATA n h b) c = (c', None)
    ∧ encode_packet (mkPacket ACK n zeroHeader
        (num (u64 (Z.of_nat (length (msg_Bytes msg ++ b)))))) = Some enc
    ∧ sk_out (bw_sink (c_writer c')) = sk_out (bw_sink (c_writer c)) ++ enc
    ∧ ∃ msg', c_pktToMsg c' !! n = Some msg' ∧ msg_Bytes msg' = msg_Bytes msg ++ b.
Proof.
  intros Hn Hinv Hh Hb. unfold routePacket. cbn [packetType msgNo body]. rewrite Hn.
  set (msg' := (msg_Write b msg).1).
  assert (msg_Bytes msg' = msg_Bytes msg ++ b) as Hbytes.
  { unfold msg', msg_Write. cbn [fst]. rewrite msg_Bytes_append. cbn. by rewrite app_nil_r. }
  destruct (msg_Write_inv b msg Hinv) as [Hcnt _]. fold msg' in Hcnt.
  set (c1 := set_tracked _ c).
  destruct (ackBytes_healthy n (m_bytesWritten msg') c1) as (w & enc & Ha & _ & _ & He & Ho);
    [rewrite Hcnt; apply u64_range | done | done |].
  exists (set_writer w c1), enc. rewrite Ha. split; [done|]. unfold num.
  rewrite <- Hbytes, <- Hcnt. split; [exact He|]. split; [exact Ho|].
  exists msg'. split; [apply lookup_insert_eq | done].
Qed.

(** A TXERR packet ends a tracked message: the message is delivered with
    its error set to the packet's body, or to the stock text when that is
    empty, the body is appended to its bytes, and its number is no longer
    tracked; nothing else that the receiver keeps changes. *)
Theorem txerr_delivers n h b msg c :
  c_pktToMsg c !! n = Some msg →
  ∃ c' msg', routePacket (mkPacket TXERR n h b) c = (c', None)
    ∧ c_msgs c' = c_msgs c ++ [msg']
    ∧ m_Error msg' = (if b =b [] then bs "There was an unkown error with the connection" else b)
    ∧ msg_Bytes msg' = msg_Bytes msg ++ b
    ∧ c_pktToMsg c' = delete n (c_pktToMsg c)
    ∧ c_incomingmsgno c' = c_incomingmsgno c.
Proof.
  intros Hn. unfold routePacket. cbn [packetType msgNo body]. rewrite Hn. cbn [bool_decide].
  set (err := match b with [] => _ | _ => _ end). set (msg' := (msg_Write b (SetError err msg)).1).
  set (c1 := set_tracked (<[n := msg']> (c_pktToMsg c)) c).
  destruct (ackBytes_frame n (m_bytesWritten msg') c1) as [w Hw].
  eexists _, msg'. split; [reflexivity|]. rewrite Hw. cbn. split; [done|]. split; [|split].
  - unfold err. by destruct b.
  - unfold msg_Bytes, msg', msg_Write, set_packets, SetError. cbn [fst m_packets].
    rewrite concat_bodies_app. cbn. by rewrite app_nil_r.
  - split; [apply delete_insert_eq | done].
Qed.

(** ** Concrete faults *)

Definition untyped_message : Message := SetRequestID 1 NewMessage.

Lemma failed_send_desync_witness :
  ∃ enc r', run_reader (mkReader enc io_EOF) (NewConnection open_sink)
            = Some (Ok (r', StopRoute (bs "out of sequence msgno: expected 0 but got 1"))).
Proof.
  destruct (failed_send_desync hello_message untyped_message (NewConnection open_sink)
    (NewConnection open_sink) io_EOF) as (s1 & b & s2 & m & enc & _ & _ & _ & _ & H).
  - exact hello_sendable.
  - by split.
  - reflexivity.
  - reflexivity.
  - done.
  - reflexivity.
  - by eexists.
  - reflexivity.
  - by vm_compute.
  - by vm_compute.
  - exists enc. eexists. exact H.
Defined.

Definition broken_writer : bufwriter :=
  mkBuf [] (Some (bs "write tcp: write: broken pipe")) (mkSink [] (Some 0) (bs "broken pipe")).

Lemma broken_pipe_success_witness :
  (conn_Send hello_message (set_writer broken_writer (NewConnection open_sink))).2 = None.
Proof.
  destruct (broken_pipe_success hello_message (set_writer broken_writer (NewConnection open_sink))
    (bs "write tcp: write: broken pipe")) as [m' H].
  - exact hello_sendable.
  - by vm_compute.
  - reflexivity.
  - reflexivity.
  - by vm_compute.
  - rewrite H. reflexivity.
Defined.

Lemma send_after_close_witness :
  (conn_Send hello_message (conn_Close (NewConnection open_sink))).2 ≠ None.
Proof. apply (send_after_close hello_message (NewConnection open_sink) eq_refl). Defined.

Definition tracking_hello : Connection :=
  (routePacket (mkPacket HEADER 0 hello_header []) (NewConnection open_sink)).1.

Lemma data_ack_witness :
  ∃ c', routePacket (mkPacket DATA 0 zeroHeader (bs "hello")) tracking_hello = (c', None)
    ∧ sk_out (bw_sink (c_writer c')) = bs "ACK 0 1" ++ [CR; LF] ++ bs "5" ++ theRestBytes.
Proof.
  destruct (data_ack 0 zeroHeader (bs "hello") (message_of_header hello_header) tracking_hello)
    as (c' & enc & H1 & H2 & H3 & _).
  - reflexivity.
  - by split.
  - by split.
  - reflexivity.
  - exists c'. split; [exact H1|]. rewrite H3. vm_compute in H2. injection H2 as <-. reflexivity.
Defined.

Lemma txerr_delivers_witness :
  ∃ c' msg', routePacket (mkPacket TXERR 0 zeroHeader (bs "oops")) tracking_hello = (c', None)
    ∧ c_msgs c' = [msg'] ∧ m_Error msg' = bs "oops".
Proof.
  destruct (txerr_delivers 0 zeroHeader (bs "oops") (message_of_header hello_header) tracking_hello)
    as (c' & msg' & H1 & H2 & H3 & _); [reflexivity|].
  exists c', msg'. split; [exact H1|]. split; [exact H2 | exact H3].
Defined.
