(* ===== verification/Acks.v ===== *)
(** src/scamp/connection.go: the acknowledgements a reader writes back on its
    own connection, and their way to the other side, together with whole
    messages sent in one direction while acknowledgements go in the other. *)
From S2P Require Import Prelude Strconv GoIO GoStrings PacketHeader Packet Message Connection ConnFaults.

(** ** Specification *)

(** What reached the wire. *)
Definition wire (s : Connection) : bytes := sk_out (bw_sink (c_writer s)).

(** Between two writes: nothing is buffered and the socket takes bytes. *)
Definition at_rest (s : Connection) : Prop := healthy (c_writer s) ∧ bw_buf (c_writer s) = [].

(** A connection that can send another message. *)
Definition can_send (s : Connection) : Prop :=
  at_rest s ∧ c_isClosed s = false
  ∧ (0 <= c_outgoingmsgno s)%Z ∧ (c_outgoingmsgno s + 1 < 2 ^ 64)%Z.

(** A reader that expects the sender's next message. *)
Definition in_step (s r : Connection) : Prop := c_incomingmsgno r = c_outgoingmsgno s ∧ conn_inv r.

(** The bytes of [k] acknowledgements. *)
Definition is_ack (p : Packet) : Prop := packetType p = ACK ∧ wf_packet p.
Definition acks (k : nat) (b : bytes) : Prop :=
  ∃ pkts encs, Forall is_ack pkts ∧ length pkts = k ∧ mapM encode_packet pkts = Some encs ∧ b = concat encs.

(** Packets the receiver acknowledges. *)
Definition acknowledged (p : Packet) : bool := bool_decide (packetType p = DATA ∨ packetType p = TXERR).

(** A reader that finds [b] on the stream takes it off and goes on as [r']. *)
Definition reads (b : bytes) (r r' : Connection) : Prop :=
  ∀ t e, run_reader (mkReader (b ++ t) e) r = run_reader (mkReader t e) r'.

(** ** Lemmas *)

Lemma reads_nil r : reads [] r r.
Proof. done. Qed.

Lemma reads_app a b r r1 r2 : reads a r r1 → reads b r1 r2 → reads (a ++ b) r r2.
Proof. intros Ha Hb t e. by rewrite <- app_assoc, Ha, Hb. Qed.

Lemma acks_0 : acks 0 [].
Proof. by exists [], []. Qed.

Lemma acks_app j k a b : acks j a → acks k b → acks (j + k) (a ++ b).
Proof.
  intros (p & x & Hp & <- & Hx & ->) (q & y & Hq & <- & Hy & ->). exists (p ++ q), (x ++ y).
  split; [by apply Forall_app|]. rewrite length_app, concat_app. split; [done|].
  split; [|done]. apply mapM_Some. apply Forall2_app; by apply mapM_Some.
Qed.

(** A reader takes acknowledgements off the stream and changes nothing. *)
Lemma reads_acks k b r : acks k b → reads b r r.
Proof.
  intros (pkts & encs & Hp & _ & He & ->) t e. rewrite (run_reader_packets pkts encs); [|
    eapply Forall_impl; [exact Hp | by intros p []] | done].
  assert (route_all (map received pkts) r = (r, None)) as ->; [|done].
  clear He encs. induction Hp as [|[ty n h d] ps [Ht _] _ IH]; [done|].
  cbn in Ht. subst ty. exact IH.
Qed.

(** One acknowledgement. *)
Lemma ackBytes_acks n k c :
  in_u64 n → in_u64 k → at_rest c →
  ∃ w enc, ackBytes n k c = (set_writer w c, None) ∧ at_rest (set_writer w c)
    ∧ acks 1 enc ∧ wire (set_writer w c) = wire c ++ enc.
Proof.
  intros Hn Hk [Hh Hb]. destruct (ackBytes_healthy n k c Hk Hh Hb) as (w & enc & Ha & Hw & Hb' & He & Ho).
  exists w, enc. split; [done|]. split; [done|]. split; [|done].
  exists [mkPacket ACK n zeroHeader (format_uint (Z.to_N k))], [enc].
  split; [|split; [done|]; split; [by cbn; rewrite He | by cbn; rewrite app_nil_r]].
  constructor; [|constructor]. split; [done|]. split; [done|]. split; [done|]. split; [|done].
  unfold body_length, body_bytes. cbn [packetType body]. change (ACK =b HEADER) with false. cbn iota.
  pose proof (format_u64_length k Hk). unfold maxAlloc. lia.
Qed.

(** Routing a packet: the acknowledgement is written, if one is due. *)
Lemma routePacket_acks pkt c c' :
  in_u64 (msgNo pkt) → at_rest c → routePacket pkt c = (c', None) →
  at_rest c' ∧ ∃ b, acks (if acknowledged pkt then 1 else 0) b ∧ wire c' = wire c ++ b.
Proof.
  intros Hn Hc. unfold routePacket, acknowledged. destruct pkt as [ty n h d]. cbn [packetType msgNo body] in *.
  assert (∀ x, at_rest x → wire x = wire c → at_rest x ∧ ∃ b, acks 0 b ∧ wire x = wire c ++ b) as H0.
  { intros x Hx Hw. split; [done|]. exists []. rewrite app_nil_r. split; [apply acks_0 | done]. }
  destruct (decide (ty = HEADER)) as [->|Hh]; [rewrite !bool_decide_true by done|
    rewrite (bool_decide_false (ty = HEADER)) by done].
  { change (bool_decide (HEADER = DATA ∨ HEADER = TXERR)) with false. cbn iota.
    repeat case_match; intros [= <-]; by apply H0. }
  destruct (decide (ty = DATA)) as [->|Hd]; [rewrite !bool_decide_true by tauto|
    rewrite (bool_decide_false (ty = DATA)) by done].
  { destruct (c_pktToMsg c !! n) as [msg|]; [|done]. intros [= <-].
    match goal with |- context [ackBytes ?a ?k ?x] =>
      destruct (ackBytes_acks a k x) as (w & enc & -> & H1 & H2 & H3) end;
      [done | apply u64_range | done |]. split; [done|]. by exists enc. }
  destruct (decide (ty = EOF)) as [->|He]; [rewrite !bool_decide_true by tauto|
    rewrite (bool_decide_false (ty = EOF)) by done].
  { change (bool_decide (EOF = DATA ∨ EOF = TXERR)) with false. cbn iota.
    destruct (c_pktToMsg c !! n) as [msg|]; [|done]. intros [= <-]. by apply H0. }
  destruct (decide (ty = TXERR)) as [->|Hx]; [rewrite !bool_decide_true by tauto|
    rewrite !bool_decide_false by tauto; intros [= <-]; by apply H0].
  destruct (c_pktToMsg c !! n) as [msg|]; [|done]. intros [= <-].
  match goal with |- context [ackBytes ?a ?k ?x] =>
    destruct (ackBytes_acks a k x) as (w & enc & -> & H1 & H2 & H3) end;
    [done | apply u64_range | done |]. split; [done|]. by exists enc.
Qed.

Lemma route_all_acks pkts c c' :
  Forall (λ p, in_u64 (msgNo p)) pkts → at_rest c → route_all pkts c = (c', None) →
  at_rest c' ∧ ∃ b, acks (how_many acknowledged pkts) b ∧ wire c' = wire c ++ b.
Proof.
  intros Hp. revert c. induction Hp as [|p ps Hp _ IH]; intros c Hc; cbn [route_all how_many].
  - intros [= <-]. split; [done|]. exists []. rewrite app_nil_r. split; [apply acks_0 | done].
  - destruct (routePacket p c) as [c1 [x|]] eqn:E; [done|]. intros Hr.
    destruct (routePacket_acks p c c1 Hp Hc E) as (Hc1 & a & Ha & Hw).
    destruct (IH c1 Hc1 Hr) as (Hc' & b & Hb & Hw'). split; [done|].
    exists (a ++ b). split; [by apply acks_app | by rewrite Hw', Hw, app_assoc].
Qed.

(** A message is acknowledged once per data packet. *)
Lemma acknowledged_message n m :
  msg_inv m → how_many acknowledged (map received (toPackets n m).1) = length (m_packets m).
Proof.
  intros [_ Hd].
  assert (how_many acknowledged (map received (map (set_msgNo n) (m_packets m))) = length (m_packets m)) as Hl.
  { induction Hd as [|p ps Hp _ IH]; [done|]. cbn [map how_many length]. rewrite IH.
    unfold acknowledged, received. cbn [packetType set_msgNo]. by rewrite Hp. }
  unfold toPackets. cbn [fst]. rewrite !map_app, !how_many_app, Hl.
  change (how_many acknowledged (map received [mkPacket HEADER n (header_of m) []])) with 0.
  change (how_many acknowledged (map received [mkPacket EOF n zeroHeader []])) with 0. lia.
Qed.

(** One message, from [s] to [r]: what goes over the wire, what the reader
    makes of it, and what it writes back. *)
Lemma conn_Send_delivered m s r :
  sendable m → can_send s → in_step s r → at_rest r →
  ∃ enc s' m' r' ack, conn_Send m s = (s', m', None) ∧ wire s' = wire s ++ enc ∧ at_rest s'
    ∧ reads enc r r' ∧ same_recv r' (received_all [m] r)
    ∧ at_rest r' ∧ acks (length (m_packets m)) ack ∧ wire r' = wire r ++ ack.
Proof.
  intros Hm ([Hh Hb] & Hcl & Hlo & Hhi) [Hn Hinv] Hr.
  destruct (message_bytes_Some (c_outgoingmsgno s) m Hm) as (encs & He & _ & Hwf); [unfold in_u64; lia|].
  destruct (conn_Send_healthy m s encs Hm Hh Hcl He) as (w & Hsend & Hw & Ho & Hbw).
  destruct Hm as (_ & _ & Hmi & _).
  destruct (route_all_message m r Hmi Hinv) as (r' & Hr1 & Hs1); [lia..|]. rewrite Hn in Hr1.
  assert (Forall (λ p, in_u64 (msgNo p)) (map received (toPackets (c_outgoingmsgno s) m).1)) as Hno.
  { rewrite Forall_map. eapply Forall_impl; [exact Hwf|]. intros p (_ & Hp & _). unfold received.
    by destruct (_ =b _). }
  destruct (route_all_acks _ r r' Hno Hr Hr1) as (Hr' & ack & Hack & Hwr).
  rewrite acknowledged_message in Hack by done.
  exists (concat encs), (set_writer w (next_outgoing s)), (toPackets (c_outgoingmsgno s) m).2, r', ack.
  split; [done|]. split; [unfold wire; cbn; rewrite Ho; cbn; by rewrite Hb, app_nil_r|]. split; [done|].
  split; [|split; [exact Hs1 | done]].
  intros t e. rewrite (run_reader_packets _ _ _ _ _ Hwf He). by rewrite Hr1.
Qed.

Lemma conn_Send_reading m s s' m' e :
  conn_Send m s = (s', m', e) →
  c_incomingmsgno s' = c_incomingmsgno s ∧ c_pktToMsg s' = c_pktToMsg s ∧ c_msgs s' = c_msgs s.
Proof.
  unfold conn_Send. case_bool_decide; [by intros [= <- _ _]|].
  destruct (toPackets _ m) as [ps m1]. by destruct (write_packets _ _) as [w [x|]]; intros [= <- _ _].
Qed.
