(* ===== verification/Timestamp.v ===== *)
(** src/scamp/timestamp.go: the high resolution time stamp of an
    announcement.  A [float64] is kept as its integer mantissa and binary
    exponent; [strconv.ParseFloat] on plain decimals and [fmt]'s ["%f"] are
    exact roundings to nearest, ties to even.  Infinities, NaN, overflow and
    subnormal numbers do not arise from a clock reading. *)
From S2P Require Import Prelude Strconv Json JsonFacts.

Record float64 := mkFloat { f_m : Z; f_e : Z }.

#[export] Instance float64_eq_dec : EqDecision float64.
Proof. solve_decision. Defined.

(** [n / d] to the nearest integer, ties to even ([0 < d]). *)
Definition rne (n d : Z) : Z :=
  let q := (n / d)%Z in
  let r := (n mod d)%Z in
  if (2 * r <? d)%Z then q
  else if (d <? 2 * r)%Z then (q + 1)%Z
  else if Z.even q then q else (q + 1)%Z.

(** The number [N / D] ([0 <= N], [0 < D]) as a float: the exponent makes
    the mantissa 53 bits long. *)
Definition round_ratio (N D : Z) : float64 :=
  if (N =? 0)%Z then mkFloat 0 0
  else
    let v := (N / D)%Z in
    let e := if (v =? 0)%Z then (- 52 - Z.log2_up ((D + N - 1) / N))%Z else (Z.log2 v - 52)%Z in
    if (e <? 0)%Z then mkFloat (rne (N * 2 ^ (- e)) D) e
    else mkFloat (rne N (D * 2 ^ e)) e.

(** [strconv.ParseFloat(s, 64)] on [-]digits.digits; [None] is an error. *)
Definition ParseFloat (s : bytes) : option float64 :=
  let '(neg, r) := match s with
                   | c :: r => if c =b "-"%char then (true, r) else (false, s)
                   | [] => (false, [])
                   end in
  let '(i, t) := span is_digit r in
  match t with
  | c :: f =>
      if (c =b "."%char) && forallb is_digit f && negb (i =b []) && negb (f =b []) then
        let x := round_ratio (Z.of_N (digits_val (i ++ f))) (10 ^ Z.of_nat (length f)) in
        Some (if neg : bool then mkFloat (- f_m x) (f_e x) else x)
      else None
  | [] => None
  end.

Definition zeros (n : nat) : bytes := replicate n "0"%char.

(** Six digits. *)
Definition pad6 (n : N) : bytes := zeros (6 - length (format_uint n)) ++ format_uint n.

(** [fmt.Sprintf("%f", ts)]. *)
Definition Sprintf_f (ts : float64) : bytes :=
  let n := (Z.abs (f_m ts) * 10 ^ 6)%Z in
  let q := if (f_e ts <? 0)%Z then rne n (2 ^ (- f_e ts)) else (n * 2 ^ f_e ts)%Z in
  (if (f_m ts <? 0)%Z then bs "-" else [])
  ++ format_uint (Z.to_N (q / 10 ^ 6)) ++ bs "." ++ pad6 (Z.to_N (q mod 10 ^ 6)).

(** [func (ts highResTimestamp) MarshalJSON() ([]byte, error)]: never fails. *)
Definition marshal_timestamp (ts : float64) : bytes := Sprintf_f ts.

(** [func getTimeOfDay() (ts highResTimestamp, err error)] at a clock
    reading of [sec] seconds and [usec] microseconds. *)
Definition getTimeOfDay (sec usec : Z) : option float64 :=
  ParseFloat (format_int sec ++ bs "." ++ format_int usec).

(** ** Lemmas *)

Lemma rne_unique n d q : (0 < d)%Z → (2 * Z.abs (n - d * q) < d)%Z → rne n d = q.
Proof.
  intros Hd H. unfold rne. pose proof (Z.div_mod n d) as E. pose proof (Z.mod_pos_bound n d Hd).
  set (a := (n / d)%Z) in *. set (r := (n mod d)%Z) in *.
  assert (n = d * a + r)%Z by lia. assert (a = q ∨ a = q - 1)%Z as [->| ->] by nia.
  - destruct (Z.ltb_spec (2 * r) d), (Z.ltb_spec d (2 * r)); nia.
  - destruct (Z.ltb_spec (2 * r) d), (Z.ltb_spec d (2 * r)); nia.
Qed.

Lemma rne_error n d : (0 < d)%Z → (2 * Z.abs (n - d * rne n d) <= d)%Z.
Proof.
  intros Hd. unfold rne. pose proof (Z.div_mod n d). pose proof (Z.mod_pos_bound n d Hd).
  set (a := (n / d)%Z) in *. set (r := (n mod d)%Z) in *. assert (n = d * a + r)%Z by lia.
  destruct (Z.ltb_spec (2 * r) d), (Z.ltb_spec d (2 * r)); [nia|nia|nia|].
  destruct (Z.even a); nia.
Qed.

(** The exponent of a number below [2^32] leaves at least 20 fraction bits. *)
Lemma round_ratio_small N D :
  (0 < D)%Z → (0 <= N)%Z → (N < D * 2 ^ 32)%Z →
  ∃ s, (20 <= s)%Z ∧ f_m (round_ratio N D) = rne (N * 2 ^ s) D
       ∧ (f_m (round_ratio N D) = 0 ∧ f_e (round_ratio N D) = 0 ∧ N = 0
          ∨ f_e (round_ratio N D) = - s)%Z.
Proof.
  intros HD HN Hlt. unfold round_ratio. destruct (Z.eqb_spec N 0) as [->|Hnz].
  - exists 20%Z. cbn [f_m f_e]. split; [lia|]. split; [|by left].
    symmetry. apply rne_unique; [done|]. rewrite Z.mul_0_l, Z.mul_0_r. cbn. lia.
  - set (e := if (N / D =? 0)%Z then _ else _).
    assert (e <= -20)%Z as He.
    { unfold e. destruct (Z.eqb_spec (N / D) 0) as [H0|H0].
      - pose proof (Z.log2_up_nonneg ((D + N - 1) / N)). lia.
      - assert (Z.log2 (N / D) < 32)%Z; [|lia]. apply Z.log2_lt_pow2.
        + pose proof (Z.div_pos N D). lia.
        + apply Z.div_lt_upper_bound; lia. }
    rewrite (proj2 (Z.ltb_lt e 0)) by lia. exists (- e)%Z. cbn [f_m f_e].
    split; [lia|]. split; [done|]. right. lia.
Qed.

Lemma digits_val_app a b :
  digits_val (a ++ b) = (digits_val a * 10 ^ N.of_nat (length b) + digits_val b)%N.
Proof.
  revert a. induction b as [|c b IH] using rev_ind; intros a.
  - rewrite app_nil_r. cbn. lia.
  - rewrite app_assoc, !digits_val_snoc, IH, length_app, Nat.add_comm. cbn [length].
    rewrite Nat2N.inj_succ, N.pow_succ_r'. lia.
Qed.

Lemma digits_val_bound l :
  forallb is_digit l = true → (digits_val l < 10 ^ N.of_nat (length l))%N.
Proof.
  induction l as [|c l IH] using rev_ind; intros H; [done|].
  apply forallb_app_iff in H as [Hl Hc]. cbn in Hc. rewrite andb_true_r in Hc.
  rewrite digits_val_snoc, length_app, Nat.add_comm. cbn [length].
  rewrite Nat2N.inj_succ, N.pow_succ_r'. specialize (IH Hl).
  unfold is_digit in Hc. apply andb_true_iff in Hc as [_ Hc%N.leb_le]. unfold dval. lia.
Qed.

(** A number with [k <= 6] decimals is recovered from its float. *)
Lemma Sprintf_round_ratio I F (k : nat) :
  (k ≤ 6)%nat → (0 <= I < 2 ^ 32)%Z → (0 <= F < 10 ^ Z.of_nat k)%Z →
  Sprintf_f (round_ratio (I * 10 ^ Z.of_nat k + F) (10 ^ Z.of_nat k))
  = format_uint (Z.to_N I) ++ bs "." ++ pad6 (Z.to_N (F * 10 ^ (6 - Z.of_nat k))).
Proof.
  intros Hk HI HF. set (D := (10 ^ Z.of_nat k)%Z) in *. set (N := (I * D + F)%Z).
  assert (0 < D)%Z as HD by (apply Z.pow_pos_nonneg; lia).
  set (G := (10 ^ (6 - Z.of_nat k))%Z). assert (D * G = 10 ^ 6)%Z as HDG.
  { unfold D, G. rewrite <- Z.pow_add_r by lia. f_equal. lia. }
  assert (0 < G)%Z as HG by (apply Z.pow_pos_nonneg; lia).
  destruct (round_ratio_small N D HD) as (s & Hs & Hm & He); [unfold N; nia..|].
  set (x := round_ratio N D) in *. set (T := (I * 10 ^ 6 + F * G)%Z).
  assert (T * D = N * 10 ^ 6)%Z as HT by (unfold T, N; rewrite <- HDG; ring).
  assert (2 ^ 20 <= 2 ^ s)%Z as H20 by (apply Z.pow_le_mono_r; lia).
  assert (0 <= f_m x)%Z as Hpos.
  { rewrite Hm. pose proof (rne_error (N * 2 ^ s) D HD). assert (0 <= N)%Z by (unfold N; nia).
    assert (0 <= N * 2 ^ s)%Z by nia. nia. }
  assert ((if (f_e x <? 0)%Z then rne (Z.abs (f_m x) * 10 ^ 6) (2 ^ (- f_e x))
           else Z.abs (f_m x) * 10 ^ 6 * 2 ^ f_e x) = T)%Z as Hq.
  { rewrite Z.abs_eq by done. destruct He as [(H1 & H2 & H3)|H2].
    - rewrite H1, H2. cbn -[Z.pow]. rewrite H3 in HT. nia.
    - rewrite H2, (proj2 (Z.ltb_lt _ _)), Z.opp_involutive by lia. apply rne_unique; [lia|].
      pose proof (rne_error (N * 2 ^ s) D HD) as Herr. rewrite <- Hm in Herr.
      change (2 ^ 20)%Z with 1048576%Z in H20. change (10 ^ 6)%Z with 1000000%Z in *.
      assert (D * (f_m x * 1000000 - 2 ^ s * T) = - 1000000 * (N * 2 ^ s - D * f_m x))%Z as Hlin
        by (rewrite !Z.mul_sub_distr_l; nia).
      nia. }
  unfold Sprintf_f. rewrite Hq, (proj2 (Z.ltb_ge (f_m x) 0)) by done. cbn [app].
  assert (F * G < 10 ^ 6)%Z by nia. assert (T / 10 ^ 6 = I)%Z as ->.
  { symmetry. apply (Z.div_unique T (10 ^ 6) I (F * G)); [left; nia | unfold T; ring]. }
  assert (T mod 10 ^ 6 = F * G)%Z as ->; [|done].
  symmetry. apply (Z.mod_unique T (10 ^ 6) I (F * G)); [left; nia | unfold T; ring].
Qed.

(** Reading a decimal with at most six decimals and printing it with six. *)
Lemma Sprintf_ParseFloat i f :
  (f ≠ [] ∧ length f ≤ 6)%nat → forallb is_digit f = true → (i < 2 ^ 32)%N →
  ∃ x, ParseFloat (format_uint i ++ bs "." ++ f) = Some x
  ∧ Sprintf_f x = format_uint i ++ bs "." ++
          pad6 (Z.to_N (Z.of_N (digits_val f) * 10 ^ (6 - Z.of_nat (length f)))).
Proof.
  intros [Hne Hlen] Hf Hi. unfold ParseFloat.
  assert (∃ c r, format_uint i = c :: r ∧ (c =b "-"%char) = false) as (c & r & E & Hc).
  { pose proof (format_uint_nonempty i). pose proof (format_uint_digits i) as Hd.
    destruct (format_uint i) as [|c r]; [done|]. exists c, r. split; [done|].
    cbn in Hd. apply andb_true_iff in Hd as [Hd _]. apply bool_decide_eq_false.
    by apply digit_not_sign in Hd as []. }
  rewrite E. cbn [app]. rewrite Hc.
  replace (c :: r ++ bs "." ++ f) with (format_uint i ++ "."%char :: f) by by rewrite E.
  rewrite span_block; [|apply format_uint_digits|by intros ? ? [= <- _]].
  rewrite bool_decide_true, Hf by done. pose proof (format_uint_nonempty i) as Hn.
  rewrite (bool_decide_false (format_uint i = [])), (bool_decide_false (f = [])) by done.
  cbn [negb andb]. eexists. split; [reflexivity|].
  rewrite digits_val_app, format_uint_val. pose proof (digits_val_bound f Hf) as Hb.
  assert (Z.of_N (10 ^ N.of_nat (length f)) = 10 ^ Z.of_nat (length f))%Z as Hp
    by (rewrite N2Z.inj_pow, nat_N_Z; done).
  rewrite N2Z.inj_add, N2Z.inj_mul, Hp. rewrite Sprintf_round_ratio; [|done|lia|lia].
  by rewrite N2Z.id, E.
Qed.

(** A digit string is determined by its length and value. *)
Lemma digits_val_inj a b :
  forallb is_digit a = true → forallb is_digit b = true → length a = length b →
  digits_val a = digits_val b → a = b.
Proof.
  revert b. induction a as [|c a IH] using rev_ind; intros b Ha Hb Hl Hv.
  - by destruct b.
  - destruct b as [|d b _] using rev_ind; [rewrite length_app in Hl; cbn in Hl; lia|].
    rewrite !length_app in Hl. cbn in Hl. rewrite !digits_val_snoc in Hv.
    apply forallb_app_iff in Ha as [Ha Hc], Hb as [Hb Hd]. cbn in Hc, Hd.
    rewrite andb_true_r in Hc, Hd. unfold is_digit in Hc, Hd.
    apply andb_true_iff in Hc as [Hc1%N.leb_le Hc2%N.leb_le], Hd as [Hd1%N.leb_le Hd2%N.leb_le].
    unfold dval in Hv. f_equal; [apply IH; (done || lia)|]. f_equal. apply bv_inj. lia.
Qed.

Lemma zeros_digits n : forallb is_digit (zeros n) = true.
Proof. by induction n. Qed.

Lemma digits_val_zeros n : digits_val (zeros n) = 0%N.
Proof.
  induction n as [|n IH]; [done|]. unfold zeros in *. rewrite replicate_S_end, digits_val_snoc, IH.
  done.
Qed.

Lemma pad6_right_zeros n :
  (n < 10 ^ 6)%N →
  pad6 (Z.to_N (Z.of_N n * 10 ^ (6 - Z.of_nat (length (format_uint n)))))
  = format_uint n ++ zeros (6 - length (format_uint n)).
Proof.
  intros Hn. pose proof (format_uint_length n 5 Hn) as Hl. set (l := length _) in *.
  set (v := Z.to_N _). pose proof (digits_val_bound _ (format_uint_digits n)) as Hb.
  rewrite format_uint_val in Hb. fold l in Hb.
  assert (v = n * 10 ^ N.of_nat (6 - l))%N as Hv.
  { unfold v. rewrite Z2N.inj_mul, N2Z.id, Z2N.inj_pow by lia. do 2 f_equal. lia. }
  assert (v < 10 ^ 6)%N as Hv6.
  { rewrite Hv. replace (10 ^ 6)%N with (10 ^ N.of_nat l * 10 ^ N.of_nat (6 - l))%N.
    - apply N.mul_lt_mono_pos_r; [|done]. apply N.neq_0_lt_0, N.pow_nonzero. done.
    - rewrite <- N.pow_add_r. f_equal. lia. }
  pose proof (format_uint_length v 5 Hv6) as Hlv. unfold pad6. apply digits_val_inj.
  - apply forallb_app_iff. auto using zeros_digits, format_uint_digits.
  - apply forallb_app_iff. auto using zeros_digits, format_uint_digits.
  - rewrite !length_app. unfold zeros. rewrite !length_replicate. fold l. lia.
  - rewrite !digits_val_app, !digits_val_zeros, !format_uint_val. unfold zeros.
    rewrite length_replicate. lia.
Qed.

(** ** Properties *)

(** The time stamp announced for a clock reading, before the year 2106,
    is the seconds, a point, and the microseconds filled up to six digits
    with zeros on the RIGHT: the code joins the two numbers without padding,
    so 5 microseconds are announced as half a second. *)
Theorem timestamp_right_padded sec usec :
  (0 <= sec < 2 ^ 32)%Z → (0 <= usec < 10 ^ 6)%Z →
  ∃ ts, getTimeOfDay sec usec = Some ts
    ∧ marshal_timestamp ts
      = format_int sec ++ bs "." ++ format_int usec ++ zeros (6 - length (format_int usec)).
Proof.
  intros Hs Hu. unfold getTimeOfDay, format_int.
  rewrite (proj2 (Z.ltb_ge sec 0)), (proj2 (Z.ltb_ge usec 0)) by lia.
  assert (Z.to_N usec < 10 ^ 6)%N as Hu' by (change (10 ^ 6)%N with (Z.to_N (10 ^ 6)); lia).
  destruct (Sprintf_ParseFloat (Z.to_N sec) (format_uint (Z.to_N usec))) as (x & Hx & Hf).
  - split; [apply format_uint_nonempty | by apply format_uint_length].
  - apply format_uint_digits.
  - change (2 ^ 32)%N with (Z.to_N (2 ^ 32)). lia.
  - exists x. split; [exact Hx|]. unfold marshal_timestamp. rewrite Hf, format_uint_val.
    by rewrite pad6_right_zeros.
Qed.

(** Five microseconds past second 1440001142 read as half a second, and so
    more than the 40 microseconds (read as 0.4) that come later. *)
Lemma timestamp_right_padded_witness :
  option_map marshal_timestamp (getTimeOfDay 1440001142 5) = Some (bs "1440001142.500000")
  ∧ option_map marshal_timestamp (getTimeOfDay 1440001142 40) = Some (bs "1440001142.400000").
Proof.
  split.
  - destruct (timestamp_right_padded 1440001142 5) as (ts & -> & H); [lia|lia|].
    cbn [option_map]. rewrite H. reflexivity.
  - destruct (timestamp_right_padded 1440001142 40) as (ts & -> & H); [lia|lia|].
    cbn [option_map]. rewrite H. reflexivity.
Defined.
