(* ===== verification/ServiceProxy.v ===== *)
(** src/scamp/serviceproxy.go: a service as its announcement describes it.
    [MarshalJSON] writes the positional class record, [newServiceProxy]
    reads one.  The lazily dialled connection ([client]) is kept apart from
    the record and passed to [GetClient]. *)
From S2P Require Import Prelude Strconv Utf8 Json JsonFacts GoStrings Timestamp.

(** ** Data *)

Record actionDescription := mkAction {
  actionName : bytes;
  crudTags : bytes;
  version : Z
}.

Record serviceProxyClass := mkClass {
  className : bytes;
  actions : list actionDescription
}.

(** The values of the [interface{}] slices are kept as parsed. *)
Record ServiceProxyDiscoveryExtension := mkExt {
  Vmin : Z;
  Vmaj : Z;
  AcSec : list json;
  AcName : list json;
  AcVer : list json;
  AcEnv : list json;
  AcFlag : list json;
  AcNs : list json
}.

Record serviceProxy := mkProxy {
  sp_version : Z;
  sp_ident : bytes;
  sp_sector : bytes;
  sp_weight : Z;
  sp_announceInterval : Z;
  sp_connspec : bytes;
  sp_protocols : list bytes;
  sp_classes : list serviceProxyClass;
  sp_extension : option ServiceProxyDiscoveryExtension;
  sp_rawClassRecords : bytes;
  sp_rawCert : bytes;
  sp_rawSig : bytes;
  sp_timestamp : float64
}.

(** [func (sp *serviceProxy) baseIdent() string]: [SplitN(ident, ":", 2)]
    has two parts exactly when there is a colon. *)
Definition baseIdent (sp : serviceProxy) : bytes :=
  match span (λ c, negb (c =b ":"%char)) (sp_ident sp) with
  | (base, _ :: _) => base
  | (_, []) => sp_ident sp
  end.

(** [func (sp *serviceProxy) GetClient() (client *Client, err error)], given
    [url.Parse(connspec).Host] and [Dial]: the proxy's new [client] field
    and the result. *)
Section GetClient.
Context {Client : Type} (isClosed : Client → bool) (set_spIdent : bytes → Client → Client).
Context (url_Host : bytes → bytes + bytes) (Dial : bytes → bytes + Client).

Definition GetClient (sp : serviceProxy) (client : option Client)
    : option Client * outcome bytes Client :=
  let found :=
    if match client with None => true | Some c => isClosed c end then
      match url_Host (sp_connspec sp) with
      | inl err => (client, Err err)
      | inr host =>
          match Dial host with
          | inl err => (None, Err err)
          | inr c => (Some c, Ok tt)
          end
      end
    else (client, Ok tt) in
  match found with
  | (field, Err err) => (field, Err err)
  | (field, Panic w) => (field, Panic w)
  | (None, Ok _) => (None, Err (bs "client is nil"))
  | (Some c, Ok _) => let c' := set_spIdent (sp_ident sp) c in (Some c', Ok c')
  end.
End GetClient.

(** The accessors of proxies, classes and actions. *)
Definition proxy_Ident : serviceProxy → bytes := sp_ident.
Definition proxy_ConnSpec : serviceProxy → bytes := sp_connspec.
Definition proxy_Sector : serviceProxy → bytes := sp_sector.
Definition proxy_Classes : serviceProxy → list serviceProxyClass := sp_classes.
Definition class_Name : serviceProxyClass → bytes := className.
Definition class_Actions : serviceProxyClass → list actionDescription := actions.
Definition action_Name : actionDescription → bytes := actionName.
Definition action_Version : actionDescription → Z := version.

(** [func (sp *serviceProxy) shortHostname() string], given [url.Parse] and
    the names [net.LookupAddr] finds, or its error; a connspec that is no URL
    ends the program with [log.Fatal]. *)
Definition shortHostname (url_Host : bytes → bytes + bytes) (LookupAddr : bytes → bytes + list bytes)
    (sp : serviceProxy) : outcome bytes bytes :=
  match url_Host (sp_connspec sp) with
  | inl err => Err err
  | inr urlHost =>
      match split_on ":"%char urlHost with
      | [host; _] =>
          match LookupAddr host with
          | inr (name :: _) => Ok name
          | _ => Ok host
          end
      | _ => Ok (sp_connspec sp)
      end
  end.

(** ** Writing *)

(** [["poll","",1]] *)
Definition action_json (a : actionDescription) : json :=
  JArr [jstring (actionName a); jstring (crudTags a); jint (version a)].

Definition class_json (c : serviceProxyClass) : json :=
  JArr (jstring (className c) :: map action_json (actions c)).

Definition proxy_json (sp : serviceProxy) : json :=
  JArr [jint (sp_version sp); jstring (sp_ident sp); jstring (sp_sector sp);
        jint (sp_weight sp); jint (sp_announceInterval sp); jstring (sp_connspec sp);
        JArr (map jstring (sp_protocols sp)); JArr (map class_json (sp_classes sp));
        JNum (marshal_timestamp (sp_timestamp sp))].

(** [func (sp *serviceProxy) MarshalJSON() (b []byte, err error)]: no value
    of the record makes [json.Marshal] fail. *)
Definition proxy_MarshalJSON (sp : serviceProxy) : bytes := render (proxy_json sp).

(** ** Reading *)

Inductive proxy_error :=
| JsonError (* a [json.Unmarshal] failed *)
| ShortClass (* "expected rawClass to have at least 2 entries" *)
| VersionError. (* the version string is no integer *)

(** [json.Unmarshal] into a nil [[]json.RawMessage]. *)
Definition into_raw_slice (v : json) : option (list json) :=
  match v with
  | JNull => Some []
  | JArr l => Some l
  | _ => None
  end.

Definition index_panic : bytes := bs "index out of range".

(** [l[k]] *)
Definition nth_rec {E} (l : list json) (k : nat) : outcome E json :=
  match l !! k with
  | Some v => Ok v
  | None => Panic index_panic
  end.

(** [strconv.ParseFloat] of a number literal overflows: its value is at
    least half a unit beyond the largest float. *)
Definition float_overflows (raw : bytes) : bool :=
  let r := match raw with c :: r => if c =b "-"%char then r else raw | [] => [] end in
  let '(i, t) := span is_digit r in
  let '(f, t2) := match t with
                  | c :: u => if c =b "."%char then span is_digit u else ([], t)
                  | [] => ([], [])
                  end in
  let e := match t2 with
           | _ :: u => match split_sign u with
                       | (neg, ds) => let n := Z.of_N (digits_val ds) in
                                      if neg : bool then (- n)%Z else n
                       end
           | [] => 0%Z
           end in
  let m := Z.of_N (digits_val (i ++ f)) in
  let e10 := (e - Z.of_nat (length f))%Z in
  let limit := (2 ^ 1024 - 2 ^ 970)%Z in
  negb (m =? 0)%Z
  && (if (0 <=? e10)%Z then (limit <=? m * 10 ^ e10)%Z else (limit * 10 ^ (- e10) <=? m)%Z).

(** Decoding into an [interface{}] fails on a number out of float range. *)
Fixpoint iface_ok (v : json) : bool :=
  match v with
  | JNum raw => negb (float_overflows raw)
  | JArr l => forallb iface_ok l
  | JObj l => forallb (λ '(_, x), iface_ok x) l
  | _ => true
  end.

Definition into_ifaces (v : json) : option (list json) :=
  match v with
  | JNull => Some []
  | JArr l => if forallb iface_ok l then Some l else None
  | _ => None
  end.

Definition ext_names : list bytes :=
  map bs ["vmin"; "vmaj"; "acsec"; "acname"; "acver"; "acenv"; "acflag"; "acns"]%string.

Definition ext_field (x : ServiceProxyDiscoveryExtension) (name : bytes) (v : json)
    : option ServiceProxyDiscoveryExtension :=
  let 'mkExt vmin vmaj sec nm ver env flag ns := x in
  if name =b bs "vmin" then y ← into_int vmin v; Some (mkExt y vmaj sec nm ver env flag ns)
  else if name =b bs "vmaj" then y ← into_int vmaj v; Some (mkExt vmin y sec nm ver env flag ns)
  else if name =b bs "acsec" then y ← into_ifaces v; Some (mkExt vmin vmaj y nm ver env flag ns)
  else if name =b bs "acname" then y ← into_ifaces v; Some (mkExt vmin vmaj sec y ver env flag ns)
  else if name =b bs "acver" then y ← into_ifaces v; Some (mkExt vmin vmaj sec nm y env flag ns)
  else if name =b bs "acenv" then y ← into_ifaces v; Some (mkExt vmin vmaj sec nm ver y flag ns)
  else if name =b bs "acflag" then y ← into_ifaces v; Some (mkExt vmin vmaj sec nm ver env y ns)
  else if name =b bs "acns" then y ← into_ifaces v; Some (mkExt vmin vmaj sec nm ver env flag y)
  else Some x.

Fixpoint ext_members (x : ServiceProxyDiscoveryExtension) (l : list (bytes * json))
    : option ServiceProxyDiscoveryExtension :=
  match l with
  | [] => Some x
  | (k, v) :: r =>
      key ← unquote k;
      x' ← match find_field ext_names key with
           | None => Some x
           | Some name => ext_field x name v
           end;
      ext_members x' r
  end.

Definition unmarshal_extension (v : json) : option ServiceProxyDiscoveryExtension :=
  let zero := mkExt 0 0 [] [] [] [] [] [] in
  match v with
  | JObj l => ext_members zero l
  | JNull => Some zero
  | _ => None
  end.

(** The loop over [rawProtocols], whose elements are pointers: [null] is a
    nil pointer. *)
Fixpoint decode_protocols (l : list json) (ps : list bytes)
    (ext : option ServiceProxyDiscoveryExtension)
    : outcome proxy_error (list bytes * option ServiceProxyDiscoveryExtension) :=
  match l with
  | [] => Ok (ps, ext)
  | JNull :: _ => Panic (bs "invalid memory address or nil pointer dereference")
  | v :: r =>
      match into_string [] v with
      | Some tempStr => decode_protocols r (ps ++ [tempStr]) ext
      | None =>
          match unmarshal_extension v with
          | Some extension => decode_protocols r ps (Some extension)
          | None => decode_protocols r ps ext
          end
      end
  end.

Definition decode_version (v : json) : outcome proxy_error Z :=
  match into_int 0 v with
  | Some z => Ok z
  | None =>
      versionStr ← or_err JsonError (into_string [] v);
      match ParseInt versionStr with
      | inr z => Ok z
      | inl _ => Err VersionError
      end
  end.

(** One action spec.  The error for a wrong number of entries is assigned
    and then overwritten by the next call. *)
Definition decode_action (rawActionSpec : json) : outcome proxy_error actionDescription :=
  msgs ← or_err JsonError (into_raw_slice rawActionSpec);
  m0 ← nth_rec msgs 0;
  name ← or_err JsonError (into_string [] m0);
  m1 ← nth_rec msgs 1;
  tags ← or_err JsonError (into_string [] m1);
  v ← match msgs !! 2 with None => Ok 1%Z | Some m2 => decode_version m2 end;
  Ok (mkAction name tags v).

Fixpoint decode_actions (l : list json) : outcome proxy_error (list actionDescription) :=
  match l with
  | [] => Ok []
  | v :: r => a ← decode_action v; r' ← decode_actions r; Ok (a :: r')
  end.

Definition decode_class (rawClass : list json) : outcome proxy_error serviceProxyClass :=
  match rawClass with
  | m0 :: ((_ :: _) as rawActionsSlice) =>
      name ← or_err JsonError (into_string [] m0);
      acts ← decode_actions rawActionsSlice;
      Ok (mkClass name acts)
  | _ => Err ShortClass
  end.

Fixpoint decode_classes (l : list (list json)) : outcome proxy_error (list serviceProxyClass) :=
  match l with
  | [] => Ok []
  | rawClass :: r => c ← decode_class rawClass; r' ← decode_classes r; Ok (c :: r')
  end.

(** Everything after the first [Unmarshal].  The error for a length other
    than nine is overwritten; the ninth entry is never read. *)
Definition decode_records (l : list json) (recordsRaw certRaw sigRaw : bytes)
    : outcome proxy_error serviceProxy :=
  r0 ← nth_rec l 0; ver ← or_err JsonError (into_int 0 r0);
  r1 ← nth_rec l 1; ident ← or_err JsonError (into_string [] r1);
  r2 ← nth_rec l 2; sector ← or_err JsonError (into_string [] r2);
  r3 ← nth_rec l 3; weight ← or_err JsonError (into_int 0 r3);
  r4 ← nth_rec l 4; interval ← or_err JsonError (into_int 0 r4);
  r5 ← nth_rec l 5; connspec ← or_err JsonError (into_string [] r5);
  r6 ← nth_rec l 6; rawProtocols ← or_err JsonError (into_raw_slice r6);
  '(protocols, ext) ← decode_protocols rawProtocols [] None;
  r7 ← nth_rec l 7; rawClassVals ← or_err JsonError (into_raw_slice r7);
  rawClasses ← or_err JsonError (mapM into_raw_slice rawClassVals);
  classes ← decode_classes rawClasses;
  Ok (mkProxy ver ident sector weight interval connspec protocols classes ext
        recordsRaw certRaw sigRaw (mkFloat 0 0)).

(** [func newServiceProxy(classRecordsRaw, certRaw, sigRaw []byte)]. *)
Definition newServiceProxy (classRecordsRaw certRaw sigRaw : bytes)
    : outcome proxy_error serviceProxy :=
  v ← or_err JsonError (parse classRecordsRaw);
  classRecords ← or_err JsonError (into_raw_slice v);
  decode_records classRecords classRecordsRaw certRaw sigRaw.

(** ** Specification *)

Definition wf_action (a : actionDescription) : Prop :=
  valid_utf8 (actionName a) ∧ valid_utf8 (crudTags a) ∧ in_i64 (version a).

(** A class without actions is written, but cannot be read back. *)
Definition wf_class (c : serviceProxyClass) : Prop :=
  valid_utf8 (className c) ∧ actions c ≠ [] ∧ Forall wf_action (actions c).

Definition wf_proxy (sp : serviceProxy) : Prop :=
  in_i64 (sp_version sp) ∧ valid_utf8 (sp_ident sp) ∧ valid_utf8 (sp_sector sp)
  ∧ in_i64 (sp_weight sp) ∧ in_i64 (sp_announceInterval sp) ∧ valid_utf8 (sp_connspec sp)
  ∧ Forall valid_utf8 (sp_protocols sp) ∧ Forall wf_class (sp_classes sp).

(** What a reader makes of an announcement: the extension is not announced
    and the time stamp not read. *)
Definition announced (sp : serviceProxy) (certRaw sigRaw : bytes) : serviceProxy :=
  mkProxy (sp_version sp) (sp_ident sp) (sp_sector sp) (sp_weight sp) (sp_announceInterval sp)
    (sp_connspec sp) (sp_protocols sp) (sp_classes sp) None
    (proxy_MarshalJSON sp) certRaw sigRaw (mkFloat 0 0).

(** ** Lemmas *)

Lemma pad6_ok n : forallb is_digit (pad6 n) = true ∧ pad6 n ≠ [].
Proof.
  unfold pad6. split.
  - apply forallb_app_iff. auto using zeros_digits, format_uint_digits.
  - intros E. apply app_eq_nil in E as [_ E]. by apply format_uint_nonempty in E.
Qed.

Lemma num_ok_timestamp ts : num_ok (marshal_timestamp ts).
Proof.
  unfold marshal_timestamp, Sprintf_f. set (q := if (f_e ts <? 0)%Z then _ else _).
  destruct (pad6_ok (Z.to_N (q mod 10 ^ 6))) as [Hd Hn].
  apply num_ok_unsigned. intros rest Hr. change (bs ".") with ["."%char]. cbn [app].
  by apply scan_unsigned_decimal.
Qed.

Lemma wf_action_json a : wf_action a → wf_json (action_json a).
Proof. intros (H1 & H2 & _). apply wf_arr.
  repeat (constructor; [auto with go|]). constructor.
Qed.

Lemma wf_class_json c : wf_class c → wf_json (class_json c).
Proof.
  intros (H1 & _ & H2). apply wf_arr. constructor; [auto with go|].
  rewrite Forall_map. eapply Forall_impl; [exact H2 | apply wf_action_json].
Qed.

Lemma wf_proxy_json sp : wf_proxy sp → wf_json (proxy_json sp).
Proof.
  intros (_ & H1 & H2 & _ & _ & H3 & H4 & H5). apply wf_arr.
  do 6 (constructor; [auto with go|]).
  constructor; [apply wf_arr; rewrite Forall_map; eapply Forall_impl; [exact H4 | apply wf_jstring]|].
  constructor; [apply wf_arr; rewrite Forall_map; eapply Forall_impl; [exact H5 | apply wf_class_json]|].
  constructor; [apply num_ok_timestamp | constructor].
Qed.

Lemma jdepth_action a : (jdepth (action_json a) <= 1)%N.
Proof. unfold action_json. cbn. lia. Qed.

Lemma jdepth_class c : (jdepth (class_json c) <= 2)%N.
Proof.
  apply (jdepth_arr _ 1). constructor; [cbn; lia|]. rewrite Forall_map.
  apply Forall_true, jdepth_action.
Qed.

Lemma jdepth_proxy sp : (jdepth (proxy_json sp) <= max_depth)%N.
Proof.
  etrans; [apply (jdepth_arr _ 3)|by vm_compute].
  do 6 (constructor; [cbn; lia|]).
  constructor; [|constructor; [|constructor; [cbn; lia | constructor]]].
  - etrans; [apply (jdepth_arr _ 0); rewrite Forall_map; by apply Forall_true | lia].
  - apply (jdepth_arr _ 2). rewrite Forall_map. apply Forall_true, jdepth_class.
Qed.

(** Reduce a decoder on a literal array, keeping its JSON values folded. *)
Ltac json_simpl :=
  cbn -[into_string jstring jint into_int ParseInt decode_protocols decode_classes mapM].

Lemma decode_protocols_string p r ps ext :
  valid_utf8 p → decode_protocols (jstring p :: r) ps ext = decode_protocols r (ps ++ [p]) ext.
Proof.
  intros Hp. change (decode_protocols (jstring p :: r) ps ext)
    with (match into_string [] (jstring p) with
          | Some t => decode_protocols r (ps ++ [t]) ext
          | None => decode_protocols r ps ext
          end).
  by rewrite into_string_jstring.
Qed.

Lemma decode_protocols_strings ps qs ext :
  Forall valid_utf8 ps → decode_protocols (map jstring ps) qs ext = Ok (qs ++ ps, ext).
Proof.
  intros H. revert qs. induction H as [|p ps Hp _ IH]; intros qs; [by rewrite app_nil_r|].
  cbn [map]. rewrite decode_protocols_string, IH, <- app_assoc by done. done.
Qed.

Lemma decode_action_json a : wf_action a → decode_action (action_json a) = Ok a.
Proof.
  intros (H1 & H2 & H3). unfold decode_action, action_json. json_simpl.
  rewrite !into_string_jstring by done. json_simpl.
  unfold decode_version. rewrite into_int_jint by done. by destruct a.
Qed.

Lemma decode_actions_json l : Forall wf_action l → decode_actions (map action_json l) = Ok l.
Proof.
  induction 1 as [|a l Ha _ IH]; [done|]. cbn [map decode_actions].
  rewrite decode_action_json by done. go_simpl. by rewrite IH.
Qed.

Definition class_parts (c : serviceProxyClass) : list json :=
  jstring (className c) :: map action_json (actions c).

Lemma decode_class_parts c : wf_class c → decode_class (class_parts c) = Ok c.
Proof.
  intros (H1 & H2 & H3). unfold decode_class, class_parts. json_simpl.
  rewrite into_string_jstring by done. json_simpl. rewrite decode_actions_json by done.
  by destruct c as [n [|a l]].
Qed.

Lemma decode_classes_parts l : Forall wf_class l → decode_classes (map class_parts l) = Ok l.
Proof.
  induction 1 as [|c l Hc _ IH]; [done|]. cbn [map decode_classes].
  rewrite decode_class_parts by done. go_simpl. by rewrite IH.
Qed.

Lemma mapM_class_json l : mapM into_raw_slice (map class_json l) = Some (map class_parts l).
Proof. induction l as [|c l IH]; [done|]. cbn. by rewrite IH. Qed.

Lemma parse_MarshalJSON sp : wf_proxy sp → parse (proxy_MarshalJSON sp) = Some (proxy_json sp).
Proof.
  intros Hwf. unfold proxy_MarshalJSON. rewrite <- (app_nil_r (render (proxy_json sp))).
  apply parse_render; [by apply wf_proxy_json | apply jdepth_proxy | done].
Qed.

Lemma nth_rec_Ok {E} l k v : nth_rec (E := E) l k = Ok v → (k < length l)%nat.
Proof.
  unfold nth_rec. destruct (l !! k) eqn:E1; [|done]. intros _. by eapply lookup_lt_Some.
Qed.

Lemma read_MarshalJSON sp certRaw sigRaw :
  wf_proxy sp →
  newServiceProxy (proxy_MarshalJSON sp) certRaw sigRaw = Ok (announced sp certRaw sigRaw).
Proof.
  intros Hwf. unfold newServiceProxy. rewrite (parse_MarshalJSON sp Hwf).
  destruct Hwf as (H1 & H2 & H3 & H4 & H5 & H6 & H7 & H8).
  json_simpl. rewrite !into_int_jint, !into_string_jstring by done. json_simpl.
  rewrite decode_protocols_strings by done. json_simpl.
  rewrite mapM_class_json. json_simpl. by rewrite decode_classes_parts.
Qed.

(** A lookup either hits or panics, whatever the error type. *)
Lemma nth_rec_app {E} l x k : (k < length l)%nat → nth_rec (E := E) (l ++ x) k = nth_rec l k.
Proof. intros H. unfold nth_rec. by rewrite lookup_app_l. Qed.

(** ** Properties *)

(** C14. What [MarshalJSON] writes, [newServiceProxy] reads back: for a proxy
    of UTF-8 strings and 64-bit integers with at least one action in each
    class, all announced fields come back; the record text, certificate and
    signature are kept as given. *)
Theorem proxy_roundtrip sp certRaw sigRaw :
  wf_proxy sp →
  newServiceProxy (proxy_MarshalJSON sp) certRaw sigRaw = Ok (announced sp certRaw sigRaw).
Proof. apply read_MarshalJSON. Qed.

(** The check for nine entries is without effect: entries after the
    eighth, the time stamp included, never matter. *)
Theorem length_not_checked l extra recordsRaw certRaw sigRaw :
  length l = 8 →
  decode_records (l ++ extra) recordsRaw certRaw sigRaw = decode_records l recordsRaw certRaw sigRaw.
Proof. intros Hl. unfold decode_records. by rewrite !nth_rec_app by lia. Qed.

(** The nine entries of a record, and the record with another entry for
    the protocols. *)
Definition entries (sp : serviceProxy) : list json :=
  match proxy_json sp with JArr l => l | _ => [] end.

(** A record that is cut short, and one with a [null] among its
    protocols, do not give an error: they make [newServiceProxy] panic. *)
Theorem bad_records_panic sp k rest recordsRaw certRaw sigRaw :
  wf_proxy sp → (k < 8)%nat →
  decode_records (take k (entries sp)) recordsRaw certRaw sigRaw = Panic index_panic
  ∧ decode_records (<[6 := JArr (map jstring (sp_protocols sp) ++ JNull :: rest)]> (entries sp))
      recordsRaw certRaw sigRaw
    = Panic (bs "invalid memory address or nil pointer dereference").
Proof.
  intros (H1 & H2 & H3 & H4 & H5 & H6 & H7 & H8) Hk. unfold decode_records, entries, proxy_json. split.
  - do 8 (destruct k as [|k]; [json_simpl; rewrite ?into_int_jint, ?into_string_jstring by done;
      json_simpl; rewrite ?decode_protocols_strings by done; reflexivity|]). lia.
  - json_simpl. rewrite !into_int_jint, !into_string_jstring by done. json_simpl.
    enough (∀ ps qs, Forall valid_utf8 ps →
      decode_protocols (map jstring ps ++ JNull :: rest) qs None
      = Panic (bs "invalid memory address or nil pointer dereference")) as -> by done.
    intros ps qs Hps. revert qs. induction Hps as [|p ps Hp _ IH]; intros qs; [done|].
    cbn [map app]. rewrite decode_protocols_string by done. apply IH.
Qed.

Lemma decode_actions_length l acts : decode_actions l = Ok acts → length acts = length l.
Proof.
  revert acts. induction l as [|v l IH]; intros acts; cbn; [by intros [= <-]|].
  destruct (decode_action v); [|done|done]. destruct (decode_actions l) as [r| |]; [|done|done].
  intros [= <-]. cbn. f_equal. by apply IH.
Qed.

Lemma decode_classes_actions l cs :
  decode_classes l = Ok cs → Forall (λ c, actions c ≠ []) cs ∧ length cs = length l.
Proof.
  revert cs. induction l as [|rc l IH]; intros cs; cbn; [intros [= <-]; by split|].
  destruct (decode_class rc) as [c| |] eqn:Ec; [|done|done].
  destruct (decode_classes l) as [r| |]; [|done|done]. intros [= <-].
  destruct (IH r eq_refl) as [H1 H2]. split; [|cbn; by f_equal]. constructor; [|done].
  unfold decode_class in Ec. destruct rc as [|m0 [|m1 rc]]; [done|done|]. cbn in Ec.
  destruct (into_string [] m0); [|done]. cbn in Ec.
  destruct (decode_actions (m1 :: rc)) as [acts| |] eqn:Ea; cbn in Ea; rewrite Ea in Ec; [|done|done].
  injection Ec as <-. cbn. pose proof (decode_actions_length (m1 :: rc) acts Ea) as Hl.
  intros ->. done.
Qed.

(** C40. A record that is accepted is a JSON array with at least eight
    entries; every class has an action; the raw texts are kept as given; the
    time stamp is zero whatever the record says. *)
Theorem newServiceProxy_sound recordsRaw certRaw sigRaw sp :
  newServiceProxy recordsRaw certRaw sigRaw = Ok sp →
  (∃ l, parse recordsRaw = Some (JArr l) ∧ (8 ≤ length l)%nat)
  ∧ Forall (λ c, actions c ≠ []) (sp_classes sp)
  ∧ sp_rawClassRecords sp = recordsRaw ∧ sp_rawCert sp = certRaw ∧ sp_rawSig sp = sigRaw
  ∧ sp_timestamp sp = mkFloat 0 0.
Proof.
  unfold newServiceProxy, decode_records. intros H.
  apply bind_Ok in H as (v & Ep%or_err_Ok & H). apply bind_Ok in H as (l & El%or_err_Ok & H).
  repeat match type of H with
  | (nth_rec l ?k ≫= _) = _ => apply bind_Ok in H as (? & ?%nth_rec_Ok & H)
  | (decode_classes _ ≫= _) = _ => apply bind_Ok in H as (? & Hc & H)
  | (decode_protocols _ _ _ ≫= _) = _ => apply bind_Ok in H as ([? ?] & ? & H)
  | _ = Ok _ => apply bind_Ok in H as (? & _ & H)
  end.
  injection H as <-. cbn. apply decode_classes_actions in Hc as [Hc _].
  split; [|by repeat split]. exists l. split; [|lia].
  destruct v as [| | | |l'|]; cbn in El; simplify_eq; [cbn in *; lia | done].
Qed.

(** ** Concrete records *)

(** The record of serviceproxy_test.go. *)
Definition bgdispatcher : serviceProxy :=
  mkProxy 3 (bs "bgapi/proc01-HP4m32uuoVLTNXcLrKc3vd75") (bs "main") 1 5
    (bs "beepish+tls://10.8.1.158:30359") [bs "json"]
    [mkClass (bs "bgdispatcher")
       [mkAction (bs "poll") [] 1; mkAction (bs "reboot") [] 1; mkAction (bs "report") [] 1]]
    None [] [] [] (mkFloat 1440001142628 0).

Definition quotes (s : bytes) : bytes := map (λ c, if c =b "'"%char then quote_char else c) s.

(** TestServiceProxySerialize. *)
Example bgdispatcher_text :
  proxy_MarshalJSON bgdispatcher =
  quotes (bs "[3,'bgapi/proc01-HP4m32uuoVLTNXcLrKc3vd75','main',1,5,'beepish+tls://10.8.1.158:30359',['json'],[['bgdispatcher',['poll','',1],['reboot','',1],['report','',1]]],1440001142628.000000]").
Proof. vm_compute. reflexivity. Qed.

Lemma bgdispatcher_wf : wf_proxy bgdispatcher.
Proof.
  do 6 (split; [first [by apply valid_utf8_ascii | by vm_compute]|]). split.
  - constructor; [by apply valid_utf8_ascii | constructor].
  - constructor; [|constructor]. split; [by apply valid_utf8_ascii|]. split; [done|].
    do 3 (constructor; [split; [by apply valid_utf8_ascii|];
                        split; [by apply valid_utf8_ascii | by vm_compute]|]). constructor.
Qed.

Lemma proxy_roundtrip_witness :
  newServiceProxy (proxy_MarshalJSON bgdispatcher) (bs "cert") (bs "sig")
  = Ok (announced bgdispatcher (bs "cert") (bs "sig")).
Proof. exact (proxy_roundtrip bgdispatcher (bs "cert") (bs "sig") bgdispatcher_wf). Defined.

Lemma length_not_checked_witness :
  decode_records (take 8 (entries bgdispatcher) ++ [JNull; JNull]) [] [] []
  = decode_records (take 8 (entries bgdispatcher)) [] [] [].
Proof. exact (length_not_checked (take 8 (entries bgdispatcher)) [JNull; JNull] [] [] [] eq_refl). Defined.

Lemma bad_records_panic_witness :
  decode_records [] [] [] [] = Panic index_panic
  ∧ decode_records (<[6 := JArr ([jstring (bs "json")] ++ [JNull])]> (entries bgdispatcher)) [] [] []
    = Panic (bs "invalid memory address or nil pointer dereference").
Proof. exact (bad_records_panic bgdispatcher 0 [] [] [] [] bgdispatcher_wf ltac:(lia)). Defined.

Lemma newServiceProxy_sound_witness :
  Forall (λ c, actions c ≠ []) (sp_classes (announced bgdispatcher [] [])).
Proof.
  destruct (newServiceProxy_sound (proxy_MarshalJSON bgdispatcher) [] [] (announced bgdispatcher [] []))
    as (_ & H & _); [vm_compute; reflexivity | exact H].
Defined.
