(* ===== verification/Base64.v ===== *)
(** The part of Go's [encoding/base64] the program calls: the standard
    alphabet with padding and the URL alphabet with and without.  The
    decoder skips line breaks wherever they stand, so it is written on the
    input without them; which byte an error blames is not kept. *)
From S2P Require Import Prelude.

(** The two characters in which the alphabets differ. *)
Record encoding := mkEncoding { c62 : byte; c63 : byte; padded : bool }.

Definition StdEncoding : encoding := mkEncoding "+" "/" true.
Definition URLEncoding : encoding := mkEncoding "-" "_" true.
Definition RawURLEncoding : encoding := mkEncoding "-" "_" false.

Definition pad_char : byte := "=".

(** Sextet to character and back. *)
Definition sextet_char (e : encoding) (n : N) : byte :=
  if (n <? 26)%N then chr (65 + n)
  else if (n <? 52)%N then chr (71 + n)
  else if (n <? 62)%N then chr (n - 4)
  else if (n =? 62)%N then c62 e else c63 e.

Definition char_sextet (e : encoding) (c : byte) : option N :=
  let n := bv c in
  if (65 <=? n)%N && (n <=? 90)%N then Some (n - 65)%N
  else if (97 <=? n)%N && (n <=? 122)%N then Some (n - 71)%N
  else if (48 <=? n)%N && (n <=? 57)%N then Some (n + 4)%N
  else if c =b c62 e then Some 62%N
  else if c =b c63 e then Some 63%N
  else None.

(** The bytes of up to four sextets. *)
Definition byte0 (x y : N) : byte := chr (x * 4 + y / 16).
Definition byte1 (y z : N) : byte := chr (y mod 16 * 16 + z / 4).
Definition byte2 (z w : N) : byte := chr (z mod 4 * 64 + w).

Fixpoint decode_sextets (e : encoding) (s : bytes) : option bytes :=
  match s with
  | [] => Some []
  | [_] => None
  | a :: b :: r =>
      x ← char_sextet e a; y ← char_sextet e b;
      match r with
      | [] => if padded e then None else Some [byte0 x y]
      | c :: r1 =>
          if padded e && (c =b pad_char) then
            match r1 with
            | [d] => if d =b pad_char then Some [byte0 x y] else None
            | _ => None
            end
          else
            z ← char_sextet e c;
            match r1 with
            | [] => if padded e then None else Some [byte0 x y; byte1 y z]
            | d :: r2 =>
                if padded e && (d =b pad_char) then
                  match r2 with [] => Some [byte0 x y; byte1 y z] | _ => None end
                else
                  w ← char_sextet e d;
                  app [byte0 x y; byte1 y z; byte2 z w] <$> decode_sextets e r2
            end
      end
  end.

Definition is_break (c : byte) : bool := (c =b chr 10) || (c =b chr 13).

Definition strip_breaks (s : bytes) : bytes := List.filter (λ c, negb (is_break c)) s.

(** [enc.DecodeString(s)]. *)
Definition DecodeString (e : encoding) (s : bytes) : option bytes :=
  decode_sextets e (strip_breaks s).

(** [enc.Decode(dst, src)] with a nil [dst]: the first group that decodes
    is written out of range. *)
Definition Decode_nil (e : encoding) (src : bytes) : outcome unit bytes :=
  let s := strip_breaks src in
  match s with
  | [] => Ok []
  | _ =>
      match decode_sextets e (take 4 s) with
      | Some _ => Panic (bs "index out of range")
      | None => Err tt
      end
  end.

Fixpoint encode_sextets (e : encoding) (s : bytes) : bytes :=
  let q := sextet_char e in
  match s with
  | [] => []
  | [a] =>
      q (bv a / 4)%N :: q (bv a mod 4 * 16)%N :: (if padded e then [pad_char; pad_char] else [])
  | [a; b] =>
      q (bv a / 4)%N :: q (bv a mod 4 * 16 + bv b / 16)%N :: q (bv b mod 16 * 4)%N
      :: (if padded e then [pad_char] else [])
  | a :: b :: c :: r =>
      q (bv a / 4)%N :: q (bv a mod 4 * 16 + bv b / 16)%N
      :: q (bv b mod 16 * 4 + bv c / 64)%N :: q (bv c mod 64)%N :: encode_sextets e r
  end.

(** [enc.EncodeToString(s)]. *)
Definition EncodeToString : encoding → bytes → bytes := encode_sextets.

(** ** Lemmas *)

(** The three encodings share what the proofs need. *)
Class GoodEncoding (e : encoding) := {
  sextet_inv : ∀ n, (n < 64)%N → char_sextet e (sextet_char e n) = Some n;
  sextet_not_pad : ∀ n, (n < 64)%N → sextet_char e n ≠ pad_char;
  sextet_not_break : ∀ n, (n < 64)%N → is_break (sextet_char e n) = false
}.

Lemma below_64 (P : N → Prop) : Forall P (map N.of_nat (seq 0 64)) → ∀ n, (n < 64)%N → P n.
Proof.
  rewrite List.Forall_forall. intros H n Hn. apply H, in_map_iff.
  exists (N.to_nat n). split; [lia|]. apply in_seq. lia.
Qed.

Ltac sextets := apply below_64; repeat constructor; by vm_compute.

#[export] Instance StdEncoding_good : GoodEncoding StdEncoding.
Proof. split; sextets. Qed.
#[export] Instance RawURLEncoding_good : GoodEncoding RawURLEncoding.
Proof. split; sextets. Qed.

Ltac sextet_bounds :=
  repeat match goal with c : byte |- _ =>
    lazymatch goal with _ : (bv c < 256)%N |- _ => fail | _ => pose proof (bv_bound c) end end.

Section roundtrip.
Context (e : encoding) `{GoodEncoding e}.

Lemma byte0_inv a : byte0 (bv a / 4) (bv a mod 4 * 16) = a.
Proof. unfold byte0. rewrite <- (chr_bv a) at 3. f_equal. pose proof (bv_bound a). dm_lia. Qed.

Lemma byte0_inv2 a b : byte0 (bv a / 4) (bv a mod 4 * 16 + bv b / 16) = a.
Proof.
  unfold byte0. rewrite <- (chr_bv a) at 3. f_equal.
  pose proof (bv_bound a). pose proof (bv_bound b). dm_lia.
Qed.

Lemma byte1_inv a b c :
  byte1 (bv a mod 4 * 16 + bv b / 16) (bv b mod 16 * 4 + bv c / 64) = b.
Proof.
  unfold byte1. rewrite <- (chr_bv b) at 3. f_equal.
  pose proof (bv_bound a). pose proof (bv_bound b). pose proof (bv_bound c). dm_lia.
Qed.

Lemma byte2_inv b c : byte2 (bv b mod 16 * 4 + bv c / 64) (bv c mod 64) = c.
Proof.
  unfold byte2. rewrite <- (chr_bv c) at 3. f_equal.
  pose proof (bv_bound b). pose proof (bv_bound c). dm_lia.
Qed.

Lemma not_pad n : (n < 64)%N → padded e && (sextet_char e n =b pad_char) = false.
Proof.
  intros Hn. rewrite (proj2 (bool_decide_eq_false _)) by by apply sextet_not_pad.
  apply andb_false_r.
Qed.

(** Induction by groups of three bytes. *)
Lemma triples_ind (P : bytes → Prop) :
  P [] → (∀ a, P [a]) → (∀ a b, P [a; b]) → (∀ a b c r, P r → P (a :: b :: c :: r)) → ∀ l, P l.
Proof.
  intros H0 H1 H2 H3 l. assert (∀ n l, length l ≤ n → P l) as Hn; [|by apply (Hn (length l))].
  induction n as [|n IH]; intros [|a [|b [|c r]]] Hl; cbn in Hl; try lia; auto.
  apply H3, IH. lia.
Qed.

Lemma decode_encode_sextets s : decode_sextets e (encode_sextets e s) = Some s.
Proof.
  induction s as [|a|a b|a b c r IH] using triples_ind; [done|..]; cbn [encode_sextets].
  - sextet_bounds. destruct (padded e) eqn:Hp; cbn [decode_sextets];
      rewrite !sextet_inv by dm_lia; rewrite Hp; cbn; by rewrite byte0_inv.
  - sextet_bounds. cbn [decode_sextets]. rewrite !sextet_inv by dm_lia. cbn [mbind option_bind].
    rewrite not_pad by dm_lia. rewrite ?sextet_inv by dm_lia. cbn [mbind option_bind].
    rewrite <- (N.add_0_r (bv b mod 16 * 4)), byte0_inv2.
    pose proof (byte1_inv a b (chr 0)) as Hb1. change (bv (chr 0) / 64)%N with 0%N in Hb1.
    rewrite Hb1. by destruct (padded e).
  - sextet_bounds. cbn [decode_sextets]. rewrite !sextet_inv by dm_lia. cbn [mbind option_bind].
    rewrite not_pad by dm_lia. rewrite ?sextet_inv by dm_lia. cbn [mbind option_bind].
    rewrite not_pad by dm_lia. rewrite ?sextet_inv by dm_lia. cbn [mbind option_bind].
    by rewrite IH, byte0_inv2, byte1_inv, byte2_inv.
Qed.

(** Encoded text has no line breaks. *)
Lemma encode_no_breaks s : forallb (λ c, negb (is_break c)) (encode_sextets e s) = true.
Proof.
  induction s as [|a|a b|a b c r IH] using triples_ind; [done|..]; cbn [encode_sextets];
    sextet_bounds; cbn [forallb]; rewrite !sextet_not_break by dm_lia; cbn [negb andb];
    by destruct (padded e).
Qed.
End roundtrip.

Lemma strip_breaks_app a b : strip_breaks (a ++ b) = strip_breaks a ++ strip_breaks b.
Proof. apply List.filter_app. Qed.

Lemma strip_breaks_id s : forallb (λ c, negb (is_break c)) s = true → strip_breaks s = s.
Proof. induction s as [|c s IH]; [done|]. cbn. intros [-> Hs]%andb_true_iff. f_equal. auto. Qed.

(** Decoding undoes encoding, with line breaks strewn in. *)
Lemma DecodeString_Encode e `{GoodEncoding e} s t :
  strip_breaks t = EncodeToString e s → DecodeString e t = Some s.
Proof. intros Ht. unfold DecodeString. rewrite Ht. by apply decode_encode_sextets. Qed.
