(* ===== verification/Verify.v ===== *)
(** src/scamp/verify.go and src/scamp/cert.go: signatures over SHA-256 and
    the certificate fingerprint.  The primitives of Go's [crypto] packages
    are an interface; its law is that a signature made with a private key
    verifies under that key's public half. *)
From S2P Require Import Prelude Base64.

(** ** The interface *)

Class Crypto := {
  PublicKey : Type;
  PrivateKey : Type;
  Certificate : Type;
  Sum256 : bytes → bytes;
  Sum1 : bytes → bytes;
  (** the text of the error, or nothing *)
  VerifyPKCS1v15 : PublicKey → bytes → bytes → option bytes;
  (** an error, or the signature *)
  SignPKCS1v15 : PrivateKey → bytes → bytes + bytes;
  public_of : PrivateKey → PublicKey;
  (** [pem.Decode]: the bytes of the first block *)
  pem_Decode : bytes → option bytes;
  x509_ParseCertificate : bytes → bytes + Certificate;
  (** [cert.PublicKey.( *rsa.PublicKey)] *)
  cert_PublicKey : Certificate → option PublicKey;
  cert_Raw : Certificate → bytes;
  (** [x509.ParsePKIXPublicKey], as an RSA key *)
  ParsePKIXPublicKey : bytes → option PublicKey
}.

Class CryptoLaws `{Crypto} := {
  sign_verify : ∀ priv digest sig,
    SignPKCS1v15 priv digest = inr sig → VerifyPKCS1v15 (public_of priv) digest sig = None;
  sign_nonempty : ∀ priv digest, SignPKCS1v15 priv digest ≠ inr [];
  Sum1_length : ∀ b, length (Sum1 b) = 20
}.

Section verify.
Context `{Crypto}.

(** [func decodeUnpaddedBase64(incoming []byte, isURLEncoded bool)]. *)
Definition decodeUnpaddedBase64 (incoming : bytes) (isURLEncoded : bool)
    : outcome bytes bytes :=
  if isURLEncoded then
    let m := (length incoming mod 4)%nat in
    let incoming' := if (m =? 0)%nat then incoming else incoming ++ replicate (4 - m) pad_char in
    map_err (λ _, bs "illegal base64 data") (Decode_nil URLEncoding incoming')
  else or_err (bs "illegal base64 data") (DecodeString StdEncoding incoming).

(** [func verifySHA256(rawPayload, rsaPubKey, encodedSignature, isURLEncoded)]. *)
Definition verifySHA256 (rawPayload : bytes) (rsaPubKey : PublicKey)
    (encodedSignature : bytes) (isURLEncoded : bool) : outcome bytes unit :=
  expectedSig ← map_err (λ e, bs "failed to decode base64: `" ++ e ++ bs "`/`"
                              ++ encodedSignature ++ bs "`")
                  (decodeUnpaddedBase64 encodedSignature isURLEncoded);
  match VerifyPKCS1v15 rsaPubKey (Sum256 rawPayload) expectedSig with
  | Some err => Err (bs "failed to verify PKCS1v15: `" ++ err ++ bs "`")
  | None => Ok tt
  end.

(** [func signSHA256(rawPayload, priv)]. *)
Definition signSHA256 (rawPayload : bytes) (priv : PrivateKey) : outcome bytes bytes :=
  match SignPKCS1v15 priv (Sum256 rawPayload) with
  | inl err => Err err
  | inr sig => Ok (EncodeToString StdEncoding sig)
  end.

(** [hex.EncodeToString] of one byte, in upper case. *)
Definition hex_upper (n : N) : byte := if (n <? 10)%N then chr (48 + n) else chr (55 + n).
Definition hex_byte (c : byte) : bytes := [hex_upper (bv c / 16); hex_upper (bv c mod 16)].

(** The loop over the hex digits: position [i] of [upperCasedLen]. *)
Fixpoint with_colons (i upperCasedLen : nat) (s : bytes) : bytes :=
  match s with
  | [] => []
  | c :: r =>
      c :: (if (0 <? i)%nat && negb (i =? upperCasedLen - 1)%nat && ((i + 1) mod 2 =? 0)%nat
            then [":"%char] else [])
      ++ with_colons (S i) upperCasedLen r
  end.

(** [func sha1FingerPrint(cert)]. *)
Definition sha1FingerPrint (cert : Certificate) : bytes :=
  let upperCased := concat (map hex_byte (Sum1 (cert_Raw cert))) in
  with_colons 0 (length upperCased) upperCased.

(** [func GetSHA1FingerPrint(cert *x509.Certificate)]. *)
Definition GetSHA1FingerPrint (cert : Certificate) : bytes := sha1FingerPrint cert.
End verify.

(** ** Lemmas *)

(** Two digits at a time, a colon after all but the last pair. *)
Fixpoint colon_join (l : list bytes) : bytes :=
  match l with
  | [] => []
  | [x] => x
  | x :: r => x ++ ":"%char :: colon_join r
  end.

Lemma with_colons_pairs l k n :
  n = (2 * k + 2 * length l)%nat →
  with_colons (2 * k) n (concat (map hex_byte l)) = colon_join (map hex_byte l).
Proof.
  revert k. induction l as [|c l IH]; intros k Hn; [done|].
  cbn [map concat hex_byte app with_colons]. cbn [length] in Hn.
  assert (((2 * k + 1) mod 2 =? 0)%nat = false) as ->.
  { replace (2 * k + 1)%nat with (1 + k * 2)%nat by lia. by rewrite Nat.Div0.mod_add. }
  assert (((S (2 * k) + 1) mod 2 =? 0)%nat = true) as ->.
  { replace (S (2 * k) + 1)%nat with (0 + (S k) * 2)%nat by lia. by rewrite Nat.Div0.mod_add. }
  rewrite !andb_false_r, andb_true_r. cbn [app].
  replace (S (S (2 * k))) with (2 * S k)%nat by lia. rewrite IH by lia.
  destruct l as [|d l].
  - cbn [length] in Hn. replace (n - 1)%nat with (S (2 * k)) by lia.
    by rewrite Nat.eqb_refl.
  - rewrite (proj2 (Nat.eqb_neq _ _)) by (cbn [length] in Hn; lia). done.
Qed.

Lemma signSHA256_verify `{CryptoLaws} payload priv sig t :
  signSHA256 payload priv = Ok sig → strip_breaks t = sig →
  verifySHA256 payload (public_of priv) t false = Ok tt.
Proof.
  unfold signSHA256. destruct (SignPKCS1v15 _ _) as [|s] eqn:Es; [done|]. intros [= <-] Ht.
  unfold verifySHA256, decodeUnpaddedBase64. rewrite (DecodeString_Encode StdEncoding s t Ht).
  go_simpl. by rewrite (sign_verify _ _ _ Es).
Qed.

(** ** Properties *)

(** What [signSHA256] signs, [verifySHA256] accepts under the matching
    public key, also when the signature text has been broken into lines. *)
Theorem sign_then_verify `{CryptoLaws} payload priv sig t :
  signSHA256 payload priv = Ok sig → strip_breaks t = sig →
  verifySHA256 payload (public_of priv) t false = Ok tt.
Proof. apply signSHA256_verify. Qed.

(** With [isURLEncoded] set the target slice is nil: well-formed input is
    written out of range. *)
Example url_decoding_panics :
  decodeUnpaddedBase64 (bs "aGk") true = Panic (bs "index out of range").
Proof. vm_compute. reflexivity. Qed.

(** The fingerprint is the SHA-1 of the certificate as twenty upper
    case hex pairs joined by colons. *)
Theorem fingerprint_pairs `{CryptoLaws} cert :
  sha1FingerPrint cert = colon_join (map hex_byte (Sum1 (cert_Raw cert)))
  ∧ length (sha1FingerPrint cert) = 59.
Proof.
  assert (∀ l, length (concat (map hex_byte l)) = 2 * length l)%nat as Hl.
  { induction l as [|c l IH]; [done|]. cbn [map concat hex_byte app length]. lia. }
  assert (sha1FingerPrint cert = colon_join (map hex_byte (Sum1 (cert_Raw cert)))) as E.
  { unfold sha1FingerPrint. apply (with_colons_pairs _ 0). rewrite Hl. lia. }
  split; [exact E|]. rewrite E. pose proof (Sum1_length (cert_Raw cert)) as H20.
  assert (∀ l, l ≠ [] → length (colon_join (map hex_byte l)) = 3 * length l - 1)%nat as Hj.
  { induction l as [|c [|d l] IH]; intros Hne; [done|done|]. specialize (IH ltac:(done)).
    change (colon_join (map hex_byte (c :: d :: l)))
      with (hex_byte c ++ ":"%char :: colon_join (map hex_byte (d :: l))).
    rewrite length_app. cbn [length hex_byte]. cbn [length] in IH. lia. }
  rewrite Hj, H20; [done|]. by destruct (Sum1 _).
Qed.

(** ** A toy instance

    A signature is the key followed by the digest; certificates and keys are
    their own encodings; the empty key does not sign. *)
Definition toy_crypto : Crypto := {|
  PublicKey := bytes;
  PrivateKey := bytes;
  Certificate := bytes;
  Sum256 := take 32;
  Sum1 b := take 20 (b ++ replicate 20 (chr 0));
  VerifyPKCS1v15 pub digest sig := if sig =b pub ++ digest then None else Some (bs "verification error");
  SignPKCS1v15 priv digest := if priv =b [] then inl (bs "no key") else inr (priv ++ digest);
  public_of priv := priv;
  pem_Decode b := match b with [] => None | _ => Some b end;
  x509_ParseCertificate b := inr b;
  cert_PublicKey b := Some b;
  cert_Raw b := b;
  ParsePKIXPublicKey b := Some b
|}.

Lemma toy_laws : @CryptoLaws toy_crypto.
Proof.
  split.
  - intros priv digest sig. cbn. case_bool_decide; [done|]. intros [= <-]. by rewrite bool_decide_true.
  - intros priv digest. cbn. case_bool_decide; [done|]. intros [= E]. by destruct priv.
  - intros b. cbn. rewrite length_take, length_app. cbn [length]. lia.
Qed.

Lemma sign_then_verify_witness :
  @verifySHA256 toy_crypto (bs "hello") (bs "key") (bs "a2V5" ++ [chr 10] ++ bs "aGVsbG8=") false = Ok tt.
Proof.
  exact (@sign_then_verify toy_crypto toy_laws (bs "hello") (bs "key") (bs "a2V5aGVsbG8=")
    (bs "a2V5" ++ [chr 10] ++ bs "aGVsbG8=") ltac:(vm_compute; reflexivity) ltac:(vm_compute; reflexivity)).
Defined.

Lemma fingerprint_pairs_witness :
  length (@sha1FingerPrint toy_crypto (bs "cert")) = 59.
Proof. apply (@fingerprint_pairs toy_crypto toy_laws (bs "cert")). Defined.
