(* ===== verification/Ticket.v ===== *)
(** src/scamp/ticket.go: verification of an authorisation ticket.  The
    package's two globals, the key and the [sync.Once] that loads it, are
    explicit state; the clock reading and the file system are arguments. *)
From S2P Require Import Prelude Strconv Utf8 GoStrings Base64 Verify.

(** ** Data *)

(** A missing map reads like an empty one. *)
Record Ticket := mkTicket {
  t_Version : Z;
  t_UserID : Z;
  t_ClientID : Z;
  t_Timestamp : Z;
  t_TTL : Z;
  t_Privileges : gmap Z bool
}.

(** The errors, in the order the code can return them. *)
Inductive ticket_error :=
| MissingParts (n : nat)
| KeyNotReadable (keyPath : bytes)
| DecodeSignature
| UnableToVerify (err : bytes)
| InvalidVersion
| ParseUserID (s : bytes) (err : num_error)
| ParseClientID (s : bytes) (err : num_error)
| ParseTimestamp (s : bytes) (err : num_error)
| ParseTTL (err : num_error)
| ParsePriv (err : num_error)
| TicketExpired.

Definition defaultKeyPath : bytes := bs "/etc/GT/auth/ticket_verify_public_key.pem".

(** [ticket.Timestamp + ticket.TTL < time.Now().Unix()], in 64 bits. *)
Definition Expired (ticket : Ticket) (now : Z) : bool :=
  (i64 (t_Timestamp ticket + t_TTL ticket) <? now)%Z.

(** The privileges [CheckPrivs] reports as missing. *)
Definition missingPrivs (ticket : Ticket) (privs : list Z) : list Z :=
  List.filter (λ p, negb (default false (t_Privileges ticket !! p))) privs.

(** [fmt] of a slice of integers: [[1 2]]. *)
Definition show_ints (l : list Z) : bytes := bs "[" ++ join (bs " ") (map format_int l) ++ bs "]".

(** [func (ticket *Ticket) CheckPrivs(privs []int) error]. *)
Definition CheckPrivs (ticket : Ticket) (privs : list Z) : option bytes :=
  match missingPrivs ticket privs with
  | [] => None
  | l => Some (bs "missing privileges: " ++ show_ints l)
  end.

Definition of_num {A} (f : num_error → ticket_error) (r : num_error + A) : outcome ticket_error A :=
  match r with inl e => Err (f e) | inr z => Ok z end.

(** The loop over the privileges. *)
Fixpoint parse_privs (l : list bytes) (m : gmap Z bool) : outcome ticket_error (gmap Z bool) :=
  match l with
  | [] => Ok m
  | s :: r => priv ← of_num ParsePriv (Atoi s); parse_privs r (<[priv := true]> m)
  end.

(** The fields, once the signature is verified.  Only [parts[5]] is looked
    at beyond the first five. *)
Definition parse_fields (parts : list bytes) : outcome ticket_error Ticket :=
  let part k := default [] (parts !! k) in
  if negb (part 0 =b bs "1") then Err InvalidVersion
  else
    userID ← of_num (ParseUserID (part 1)) (Atoi (part 1));
    clientID ← of_num (ParseClientID (part 2)) (Atoi (part 2));
    timestamp ← of_num (ParseTimestamp (part 3)) (ParseInt (part 3));
    ttl ← of_num ParseTTL (ParseInt (part 4));
    privileges ← match parts !! 5 with
                 | None => Ok ∅
                 | Some s => parse_privs (split_on "+"%char s) ∅
                 end;
    Ok (mkTicket 1 userID clientID timestamp ttl privileges).

Section ticket.
Context `{Crypto}.
Context (ReadFile : bytes → bytes + bytes).

(** The globals [verifyKey] and [readVerifyKey]. *)
Record key_state := mkKeyState { verifyKey : option PublicKey; once_done : bool }.

(** [readVerifyKey.Do(func() { ... })]: a panic in the function counts as
    having run it. *)
Definition load_key (keyPath : bytes) (st : key_state) : key_state * option bytes :=
  if once_done st then (st, None)
  else
    let failed why := (mkKeyState (verifyKey st) true, Some why) in
    match ReadFile keyPath with
    | inl err => failed err
    | inr vkStr =>
        match pem_Decode vkStr with
        | None => failed (bs "can't decode nil pem")
        | Some block =>
            match ParsePKIXPublicKey block with
            | None => failed (bs "interface conversion")
            | Some pk => (mkKeyState (Some pk) true, None)
            end
        end
    end.

(** After the key is loaded. *)
Definition verify_parts (keyPath : bytes) (key : option PublicKey) (sig : bytes)
    (parts : list bytes) (now : Z) : outcome ticket_error Ticket :=
  match key with
  | None => Err (KeyNotReadable keyPath)
  | Some k =>
      signature ← or_err DecodeSignature (DecodeString RawURLEncoding sig);
      match VerifyPKCS1v15 k (Sum256 (join (bs ",") parts)) signature with
      | Some err => Err (UnableToVerify err)
      | None =>
          ticket ← parse_fields parts;
          if Expired ticket now then Err TicketExpired else Ok ticket
      end
  end.

(** [func VerifyTicket(unparsedTicket string, keyPath string)]. *)
Definition VerifyTicket (unparsedTicket keyPath0 : bytes) (now : Z) (st : key_state)
    : key_state * outcome ticket_error Ticket :=
  let keyPath := match keyPath0 with [] => defaultKeyPath | _ => keyPath0 end in
  let parts := split_on ","%char (trim_space unparsedTicket) in
  if (length parts <? 6)%nat then (st, Err (MissingParts (length parts)))
  else
    let sig := default [] (parts !! (length parts - 1)%nat) in
    let parts' := take (length parts - 1) parts in
    match load_key keyPath st with
    | (st', Some why) => (st', Panic why)
    | (st', None) => (st', verify_parts keyPath (verifyKey st') sig parts' now)
    end.
End ticket.

(** ** Specification *)

(** The text an issuer signs. *)
Definition ticket_parts (uid cid ts ttl : Z) (privs : list Z) : list bytes :=
  [bs "1"; format_int uid; format_int cid; format_int ts; format_int ttl;
   join (bs "+") (map format_int privs)].

Definition ticket_body (uid cid ts ttl : Z) (privs : list Z) : bytes :=
  join (bs ",") (ticket_parts uid cid ts ttl privs).

Definition ticket_text (uid cid ts ttl : Z) (privs : list Z) (sig : bytes) : bytes :=
  ticket_body uid cid ts ttl privs ++ bs "," ++ EncodeToString RawURLEncoding sig.

Definition granted (privs : list Z) : gmap Z bool :=
  fold_left (λ m p, <[p := true]> m) privs ∅.

(** ** Lemmas *)

Lemma granted_lookup_from privs m p :
  fold_left (λ m p, <[p := true]> m) privs m !! p
  = if bool_decide (p ∈ privs) then Some true else (m : gmap Z bool) !! p.
Proof.
  revert m. induction privs as [|q privs IH]; intros m; [done|]. cbn [fold_left]. rewrite IH.
  destruct (decide (p ∈ privs)) as [H|H].
  - rewrite !bool_decide_true; [done | set_solver | done].
  - rewrite (bool_decide_false (p ∈ privs)) by done.
    destruct (decide (p = q)) as [->|Hpq].
    + rewrite bool_decide_true by set_solver. by rewrite lookup_insert_eq.
    + rewrite bool_decide_false by set_solver. by rewrite lookup_insert_ne.
Qed.

Lemma granted_lookup privs p :
  granted privs !! p = if bool_decide (p ∈ privs) then Some true else None.
Proof. unfold granted. rewrite granted_lookup_from. by rewrite lookup_empty. Qed.

Lemma missingPrivs_spec t privs p :
  p ∈ missingPrivs t privs ↔ p ∈ privs ∧ t_Privileges t !! p ≠ Some true.
Proof.
  unfold missingPrivs. rewrite !list_elem_of_In, filter_In.
  destruct (t_Privileges t !! p) as [[]|]; cbn; intuition congruence.
Qed.

(** Bytes of decimal numbers. *)
Definition decimal (c : byte) : bool := is_digit c || (c =b "-"%char).

Lemma format_int_decimal z : forallb decimal (format_int z) = true.
Proof.
  assert (∀ n, forallb decimal (format_uint n) = true) as H.
  { intros n. pose proof (format_uint_digits n) as Hd. rewrite forallb_forall in *.
    intros c Hc. unfold decimal. by rewrite Hd. }
  unfold format_int. destruct (z <? 0)%Z; [|done]. apply forallb_app_iff. auto.
Qed.

(** Bytes of the parts of a ticket. *)
Definition part_byte (c : byte) : bool := decimal c || (c =b "+"%char).

Lemma decimal_part l : forallb decimal l = true → forallb part_byte l = true.
Proof. apply forallb_impl. intros c H. unfold part_byte. by rewrite H. Qed.

Lemma join_privs_bytes privs : forallb part_byte (join (bs "+") (map format_int privs)) = true.
Proof.
  induction privs as [|p [|q r] IH]; [done|apply decimal_part, format_int_decimal|].
  cbn [map] in *. rewrite join_cons by done. apply forallb_app_iff.
  split; [apply decimal_part, format_int_decimal|]. apply forallb_app_iff. by split.
Qed.

Lemma part_byte_facts l :
  forallb part_byte l = true → (","%char ∉ l) ∧ forallb ascii_byte l = true.
Proof.
  intros H. split.
  - intros Hc%list_elem_of_In. rewrite forallb_forall in H. by apply H in Hc.
  - revert H. apply forallb_impl. apply forall_byte_impl. by vm_compute.
Qed.

Lemma format_int_no_plus z : "+"%char ∉ format_int z.
Proof.
  intros Hc%list_elem_of_In. pose proof (format_int_decimal z) as H.
  rewrite forallb_forall in H. by apply H in Hc.
Qed.

Lemma ticket_parts_bytes uid cid ts ttl privs :
  Forall (λ x, forallb part_byte x = true) (ticket_parts uid cid ts ttl privs).
Proof.
  repeat (constructor; [first [done | apply decimal_part, format_int_decimal
                                    | apply join_privs_bytes]|]). constructor.
Qed.

(** Characters of encoded text. *)
Definition b64_byte (c : byte) : bool :=
  ascii_byte c && negb (c =b ","%char) && negb (is_space (bv c)).

Lemma raw_encode_bytes s : forallb b64_byte (EncodeToString RawURLEncoding s) = true.
Proof.
  assert (∀ n, (n < 64)%N → b64_byte (sextet_char RawURLEncoding n) = true) as Hs by sextets.
  unfold EncodeToString. induction s as [|a|a b|a b c r IH] using triples_ind; [done|..];
    cbn [encode_sextets]; sextet_bounds; cbn [forallb]; rewrite !Hs by dm_lia; by cbn.
Qed.

Lemma parse_privs_format privs m :
  Forall in_i64 privs →
  parse_privs (map format_int privs) m = Ok (fold_left (λ m p, <[p := true]> m) privs m).
Proof.
  intros H. revert m. induction H as [|p privs Hp _ IH]; intros m; [done|].
  cbn [map parse_privs]. unfold Atoi. rewrite ParseInt_format by done. go_simpl. apply IH.
Qed.

Lemma parse_fields_parts uid cid ts ttl privs :
  in_i64 uid → in_i64 cid → in_i64 ts → in_i64 ttl → Forall in_i64 privs → privs ≠ [] →
  parse_fields (ticket_parts uid cid ts ttl privs)
  = Ok (mkTicket 1 uid cid ts ttl (granted privs)).
Proof.
  intros H1 H2 H3 H4 Hp Hne. unfold parse_fields, ticket_parts. cbn [lookup list_lookup default].
  change (negb (bs "1" =b bs "1")) with false. unfold Atoi. cbn -[ParseInt split_on].
  rewrite !ParseInt_format by done. cbn -[ParseInt split_on].
  change (bs "+") with ["+"%char]. rewrite split_join.
  - rewrite parse_privs_format by done. done.
  - by destruct privs.
  - rewrite Forall_map. by apply Forall_true, format_int_no_plus.
Qed.

Lemma join_ascii l :
  Forall (λ x, forallb part_byte x = true) l → forallb ascii_byte (join (bs ",") l) = true.
Proof.
  induction 1 as [|x l Hx Hl IH]; [done|]. destruct l as [|y l]; [by apply part_byte_facts|].
  rewrite join_cons by done. apply forallb_app_iff. split; [by apply part_byte_facts|].
  apply forallb_app_iff. by split.
Qed.

(** The text of a ticket, cut at the commas. *)
Lemma ticket_text_split uid cid ts ttl privs sig :
  split_on ","%char (trim_space (ticket_text uid cid ts ttl privs sig))
  = ticket_parts uid cid ts ttl privs ++ [EncodeToString RawURLEncoding sig].
Proof.
  set (enc := EncodeToString RawURLEncoding sig).
  pose proof (raw_encode_bytes sig) as He. fold enc in He.
  pose proof (ticket_parts_bytes uid cid ts ttl privs) as Hp.
  assert (ticket_text uid cid ts ttl privs sig
          = join (bs ",") (ticket_parts uid cid ts ttl privs ++ [enc])) as E
    by by rewrite join_snoc.
  assert (forallb ascii_byte (ticket_text uid cid ts ttl privs sig) = true) as Ha.
  { unfold ticket_text. fold enc. apply forallb_app_iff. split.
    - by apply join_ascii.
    - apply forallb_app_iff. split; [done|]. revert He. apply forallb_impl. unfold b64_byte.
      intros c H. apply andb_true_iff in H as [H _]. by apply andb_true_iff in H as []. }
  assert (∃ s z, ticket_text uid cid ts ttl privs sig = "1"%char :: s ++ [z]
                 ∧ is_space (bv z) = false) as (s & z & Es & Hz).
  { unfold ticket_text. fold enc. destruct enc as [|z e _] using rev_ind.
    - exists (drop 1 (ticket_body uid cid ts ttl privs)), ","%char. by split.
    - exists (drop 1 (ticket_body uid cid ts ttl privs) ++ bs "," ++ e), z.
      rewrite <- !app_assoc. split; [done|]. apply forallb_app_iff in He as [_ He].
      cbn in He. unfold b64_byte in He. rewrite !andb_true_iff, !negb_true_iff in He. tauto. }
  rewrite Es, trim_space_ascii; [|by rewrite <- Es | done | done].
  rewrite <- Es, E. apply split_join; [by destruct (ticket_parts uid cid ts ttl privs)|].
  apply Forall_app. split.
  - eapply Forall_impl; [exact Hp|]. intros x Hx. by apply part_byte_facts.
  - constructor; [|constructor]. intros Hc%list_elem_of_In. rewrite forallb_forall in He.
    by apply He in Hc.
Qed.

Lemma parse_privs_no_panic l m w : parse_privs l m ≠ Panic w.
Proof.
  revert m. induction l as [|s l IH]; intros m; [done|]. cbn [parse_privs].
  intros [H|(a & _ & H)]%bind_Panic; [by destruct (Atoi s) | by apply IH in H].
Qed.

Lemma of_num_no_panic {A} f (r : num_error + A) w : of_num f r ≠ Panic w.
Proof. by destruct r. Qed.

Lemma parse_fields_no_panic parts w : parse_fields parts ≠ Panic w.
Proof.
  unfold parse_fields. destruct (negb _); [done|].
  do 4 (intros [?%of_num_no_panic|(? & _ & Hr)]%bind_Panic; [done|]; revert Hr).
  intros [H|(? & _ & H)]%bind_Panic; [|done].
  destruct (parts !! 5); [by apply parse_privs_no_panic in H | done].
Qed.

Lemma verify_parts_no_panic `{Crypto} keyPath key sig parts now w :
  verify_parts keyPath key sig parts now ≠ Panic w.
Proof.
  unfold verify_parts. destruct key as [k|]; [|done].
  intros [Hp%or_err_Panic|(s & _ & Hp)]%bind_Panic; [done|].
  destruct (VerifyPKCS1v15 _ _ _); [done|].
  apply bind_Panic in Hp as [Hp%parse_fields_no_panic|(t & _ & Hp)]; [done|]. by destruct (Expired t now).
Qed.

(** ** Properties *)

Section properties.
Context `{CryptoLaws} (ReadFile : bytes → bytes + bytes).

(** C20. A ticket whose body was signed with the private half of the loaded
    key is accepted before it expires, with the fields and exactly the
    privileges it was issued with. *)
Theorem issued_ticket_accepted uid cid ts ttl privs priv sig keyPath now :
  in_i64 uid → in_i64 cid → in_i64 ts → in_i64 ttl → Forall in_i64 privs → privs ≠ [] →
  SignPKCS1v15 priv (Sum256 (ticket_body uid cid ts ttl privs)) = inr sig →
  (now <= ts + ttl < 2 ^ 63)%Z → (0 <= now)%Z →
  let st := mkKeyState (Some (public_of priv)) true in
  ∃ t, VerifyTicket ReadFile (ticket_text uid cid ts ttl privs sig) keyPath now st = (st, Ok t)
    ∧ t_Version t = 1%Z ∧ t_UserID t = uid ∧ t_ClientID t = cid ∧ t_Timestamp t = ts ∧ t_TTL t = ttl
    ∧ ∀ required, CheckPrivs t required = None ↔ ∀ p, p ∈ required → p ∈ privs.
Proof.
  intros H1 H2 H3 H4 Hp Hne Hsig Hexp Hnow st.
  exists (mkTicket 1 uid cid ts ttl (granted privs)). split; [|do 5 (split; [done|])].
  - unfold VerifyTicket. rewrite ticket_text_split. set (parts := ticket_parts uid cid ts ttl privs).
    change (length (parts ++ [EncodeToString RawURLEncoding sig])) with 7. cbn [Nat.ltb Nat.leb].
    change (take (7 - 1) (parts ++ [EncodeToString RawURLEncoding sig])) with parts.
    change (default [] ((parts ++ [EncodeToString RawURLEncoding sig]) !! (7 - 1)%nat))
      with (EncodeToString RawURLEncoding sig).
    unfold load_key. cbn [once_done st verifyKey]. unfold verify_parts.
    rewrite (DecodeString_Encode RawURLEncoding sig).
    2:{ apply strip_breaks_id, encode_no_breaks. apply _. }
    go_simpl. change (join (bs ",") parts) with (ticket_body uid cid ts ttl privs).
    rewrite (sign_verify _ _ _ Hsig). unfold parts. rewrite parse_fields_parts by done. go_simpl.
    unfold Expired. cbn [t_Timestamp t_TTL]. rewrite i64_id by (unfold in_i64 in *; lia).
    by rewrite (proj2 (Z.ltb_ge _ _)) by lia.
  - intros required. unfold CheckPrivs. split.
    + intros Hc p Hin. destruct (missingPrivs _ required) as [|q l] eqn:E; [|done].
      destruct (decide (p ∈ privs)) as [|Hn]; [done|]. exfalso.
      assert (p ∈ missingPrivs (mkTicket 1 uid cid ts ttl (granted privs)) required) as Hm.
      { apply missingPrivs_spec. split; [done|]. cbn [t_Privileges].
        by rewrite granted_lookup, bool_decide_false. }
      rewrite E in Hm. by apply elem_of_nil in Hm.
    + intros Hall. destruct (missingPrivs _ required) as [|q l] eqn:E; [done|]. exfalso.
      assert (q ∈ missingPrivs (mkTicket 1 uid cid ts ttl (granted privs)) required) as Hq
        by (rewrite E; set_solver).
      apply missingPrivs_spec in Hq as [Hq Hn]. apply Hn. cbn [t_Privileges].
      by rewrite granted_lookup, bool_decide_true by auto.
Qed.

(** C5. Whatever [VerifyTicket] accepts has a body whose signature, the last
    comma-separated part, verifies under the package's key; its fields are
    read from that body; it has version 1 and has not expired. *)
Theorem VerifyTicket_sound s keyPath now st st' t :
  VerifyTicket ReadFile s keyPath now st = (st', Ok t) →
  ∃ key body sigText signature,
    verifyKey st' = Some key ∧ trim_space s = body ++ bs "," ++ sigText
    ∧ DecodeString RawURLEncoding sigText = Some signature
    ∧ VerifyPKCS1v15 key (Sum256 body) signature = None
    ∧ parse_fields (split_on ","%char body) = Ok t ∧ t_Version t = 1%Z ∧ Expired t now = false.
Proof.
  unfold VerifyTicket. pose proof (join_split ","%char (trim_space s)) as Hj.
  pose proof (split_on_no_sep ","%char (trim_space s)) as Hns.
  set (parts := split_on _ _) in *. destruct (Nat.ltb_spec (length parts) 6) as [|Hlen]; [done|].
  destruct parts as [|sigText init _] using rev_ind; [cbn in Hlen; lia|].
  rewrite length_app in *. cbn [length] in *.
  replace (length init + 1 - 1)%nat with (length init) by lia.
  rewrite take_app_exact, lookup_app_r, Nat.sub_diag by done. cbn [lookup list_lookup default].
  destruct (load_key _ _ _) as [st1 [w|]]; [done|]. intros [= <- Hv]. unfold verify_parts in Hv.
  destruct (verifyKey st1) as [key|] eqn:Ek; [|done].
  apply bind_Ok in Hv as (signature & Hd%or_err_Ok & Hv).
  destruct (VerifyPKCS1v15 _ _ _) eqn:Evk; [done|].
  apply bind_Ok in Hv as (t' & Hf & Hv). destruct (Expired t' now) eqn:Ex; [done|].
  injection Hv as ->. apply Forall_app in Hns as [Hns _].
  assert (init ≠ []) as Hne by (intros ->; cbn in Hlen; lia).
  exists key, (join (bs ",") init), sigText, signature. split; [done|]. split.
  { rewrite <- Hj. by apply join_snoc. }
  split; [done|]. split; [done|]. split; [by rewrite split_join|]. split; [|done].
  unfold parse_fields in Hf. destruct (negb _); [done|].
  repeat (apply bind_Ok in Hf as (? & _ & Hf)). by injection Hf as <-.
Qed.

(** The key is loaded once: if the first ticket finds no readable key
    file, that call panics, and from then on no ticket is ever accepted,
    under whatever key path and whatever the file then holds. *)
Theorem failed_key_load_is_permanent s keyPath now st' w :
  VerifyTicket ReadFile s keyPath now (mkKeyState None false) = (st', Panic w) →
  ∀ ReadFile' s' keyPath' now', ∃ e,
    VerifyTicket ReadFile' s' keyPath' now' st' = (st', Err e).
Proof.
  intros Hv. assert (st' = mkKeyState None true) as ->.
  { unfold VerifyTicket in Hv. destruct (_ <? 6)%nat; [done|]. unfold load_key in Hv.
    cbn [once_done verifyKey] in Hv.
    destruct (ReadFile _) as [err|vk]; [by injection Hv as <-|].
    destruct (pem_Decode vk) as [blk|]; [|by injection Hv as <-].
    destruct (ParsePKIXPublicKey blk); [|by injection Hv as <-]. injection Hv as _ Hv.
    exfalso. exact (verify_parts_no_panic keyPath (Some p) _ _ now w Hv). }
  intros ReadFile' s' keyPath' now'. unfold VerifyTicket. destruct (_ <? 6)%nat; [by eauto|].
  unfold load_key, verify_parts. cbn [once_done verifyKey]. by eauto.
Qed.

(** Once a key is loaded, neither the key path given to later calls nor
    the file system matters: the key of the first call verifies them all. *)
Theorem key_path_ignored ReadFile' s keyPath keyPath' now key :
  VerifyTicket ReadFile s keyPath now (mkKeyState (Some key) true)
  = VerifyTicket ReadFile' s keyPath' now (mkKeyState (Some key) true).
Proof. reflexivity. Qed.
End properties.

(** [Expired] is exact as long as the sum of time stamp and TTL fits 64
    bits; a TTL so large that the sum overflows makes the ticket expired,
    not eternal. *)
Theorem Expired_bounds t now :
  in_i64 (t_Timestamp t) → in_i64 (t_TTL t) → (0 <= now)%Z →
  (in_i64 (t_Timestamp t + t_TTL t) → Expired t now = (t_Timestamp t + t_TTL t <? now)%Z)
  ∧ ((2 ^ 63 <= t_Timestamp t + t_TTL t)%Z → Expired t now = true).
Proof.
  unfold Expired. intros H1 H2 Hn. split.
  - intros Hi. by rewrite i64_id.
  - intros Hov. apply Z.ltb_lt. unfold i64, in_i64 in *.
    enough ((t_Timestamp t + t_TTL t + 2 ^ 63) mod 2 ^ 64 < 2 ^ 63)%Z by lia.
    replace (t_Timestamp t + t_TTL t + 2 ^ 63)%Z
      with (t_Timestamp t + t_TTL t - 2 ^ 63 + 1 * 2 ^ 64)%Z by lia.
    rewrite Z.mod_add, Z.mod_small by lia. lia.
Qed.

(** ** A concrete ticket *)

Definition sample_body : bytes := bs "1,42,7,1000,60,3+5".
Definition sample_sig : bytes := bs "key" ++ take 32 sample_body.

Lemma issued_ticket_accepted_witness :
  ∃ t, (@VerifyTicket toy_crypto (λ _, inl []) (sample_body ++ bs "," ++ EncodeToString RawURLEncoding sample_sig)
          [] 1010 (@mkKeyState toy_crypto (Some (bs "key")) true)).2 = Ok t
    ∧ CheckPrivs t [5%Z] = None.
Proof.
  destruct (@issued_ticket_accepted toy_crypto toy_laws (λ _, inl []) 42 7 1000 60 [3%Z; 5%Z]
    (bs "key") sample_sig [] 1010) as (t & H1 & _ & _ & _ & _ & _ & H2);
    [by vm_compute | by vm_compute | by vm_compute | by vm_compute
    | constructor; [by vm_compute|]; constructor; [by vm_compute | constructor]
    | done | vm_compute; reflexivity | by vm_compute | by vm_compute |].
  exists t. split.
  - exact (f_equal snd H1).
  - apply H2. intros p Hp. apply list_elem_of_singleton in Hp as ->. right. left.
Defined.

Lemma VerifyTicket_sound_witness :
  ∃ t, (@VerifyTicket toy_crypto (λ _, inl []) (sample_body ++ bs "," ++ EncodeToString RawURLEncoding sample_sig)
          [] 1010 (@mkKeyState toy_crypto (Some (bs "key")) true)).2 = Ok t
    ∧ Expired t 1010 = false.
Proof.
  destruct (@VerifyTicket toy_crypto (λ _, inl []) (sample_body ++ bs "," ++ EncodeToString RawURLEncoding sample_sig)
          [] 1010 (@mkKeyState toy_crypto (Some (bs "key")) true)) as [st' o] eqn:E.
  destruct o as [t|e|w]; [|vm_compute in E; discriminate E|vm_compute in E; discriminate E].
  destruct (@VerifyTicket_sound toy_crypto (λ _, inl []) _ _ _ _ _ t E)
    as (_ & _ & _ & _ & _ & _ & _ & _ & _ & _ & H).
  exists t. split; [reflexivity | exact H].
Defined.

Lemma failed_key_load_is_permanent_witness :
  ∃ e, @VerifyTicket toy_crypto inr (sample_body ++ bs "," ++ EncodeToString RawURLEncoding sample_sig)
         (bs "good.pem") 1010 (@mkKeyState toy_crypto None true)
       = (@mkKeyState toy_crypto None true, Err e).
Proof.
  exact (@failed_key_load_is_permanent toy_crypto (λ _, inl (bs "no such file")) sample_body []
    1010 (@mkKeyState toy_crypto None true) (bs "no such file") ltac:(vm_compute; reflexivity)
    inr (sample_body ++ bs "," ++ EncodeToString RawURLEncoding sample_sig) (bs "good.pem") 1010).
Defined.

Lemma Expired_bounds_witness :
  Expired (mkTicket 1 1 1 1000 (2 ^ 63 - 1) ∅) 500 = true.
Proof.
  apply (Expired_bounds (mkTicket 1 1 1 1000 (2 ^ 63 - 1) ∅) 500); by vm_compute.
Defined.
