(* ===== verification/Scanner.v ===== *)
(** [bufio.Scanner] over a whole file, split into lines, as the cache, the
    configuration and the authorised services are read.  A line (with its
    line feed) has to fit the scanner's largest buffer. *)
From S2P Require Import Prelude GoIO.

Definition MaxScanTokenSize : nat := Z.to_nat (64 * 1024).

(** Unread data, whether the scanner has failed with [ErrTooLong] (the data
    is then its full buffer), and the bytes of the last token. *)
Record scanner := mkScanner { sc_data : bytes; sc_failed : bool; sc_token : bytes }.

Definition NewScanner (file : bytes) : scanner := mkScanner file false [].

(** [func (s *Scanner) Scan() bool].  After a failure the next call still
    hands out what is in the buffer. *)
Definition Scan (s : scanner) : scanner * bool :=
  match sc_data s with
  | [] => (mkScanner [] (sc_failed s) [], false)
  | data =>
      if sc_failed s then (mkScanner [] true (drop_cr data), true)
      else
        match span not_lf (take MaxScanTokenSize data) with
        | (line, _ :: _) => (mkScanner (drop (S (length line)) data) false (drop_cr line), true)
        | (line, []) =>
            if (length data <? MaxScanTokenSize)%nat
            then (mkScanner [] false (drop_cr line), true)
            else (mkScanner (take MaxScanTokenSize data) true [], false)
        end
  end.

(** ** Lemmas *)

(** The size is only ever compared. *)
#[global] Opaque MaxScanTokenSize.

Lemma span_split {A} (p : A → bool) l a b : span p l = (a, b) → l = a ++ b.
Proof. apply span_eq. Qed.

(** Every successful scan takes data; a failed one leaves no more. *)
Lemma Scan_data s s' b :
  Scan s = (s', b) →
  (length (sc_data s') ≤ length (sc_data s))%nat
  ∧ (b = true → (length (sc_data s') < length (sc_data s))%nat).
Proof.
  unfold Scan. destruct (sc_data s) as [|c data] eqn:E; [by intros [= <- <-]|].
  destruct (sc_failed s); [intros [= <- <-]; cbn; split; [lia|intros _; lia]|].
  destruct (span not_lf (take MaxScanTokenSize (c :: data))) as [line [|d rest]] eqn:Es.
  - destruct (Nat.ltb_spec (length (c :: data)) MaxScanTokenSize) as [H|H].
    + intros [= <- <-]. cbn. split; [lia|intros _; lia].
    + intros [= <- <-]. cbn [sc_data]. rewrite length_take. split; [lia | done].
  - intros [= <- <-]. cbn [sc_data]. rewrite length_drop. cbn [length]. split; [lia|intros _; lia].
Qed.

(** A line that fits is returned whole. *)
Definition line_ok (l : bytes) : Prop :=
  forallb not_lf l = true ∧ (length l < MaxScanTokenSize)%nat ∧ last l ≠ Some CR.

Lemma drop_cr_id l : last l ≠ Some CR → drop_cr l = l.
Proof.
  intros H. unfold drop_cr. destruct (last l) as [c|]; [|done].
  by rewrite bool_decide_false by congruence.
Qed.

Lemma Scan_line l rest tok :
  line_ok l →
  Scan (mkScanner (l ++ LF :: rest) false tok) = (mkScanner rest false l, true).
Proof.
  intros (Hl & Hn & Hcr). unfold Scan. cbn [sc_data sc_failed].
  destruct (l ++ LF :: rest) as [|c data] eqn:E; [by destruct l|]. rewrite <- E.
  assert (∃ t', take MaxScanTokenSize (l ++ LF :: rest) = l ++ LF :: t') as [t' Et].
  { rewrite take_app_ge by lia.
    destruct (MaxScanTokenSize - length l)%nat eqn:Ek; [lia|]. cbn. eauto. }
  rewrite Et, span_block; [|done|by intros ? ? [= <- _]].
  rewrite drop_cr_id by done. f_equal. f_equal.
  replace (S (length l)) with (length (l ++ [LF])) by (rewrite length_app; cbn; lia).
  change (LF :: rest) with ([LF] ++ rest). rewrite app_assoc. apply drop_app_exact.
Qed.

(** The end of the file. *)
Lemma Scan_end f tok : Scan (mkScanner [] f tok) = (mkScanner [] f [], false).
Proof. reflexivity. Qed.
