(* ===== verification/ServiceCache.v ===== *)
(** src/scamp/servicecache.go: the table of announced services, indexed by
    identity and by action, and its rebuilding from the discovery cache
    file.  Go's maps are [gmap]s; a proxy does not change once it is stored
    (its lazily dialled [client] is kept apart), so the tables hold values. *)
From S2P Require Import Prelude Strconv Utf8 GoIO GoStrings Scanner Verify ServiceProxy.

(** [unicode.ToLower] outside ASCII: the tables of the Unicode standard. *)
Class Unicode := unicode_lower : N → N.

Definition lower_rune `{Unicode} (r : N) : N :=
  if (65 <=? r)%N && (r <=? 90)%N then (r + 32)%N
  else if (r <? 128)%N then r
  else unicode_lower r.

(** [strings.ToLower]: rune by rune; an invalid byte becomes U+FFFD. *)
Definition ToLower `{Unicode} (s : bytes) : bytes :=
  utf8 (map (λ ch, lower_rune ch.1) (chunks s)).

(** ** State *)

Record ServiceCache := mkCache {
  identIndex : gmap bytes serviceProxy;
  actionIndex : gmap bytes (list serviceProxy);
  verifyRecords : bool
}.

(** The cache [NewServiceCache] makes, before its first [Refresh]. *)
Definition emptyCache : ServiceCache := mkCache ∅ ∅ true.

Definition DisableRecordVerification (c : ServiceCache) : ServiceCache :=
  mkCache (identIndex c) (actionIndex c) true.
Definition EnableRecordVerification (c : ServiceCache) : ServiceCache :=
  mkCache (identIndex c) (actionIndex c) false.

Section cache.
Context `{Unicode} `{Crypto}.

(** [fmt.Sprintf("%s:%s.%s~%d#%s", ...)] in lower case. *)
Definition mungedName (sector className actionName : bytes) (version : Z) (protocol : bytes)
    : bytes :=
  ToLower (sector ++ bs ":" ++ className ++ bs "." ++ actionName ++ bs "~" ++ format_int version
           ++ bs "#" ++ protocol).

(** The names [storeNoLock] files an instance under, in its order. *)
Definition munged_names (sp : serviceProxy) : list bytes :=
  concat (map (λ cl, concat (map (λ a, map (mungedName (sp_sector sp) (className cl)
    (actionName a) (version a)) (sp_protocols sp)) (actions cl))) (sp_classes sp)).

(** Append an instance under one name. *)
Definition index_one (sp : serviceProxy) (m : gmap bytes (list serviceProxy)) (name : bytes)
    : gmap bytes (list serviceProxy) :=
  match m !! name with
  | Some l => <[name := l ++ [sp]]> m
  | None => <[name := [sp]]> m
  end.

(** [func (cache *ServiceCache) storeNoLock(instance *serviceProxy)]. *)
Definition storeNoLock (sp : serviceProxy) (c : ServiceCache) : ServiceCache :=
  mkCache (<[sp_ident sp := sp]> (identIndex c))
    (fold_left (index_one sp) (munged_names sp) (actionIndex c)) (verifyRecords c).

Definition Store : serviceProxy → ServiceCache → ServiceCache := storeNoLock.

(** [func (cache *ServiceCache) removeNoLock(instance *serviceProxy)]. *)
Definition removeNoLock (sp : serviceProxy) (c : ServiceCache) : ServiceCache * option bytes :=
  match identIndex c !! sp_ident sp with
  | None => (c, Some (bs "tried removing an ident which was not being tracked: " ++ sp_ident sp))
  | Some _ => (mkCache (delete (sp_ident sp) (identIndex c)) (actionIndex c) (verifyRecords c), None)
  end.

Definition clearNoLock (c : ServiceCache) : ServiceCache := mkCache ∅ ∅ (verifyRecords c).

Definition Retrieve (ident : bytes) (c : ServiceCache) : option serviceProxy := identIndex c !! ident.

(** [func (cache *ServiceCache) SearchByAction(sector, action, version, envelope)]:
    the error carries the name that was looked for. *)
Definition SearchByAction (sector action : bytes) (version : Z) (envelope : bytes) (c : ServiceCache)
    : outcome bytes (list serviceProxy) :=
  let name := ToLower (sector ++ bs ":" ++ action ++ bs "~" ++ format_int version ++ bs "#" ++ envelope) in
  match actionIndex c !! name with
  | Some ((_ :: _) as instances) => Ok instances
  | _ => Err (bs "no instances found of " ++ name)
  end.

Definition Size (c : ServiceCache) : nat := size (identIndex c).

(** Go iterates over a map in an unspecified order; one order is chosen. *)
Definition ActionList (c : ServiceCache) : list bytes := (map_to_list (actionIndex c)).*1.
Definition All (c : ServiceCache) : list serviceProxy := (map_to_list (identIndex c)).*2.

(** [func (sp *serviceProxy) validateSignature()] and [Validate]: the
    fingerprint, or the text of the error. *)
Definition validateSignature (sp : serviceProxy) : outcome bytes bytes :=
  decoded ← or_err (bs "could not find valid cert in `" ++ sp_rawCert sp ++ bs "`")
              (pem_Decode (sp_rawCert sp));
  match x509_ParseCertificate decoded with
  | inl err => Err (bs "failed to parse certificate: `" ++ err ++ bs "`")
  | inr cert =>
      rsaPubKey ← or_err (bs "could not cast parsed value to rsa.PublicKey") (cert_PublicKey cert);
      _ ← verifySHA256 (sp_rawClassRecords sp) rsaPubKey (sp_rawSig sp) false;
      Ok (sha1FingerPrint cert)
  end.

Definition Validate (sp : serviceProxy) : outcome bytes unit :=
  _ ← validateSignature sp; Ok tt.

(** ** Reading the cache file *)

Definition sep : bytes := bs "%%%".

Inductive scan_error :=
| NewlineExpected (* "expected newline after class records" *)
| NewServiceProxy (e : proxy_error).

(** Up to and including the next separator line; [false] at the end of the
    file.  A separator is also recognised when the scan that should have
    produced it failed, but then the token is empty. *)
Fixpoint skip_to_sep (fuel : nat) (s : scanner) : scanner * bool :=
  match fuel with
  | O => (s, false)
  | S f =>
      let '(s', didScan) := Scan s in
      if (sc_token s' =b sep) || negb didScan then (s', didScan) else skip_to_sep f s'
  end.

(** The lines up to an empty one, or, if [stop_at_sep], a separator: each
    followed by a newline. *)
Fixpoint scan_block (stop_at_sep : bool) (fuel : nat) (s : scanner) (acc : bytes) : scanner * bytes :=
  match fuel with
  | O => (s, acc)
  | S f =>
      let '(s', didScan) := Scan s in
      if negb didScan then (s', acc)
      else if sc_token s' =b [] then (s', acc)
      else if stop_at_sep && (sc_token s' =b sep) then (s', acc)
      else scan_block stop_at_sep f s' (acc ++ sc_token s' ++ [LF])
  end.

(** Without the final newline. *)
Definition but_last (b : bytes) : bytes := take (length b - 1) b.

(** One record that was read: parse, validate, store. *)
Definition process_record (classRecordsRaw certRaw sigRaw : bytes) (c : ServiceCache)
    : outcome scan_error ServiceCache :=
  sp ← map_err NewServiceProxy (newServiceProxy classRecordsRaw certRaw sigRaw);
  if verifyRecords c then
    match Validate sp with
    | Ok _ => Ok (storeNoLock sp c)
    | Err _ => Ok (removeNoLock sp c).1
    | Panic w => Panic w
    end
  else Ok (storeNoLock sp c).

(** How one round of the outer loop ends. *)
Inductive round :=
| Next (s : scanner) (c : ServiceCache)
| Finished (c : ServiceCache)
| Failed (c : ServiceCache) (e : scan_error)
| Crashed (w : bytes).

Definition scan_round (fuel : nat) (s0 : scanner) (c : ServiceCache) : round :=
  let '(s1, didScan) := skip_to_sep fuel s0 in
  if negb didScan then Finished c
  else
    let s2 := (Scan s1).1 in
    if sc_token s2 =b [] then Finished c
    else
      let classRecordsRaw := sc_token s2 in
      let s3 := (Scan s2).1 in
      if negb (sc_token s3 =b []) then Failed c NewlineExpected
      else
        let '(s4, certBytes) := scan_block false fuel s3 [] in
        if certBytes =b [] then Next s4 c
        else
          let '(s5, sigBytes) := scan_block true fuel s4 [] in
          if sigBytes =b [] then Next s5 c
          else
            match process_record classRecordsRaw (but_last certBytes) (but_last sigBytes) c with
            | Ok c' => Next s5 c'
            | Err e => Failed c e
            | Panic w => Crashed w
            end.

(** Each round takes at least a separator line off the data, so the length
    of the data bounds both the rounds and the lines of a block. *)
Fixpoint scan_loop (rounds fuel : nat) (s : scanner) (c : ServiceCache)
    : option (outcome unit (ServiceCache * option scan_error)) :=
  match rounds with
  | O => None
  | S k =>
      match scan_round fuel s c with
      | Next s' c' => scan_loop k fuel s' c'
      | Finished c' => Some (Ok (c', None))
      | Failed c' e => Some (Ok (c', Some e))
      | Crashed w => Some (Panic w)
      end
  end.

(** [func (cache *ServiceCache) DoScan(s *bufio.Scanner) (err error)]: the
    cache afterwards and the error, or a panic. *)
Definition DoScan (s : scanner) (c : ServiceCache)
    : option (outcome unit (ServiceCache * option scan_error)) :=
  let fuel := S (length (sc_data s)) in
  scan_loop fuel fuel s (clearNoLock c).

(** [func (cache *ServiceCache) Refresh() (err error)] on what [os.Stat] and
    [os.Open] find at the cache's path. *)
Inductive cache_file :=
| FileError (e : bytes)
| Directory
| FileData (data : bytes).

Inductive refresh_error :=
| OsError (e : bytes)
| IsDirectory
| ScanError (e : scan_error).

Definition Refresh (f : cache_file) (c : ServiceCache)
    : option (outcome unit (ServiceCache * option refresh_error)) :=
  match f with
  | FileError e => Some (Ok (c, Some (OsError e)))
  | Directory => Some (Ok (c, Some IsDirectory))
  | FileData data =>
      match DoScan (NewScanner data) c with
      | Some (Ok (c', e)) => Some (Ok (c', ScanError <$> e))
      | Some (Err e) => Some (Err e)
      | Some (Panic w) => Some (Panic w)
      | None => None
      end
  end.

Definition NewServiceCache (f : cache_file)
    : option (outcome unit (ServiceCache * option refresh_error)) := Refresh f emptyCache.
End cache.

(** ** Other helpers of the file *)

(** [bytes.Index]. *)
Fixpoint index_of (sub s : bytes) : option nat :=
  if has_prefix sub s then Some 0
  else match s with [] => None | _ :: r => S <$> index_of sub r end.

Definition startCert : bytes := bs "-----BEGIN CERTIFICATE-----".
Definition endCert : bytes := bs "-----END CERTIFICATE-----".

(** [func scanCertficates(data []byte, atEOF bool)]: advance and token. *)
Definition scanCertficates (data : bytes) (atEOF : bool) : nat * option bytes :=
  if atEOF && (data =b []) then (0, None)
  else match index_of startCert data with
       | None => (0, None)
       | Some _ =>
           match index_of endCert data with
           | Some i => (i + length endCert, Some (take (i + length endCert) data))
           | None => (0, None)
           end
       end.

Definition MaxRetries : nat := 10.

(** [func Do(fn Func) error], for a function that may keep state: the state,
    and the error ([inl tt] is [errMaxRetriesReached]).  [left] attempts
    remain after this one. *)
Fixpoint do_loop {S E : Type} (fn : nat → S → S * bool * option E) (left attempt : nat) (st : S)
    : S * option (unit + E) :=
  let '(st', cont, err) := fn attempt st in
  match err with
  | None => (st', None)
  | Some e =>
      if negb cont then (st', Some (inr e))
      else match left with
           | O => (st', Some (inl tt))
           | Datatypes.S l => do_loop fn l (Datatypes.S attempt) st'
           end
  end.

Definition Do {S E : Type} (fn : nat → S → S * bool * option E) (st : S) : S * option (unit + E) :=
  do_loop fn (MaxRetries - 1) 1 st.

(** [func IsMaxRetries(err error) bool], on the errors of [Do]. *)
Definition IsMaxRetries {E : Type} (err : option (unit + E)) : bool :=
  match err with Some (inl tt) => true | _ => false end.
