(* ===== verification/ServiceCacheFacts.v ===== *)
(** Properties of the service cache (ServiceCache.v): the two indexes agree,
    what a search finds, what reading a cache file stores, and how record
    verification and the retry helper behave. *)
From S2P Require Import Prelude Strconv Utf8 Json GoIO GoStrings Timestamp Scanner Base64 Verify ServiceProxy ServiceCache.

Section facts.
Context `{Unicode} `{Crypto}.

(** ** Indexing *)

Definition times (n : bytes) (names : list bytes) : nat := length (filter (λ x, x = n) names).

(** Filing an instance under a list of names appends it under each, once per
    occurrence. *)
Lemma index_fold sp names m n :
  fold_left (index_one sp) names m !! n
  = if (times n names =? 0)%nat then m !! n
    else Some (default [] (m !! n) ++ replicate (times n names) sp).
Proof.
  unfold times. revert m. induction names as [|x names IH]; intros m; [done|]. cbn [fold_left].
  rewrite IH. unfold index_one. destruct (decide (x = n)) as [->|Hne].
  - rewrite filter_cons_True by done. cbn [length Nat.eqb].
    destruct (m !! n) as [l|] eqn:E; rewrite lookup_insert_eq;
      destruct (length (filter _ names)) as [|k]; cbn [Nat.eqb default replicate id];
      by rewrite ?app_nil_r, <- ?app_assoc.
  - rewrite filter_cons_False by done. destruct (m !! x); by rewrite lookup_insert_ne.
Qed.

Lemma times_elem n names : n ∈ names ↔ times n names ≠ 0.
Proof.
  unfold times. induction names as [|x names IH]; [cbn; set_solver|].
  destruct (decide (x = n)) as [->|Hne].
  - rewrite filter_cons_True by done. cbn. split; [done | intros _; left].
  - rewrite filter_cons_False by done. rewrite elem_of_cons. intuition congruence.
Qed.

Lemma stored_lookup sp c n :
  actionIndex (storeNoLock sp c) !! n
  = if bool_decide (n ∈ munged_names sp)
    then Some (default [] (actionIndex c !! n) ++ replicate (times n (munged_names sp)) sp)
    else actionIndex c !! n.
Proof.
  cbn. rewrite index_fold. pose proof (times_elem n (munged_names sp)) as Ht.
  destruct (Nat.eqb_spec (times n (munged_names sp)) 0) as [E|E].
  - rewrite bool_decide_false; [done|]. tauto.
  - rewrite bool_decide_true; [done|]. tauto.
Qed.

(** What always holds between the two indexes: an instance is filed under
    its own identity; a name's list is not empty and has only instances that
    announce it; an instance known by identity is listed under all its
    names. *)
Definition cache_inv (c : ServiceCache) : Prop :=
  (∀ i sp, identIndex c !! i = Some sp → sp_ident sp = i)
  ∧ (∀ n l, actionIndex c !! n = Some l → l ≠ [] ∧ ∀ sp, sp ∈ l → n ∈ munged_names sp)
  ∧ (∀ i sp n, identIndex c !! i = Some sp → n ∈ munged_names sp →
       ∃ l, actionIndex c !! n = Some l ∧ sp ∈ l).

(** The other direction, which an eviction or a second record of the same
    identity breaks: what is listed is what is known by its identity. *)
Definition listed_known (c : ServiceCache) : Prop :=
  ∀ n l sp, actionIndex c !! n = Some l → sp ∈ l → identIndex c !! sp_ident sp = Some sp.

Lemma cache_inv_clear c : cache_inv (clearNoLock c).
Proof. split; [|split]; intros *; cbn; by rewrite lookup_empty. Qed.

Lemma replicate_times_elem n sp x : x ∈ replicate (times n (munged_names sp)) sp → x = sp.
Proof. intros Hx. by apply elem_of_replicate in Hx as []. Qed.

Lemma cache_inv_store sp c : cache_inv c → cache_inv (storeNoLock sp c).
Proof.
  intros (H1 & H2 & H3). split; [|split].
  - intros i sp' Hi. cbn in Hi. destruct (decide (sp_ident sp = i)) as [<-|Hne].
    + rewrite lookup_insert_eq in Hi. congruence.
    + rewrite lookup_insert_ne in Hi by done. auto.
  - intros n l. rewrite stored_lookup. case_bool_decide as Hn; [|auto].
    intros [= <-]. pose proof (proj1 (times_elem n (munged_names sp)) Hn) as Ht. split.
    + destruct (times n (munged_names sp)); [done|]. cbn. by destruct (default [] _).
    + intros sp' [Hl| ->%replicate_times_elem]%elem_of_app; [|done].
      destruct (actionIndex c !! n) as [l0|] eqn:E; cbn in Hl; [|set_solver].
      by apply (H2 n l0).
  - intros i sp' n Hi Hn'. cbn in Hi. rewrite stored_lookup.
    destruct (decide (sp_ident sp = i)) as [<-|Hne].
    + rewrite lookup_insert_eq in Hi. injection Hi as <-. rewrite bool_decide_true by done.
      eexists. split; [done|]. apply elem_of_app. right. apply elem_of_replicate. split; [done|].
      by apply times_elem.
    + rewrite lookup_insert_ne in Hi by done. destruct (H3 i sp' n Hi Hn') as (l & Hl & Hin).
      rewrite Hl. case_bool_decide; eexists; (split; [done|]); [|done].
      cbn. apply elem_of_app. by left.
Qed.

Lemma cache_inv_remove sp c : cache_inv c → cache_inv (removeNoLock sp c).1.
Proof.
  intros (H1 & H2 & H3). unfold removeNoLock. destruct (identIndex c !! sp_ident sp); [|done].
  split; [|split]; cbn; [|done|].
  - intros i sp' Hi. apply lookup_delete_Some in Hi as [_ Hi]. auto.
  - intros i sp' n Hi Hn. apply lookup_delete_Some in Hi as [_ Hi]. eauto.
Qed.

(** ** Any property of the cache that one record keeps *)

Lemma skip_to_sep_data f s s' b :
  skip_to_sep f s = (s', b) →
  (length (sc_data s') ≤ length (sc_data s))%nat
  ∧ (b = true → (length (sc_data s') < length (sc_data s))%nat).
Proof.
  revert s. induction f as [|f IH]; intros s; cbn; [by intros [= <- <-]|].
  destruct (Scan s) as [s1 d] eqn:E. apply Scan_data in E as [E1 E2].
  destruct (_ || _) eqn:Eb; [by intros [= <- <-]|].
  intros H1. apply IH in H1 as [H1 H2]. split; [lia|]. intros Hb. specialize (H2 Hb). lia.
Qed.

Lemma scan_block_data st f s acc s' b :
  scan_block st f s acc = (s', b) → (length (sc_data s') ≤ length (sc_data s))%nat.
Proof.
  revert s acc. induction f as [|f IH]; intros s acc; cbn; [by intros [= <- <-]|].
  destruct (Scan s) as [s1 d] eqn:E. apply Scan_data in E as [E1 E2].
  destruct (negb d); [by intros [= <- <-]|]. case_bool_decide; [by intros [= <- <-]|].
  destruct (st && _); [by intros [= <- <-]|]. intros H2%IH. lia.
Qed.

Lemma Scan_data_le s : (length (sc_data (Scan s).1) ≤ length (sc_data s))%nat.
Proof. destruct (Scan s) as [s' b] eqn:E. by apply Scan_data in E as []. Qed.

(** A round that goes on has taken data. *)
Lemma scan_round_data f s c s' c' :
  scan_round f s c = Next s' c' → (length (sc_data s') < length (sc_data s))%nat.
Proof.
  unfold scan_round. destruct (skip_to_sep f s) as [s1 []] eqn:E1; [|done]. cbn [negb].
  apply skip_to_sep_data in E1 as [_ E1]. specialize (E1 eq_refl).
  pose proof (Scan_data_le s1). pose proof (Scan_data_le (Scan s1).1).
  case_bool_decide; [done|]. case_bool_decide; [|done]. cbn [negb].
  destruct (scan_block false f _ []) as [s4 cb] eqn:E4. apply scan_block_data in E4.
  case_bool_decide; [intros [= <- _]; lia|].
  destruct (scan_block true f _ []) as [s5 sb] eqn:E5. apply scan_block_data in E5.
  case_bool_decide; [intros [= <- _]; lia|].
  destruct (process_record _ _ _ c); [intros [= <- _]; lia | done | done].
Qed.

Lemma scan_loop_ends k f s c : (length (sc_data s) < k)%nat → is_Some (scan_loop k f s c).
Proof.
  revert s c. induction k as [|k IH]; intros s c Hk; [lia|]. cbn [scan_loop].
  destruct (scan_round f s c) eqn:E; try by eexists. apply scan_round_data in E. apply IH. lia.
Qed.

(** A property of the cache that processing a record keeps is kept by the
    whole scan. *)
Lemma scan_loop_keeps (P : ServiceCache → Prop) k f s c c' e :
  (∀ r ct sg c c', P c → process_record r ct sg c = Ok c' → P c') →
  P c → scan_loop k f s c = Some (Ok (c', e)) → P c'.
Proof.
  intros HP. revert s c. induction k as [|k IH]; intros s c Hc; [done|]. cbn [scan_loop].
  destruct (scan_round f s c) as [s' c1|c1|c1 e1|w] eqn:E.
  - apply IH. revert E. unfold scan_round. destruct (skip_to_sep f s) as [s1 []]; [|done].
    cbn [negb]. case_bool_decide; [done|]. case_bool_decide; [|done]. cbn [negb].
    destruct (scan_block false f _ []) as [s4 cb]. case_bool_decide; [by intros [= _ <-]|].
    destruct (scan_block true f _ []) as [s5 sb]. case_bool_decide; [by intros [= _ <-]|].
    destruct (process_record _ _ _ c) eqn:Ep; [|done|done]. intros [= _ <-]. by eapply HP.
  - intros [= <- _]. revert E. unfold scan_round. destruct (skip_to_sep f s) as [s1 []];
      [|by intros [= <-]].
    cbn [negb]. case_bool_decide; [by intros [= <-]|]. case_bool_decide; [|done]. cbn [negb].
    destruct (scan_block false f _ []) as [s4 cb]. case_bool_decide; [done|].
    destruct (scan_block true f _ []) as [s5 sb]. case_bool_decide; [done|].
    by destruct (process_record _ _ _ c).
  - intros [= <- _]. revert E. unfold scan_round. destruct (skip_to_sep f s) as [s1 []]; [|done].
    cbn [negb]. case_bool_decide; [done|]. case_bool_decide; [|by intros [= <- _]]. cbn [negb].
    destruct (scan_block false f _ []) as [s4 cb]. case_bool_decide; [done|].
    destruct (scan_block true f _ []) as [s5 sb]. case_bool_decide; [done|].
    destruct (process_record _ _ _ c); [done | by intros [= <- _] | done].
  - done.
Qed.

Lemma process_record_verifyRecords r ct sg c c' :
  process_record r ct sg c = Ok c' → verifyRecords c' = verifyRecords c.
Proof.
  unfold process_record. intros (sp & _ & Hp)%bind_Ok. destruct (verifyRecords c) eqn:Ev.
  - destruct (Validate sp); [|unfold removeNoLock in Hp; destruct (identIndex c !! _)|done];
      by injection Hp as <-.
  - by injection Hp as <-.
Qed.

(** One record: either stored, or its identity removed. *)
Lemma process_record_cases r ct sg c c' :
  process_record r ct sg c = Ok c' →
  ∃ sp, newServiceProxy r ct sg = Ok sp
    ∧ ((c' = storeNoLock sp c ∧ (verifyRecords c = true → Validate sp = Ok tt))
       ∨ (c' = (removeNoLock sp c).1 ∧ verifyRecords c = true ∧ Validate sp ≠ Ok tt)).
Proof.
  unfold process_record. intros (sp & Hs%map_err_Ok & Hp)%bind_Ok. exists sp. split; [done|].
  destruct (verifyRecords c) eqn:Ev.
  - destruct (Validate sp) as [[]|e|w]; [left|right|done]; by injection Hp as <-.
  - left. injection Hp as <-. done.
Qed.

(** ** Fuel *)

(** More fuel than there is data makes no difference. *)
Lemma skip_to_sep_fuel f f' s :
  (length (sc_data s) < f)%nat → (length (sc_data s) < f')%nat → skip_to_sep f s = skip_to_sep f' s.
Proof.
  revert f' s. induction f as [|f IH]; intros [|f'] s Hf Hf'; try lia. cbn [skip_to_sep].
  destruct (Scan s) as [s1 b] eqn:E. apply Scan_data in E as [_ E].
  destruct b; [|by rewrite orb_true_r]. specialize (E eq_refl).
  destruct (_ || _); [done|]. apply IH; lia.
Qed.

Lemma scan_block_fuel st f f' s acc :
  (length (sc_data s) < f)%nat → (length (sc_data s) < f')%nat →
  scan_block st f s acc = scan_block st f' s acc.
Proof.
  revert f' s acc. induction f as [|f IH]; intros [|f'] s acc Hf Hf'; try lia. cbn [scan_block].
  destruct (Scan s) as [s1 b] eqn:E. apply Scan_data in E as [_ E].
  destruct b; [|done]. specialize (E eq_refl). cbn [negb].
  case_bool_decide; [done|]. destruct (st && _); [done|]. apply IH; lia.
Qed.

Lemma scan_round_fuel f f' s c :
  (length (sc_data s) < f)%nat → (length (sc_data s) < f')%nat →
  scan_round f s c = scan_round f' s c.
Proof.
  intros Hf Hf'. unfold scan_round. rewrite (skip_to_sep_fuel f f') by done.
  destruct (skip_to_sep f' s) as [s1 b] eqn:E1. apply skip_to_sep_data in E1 as [E1 _].
  destruct (negb b); [done|]. case_bool_decide; [done|]. case_bool_decide; [|done]. cbn [negb].
  pose proof (Scan_data_le s1). pose proof (Scan_data_le (Scan s1).1).
  rewrite (scan_block_fuel false f f') by lia.
  destruct (scan_block false f' _ []) as [s4 cb] eqn:E4. apply scan_block_data in E4.
  case_bool_decide; [done|]. by rewrite (scan_block_fuel true f f') by lia.
Qed.

Lemma scan_loop_fuel k k' f f' s c :
  (length (sc_data s) < k)%nat → (length (sc_data s) < k')%nat →
  (length (sc_data s) < f)%nat → (length (sc_data s) < f')%nat →
  scan_loop k f s c = scan_loop k' f' s c.
Proof.
  revert k' s c. induction k as [|k IH]; intros [|k'] s c Hk Hk' Hf Hf'; try lia. cbn [scan_loop].
  rewrite (scan_round_fuel f f') by done. destruct (scan_round f' s c) eqn:E; [|done..].
  apply scan_round_data in E. apply IH; lia.
Qed.

(** ** Reading a well-formed file *)

(** The entry of one announcement in the cache file. *)
Definition entry_text (record : bytes) (cert sig : list bytes) : bytes :=
  sep ++ [LF] ++ record ++ [LF; LF] ++ concat (map (λ l, l ++ [LF]) cert) ++ [LF]
  ++ concat (map (λ l, l ++ [LF]) sig) ++ [LF].

(** Text lines a block can have: not empty and not the separator. *)
Definition block_ok (l : list bytes) : Prop :=
  l ≠ [] ∧ Forall (λ x, line_ok x ∧ x ≠ [] ∧ x ≠ sep) l.

Record entry := mkEntry { e_record : bytes; e_cert : list bytes; e_sig : list bytes }.

Definition entry_ok (e : entry) : Prop :=
  line_ok (e_record e) ∧ e_record e ≠ [] ∧ block_ok (e_cert e) ∧ block_ok (e_sig e).

Definition text_of (e : entry) : bytes := entry_text (e_record e) (e_cert e) (e_sig e).

Lemma line_ok_short l :
  forallb (λ c, not_lf c && negb (c =b CR)) l = true → (length l < 1000)%nat → line_ok l.
Proof.
  intros Hl Hn. split; [|split].
  - rewrite forallb_forall in *. intros c Hc. by apply Hl, andb_true_iff in Hc as [].
  - eapply Nat.lt_le_trans; [exact Hn|]. apply Nat.leb_le. by vm_compute.
  - intros Hc. apply last_Some_elem_of, list_elem_of_In in Hc. rewrite forallb_forall in Hl.
    by apply Hl in Hc.
Qed.

Lemma line_ok_nil : line_ok [].
Proof. by apply line_ok_short; [|apply Nat.ltb_lt]. Qed.

Lemma Scan_empty_line rest tok :
  Scan (mkScanner (LF :: rest) false tok) = (mkScanner rest false [], true).
Proof. apply (Scan_line [] rest tok line_ok_nil). Qed.

Lemma line_ok_sep : line_ok sep.
Proof. by apply line_ok_short; [|apply Nat.ltb_lt]. Qed.

(** A block is read line by line up to the empty line after it. *)
Lemma scan_block_lines st ls f rest tok acc :
  Forall (λ x, line_ok x ∧ x ≠ [] ∧ x ≠ sep) ls → (length ls < f)%nat →
  scan_block st f (mkScanner (concat (map (λ l, l ++ [LF]) ls) ++ LF :: rest) false tok) acc
  = (mkScanner rest false [], acc ++ concat (map (λ l, l ++ [LF]) ls)).
Proof.
  intros Hls. revert f tok acc. induction Hls as [|x ls (Hx & Hne & Hsep) _ IH]; intros [|f] tok acc Hf;
    cbn [length] in Hf; try lia.
  - cbn [map concat app scan_block]. rewrite Scan_empty_line.
    cbn [negb sc_token]. rewrite bool_decide_true by done. by rewrite app_nil_r.
  - cbn [map concat scan_block]. rewrite <- !app_assoc. cbn [app].
    rewrite (Scan_line x) by done. cbn [negb sc_token].
    rewrite (bool_decide_false (x = [])), (bool_decide_false (x = sep)) by done.
    rewrite andb_false_r, IH by lia. by rewrite <- !app_assoc.
Qed.

Lemma lines_join ls :
  ls ≠ [] → concat (map (λ l, l ++ [LF]) ls) = join [LF] ls ++ [LF].
Proof.
  induction ls as [|x [|y ls] IH]; [done|by cbn; rewrite app_nil_r|]. intros _.
  cbn [map concat] in *. rewrite IH by done. rewrite (join_cons _ x) by done.
  by rewrite <- !app_assoc.
Qed.

Lemma but_last_lines ls :
  ls ≠ [] → but_last (concat (map (λ l, l ++ [LF]) ls)) = join [LF] ls.
Proof.
  intros Hne. rewrite lines_join by done. unfold but_last. rewrite length_app. cbn [length].
  rewrite Nat.add_sub. apply take_app_exact.
Qed.

Lemma length_lines ls : (length ls ≤ length (concat (map (λ l, l ++ [LF]) ls)))%nat.
Proof.
  induction ls as [|x ls IH]; [done|]. cbn [map concat length]. rewrite !length_app. cbn [length]. lia.
Qed.

Lemma concat_lines_nonempty ls : ls ≠ [] → concat (map (λ l, l ++ [LF]) ls) ≠ [].
Proof. destruct ls as [|x ls]; [done|]. intros _. cbn. by destruct x. Qed.

(** A round on a well-formed entry processes it. *)
Lemma scan_round_entry e f rest tok c :
  entry_ok e → (length (text_of e) + length rest < f)%nat →
  scan_round f (mkScanner (text_of e ++ rest) false tok) c
  = match process_record (e_record e) (join [LF] (e_cert e)) (join [LF] (e_sig e)) c with
    | Ok c' => Next (mkScanner rest false []) c'
    | Err err => Failed c err
    | Panic w => Crashed w
    end.
Proof.
  intros (Hr & Hrn & [Hcn Hc] & [Hsn Hs]) Hf. destruct e as [record cert sig]. cbn in *.
  unfold text_of, entry_text in *. cbn [e_record e_cert e_sig] in *.
  pose proof (length_lines cert) as Hlc. pose proof (length_lines sig) as Hls.
  rewrite !length_app in Hf. cbn [length] in Hf. change (length sep) with 3 in Hf.
  unfold scan_round. destruct f as [|f]; [lia|]. cbn [skip_to_sep].
  rewrite <- !app_assoc. cbn [app]. rewrite (Scan_line sep) by apply line_ok_sep.
  cbn [sc_token negb orb]. rewrite bool_decide_true by done. cbn [orb].
  rewrite (Scan_line record) by done. cbn [fst sc_token]. rewrite bool_decide_false by done.
  rewrite Scan_empty_line. cbn [fst sc_token].
  rewrite bool_decide_true by done. cbn [negb].
  rewrite scan_block_lines by (done || lia). cbn [app].
  rewrite bool_decide_false by by apply concat_lines_nonempty.
  rewrite scan_block_lines by (done || lia). cbn [app].
  rewrite bool_decide_false by by apply concat_lines_nonempty.
  by rewrite !but_last_lines.
Qed.

(** Records processed one after the other. *)
Fixpoint process_all (es : list entry) (c : ServiceCache)
    : outcome unit (ServiceCache * option scan_error) :=
  match es with
  | [] => Ok (c, None)
  | e :: r =>
      match process_record (e_record e) (join [LF] (e_cert e)) (join [LF] (e_sig e)) c with
      | Ok c' => process_all r c'
      | Err err => Ok (c, Some err)
      | Panic w => Panic w
      end
  end.

Lemma scan_loop_entries es k f tok c :
  Forall entry_ok es → (length (concat (map text_of es)) < k)%nat →
  (length (concat (map text_of es)) < f)%nat →
  scan_loop k f (mkScanner (concat (map text_of es)) false tok) c = Some (process_all es c).
Proof.
  intros Hes. revert k tok c. induction Hes as [|e es He _ IH]; intros [|k] tok c Hk Hf; try lia.
  - destruct f as [|f]; [lia|]. reflexivity.
  - cbn [map concat] in *. rewrite length_app in Hk, Hf. cbn [scan_loop process_all].
    rewrite scan_round_entry by done.
    assert (0 < length (text_of e))%nat by (unfold text_of, entry_text; rewrite length_app; cbn; lia).
    destruct (process_record _ _ _ c); [apply IH; lia | done | done].
Qed.

(** The services the records of a file announce. *)
Definition parsed (e : entry) : option serviceProxy :=
  match newServiceProxy (e_record e) (join [LF] (e_cert e)) (join [LF] (e_sig e)) with
  | Ok sp => Some sp
  | _ => None
  end.
Definition idents (es : list entry) : list bytes := map sp_ident (omap parsed es).

Lemma listed_known_store sp c :
  listed_known c → identIndex c !! sp_ident sp = None → listed_known (storeNoLock sp c).
Proof.
  intros Hc Hn n l x. rewrite stored_lookup. intros Hl Hx.
  assert (x = sp ∨ identIndex c !! sp_ident x = Some x) as [->|Hk].
  { revert Hl. case_bool_decide; [|intros Hl; right; by eapply Hc]. intros [= <-].
    apply elem_of_app in Hx as [Hx|Hx]; [right|left; by apply replicate_times_elem in Hx].
    destruct (actionIndex c !! n) as [l|] eqn:E; cbn in Hx; [by eapply Hc | by apply elem_of_nil in Hx]. }
  - cbn. apply lookup_insert_eq.
  - cbn. rewrite lookup_insert_ne; [done|]. intros Heq. congruence.
Qed.

(** Records of distinct identities, none of them known yet. *)
Lemma process_all_listed es c c' e :
  listed_known c → NoDup (idents es) → (∀ i, i ∈ idents es → identIndex c !! i = None) →
  process_all es c = Ok (c', e) → listed_known c'.
Proof.
  revert c. induction es as [|x es IH]; intros c Hc Hd Hn; cbn [process_all]; [by intros [= <- _]|].
  destruct (process_record _ _ _ c) as [c1|err|w] eqn:Ep; [|by intros [= <- _]|done].
  apply process_record_cases in Ep as (sp & Hs & Hcase). unfold idents in Hd, Hn. cbn in Hd, Hn.
  unfold parsed at 1 in Hd. unfold parsed at 1 in Hn. rewrite Hs in Hd, Hn. cbn in Hd, Hn.
  apply NoDup_cons in Hd as [Hni Hd].
  assert (identIndex c !! sp_ident sp = None) as Hsp by (apply Hn; left).
  destruct Hcase as [[-> _]|[-> _]].
  - apply IH; [by apply listed_known_store|done|]. intros i Hi. cbn.
    rewrite lookup_insert_ne; [apply Hn; by right | by intros <-].
  - unfold removeNoLock. rewrite Hsp. apply IH; [done..|]. intros i Hi. apply Hn. by right.
Qed.

Lemma munged_elem sp cl a p :
  cl ∈ sp_classes sp → a ∈ actions cl → p ∈ sp_protocols sp →
  mungedName (sp_sector sp) (className cl) (actionName a) (version a) p ∈ munged_names sp.
Proof.
  intros Hcl Ha Hp. apply list_elem_of_In in Hcl, Ha, Hp. apply list_elem_of_In, in_concat.
  eexists. split; [apply in_map_iff; exists cl; split; [reflexivity | done]|].
  apply in_concat. eexists. split; [apply in_map_iff; exists a; split; [reflexivity | done]|].
  apply in_map_iff. by exists p.
Qed.

Lemma DoScan_one e c :
  entry_ok e →
  DoScan (NewScanner (text_of e)) c = Some (process_all [e] (clearNoLock c)).
Proof.
  intros He. unfold DoScan, NewScanner. rewrite <- (app_nil_r (text_of e)).
  apply (scan_loop_entries [e]); [by constructor | cbn; lia | cbn; lia].
Qed.

Lemma Refresh_ends f c : is_Some (Refresh f c).
Proof.
  destruct f as [e| |data]; try by eexists. unfold Refresh, DoScan.
  destruct (scan_loop_ends (S (length (sc_data (NewScanner data)))) (S (length (sc_data (NewScanner data))))
    (NewScanner data) (clearNoLock c)) as [o ->]; [lia|]. destruct o as [[]| |]; by eexists.
Qed.

(** ** Properties *)

(** C16. Reading a cache file always ends, within a number of rounds bounded
    by the length of the file, and more fuel would change nothing. *)
Theorem DoScan_terminates s c :
  is_Some (DoScan s c)
  ∧ ∀ k f, (length (sc_data s) < k)%nat → (length (sc_data s) < f)%nat →
      scan_loop k f s (clearNoLock c) = DoScan s c.
Proof.
  split.
  - apply scan_loop_ends. lia.
  - intros k f Hk Hf. apply scan_loop_fuel; lia.
Qed.

(** C15. A cache file made of well-formed entries is read entry by entry, in
    order and into an empty cache: nothing is skipped, split or merged, and
    the certificate and signature are the entry's lines joined by newlines. *)
Theorem DoScan_entries es c tok :
  Forall entry_ok es →
  DoScan (mkScanner (concat (map text_of es)) false tok) c = Some (process_all es (clearNoLock c)).
Proof. intros Hes. unfold DoScan. apply scan_loop_entries; [done|cbn; lia|cbn; lia]. Qed.

(** C13. Whatever the file holds, and even if the scan stops with an error,
    every service the cache then knows by its identity is listed under all
    the names it announces, a name's list is never empty and holds only
    services that announce it; and [Store] keeps this.  The converse, that
    what is listed is known by its identity, holds after reading a file of
    well-formed entries of distinct identities, valid or not, so that there
    the two indexes agree exactly.  It does not hold in general: a record
    that fails verification, or a later one of the same identity, changes
    the index of identities only. *)
Theorem cache_invariant s c c' e sp :
  DoScan s c = Some (Ok (c', e)) →
  cache_inv c' ∧ cache_inv (Store sp c')
  ∧ ∀ es tok, s = mkScanner (concat (map text_of es)) false tok → Forall entry_ok es → NoDup (idents es) →
      ∀ n x, (∃ l, actionIndex c' !! n = Some l ∧ x ∈ l)
             ↔ identIndex c' !! sp_ident x = Some x ∧ n ∈ munged_names x.
Proof.
  intros Hd. assert (cache_inv c') as Hi.
  { eapply (scan_loop_keeps cache_inv); [|apply cache_inv_clear|exact Hd].
    intros r ct sg d d' Hdi (x & _ & [[-> _]|[-> _]])%process_record_cases;
      [by apply cache_inv_store | by apply cache_inv_remove]. }
  split; [done|]. split; [by apply cache_inv_store|]. intros es tok -> Hes Hnd n x.
  assert (listed_known c') as Hk.
  { unfold DoScan in Hd. rewrite scan_loop_entries in Hd by (done || cbn; lia). injection Hd as Hd.
    eapply process_all_listed; [|done| |exact Hd].
    - intros k l y. cbn. by rewrite lookup_empty.
    - intros i _. apply lookup_empty. }
  destruct Hi as (_ & H2 & H3). split.
  - intros (l & Hl & Hx). split; [by eapply Hk | by apply (H2 n l)].
  - intros [Hx Hn]. by eapply H3.
Qed.

(** C12. With verification on, which is how a cache starts, every service the
    scan leaves in either index carries a valid signature by the key of its
    own certificate over its record. *)
Theorem scan_stores_verified s c c' e :
  verifyRecords c = true → DoScan s c = Some (Ok (c', e)) →
  (∀ i sp, Retrieve i c' = Some sp → Validate sp = Ok tt)
  ∧ (∀ sector action v env l, SearchByAction sector action v env c' = Ok l →
       Forall (λ sp, Validate sp = Ok tt) l).
Proof.
  intros Hv Hd. set (P := λ d, verifyRecords d = true
    ∧ (∀ i sp, identIndex d !! i = Some sp → Validate sp = Ok tt)
    ∧ (∀ n l, actionIndex d !! n = Some l → Forall (λ sp, Validate sp = Ok tt) l)).
  assert (P c') as (_ & H1 & H2).
  { eapply (scan_loop_keeps P); [| |exact Hd].
    - intros r ct sg d d' (Hdv & Hi & Ha) Hp. pose proof (process_record_verifyRecords _ _ _ _ _ Hp) as Hv'.
      split; [congruence|]. apply process_record_cases in Hp as (sp & _ & [[-> HV]|[-> _]]).
      + specialize (HV Hdv). split.
        * intros i x Hx. cbn in Hx. apply lookup_insert_Some in Hx as [[_ <-]|[_ Hx]]; eauto.
        * intros n l. rewrite stored_lookup. case_bool_decide; [|eauto]. intros [= <-].
          apply Forall_app. split; [destruct (actionIndex d !! n) eqn:E; cbn; eauto|].
          apply Forall_forall. by intros x ->%replicate_times_elem.
      + unfold removeNoLock. destruct (identIndex d !! _); [|by split]. split; cbn; [|done].
        intros i x Hx. apply lookup_delete_Some in Hx as [_ Hx]. eauto.
    - split; [done|]. split; intros *; cbn; by rewrite lookup_empty. }
  split; [exact H1|]. intros sector action v env l. unfold SearchByAction.
  destruct (actionIndex c' !! _) as [[|x l']|] eqn:E; [done| |done].
  intros [= <-]. exact (H2 _ _ E).
Qed.

(** C21. A search for an announced action, at its version and one of the
    instance's protocols, in any letter case, finds the instance, after the
    instances stored earlier under that name. *)
Theorem search_finds_stored sp cl a p c sector action version' envelope :
  cl ∈ sp_classes sp → a ∈ actions cl → p ∈ sp_protocols sp →
  ToLower (sector ++ bs ":" ++ action ++ bs "~" ++ format_int version' ++ bs "#" ++ envelope)
  = mungedName (sp_sector sp) (className cl) (actionName a) (version a) p →
  ∃ earlier n, SearchByAction sector action version' envelope (Store sp c)
               = Ok (earlier ++ replicate (S n) sp)
    ∧ (earlier = [] ∨ SearchByAction sector action version' envelope c = Ok earlier).
Proof.
  intros Hcl Ha Hp Hname. unfold SearchByAction, Store. rewrite Hname.
  set (n := mungedName _ _ _ _ _). rewrite stored_lookup.
  assert (n ∈ munged_names sp) as Hn by by apply munged_elem.
  rewrite bool_decide_true by done. apply times_elem in Hn.
  destruct (times n (munged_names sp)) as [|k]; [done|].
  destruct (actionIndex c !! n) as [l|] eqn:E; cbn [default].
  - exists l, k. split; [by destruct l|]. destruct l; [by left | by right].
  - exists [], k. split; [done | by left].
Qed.

(** C32. A record that fails verification evicts the service known under its
    identity, which it need not prove to own; the evicted service stays
    listed under its actions. *)
Theorem invalid_record_evicts r ct sg sp c victim :
  verifyRecords c = true → newServiceProxy r ct sg = Ok sp → (∃ err, Validate sp = Err err) →
  Retrieve (sp_ident sp) c = Some victim →
  ∃ c', process_record r ct sg c = Ok c' ∧ Retrieve (sp_ident sp) c' = None
    ∧ (∀ i, i ≠ sp_ident sp → Retrieve i c' = Retrieve i c)
    ∧ (∀ sector action v env,
        SearchByAction sector action v env c' = SearchByAction sector action v env c).
Proof.
  intros Hv Hs [err He] Hr. eexists. unfold process_record. rewrite Hs. go_simpl.
  rewrite Hv, He. unfold removeNoLock. unfold Retrieve in *. rewrite Hr. split; [done|].
  cbn. split; [apply lookup_delete_eq|]. split; [|done].
  intros i Hi. by apply lookup_delete_ne.
Qed.

(** The two switches do the opposite of their names: after
    [DisableRecordVerification] a record that fails verification is not
    stored, after [EnableRecordVerification] it is. *)
Theorem verification_switches_swapped r ct sg sp c :
  newServiceProxy r ct sg = Ok sp → (∃ err, Validate sp = Err err) →
  (∃ c', process_record r ct sg (DisableRecordVerification c) = Ok c' ∧ Retrieve (sp_ident sp) c' = None)
  ∧ (∃ c', process_record r ct sg (EnableRecordVerification c) = Ok c'
           ∧ Retrieve (sp_ident sp) c' = Some sp).
Proof.
  intros Hs [err He]. unfold process_record. rewrite Hs. go_simpl. rewrite He.
  cbn [verifyRecords DisableRecordVerification EnableRecordVerification]. split.
  - eexists. split; [done|]. unfold removeNoLock, Retrieve. cbn.
    destruct (identIndex c !! sp_ident sp) eqn:E; cbn; [apply lookup_delete_eq | exact E].
  - eexists. split; [done|]. unfold Retrieve. cbn. apply lookup_insert_eq.
Qed.
End facts.

(** What [Do] promises: the attempts [1 .. n] are made, all but the last
    failed with [cont]; at most [MaxRetries] of them. *)
Inductive attempts {S E : Type} (fn : nat → S → S * bool * option E) : nat → S → nat → S → Prop :=
| attempts_none k st : attempts fn k st 0 st
| attempts_more k st st' e n st'' :
    fn k st = (st', true, Some e) → attempts fn (Datatypes.S k) st' n st'' →
    attempts fn k st (Datatypes.S n) st''.

Lemma do_loop_spec {S E} (fn : nat → S → S * bool * option E) left k st :
  ∃ n st1 st2 cont err, (n ≤ left)%nat ∧ attempts fn k st n st1
    ∧ fn (k + n)%nat st1 = (st2, cont, err)
    ∧ ((err = None ∧ do_loop fn left k st = (st2, None))
       ∨ (∃ e, err = Some e ∧ cont = false ∧ do_loop fn left k st = (st2, Some (inr e)))
       ∨ (∃ e, err = Some e ∧ cont = true ∧ n = left ∧ do_loop fn left k st = (st2, Some (inl tt)))).
Proof.
  revert k st. induction left as [|l IH]; intros k st; cbn [do_loop];
    destruct (fn k st) as [[st' cont] err] eqn:Ef.
  - exists 0, st, st', cont, err. rewrite Nat.add_0_r. split; [done|]. split; [constructor|].
    split; [done|]. destruct err as [e|]; [|by left]. destruct cont; [|by right; left; exists e].
    by right; right; exists e.
  - destruct err as [e|].
    2:{ exists 0, st, st', cont, None. rewrite Nat.add_0_r. split; [lia|]. split; [constructor|].
        split; [done|]. by left. }
    destruct cont.
    2:{ exists 0, st, st', false, (Some e). rewrite Nat.add_0_r. split; [lia|]. split; [constructor|].
        split; [done|]. right; left. by exists e. }
    destruct (IH (Datatypes.S k) st') as (n & st1 & st2 & cont & err & Hn & Ha & Hf & Hc).
    exists (Datatypes.S n), st1, st2, cont, err. split; [lia|]. split; [by econstructor|].
    replace (k + Datatypes.S n)%nat with (Datatypes.S k + n)%nat by lia. split; [done|].
    destruct Hc as [Hc|[Hc|(e' & -> & -> & -> & Hc)]]; [by left | by right; left | right; right].
    exists e'. done.
Qed.

(** [Do] calls the function with 1, 2, ... until it succeeds, gives up
    or has been called ten times: it returns no error exactly when the last
    call succeeded, that call's error when it gave up, and
    [errMaxRetriesReached] only after the tenth failure. *)
Theorem Do_spec {S E} (fn : nat → S → S * bool * option E) st :
  ∃ n st1 st2 cont err, (n < MaxRetries)%nat ∧ attempts fn 1 st n st1
    ∧ fn (1 + n)%nat st1 = (st2, cont, err)
    ∧ ((err = None ∧ Do fn st = (st2, None))
       ∨ (∃ e, err = Some e ∧ cont = false ∧ Do fn st = (st2, Some (inr e)))
       ∨ (∃ e, err = Some e ∧ cont = true ∧ Datatypes.S n = MaxRetries ∧ Do fn st = (st2, Some (inl tt)))).
Proof.
  destruct (do_loop_spec fn (MaxRetries - 1) 1 st) as (n & st1 & st2 & cont & err & Hn & Ha & Hf & Hc).
  exists n, st1, st2, cont, err. unfold MaxRetries in *. split; [lia|]. split; [done|]. split; [done|].
  destruct Hc as [Hc|[Hc|(e & H1 & H2 & H3 & H4)]]; [by left | by right; left | right; right].
  exists e. split; [done|]. split; [done|]. split; [lia | done].
Qed.

(** ** A concrete cache file

    The announcement of serviceproxy_test.go under the toy signature scheme,
    and one for the same identity whose signature does not verify. *)

#[export] Instance ascii_only : Unicode := λ r, r.

Definition good_entry : entry :=
  mkEntry (proxy_MarshalJSON bgdispatcher) [bs "cert"]
    [EncodeToString StdEncoding (bs "cert" ++ take 32 (proxy_MarshalJSON bgdispatcher))].

Definition bad_entry : entry := mkEntry (proxy_MarshalJSON bgdispatcher) [bs "cert"] [bs "AAAA"].

Definition stored_proxy (e : entry) : serviceProxy :=
  announced bgdispatcher (join [LF] (e_cert e)) (join [LF] (e_sig e)).

Lemma good_entry_ok : entry_ok good_entry.
Proof.
  split; [apply line_ok_short; [by vm_compute | by apply Nat.ltb_lt; vm_compute]|].
  split; [by vm_compute|]. split; (split; [done|]); (constructor; [|constructor]);
    (split; [apply line_ok_short; [by vm_compute | by apply Nat.ltb_lt; vm_compute]|]);
    by vm_compute.
Qed.

Definition scanned : ServiceCache :=
  @storeNoLock ascii_only (stored_proxy good_entry) emptyCache.

Lemma good_process : @process_all ascii_only toy_crypto [good_entry] emptyCache = Ok (scanned, None).
Proof. vm_compute. reflexivity. Qed.

Lemma good_scan :
  @DoScan ascii_only toy_crypto (NewScanner (concat (map text_of [good_entry]))) emptyCache
  = Some (Ok (scanned, None)).
Proof.
  unfold DoScan. rewrite <- good_process. apply scan_loop_entries; [|cbn; lia|cbn; lia].
  constructor; [exact good_entry_ok | constructor].
Qed.

Lemma DoScan_entries_witness :
  @DoScan ascii_only toy_crypto (mkScanner (concat (map text_of [good_entry])) false []) emptyCache
  = Some (Ok (scanned, None)).
Proof.
  rewrite (@DoScan_entries ascii_only toy_crypto [good_entry] emptyCache []).
  - apply f_equal. exact good_process.
  - constructor; [exact good_entry_ok | constructor].
Defined.

Lemma cache_invariant_witness :
  cache_inv scanned
  ∧ ∃ l, actionIndex scanned !! @mungedName ascii_only (bs "main") (bs "bgdispatcher") (bs "poll") 1 (bs "json") = Some l
         ∧ stored_proxy good_entry ∈ l.
Proof.
  destruct (@cache_invariant ascii_only toy_crypto _ _ _ _ bgdispatcher good_scan) as (H1 & _ & H2).
  split; [exact H1|]. apply (H2 [good_entry] []).
  - reflexivity.
  - constructor; [exact good_entry_ok | constructor].
  - assert (idents [good_entry] = [sp_ident bgdispatcher]) as -> by (vm_compute; reflexivity).
    apply NoDup_singleton.
  - split; [vm_compute; reflexivity|]. apply list_elem_of_In. vm_compute. left. reflexivity.
Defined.

Lemma scan_stores_verified_witness :
  @Validate toy_crypto (stored_proxy good_entry) = Ok tt.
Proof.
  destruct (@scan_stores_verified ascii_only toy_crypto _ emptyCache _ _ eq_refl good_scan) as [H _].
  apply (H (sp_ident bgdispatcher)). vm_compute. reflexivity.
Defined.

Lemma search_finds_stored_witness :
  ∃ l, @SearchByAction ascii_only (bs "MAIN") (bs "BgDispatcher.Poll") 1 (bs "json") scanned = Ok l
       ∧ l ≠ [].
Proof.
  destruct (@search_finds_stored ascii_only (stored_proxy good_entry)
    (mkClass (bs "bgdispatcher")
       [mkAction (bs "poll") [] 1; mkAction (bs "reboot") [] 1; mkAction (bs "report") [] 1])
    (mkAction (bs "poll") [] 1) (bs "json") emptyCache
    (bs "MAIN") (bs "BgDispatcher.Poll") 1 (bs "json")) as (earlier & n & H & _).
  - left.
  - left.
  - left.
  - vm_compute. reflexivity.
  - eexists. split; [exact H|]. by destruct earlier.
Defined.

Lemma bad_parses :
  newServiceProxy (e_record bad_entry) (join [LF] (e_cert bad_entry)) (join [LF] (e_sig bad_entry))
  = Ok (stored_proxy bad_entry).
Proof. vm_compute. reflexivity. Qed.

Lemma bad_invalid : ∃ err, @Validate toy_crypto (stored_proxy bad_entry) = Err err.
Proof. eexists. vm_compute. reflexivity. Qed.

Lemma invalid_record_evicts_witness :
  ∃ c', @process_record ascii_only toy_crypto (e_record bad_entry) (join [LF] (e_cert bad_entry))
          (join [LF] (e_sig bad_entry)) scanned = Ok c'
    ∧ Retrieve (sp_ident bgdispatcher) c' = None
    ∧ @SearchByAction ascii_only (bs "main") (bs "bgdispatcher.poll") 1 (bs "json") c'
      = Ok [stored_proxy good_entry].
Proof.
  destruct (@invalid_record_evicts ascii_only toy_crypto _ _ _ _ scanned (stored_proxy good_entry)
    eq_refl bad_parses bad_invalid) as (c' & H1 & H2 & _ & H3); [vm_compute; reflexivity|].
  exists c'. split; [exact H1|]. split; [exact H2|]. rewrite H3. vm_compute. reflexivity.
Defined.

Lemma verification_switches_swapped_witness :
  ∃ c', @process_record ascii_only toy_crypto (e_record bad_entry) (join [LF] (e_cert bad_entry))
          (join [LF] (e_sig bad_entry)) (DisableRecordVerification emptyCache) = Ok c'
        ∧ Retrieve (sp_ident (stored_proxy bad_entry)) c' = None.
Proof.
  exact (proj1 (@verification_switches_swapped ascii_only toy_crypto _ _ _ _ emptyCache
    bad_parses bad_invalid)).
Defined.
