(* ===== verification/Service.v ===== *)
(** src/scamp/service.go, src/scamp/multicast.go (the choice of an address)
    and the registration half of src/scamp/action_options.go: what a service
    is, and how it announces itself.  Its request loop is in Handler.v. *)
From S2P Require Import Prelude Strconv Utf8 Json JsonFacts GoIO GoStrings Timestamp Base64 Verify ServiceProxy.

(** ** Addresses *)

(** [net.IP]: 4 or 16 bytes. *)
Definition IP : Type := list byte.

Definition v4InV6Prefix : bytes := replicate 10 (chr 0) ++ [chr 255; chr 255].

(** [ip.To4()]; [None] is nil. *)
Definition To4 (ip : IP) : option IP :=
  if (length ip =? 4)%nat then Some ip
  else if (length ip =? 16)%nat && (take 12 ip =b v4InV6Prefix) then Some (drop 12 ip)
  else None.

(** [ip.String()] of what [To4] returns. *)
Definition ip_String (ip : option IP) : bytes :=
  match ip with
  | None => bs "<nil>"
  | Some l => join (bs ".") (map (λ c, format_uint (bv c)) l)
  end.

(** One interface: whether it is a loopback, and its addresses, each as
    [net.ParseCIDR] reads it ([None] is an error). *)
Record interface := mkInterface { if_loopback : bool; if_addrs : bytes + list (option IP) }.

(** The inner loop: [ip] keeps the last result, and only an IPv4 address
    stops it. *)
Fixpoint pick_addr (addrs : list (option IP)) (ip : option IP) : option IP :=
  match addrs with
  | [] => ip
  | a :: r =>
      match a with
      | Some x => match To4 x with Some _ => Some x | None => pick_addr r (Some x) end
      | None => pick_addr r None
      end
  end.

Fixpoint pick_interface (infs : list interface) (ip : option IP) : outcome bytes IP :=
  match infs with
  | [] => or_err (bs "no suitables IPs found") ip
  | inf :: r =>
      if if_loopback inf then pick_interface r ip
      else match if_addrs inf with
           | inl err => Err err
           | inr addrs =>
               match pick_addr addrs ip with
               | Some x => Ok x
               | None => pick_interface r None
               end
           end
  end.

(** [func getIPForAnnouncePacket() (ip net.IP, err error)], on the result of
    [net.Interfaces]. *)
Definition getIPForAnnouncePacket (infs : bytes + list interface) : outcome bytes IP :=
  match infs with
  | inl err => Err err
  | inr l => pick_interface l None
  end.

(** ** Services *)

Record ActionOptions := mkOptions {
  o_Verify : bool;
  o_Privs : list Z;
  o_TicketVerifyPublicKey : bytes
}.

Definition DefaultActionOptions : ActionOptions := mkOptions false [] [].

Section service.
(** Callbacks are functions of the user's program. *)
Context {Callback : Type} `{Crypto}.

Record ServiceOptionsFunc := mkOptionsFunc { f_callback : Callback; f_options : ActionOptions }.

Record ServiceAction := mkServiceAction {
  sa_callback : ServiceOptionsFunc;
  sa_crudTags : bytes;
  sa_version : Z
}.

(** [s_clients] holds the tracked clients, by an identity of their own. *)
Record Service := mkService {
  s_serviceSpec : bytes;
  s_sector : bytes;
  s_name : bytes;
  s_humanName : bytes;
  s_listenerIP : IP;
  s_listenerPort : Z;
  s_actions : gmap bytes ServiceAction;
  s_isRunning : bool;
  s_clients : list nat;
  s_key : PrivateKey;
  s_pemCert : bytes;
  s_connectionsAccepted : Z
}.

Definition set_actions (a : gmap bytes ServiceAction) (s : Service) : Service :=
  mkService (s_serviceSpec s) (s_sector s) (s_name s) (s_humanName s) (s_listenerIP s)
    (s_listenerPort s) a (s_isRunning s) (s_clients s) (s_key s) (s_pemCert s)
    (s_connectionsAccepted s).
Definition set_clients (l : list nat) (n : Z) (s : Service) : Service :=
  mkService (s_serviceSpec s) (s_sector s) (s_name s) (s_humanName s) (s_listenerIP s)
    (s_listenerPort s) (s_actions s) (s_isRunning s) l (s_key s) (s_pemCert s) n.

(** [func (serv *Service) generateRandomName()]: on an error of the random
    source the name stays empty and the error is lost. *)
Definition generateRandomName (humanName : bytes) (randBytes : option bytes) : bytes :=
  match randBytes with
  | None => []
  | Some b => humanName ++ bs ":" ++ EncodeToString StdEncoding b
  end.

(** [func (serv *Service) listen() (err error)]: [tls.Listen] gives an error
    or the port, then the address is chosen. *)
Definition listen (tls_Listen : bytes + Z) (infs : bytes + list interface)
    : outcome bytes (IP * Z) :=
  match tls_Listen with
  | inl err => Err err
  | inr port => ip ← getIPForAnnouncePacket infs; Ok (ip, port)
  end.

(** [func NewServiceExplicitCert(sector, serviceSpec, humanName, keypair, pemCert)]. *)
Definition NewServiceExplicitCert (sector serviceSpec humanName : bytes) (key : PrivateKey)
    (pemCert : bytes) (randBytes : option bytes) (tls_Listen : bytes + Z)
    (infs : bytes + list interface) : outcome bytes Service :=
  if (18 <? length humanName)%nat then
    Err (bs "name `" ++ humanName ++ bs "` is too long, must be less than 18 bytes")
  else
    '(ip, port) ← listen tls_Listen infs;
    Ok (mkService serviceSpec sector (generateRandomName humanName randBytes) humanName ip port
          ∅ false [] key (trim_space pemCert) 0).

(** [func (serv *Service) Register(name, callback, options) (err error)].
    Nothing in the program sets [isRunning]. *)
Definition Register (name : bytes) (callback : Callback) (options : option ActionOptions)
    (s : Service) : Service * option bytes :=
  if s_isRunning s then (s, Some (bs "cannot register handlers while server is running"))
  else
    let actionOptions := default DefaultActionOptions options in
    (set_actions (<[name := mkServiceAction (mkOptionsFunc callback actionOptions) [] 1]> (s_actions s)) s,
     None).

(** The bookkeeping of [Run] for one accepted connection: the client is
    tracked, and counted once its handler has been started. *)
Definition accept_client (id : nat) (s : Service) : Service :=
  set_clients (s_clients s ++ [id]) (s_connectionsAccepted s) s.
Definition count_connection (s : Service) : Service :=
  set_clients (s_clients s) (u64 (s_connectionsAccepted s + 1)) s.

(** The first client that is [id]. *)
Fixpoint client_index (id : nat) (l : list nat) : option nat :=
  match l with
  | [] => None
  | x :: r => if (x =? id)%nat then Some 0 else Datatypes.S <$> client_index id r
  end.

(** [func (serv *Service) RemoveClient(client *Client) (err error)]: the
    service; whether the client was found, and so is closed. *)
Definition RemoveClient (id : nat) (s : Service) : Service * option bytes :=
  match client_index id (s_clients s) with
  | None => (s, Some (bs "unknown client"))
  | Some index =>
      (set_clients (take index (s_clients s) ++ drop (Datatypes.S index) (s_clients s))
         (s_connectionsAccepted s) s, None)
  end.

(** [type serviceStats struct]; both counters are [uint64]. *)
Record serviceStats := mkStats { st_ClientsAccepted : Z; st_OpenConnections : Z }.

(** [func gatherStats(service *Service)]. *)
Definition gatherStats (s : Service) : serviceStats :=
  mkStats (s_connectionsAccepted s) (u64 (Z.of_nat (length (s_clients s)))).

(** ** The announcement *)

Definition defaultAnnounceInterval : Z := 5.

(** One class per action, named by what precedes the last dot. *)
Definition action_class (name : bytes) (a : ServiceAction) : outcome bytes serviceProxyClass :=
  match last_index "."%char name with
  | None => Panic (bs "bad action name: `" ++ name ++ bs "` (no dot found)")
  | Some i => Ok (mkClass (take i name) [mkAction (drop (Datatypes.S i) name) (sa_crudTags a) (sa_version a)])
  end.

Fixpoint action_classes (l : list (bytes * ServiceAction)) : outcome bytes (list serviceProxyClass) :=
  match l with
  | [] => Ok []
  | (n, a) :: r => c ← action_class n a; r' ← action_classes r; Ok (c :: r')
  end.

(** [func serviceAsServiceProxy(serv *Service) (sp *serviceProxy)].  The
    actions come in the order [order], one of those in which Go may iterate
    over the map; [ts] is the reading of the clock ([None]: an error, and the
    proxy is nil). *)
Definition serviceAsServiceProxy (order : list (bytes * ServiceAction)) (ts : option float64)
    (s : Service) : outcome bytes (option serviceProxy) :=
  classes ← action_classes order;
  Ok (match ts with
      | None => None
      | Some t =>
          Some (mkProxy 3 (s_name s) (s_sector s) 1 (defaultAnnounceInterval * 500)
            (bs "beepish+tls://" ++ ip_String (To4 (s_listenerIP s)) ++ bs ":"
             ++ format_int (s_listenerPort s))
            [bs "json"] classes None (bs "rawClassRecords") (bs "rawCert") (bs "rawSig") t)
      end).

(** The loop of [stringToRows]; [rowlen] is never looked at. *)
Fixpoint rows_loop (fuel : nat) (substr : bytes) : list bytes :=
  match fuel with
  | O => []
  | Datatypes.S f =>
      if (76 <? length substr)%nat then take 76 substr :: rows_loop f (drop 76 substr) else [substr]
  end.

(** [func stringToRows(input string, rowlen int) (output []string)]. *)
Definition stringToRows (input : bytes) (rowlen : Z) : list bytes :=
  if (length input <=? 76)%nat then [input] else rows_loop (length input) input.

(** [func (serv *Service) MarshalText() (b []byte, err error)].  A nil proxy
    makes [MarshalJSON] panic. *)
Definition MarshalText (order : list (bytes * ServiceAction)) (ts : option float64) (s : Service)
    : outcome bytes bytes :=
  sp ← serviceAsServiceProxy order ts s;
  match sp with
  | None => Panic (bs "invalid memory address or nil pointer dereference")
  | Some sp =>
      let classRecord := proxy_MarshalJSON sp in
      sig ← signSHA256 classRecord (s_key s);
      let sigParts := stringToRows sig 76 in
      Ok (classRecord ++ [LF; LF] ++ s_pemCert s ++ [LF; LF]
          ++ concat (map (λ part, part ++ [LF]) sigParts) ++ [LF])
  end.

(** [func (serv *Service) runningServiceFilePath(dir []byte) string]. *)
Definition runningServiceFilePath (dir : bytes) (s : Service) : bytes :=
  dir ++ bs "/" ++ replace_byte "/" "_" (s_name s).
End service.
