(* ===== verification/ServiceFacts.v ===== *)
(** Properties of a service's announcement (Service.v): what it announces is
    what a reader of the cache file finds, how the signature is cut into
    rows, which address is announced, and the list of clients. *)
From S2P Require Import Prelude Strconv Utf8 Json JsonFacts GoIO GoStrings Timestamp Scanner Base64 Verify ServiceProxy ServiceCache ServiceCacheFacts Service.

(** ** Rows *)

Lemma rows_loop_spec fuel s :
  (length s < 76 * fuel)%nat →
  concat (rows_loop fuel s) = s
  ∧ ∃ full r, rows_loop fuel s = full ++ [r] ∧ Forall (λ x, length x = 76) full
              ∧ (length r ≤ 76)%nat ∧ (s ≠ [] → r ≠ []).
Proof.
  revert s. induction fuel as [|f IH]; intros s Hf; [lia|]. cbn [rows_loop].
  destruct (Nat.ltb_spec 76 (length s)).
  - destruct (IH (drop 76 s)) as (Hc & full & r & E & Hfull & Hr & Hne);
      [rewrite length_drop; lia|].
    cbn [concat]. split; [rewrite Hc; apply take_drop|].
    exists (take 76 s :: full), r. split; [by rewrite E|]. split; [constructor; [rewrite length_take; lia|done]|].
    split; [done|]. intros _. apply Hne. intros Ed. apply (f_equal length) in Ed.
    rewrite length_drop in Ed. cbn in Ed. lia.
  - cbn. rewrite app_nil_r. split; [done|]. exists [], s. split; [done|]. split; [constructor|].
    split; [lia | done].
Qed.

Lemma stringToRows_spec s n :
  concat (stringToRows s n) = s
  ∧ ∃ full r, stringToRows s n = full ++ [r] ∧ Forall (λ x, length x = 76) full
              ∧ (length r ≤ 76)%nat ∧ (s ≠ [] → r ≠ []).
Proof.
  unfold stringToRows. destruct (Nat.leb_spec (length s) 76).
  - cbn. rewrite app_nil_r. split; [done|]. exists [], s. split; [done|]. split; [constructor | done].
  - apply rows_loop_spec. lia.
Qed.

(** Bytes of standard base64 text. *)
Definition std_byte (c : byte) : bool :=
  not_lf c && negb (c =b CR) && negb (c =b "%"%char) && negb (is_break c).

Lemma std_encode_bytes s : forallb std_byte (EncodeToString StdEncoding s) = true.
Proof.
  assert (∀ n, (n < 64)%N → std_byte (sextet_char StdEncoding n) = true) as Hs by sextets.
  unfold EncodeToString. induction s as [|a|a b|a b c r IH] using triples_ind; [done|..];
    cbn [encode_sextets]; sextet_bounds; cbn [forallb padded StdEncoding]; rewrite !Hs by dm_lia; by cbn.
Qed.

Lemma encode_nonempty e s : s ≠ [] → EncodeToString e s ≠ [].
Proof. by destruct s as [|a [|b [|c r]]]. Qed.

(** The rows of a signature make a block of the cache file. *)
Lemma rows_block sig :
  forallb std_byte sig = true → sig ≠ [] →
  block_ok (stringToRows sig 76) ∧ strip_breaks (join [LF] (stringToRows sig 76)) = sig.
Proof.
  intros Hb Hne. destruct (stringToRows_spec sig 76) as (Hc & full & r & E & Hf & Hr & Hrn).
  set (rows := stringToRows sig 76) in *.
  assert (Forall (λ x, forallb std_byte x = true ∧ x ≠ [] ∧ (length x < 1000)%nat) rows) as Hrows.
  { apply Forall_forall. intros x Hx. rewrite list_elem_of_In in Hx. split; [|split].
    - rewrite <- Hc in Hb. rewrite forallb_forall in *. intros c Hc'. apply Hb, in_concat. eauto.
    - rewrite E in Hx. apply in_app_or in Hx as [Hx|[<-|[]]]; [|by apply Hrn].
      rewrite Forall_forall in Hf. apply list_elem_of_In, Hf in Hx. by intros ->.
    - rewrite E in Hx. apply in_app_or in Hx as [Hx|[<-|[]]]; [|lia].
      rewrite Forall_forall in Hf. apply list_elem_of_In, Hf in Hx. lia. }
  split.
  - split; [rewrite E; by destruct full|]. eapply Forall_impl; [exact Hrows|].
    intros x (Hx & Hxn & Hlen). split; [|split; [done|]].
    + apply line_ok_short; [|done]. revert Hx. apply forallb_impl. unfold std_byte.
      intros c Hc'. by apply andb_true_iff in Hc' as [[Hc' _]%andb_true_iff _].
    + intros ->. by vm_compute in Hx.
  - clear E. rewrite <- Hc. clear Hc Hb. clearbody rows. induction Hrows as [|x l (Hx & _ & _) Hl IH]; [done|].
    assert (strip_breaks x = x) as Hxs.
    { apply strip_breaks_id. revert Hx. apply forallb_impl. unfold std_byte. intros c Hc.
      by apply andb_true_iff in Hc as []. }
    destruct l as [|y l].
    + cbn. by rewrite app_nil_r.
    + rewrite join_cons by done. rewrite !strip_breaks_app, Hxs, IH. done.
Qed.

(** ** Announcements *)

(** An action that can be announced and found: a class, a dot, a name
    without dots. *)
Definition wf_registered {Callback} (na : bytes * @ServiceAction Callback) : Prop :=
  ∃ c x, na.1 = c ++ "."%char :: x ∧ valid_utf8 c ∧ valid_utf8 x ∧ ("."%char ∉ x)
         ∧ valid_utf8 (sa_crudTags na.2) ∧ in_i64 (sa_version na.2).

Lemma last_index_dot c x :
  "."%char ∉ x → last_index "."%char (c ++ "."%char :: x) = Some (length c).
Proof.
  intros Hx. induction c as [|d c IH].
  - cbn [app last_index]. assert (last_index "."%char x = None) as ->; [|done].
    induction x as [|d x IHx]; [done|]. apply not_elem_of_cons in Hx as [Hd Hx]. cbn.
    rewrite IHx by done. by rewrite bool_decide_false by congruence.
  - cbn. by rewrite IH.
Qed.

Lemma action_classes_wf {Callback} (l : list (bytes * @ServiceAction Callback)) :
  Forall wf_registered l →
  ∃ classes, action_classes l = Ok classes ∧ Forall wf_class classes
    ∧ ∀ n a, (n, a) ∈ l → ∃ cl ad, cl ∈ classes ∧ ad ∈ actions cl
        ∧ n = className cl ++ bs "." ++ actionName ad ∧ version ad = sa_version a.
Proof.
  induction 1 as [|[n a] l (c & x & Hn & Hc & Hx & Hd & Ht & Hv) _ (cls & He & Hwf & Hin)].
  - exists []. split; [done|]. split; [constructor|]. intros n a Hin. by apply elem_of_nil in Hin.
  - cbn [fst snd] in *. set (ad := mkAction x (sa_crudTags a) (sa_version a)).
    exists (mkClass c [ad] :: cls). split; [|split].
    + cbn [action_classes]. unfold action_class. rewrite Hn, last_index_dot by done. go_simpl.
      rewrite He. go_simpl. rewrite take_app_exact.
      replace (S (length c)) with (length (c ++ ["."%char])) by (rewrite length_app; cbn; lia).
      change ("."%char :: x) with (["."%char] ++ x). rewrite app_assoc, drop_app_exact. done.
    + constructor; [|done]. split; [done|]. split; [done|]. constructor; [done | constructor].
    + intros n' a' [[= -> ->]|Hl]%elem_of_cons.
      * exists (mkClass c [ad]), ad. split; [left|]. split; [left|]. by rewrite Hn.
      * destruct (Hin n' a' Hl) as (cl & ad' & H1 & H2 & H3). exists cl, ad'. split; [by right | done].
Qed.

(** The record of a well-formed proxy is one printable line. *)
Lemma record_printable sp : wf_proxy sp → forallb printable (proxy_MarshalJSON sp) = true.
Proof.
  intros (_ & H1 & H2 & _ & _ & H3 & H4 & H5). apply clean_render, clean_arr.
  do 6 (constructor; [auto with go|]).
  constructor; [apply clean_arr; rewrite Forall_map; eapply Forall_impl; [exact H4 | apply clean_jstring]|].
  constructor.
  - apply clean_arr. rewrite Forall_map. eapply Forall_impl; [exact H5|]. intros cl (Hn & _ & Ha).
    apply clean_arr. constructor; [auto with go|]. rewrite Forall_map.
    eapply Forall_impl; [exact Ha|]. intros a (Hna & Ht & _). apply clean_arr.
    repeat (constructor; [auto with go|]). constructor.
  - constructor; [|constructor]. cbn. unfold marshal_timestamp, Sprintf_f. set (q := if (f_e _ <? 0)%Z then _ else _).
    assert (∀ l, forallb is_digit l = true → forallb printable l = true) as Hd.
    { intros l. apply forallb_impl. apply forall_byte_impl. by vm_compute. }
    apply printable_app; [by destruct (f_m _ <? 0)%Z|].
    apply printable_app; [apply Hd, format_uint_digits|].
    apply printable_app; [done|]. apply Hd, pad6_ok.
Qed.

Lemma printable_line l :
  forallb printable l = true → (length l < MaxScanTokenSize)%nat → line_ok l.
Proof.
  intros Hl Hn. rewrite forallb_forall in Hl. split; [|split; [done|]].
  - apply forallb_forall. intros c Hc. apply Hl in Hc. revert c Hc. apply forall_byte_impl. by vm_compute.
  - intros Hc. apply last_Some_elem_of, list_elem_of_In, Hl in Hc. by vm_compute in Hc.
Qed.

Lemma ascii_utf8 l : forallb ascii_byte l = true → valid_utf8 l.
Proof. apply valid_utf8_ascii. Qed.

Lemma connspec_utf8 ip port :
  valid_utf8 (bs "beepish+tls://" ++ ip_String ip ++ bs ":" ++ format_int port).
Proof.
  assert (∀ n, forallb ascii_byte (format_uint n) = true) as Hd.
  { intros n. generalize (format_uint_digits n). apply forallb_impl, forall_byte_impl. by vm_compute. }
  apply ascii_utf8. repeat (apply forallb_app_iff; split); try by vm_compute.
  - destruct ip as [l|]; [|by vm_compute]. unfold ip_String.
    induction l as [|c [|d l] IH]; [done|apply Hd|]. cbn [map] in *. rewrite join_cons by done.
    apply forallb_app_iff. split; [apply Hd|]. apply forallb_app_iff. by split.
  - unfold format_int. destruct (port <? 0)%Z; [apply forallb_app_iff; by split | done].
Qed.

(** ** Properties *)

Section announce.
Context {Callback : Type} `{Unicode} `{CryptoLaws}.

Lemma signature_text msg key sig :
  signSHA256 msg key = Ok sig → forallb std_byte sig = true ∧ sig ≠ [].
Proof.
  unfold signSHA256. destruct (SignPKCS1v15 _ _) as [|x] eqn:E; [done|].
  intros [= <-]. split; [apply std_encode_bytes|]. apply encode_nonempty.
  intros ->. by apply sign_nonempty in E.
Qed.

Lemma stored_search sp c sector cl ad n v p :
  cl ∈ sp_classes sp → ad ∈ actions cl → p ∈ sp_protocols sp → version ad = v →
  sector = sp_sector sp → n = className cl ++ bs "." ++ actionName ad →
  ∃ k, SearchByAction sector n v p (storeNoLock sp (clearNoLock c)) = Ok (replicate (S k) sp).
Proof.
  intros Hc Ha Hp <- -> ->. unfold SearchByAction.
  rewrite stored_lookup. cbn [clearNoLock actionIndex]. rewrite lookup_empty. cbn [default].
  set (q := ToLower _).
  assert (q = mungedName (sp_sector sp) (className cl) (actionName ad) (version ad) p) as Eq.
  { unfold q, mungedName. by rewrite <- !app_assoc. }
  assert (q ∈ munged_names sp) as Hq by (rewrite Eq; by apply munged_elem).
  rewrite bool_decide_true by done. apply times_elem in Hq.
  destruct (times q (munged_names sp)) as [|k]; [done|]. by exists k.
Qed.

(** C2. End to end: the announcement of a service whose certificate holds
    its own key, written into the cache file after a separator and read by a
    cache that verifies, is accepted; the service is then found by its name,
    with its sector and address, and every registered action is found under
    its version and JSON, pointing to that service only. *)
Theorem announcement_found (s : @Service Callback _) order ts text certLines blk cert c :
  order ≡ₚ map_to_list (s_actions s) → Forall wf_registered order →
  valid_utf8 (s_name s) → valid_utf8 (s_sector s) →
  s_pemCert s = join [LF] certLines → block_ok certLines →
  pem_Decode (s_pemCert s) = Some blk → x509_ParseCertificate blk = inr cert →
  cert_PublicKey cert = Some (public_of (s_key s)) →
  MarshalText order (Some ts) s = Ok text → (length text < MaxScanTokenSize)%nat →
  verifyRecords c = true →
  ∃ c' sp, DoScan (NewScanner (sep ++ [LF] ++ text)) c = Some (Ok (c', None))
    ∧ Retrieve (s_name s) c' = Some sp ∧ sp_sector sp = s_sector s
    ∧ sp_connspec sp = bs "beepish+tls://" ++ ip_String (To4 (s_listenerIP s)) ++ bs ":"
                       ++ format_int (s_listenerPort s)
    ∧ ∀ n a, s_actions s !! n = Some a →
        ∃ k, SearchByAction (s_sector s) n (sa_version a) (bs "json") c' = Ok (replicate (S k) sp).
Proof.
  intros Hord Hreg Hname Hsec Hpem Hblk Hdec Hcert Hkey Htext Hlen Hv.
  destruct (action_classes_wf order Hreg) as (classes & Hcl & Hwf & Hin).
  unfold MarshalText, serviceAsServiceProxy in Htext. rewrite Hcl in Htext. go_simpl.
  set (sp0 := mkProxy _ _ _ _ _ _ _ _ _ _ _ _ _) in Htext.
  apply bind_Ok in Htext as (sig & Hsig & Htext). apply Ok_inj in Htext. subst text.
  assert (wf_proxy sp0) as Hsp.
  { split; [by vm_compute|]. split; [done|]. split; [done|]. split; [by vm_compute|].
    split; [by vm_compute|]. split; [apply connspec_utf8|]. split; [|done].
    constructor; [by apply valid_utf8_ascii | constructor]. }
  destruct (signature_text _ _ _ Hsig) as [Hsb Hsn].
  destruct (rows_block sig Hsb Hsn) as [Hrows Hstrip].
  set (e := mkEntry (proxy_MarshalJSON sp0) certLines (stringToRows sig 76)).
  assert (entry_ok e) as He.
  { split; [|split; [|by split]]; cbn [e e_record].
    - apply printable_line; [by apply record_printable|]. rewrite length_app in Hlen. lia.
    - unfold proxy_MarshalJSON, proxy_json. done. }
  set (sp := announced sp0 (s_pemCert s) (join [LF] (stringToRows sig 76))).
  assert (sep ++ [LF] ++ proxy_MarshalJSON sp0 ++ [LF; LF] ++ s_pemCert s ++ [LF; LF]
    ++ concat (map (λ part, part ++ [LF]) (stringToRows sig 76)) ++ [LF] = text_of e) as ->.
  { unfold text_of, entry_text. cbn [e_record e_cert e_sig e].
    rewrite (lines_join certLines) by apply Hblk. rewrite <- Hpem, <- !app_assoc. done. }
  assert (Validate sp = Ok tt) as HV.
  { unfold Validate, validateSignature. cbn [sp announced sp_rawCert sp_rawClassRecords sp_rawSig].
    rewrite Hdec. go_simpl. rewrite Hcert, Hkey. go_simpl.
    by rewrite (signSHA256_verify _ _ _ _ Hsig Hstrip). }
  exists (storeNoLock sp (clearNoLock c)), sp. split; [|split; [|split; [done|split; [done|]]]].
  - rewrite DoScan_one by done. unfold process_all, process_record. cbn [e e_record e_cert e_sig].
    rewrite <- Hpem, read_MarshalJSON by done. fold sp. cbn [map_err]. go_simpl.
    cbn [clearNoLock verifyRecords]. by rewrite Hv, HV.
  - unfold Retrieve. cbn. apply lookup_insert_eq.
  - intros n a Ha. assert ((n, a) ∈ order) as Hna by by rewrite Hord, elem_of_map_to_list.
    destruct (Hin n a Hna) as (cl & ad & Hc & Had & -> & Hver).
    apply (stored_search sp c _ cl ad); done || left.
Qed.

(** [Register] takes any name, but an action without a dot in its name
    makes every announcement of the service panic. *)
Theorem dotless_action_panics name cb opts (s : @Service Callback _) s' order ts :
  "."%char ∉ name → Register name cb opts s = (s', None) → order ≡ₚ map_to_list (s_actions s') →
  ∃ w, MarshalText order ts s' = Panic w.
Proof.
  intros Hd Hr Hord. unfold Register in Hr. destruct (s_isRunning s); [done|]. injection Hr as <-.
  set (a := mkServiceAction _ _ _) in Hord. assert ((name, a) ∈ order) as Hin.
  { rewrite Hord, elem_of_map_to_list. cbn. apply lookup_insert_eq. }
  clear Hord. unfold MarshalText, serviceAsServiceProxy.
  assert (∃ w, action_classes order = Panic w) as [w ->]; [|by exists w].
  assert (last_index "."%char name = None) as Hli.
  { clear -Hd. induction name as [|d x IH]; [done|]. apply not_elem_of_cons in Hd as [Hd Hx]. cbn.
    rewrite IH by done. by rewrite bool_decide_false by congruence. }
  induction order as [|[n b] order IH]; [by apply elem_of_nil in Hin|]. cbn [action_classes].
  unfold action_class at 1. destruct (last_index "."%char n) as [i|] eqn:E; [|by eexists].
  go_simpl. apply elem_of_cons in Hin as [[= -> ->]|Hin]; [congruence|].
  destruct (IH Hin) as [w ->]. by exists w.
Qed.

(** The signature is cut into rows of 76 characters, all full but the
    last, and joining the rows gives it back; the row length asked for is
    ignored. *)
Theorem stringToRows_rows input rowlen :
  concat (stringToRows input rowlen) = input
  ∧ stringToRows input rowlen = stringToRows input 76
  ∧ ∃ full last_row, stringToRows input rowlen = full ++ [last_row]
      ∧ Forall (λ r, length r = 76) full ∧ (length last_row ≤ 76)%nat.
Proof.
  destruct (stringToRows_spec input rowlen) as (F1 & full & r & F2 & F3 & F4 & _).
  split; [done|]. split; [done|]. by exists full, r.
Qed.

Lemma client_index_in id l :
  id ∈ l → ∃ a b, l = a ++ id :: b ∧ (id ∉ a) ∧ client_index id l = Some (length a).
Proof.
  induction l as [|x l IH]; [by intros ?%elem_of_nil|]. cbn.
  destruct (Nat.eqb_spec x id) as [->|Hne].
  - intros _. exists [], l. split; [done|]. split; [apply not_elem_of_nil | done].
  - intros [->|Hin]%elem_of_cons; [done|]. destruct (IH Hin) as (a & b & -> & Ha & ->).
    exists (x :: a), b. split; [done|]. split; [|done]. by apply not_elem_of_cons.
Qed.

Lemma client_index_notin id l : id ∉ l → client_index id l = None.
Proof.
  induction l as [|x l IH]; [done|]. intros [Hne Hn]%not_elem_of_cons. cbn.
  destruct (Nat.eqb_spec x id) as [->|_]; [done|]. by rewrite IH.
Qed.

(** [RemoveClient] takes the first occurrence of the client off the
    list and keeps the others in order; a client it does not know leaves the
    service unchanged, with an error. *)
Theorem RemoveClient_spec id (s : @Service Callback _) :
  (id ∈ s_clients s → ∃ a b, s_clients s = a ++ id :: b ∧ (id ∉ a)
     ∧ s_clients (RemoveClient id s).1 = a ++ b ∧ (RemoveClient id s).2 = None)
  ∧ (id ∉ s_clients s → RemoveClient id s = (s, Some (bs "unknown client"))).
Proof.
  unfold RemoveClient. split.
  - intros (a & b & E & Ha & ->)%client_index_in. exists a, b. rewrite E. cbn.
    rewrite take_app_exact. replace (Datatypes.S (length a)) with (length (a ++ [id]))
      by (rewrite length_app; cbn; lia).
    change (id :: b) with ([id] ++ b). rewrite app_assoc, drop_app_exact, <- app_assoc. done.
  - intros Hn. by rewrite client_index_notin.
Qed.
End announce.

(** The announced address is an IPv4 address if the chosen interface has
    one, the first; otherwise it is whatever the interface's last address
    was, and for an IPv6 address the announcement says [<nil>]. *)
Theorem announced_address infs addrs rest :
  Forall (λ i, if_loopback i = true) infs →
  let pick := getIPForAnnouncePacket (inr (infs ++ mkInterface false (inr addrs) :: rest)) in
  (∀ a v4 b, addrs = a ++ Some v4 :: b → is_Some (To4 v4) →
     Forall (λ x, ∀ y, x = Some y → To4 y = None) a → pick = Ok v4)
  ∧ (∀ v6, last addrs = Some (Some v6) → Forall (λ x, ∀ y, x = Some y → To4 y = None) addrs →
     pick = Ok v6 ∧ ip_String (To4 v6) = bs "<nil>").
Proof.
  intros Hlo pick. assert (pick = match pick_addr addrs None with
    | Some x => Ok x | None => pick_interface rest None end) as ->.
  { unfold pick, getIPForAnnouncePacket. induction Hlo as [|i infs Hi _ IH]; [done|]. cbn. by rewrite Hi. }
  split.
  - intros a v4 b -> [x Hx] Ha. assert (∀ ip, pick_addr (a ++ Some v4 :: b) ip = Some v4) as ->; [|done].
    induction Ha as [|y a Hy _ IH]; intros ip; cbn; [by rewrite Hx|].
    destruct y as [y|]; [|apply IH]. by rewrite (Hy y eq_refl).
  - intros v6 Hlast Hall. assert (∀ ip, pick_addr addrs ip = Some v6) as ->.
    { induction Hall as [|y a Hy Ha IH]; [done|]. intros ip. cbn. destruct a as [|z a].
      - cbn in Hlast. injection Hlast as ->. by rewrite (Hy v6 eq_refl).
      - destruct y as [y|]; [rewrite (Hy y eq_refl)|]; by apply IH. }
    split; [done|]. apply last_Some_elem_of in Hlast. rewrite Forall_forall in Hall.
    by rewrite (Hall _ Hlast v6 eq_refl).
Qed.

(** ** A concrete service, after service_test.go *)

Definition info_action : @ServiceAction unit :=
  mkServiceAction (mkOptionsFunc tt DefaultActionOptions) [] 1.

Definition cool_service : @Service unit toy_crypto :=
  @mkService unit toy_crypto (bs "123") (bs "main") (bs "a-cool-name-1234") (bs "a-cool-name")
    (map chr [174; 10; 10; 10]%N) 30100 {[ bs "Logging.info" := info_action ]} false [] (bs "cert")
    (bs "cert") 0.

Definition ten : float64 := mkFloat 10 0.

(** TestServiceToProxyMarshal. *)
Example cool_service_record :
  (sp ← serviceAsServiceProxy [(bs "Logging.info", info_action)] (Some ten) cool_service;
   Ok (option_map proxy_MarshalJSON sp))
  = Ok (Some (quotes (bs "[3,'a-cool-name-1234','main',1,2500,'beepish+tls://174.10.10.10:30100',['json'],[['Logging',['info','',1]]],10.000000]"))).
Proof. vm_compute. reflexivity. Qed.

Lemma cool_order : [(bs "Logging.info", info_action)] ≡ₚ map_to_list (s_actions cool_service).
Proof. cbn [cool_service s_actions]. by rewrite map_to_list_singleton. Qed.

Lemma announcement_found_witness :
  ∃ text c' sp, MarshalText [(bs "Logging.info", info_action)] (Some ten) cool_service = Ok text
    ∧ @DoScan ascii_only toy_crypto (NewScanner (sep ++ [LF] ++ text)) emptyCache = Some (Ok (c', None))
    ∧ Retrieve (bs "a-cool-name-1234") c' = Some sp
    ∧ sp_connspec sp = bs "beepish+tls://174.10.10.10:30100".
Proof.
  destruct (MarshalText [(bs "Logging.info", info_action)] (Some ten) cool_service) as [text|e|w] eqn:E;
    [|vm_compute in E; discriminate E|vm_compute in E; discriminate E].
  destruct (@announcement_found unit ascii_only toy_crypto toy_laws cool_service
    [(bs "Logging.info", info_action)] ten text [bs "cert"] (bs "cert") (bs "cert") emptyCache)
    as (c' & sp & H1 & H2 & _ & H3 & _).
  - exact cool_order.
  - constructor; [|constructor]. exists (bs "Logging"), (bs "info"). split; [reflexivity|].
    split; [by apply valid_utf8_ascii|]. split; [by apply valid_utf8_ascii|].
    split; [refine (bool_decide_unpack _ _); by vm_compute|].
    split; [by apply valid_utf8_ascii | by vm_compute].
  - by apply valid_utf8_ascii.
  - by apply valid_utf8_ascii.
  - reflexivity.
  - split; [done|]. constructor; [|constructor].
    split; [apply line_ok_short; [by vm_compute | by apply Nat.ltb_lt; vm_compute] | done].
  - reflexivity.
  - reflexivity.
  - reflexivity.
  - exact E.
  - vm_compute in E. apply Ok_inj in E. rewrite <- E.
    apply Nat.ltb_lt. vm_compute. reflexivity.
  - reflexivity.
  - exists text, c', sp. split; [reflexivity|]. split; [exact H1|]. split; [exact H2|].
    rewrite H3. vm_compute. reflexivity.
Defined.

Lemma dotless_action_panics_witness :
  ∃ s' w, @Register unit toy_crypto (bs "ping") tt None
            (@set_actions unit toy_crypto ∅ cool_service) = (s', None)
    ∧ MarshalText (map_to_list (s_actions s')) (Some ten) s' = Panic w.
Proof.
  eexists.
  destruct (@dotless_action_panics unit toy_crypto (bs "ping") tt None
    (@set_actions unit toy_crypto ∅ cool_service) _ _ (Some ten) ltac:(refine (bool_decide_unpack _ _); by vm_compute) eq_refl ltac:(reflexivity))
    as [w H].
  exists w. split; [reflexivity | exact H].
Defined.

Lemma announced_address_witness :
  ip_String (To4 (replicate 16 (chr 1))) = bs "<nil>".
Proof.
  apply (announced_address [] [Some (replicate 16 (chr 1))] [] (Forall_nil_2 _)); [reflexivity|].
  constructor; [|constructor]. intros y [= <-]. reflexivity.
Defined.

Lemma RemoveClient_spec_witness :
  s_clients (RemoveClient 2 (@set_clients unit toy_crypto [1; 2; 3; 2]%nat 4 cool_service)).1
    = [1; 3; 2]%nat
  ∧ RemoveClient 7 (@set_clients unit toy_crypto [1; 2]%nat 2 cool_service)
    = (@set_clients unit toy_crypto [1; 2]%nat 2 cool_service, Some (bs "unknown client")).
Proof.
  split.
  - destruct (proj1 (@RemoveClient_spec unit toy_crypto 2
      (@set_clients unit toy_crypto [1; 2; 3; 2]%nat 4 cool_service))
      ltac:(refine (bool_decide_unpack _ _); by vm_compute)) as (a & b & E & Ha & -> & _).
    cbn in E. destruct a as [|x [|y a]]; cbn in E; [discriminate| |].
    + injection E as <- <-. reflexivity.
    + injection E as <- <- _. exfalso. apply Ha. set_solver.
  - apply (proj2 (@RemoveClient_spec unit toy_crypto 7
      (@set_clients unit toy_crypto [1; 2]%nat 2 cool_service))).
    refine (bool_decide_unpack _ _). by vm_compute.
Defined.
