(* ===== verification/Client.v ===== *)
(** src/scamp/client.go: request numbers, the table of open replies and the
    goroutine that sorts incoming messages into requests and replies.

    Channels are logs: what was sent on them, in order, and whether they are
    closed.  The goroutine's loop and [Send] interleave at the level of
    [split_recv], [send_wire] and [register_reply]. *)
From S2P Require Import Prelude Strconv GoIO GoStrings PacketHeader Packet Message Connection.

Record reply_chan := mkChan { ch_msgs : list Message; ch_closed : bool }.

(** [cl_conn] is nil once the client has closed; [cl_serv] says whether
    [SetService] was called. *)
Record Client := mkClient {
  cl_conn : option Connection;
  cl_serv : bool;
  cl_requests : list Message;
  cl_requests_closed : bool;
  cl_openReplies : gmap Z nat;
  cl_chans : list reply_chan;
  cl_isClosed : bool;
  cl_nextRequestID : Z;
  cl_spIdent : bytes
}.

Definition NewClient (conn : Connection) : Client := mkClient (Some conn) false [] false ∅ [] false 0 [].

(** [func Dial(connspec string) (client *Client, err error)]. *)
Definition Dial (DialConnection : bytes → bytes + Connection) (connspec : bytes) : bytes + Client :=
  match DialConnection connspec with
  | inl err => inl err
  | inr conn => inr (NewClient conn)
  end.

(** [func (client *Client) Incoming() chan *Message]: what was sent on it. *)
Definition Incoming (c : Client) : list Message := cl_requests c.

Definition SetService (c : Client) : Client :=
  mkClient (cl_conn c) true (cl_requests c) (cl_requests_closed c) (cl_openReplies c) (cl_chans c)
    (cl_isClosed c) (cl_nextRequestID c) (cl_spIdent c).
Definition set_conn (conn : option Connection) (c : Client) : Client :=
  mkClient conn (cl_serv c) (cl_requests c) (cl_requests_closed c) (cl_openReplies c) (cl_chans c)
    (cl_isClosed c) (cl_nextRequestID c) (cl_spIdent c).
Definition set_next (n : Z) (c : Client) : Client :=
  mkClient (cl_conn c) (cl_serv c) (cl_requests c) (cl_requests_closed c) (cl_openReplies c)
    (cl_chans c) (cl_isClosed c) n (cl_spIdent c).
Definition set_replies (o : gmap Z nat) (chans : list reply_chan) (c : Client) : Client :=
  mkClient (cl_conn c) (cl_serv c) (cl_requests c) (cl_requests_closed c) o chans
    (cl_isClosed c) (cl_nextRequestID c) (cl_spIdent c).
Definition set_requests (l : list Message) (closed : bool) (c : Client) : Client :=
  mkClient (cl_conn c) (cl_serv c) l closed (cl_openReplies c) (cl_chans c)
    (cl_isClosed c) (cl_nextRequestID c) (cl_spIdent c).
Definition set_closed (c : Client) : Client :=
  mkClient (cl_conn c) (cl_serv c) (cl_requests c) (cl_requests_closed c) (cl_openReplies c)
    (cl_chans c) true (cl_nextRequestID c) (cl_spIdent c).

Definition set_spIdent (ident : bytes) (c : Client) : Client :=
  mkClient (cl_conn c) (cl_serv c) (cl_requests c) (cl_requests_closed c) (cl_openReplies c)
    (cl_chans c) (cl_isClosed c) (cl_nextRequestID c) ident.

(** ** Sending *)

(** [Send] up to and including [client.conn.Send(msg)]: the message gets the
    next number, whatever number it had. *)
Definition send_wire (m : Message) (c : Client) : Client * Message * option bytes :=
  let id := i64 (cl_nextRequestID c + 1) in
  let c1 := set_next id c in
  let m1 := SetRequestID id m in
  match cl_conn c1 with
  | None => (c1, m1, Some (bs "cannot send on nil connection"))
  | Some conn =>
      let '(conn', m2, err) := conn_Send m1 conn in (set_conn (Some conn') c1, m2, err)
  end.

(** The rest of [Send]: a request gets a channel for its reply. *)
Definition register_reply (m : Message) (c : Client) : Client * option nat :=
  if m_MessageType m =b MessageTypeRequest then
    let ch := length (cl_chans c) in
    (set_replies (<[m_RequestID m := ch]> (cl_openReplies c)) (cl_chans c ++ [mkChan [] false]) c,
     Some ch)
  else (c, None).

(** [func (client *Client) Send(msg) (responseChan, err)]: the client, the
    message as it was changed, the channel and the error. *)
Definition client_Send (m : Message) (c : Client)
    : Client * Message * option nat * option bytes :=
  let '(c1, m1, err) := send_wire m c in
  match err with
  | Some _ => (c1, m1, None, err)
  | None => let '(c2, ch) := register_reply m1 c1 in (c2, m1, ch, None)
  end.

(** ** Receiving *)

Definition send_on (ch : nat) (m : Message) (chans : list reply_chan) : list reply_chan :=
  alter (λ x, mkChan (ch_msgs x ++ [m]) (ch_closed x)) ch chans.

(** What the loop of [splitReqsAndReps] does with one message. *)
Definition dispatch (m : Message) (c : Client) : Client :=
  if m_MessageType m =b MessageTypeRequest then
    set_requests (cl_requests c ++ [m]) (cl_requests_closed c) c
  else if m_MessageType m =b MessageTypeReply then
    match cl_openReplies c !! m_RequestID m with
    | None => c
    | Some ch =>
        set_replies (delete (m_RequestID m) (cl_openReplies c)) (send_on ch m (cl_chans c)) c
    end
  else c.

(** One round of the loop that receives a message, up to the evaluation of
    [client.conn.msgs] for the next one. *)
Definition split_recv (m : Message) (c : Client) : outcome unit Client :=
  let c' := dispatch m c in
  match cl_conn c' with
  | None => Panic (bs "invalid memory address or nil pointer dereference")
  | Some _ => Ok c'
  end.

(** [func (client *Client) Close()] apart from the service proxy's link,
    which [Requester.Close_unlinks] resets.
    [tracked]: the service set by [SetService] tracks this client; its
    [RemoveClient] then calls [Close] again, which waits for the mutex this
    call holds: [None], the call never returns. *)
Definition client_Close (tracked : bool) (c : Client) : option Client :=
  if cl_isClosed c then Some c
  else
    let c1 := set_conn None c in
    if cl_serv c1 && tracked then None else Some (set_closed c1).

(** The connection a [Close] leaves behind: closed, if it was not already. *)
Definition closeConnection (c : Client) : option Connection := conn_Close <$> cl_conn c.

(** The end of [splitReqsAndReps], when the connection's channel is closed:
    the open channels are closed, and stay in the table. *)
Definition split_end (tracked : bool) (c : Client) : option Client :=
  let closed_chans := imap (λ i x, if bool_decide (i ∈ (map_to_list (cl_openReplies c)).*2)
                                   then mkChan (ch_msgs x) true else x) (cl_chans c) in
  let c1 := set_replies (cl_openReplies c) closed_chans (set_requests (cl_requests c) true c) in
  if cl_isClosed c1 then Some c1 else client_Close tracked c1.

(** ** Invariant *)

(** Open replies are numbered up to the last number given out, each with a
    channel of its own. *)
Definition client_inv (c : Client) : Prop :=
  (∀ n ch, cl_openReplies c !! n = Some ch →
     (0 < n <= cl_nextRequestID c)%Z ∧ (ch < length (cl_chans c))%nat)
  ∧ (∀ n k ch, cl_openReplies c !! n = Some ch → cl_openReplies c !! k = Some ch → n = k).

Lemma client_inv_new conn : client_inv (NewClient conn).
Proof. split; intros *; cbn; by rewrite lookup_empty. Qed.

(** ** Lemmas *)

Lemma conn_Send_fields m conn conn' m' e :
  conn_Send m conn = (conn', m', e) →
  m_RequestID m' = m_RequestID m ∧ m_MessageType m' = m_MessageType m.
Proof.
  unfold conn_Send. case_bool_decide; [by intros [= _ <- _]|].
  destruct (toPackets _ m) as [ps m1] eqn:E. unfold toPackets in E. injection E as _ <-.
  destruct (write_packets _ _) as [w [x|]]; by intros [= _ <- _].
Qed.

Lemma send_wire_fields m c c1 m1 e :
  send_wire m c = (c1, m1, e) →
  m_RequestID m1 = i64 (cl_nextRequestID c + 1) ∧ m_MessageType m1 = m_MessageType m
  ∧ cl_nextRequestID c1 = i64 (cl_nextRequestID c + 1)
  ∧ cl_openReplies c1 = cl_openReplies c ∧ cl_chans c1 = cl_chans c.
Proof.
  unfold send_wire. cbn [cl_conn set_next]. destruct (cl_conn c) as [conn|].
  - destruct (conn_Send _ conn) as [[conn' m2] err] eqn:E. intros [= <- <- _].
    apply conn_Send_fields in E as [-> ->]. done.
  - by intros [= <- <- _].
Qed.

(** Everything [Send] does to the table of replies. *)
Lemma client_Send_table m c c' m' ch e :
  client_Send m c = (c', m', ch, e) →
  m_RequestID m' = i64 (cl_nextRequestID c + 1) ∧ cl_nextRequestID c' = i64 (cl_nextRequestID c + 1)
  ∧ ((ch = None ∧ cl_openReplies c' = cl_openReplies c ∧ cl_chans c' = cl_chans c)
     ∨ (ch = Some (length (cl_chans c)) ∧ m_MessageType m = MessageTypeRequest
        ∧ cl_openReplies c' = <[m_RequestID m' := length (cl_chans c)]> (cl_openReplies c)
        ∧ cl_chans c' = cl_chans c ++ [mkChan [] false])).
Proof.
  unfold client_Send. destruct (send_wire m c) as [[c1 m1] err] eqn:E.
  apply send_wire_fields in E as (H1 & H2 & H3 & H4 & H5).
  destruct err as [x|]; [intros [= <- <- <- _]; auto 10|]. unfold register_reply.
  case_bool_decide as Ht; intros [= <- <- <- _].
  - split; [done|]. split; [done|]. right. cbn. rewrite H4, H5. split; [done|]. split; [congruence|].
    done.
  - auto 10.
Qed.

(** The operations the invariant is about. *)
Inductive client_op := OpSend (m : Message) | OpRecv (m : Message).

Definition run_op (o : client_op) (c : Client) : Client :=
  match o with
  | OpSend m => (client_Send m c).1.1.1
  | OpRecv m => dispatch m c
  end.

Definition run_ops (l : list client_op) (c : Client) : Client := fold_left (λ c o, run_op o c) l c.

Lemma dispatch_next m c : cl_nextRequestID (dispatch m c) = cl_nextRequestID c.
Proof. unfold dispatch. repeat case_bool_decide; try done. by destruct (_ !! _). Qed.

Lemma dispatch_conn m c : cl_conn (dispatch m c) = cl_conn c.
Proof. unfold dispatch. repeat case_bool_decide; try done. by destruct (_ !! _). Qed.

(** Sending and receiving do not open a client that has closed. *)
Lemma dispatch_isClosed m c : cl_isClosed (dispatch m c) = cl_isClosed c.
Proof. unfold dispatch. repeat case_bool_decide; try done. by destruct (_ !! _). Qed.

Lemma client_Send_isClosed m c c' m' ch e : client_Send m c = (c', m', ch, e) → cl_isClosed c' = cl_isClosed c.
Proof.
  unfold client_Send, send_wire. cbn [cl_conn set_next]. destruct (cl_conn c) as [conn|]; [|by intros [= <- _ _ _]].
  destruct (conn_Send _ conn) as [[conn' m2] [x|]]; [by intros [= <- _ _ _]|].
  unfold register_reply. by case_bool_decide; intros [= <- _ _ _].
Qed.

Lemma length_send_on ch m l : length (send_on ch m l) = length l.
Proof. apply length_alter. Qed.

Lemma run_op_inv o c :
  client_inv c → (0 <= cl_nextRequestID c)%Z → (cl_nextRequestID c + 1 < 2 ^ 63)%Z →
  client_inv (run_op o c)
  ∧ (cl_nextRequestID c <= cl_nextRequestID (run_op o c) <= cl_nextRequestID c + 1)%Z
  ∧ (length (cl_chans c) ≤ length (cl_chans (run_op o c)))%nat.
Proof.
  intros [Hi Hj] Hlo Hhi. destruct o as [m|m]; cbn [run_op].
  - destruct (client_Send m c) as [[[c' m'] ch] e] eqn:E. cbn [fst].
    apply client_Send_table in E as (Hid & Hn & Ht).
    rewrite i64_id in Hid, Hn by (unfold in_i64; lia).
    destruct Ht as [(_ & Ho & Hc)|(_ & _ & Ho & Hc)].
    + split; [|rewrite Hn, Hc; lia]. split.
      * intros n k Hk. rewrite Ho in Hk. apply Hi in Hk. rewrite Hn, Hc. lia.
      * intros n k x. rewrite Ho. apply Hj.
    + split; [|rewrite Hn, Hc, length_app; cbn; lia]. split.
      * intros n k Hk. rewrite Ho in Hk. rewrite Hn, Hc, length_app. cbn [length].
        apply lookup_insert_Some in Hk as [[<- <-]|[_ Hk]]; [lia|]. apply Hi in Hk. lia.
      * intros n k x Hn' Hk'. rewrite Ho in Hn', Hk'.
        apply lookup_insert_Some in Hn' as [[<- <-]|[Hne Hn']], Hk' as [[<- Hx]|[Hne' Hk']].
        -- done.
        -- apply Hi in Hk'. lia.
        -- subst x. apply Hi in Hn'. lia.
        -- by eapply Hj.
  - rewrite dispatch_next. unfold dispatch. repeat case_bool_decide; try (split; [by split|cbn; lia]).
    destruct (cl_openReplies c !! m_RequestID m) as [ch|] eqn:E; [|split; [by split|cbn; lia]].
    unfold client_inv. cbn. rewrite length_send_on. split; [|lia]. split.
    + intros n k Hk. apply lookup_delete_Some in Hk as [_ Hk]. auto.
    + intros n k x Hn Hk. apply lookup_delete_Some in Hn as [_ Hn], Hk as [_ Hk]. by eapply Hj.
Qed.

Lemma dispatch_reply r c ch :
  m_MessageType r = MessageTypeReply → cl_openReplies c !! m_RequestID r = Some ch →
  dispatch r c = set_replies (delete (m_RequestID r) (cl_openReplies c)) (send_on ch r (cl_chans c)) c.
Proof. intros Hr Hn. unfold dispatch. rewrite Hr. cbn. by rewrite Hn. Qed.

(** A run that does not touch the reply number [n]: sends, which use later
    numbers, and messages that are not replies to [n]. *)
Definition leaves_alone (n : Z) (o : client_op) : Prop :=
  match o with
  | OpSend _ => True
  | OpRecv m => ¬ (m_MessageType m = MessageTypeReply ∧ m_RequestID m = n)
  end.

Lemma send_on_ne ch ch' m l : ch ≠ ch' → send_on ch m l !! ch' = l !! ch'.
Proof. intros. by apply list_lookup_alter_ne. Qed.

Lemma run_op_keeps o c n ch x :
  client_inv c → (0 <= cl_nextRequestID c)%Z → (cl_nextRequestID c + 1 < 2 ^ 63)%Z →
  leaves_alone n o → cl_openReplies c !! n = Some ch → cl_chans c !! ch = Some x →
  cl_openReplies (run_op o c) !! n = Some ch ∧ cl_chans (run_op o c) !! ch = Some x.
Proof.
  intros [Hi Hj] Hlo Hhi Ho Hn Hx. destruct o as [m|m]; cbn [run_op].
  - destruct (client_Send m c) as [[[c' m'] k] e] eqn:E. cbn [fst].
    apply client_Send_table in E as (Hid & _ & [(_ & -> & ->)|(_ & _ & -> & ->)]); [done|].
    rewrite i64_id in Hid by (unfold in_i64; lia). split.
    + rewrite lookup_insert_ne; [done|]. apply Hi in Hn. lia.
    + by apply lookup_app_l_Some.
  - unfold dispatch. case_bool_decide; [done|]. case_bool_decide; [|done].
    destruct (cl_openReplies c !! m_RequestID m) as [k|] eqn:E; [|done]. cbn.
    assert (m_RequestID m ≠ n) as Hne by (intros <-; by apply Ho). split.
    + by rewrite lookup_delete_ne.
    + rewrite send_on_ne; [done|]. intros ->. by apply Hne, (Hj _ _ ch).
Qed.

Lemma run_ops_keeps l c n ch x :
  client_inv c → (0 <= cl_nextRequestID c)%Z →
  (cl_nextRequestID c + Z.of_nat (length l) < 2 ^ 63)%Z →
  Forall (leaves_alone n) l → cl_openReplies c !! n = Some ch → cl_chans c !! ch = Some x →
  client_inv (run_ops l c)
  ∧ cl_openReplies (run_ops l c) !! n = Some ch ∧ cl_chans (run_ops l c) !! ch = Some x.
Proof.
  intros Hi Hlo Hhi Hl. revert c Hi Hlo Hhi. induction Hl as [|o l Ho _ IH]; intros c Hi Hlo Hhi Hn Hx;
    [done|]. cbn [length] in Hhi. cbn [run_ops fold_left].
  destruct (run_op_inv o c Hi Hlo) as (Hi' & Hb & _); [lia|].
  destruct (run_op_keeps o c n ch x Hi Hlo) as [Hn' Hx']; [lia|done..|].
  apply IH; (done || lia).
Qed.

(** ** Properties *)

(** C4. A reply reaches the request it answers: after a request was sent,
    and whatever else is sent and received meanwhile, the first reply that
    carries the request's number is put on that request's channel, which was
    empty until then, and any further reply with that number is dropped. *)
Theorem reply_reaches_request m c c1 m1 ch ops r r' :
  client_inv c → (0 <= cl_nextRequestID c)%Z →
  (cl_nextRequestID c + 1 + Z.of_nat (length ops) < 2 ^ 63)%Z →
  client_Send m c = (c1, m1, Some ch, None) →
  Forall (leaves_alone (m_RequestID m1)) ops →
  m_MessageType r = MessageTypeReply → m_RequestID r = m_RequestID m1 →
  m_MessageType r' = MessageTypeReply → m_RequestID r' = m_RequestID m1 →
  let c2 := run_ops ops c1 in
  cl_chans c2 !! ch = Some (mkChan [] false)
  ∧ cl_chans (dispatch r c2) !! ch = Some (mkChan [r] false)
  ∧ dispatch r' (dispatch r c2) = dispatch r c2.
Proof.
  intros Hi Hlo Hhi Hs Hops Hr Hrn Hr' Hrn' c2.
  pose proof (run_op_inv (OpSend m) c Hi Hlo ltac:(lia)) as (Hi1 & Hb & _).
  cbn [run_op] in Hi1, Hb. rewrite Hs in Hi1, Hb. cbn [fst] in Hi1, Hb.
  apply client_Send_table in Hs as (Hid & Hn & [(? & _)|(Hch & Hty & Ho & Hc)]); [done|].
  injection Hch as ->.
  destruct (run_ops_keeps ops c1 (m_RequestID m1) (length (cl_chans c)) (mkChan [] false))
    as (Hi2 & Hn2 & Hx2); [done|lia|lia|done|..].
  - rewrite Ho. apply lookup_insert_eq.
  - rewrite Hc. apply list_lookup_middle. done.
  - fold c2 in Hi2, Hn2, Hx2. split; [done|].
    rewrite (dispatch_reply r c2 (length (cl_chans c))) by (done || by rewrite Hrn). split.
    + cbn. unfold send_on. by rewrite list_lookup_alter_eq, Hx2.
    + unfold dispatch. rewrite Hr', Hrn', <- Hrn. cbn. by rewrite lookup_delete_eq.
Qed.

(** [Send] gives every message the client's own next number and
    discards the one it came with: a reply goes out under the replier's
    counter, so it answers request [n] only if exactly [n - 1] messages were
    sent on that client before. *)
Theorem send_overwrites_request_id m k c :
  client_Send (SetRequestID k m) c = client_Send m c
  ∧ m_RequestID (client_Send m c).1.1.2 = i64 (cl_nextRequestID c + 1).
Proof.
  split; [done|]. destruct (client_Send m c) as [[[c' m'] ch] e] eqn:E.
  apply client_Send_table in E as [E _]. exact E.
Qed.

(** The channel is registered after the request is on the wire: a reply
    that is received in between is dropped, and the channel that is then
    registered stays empty. *)
Theorem early_reply_is_lost m c c1 m1 r :
  client_inv c → (0 <= cl_nextRequestID c)%Z → (cl_nextRequestID c + 1 < 2 ^ 63)%Z →
  send_wire m c = (c1, m1, None) → m_MessageType m = MessageTypeRequest →
  m_MessageType r = MessageTypeReply → m_RequestID r = m_RequestID m1 →
  dispatch r c1 = c1
  ∧ ∃ ch, (register_reply m1 (dispatch r c1)).2 = Some ch
      ∧ cl_chans (register_reply m1 (dispatch r c1)).1 !! ch = Some (mkChan [] false).
Proof.
  intros [Hi _] Hlo Hhi Hs Hm Hr Hrn. apply send_wire_fields in Hs as (Hid & Hty & _ & Ho & Hc).
  rewrite i64_id in Hid by (unfold in_i64; lia).
  assert (dispatch r c1 = c1) as E.
  { unfold dispatch. rewrite Hr. cbn. rewrite Hrn, Ho, Hid.
    destruct (cl_openReplies c !! (cl_nextRequestID c + 1)%Z) as [ch|] eqn:En; [|done].
    apply Hi in En. lia. }
  split; [done|]. rewrite E. unfold register_reply. rewrite Hty, Hm. rewrite bool_decide_true by done.
  eexists. split; [done|]. cbn. by apply list_lookup_middle.
Qed.

(** After [Close], one more message that was in flight on the
    connection makes the sorting goroutine dereference the nil connection:
    the process panics. *)
Theorem message_after_close_panics tracked m c c' :
  cl_isClosed c = false → client_Close tracked c = Some c' →
  split_recv m c' = Panic (bs "invalid memory address or nil pointer dereference")
  ∧ (∀ m', (client_Send m' c').2 = Some (bs "cannot send on nil connection")).
Proof.
  intros Hc Hcl. unfold client_Close in Hcl. rewrite Hc in Hcl.
  destruct (_ && _); [done|]. injection Hcl as <-. split; [|done].
  unfold split_recv, dispatch. repeat case_bool_decide; try done. by destruct (_ !! _).
Qed.

(** A client that a service was given with [SetService], and that the
    service tracks, cannot be closed: [Close] waits for itself. *)
Theorem close_tracked_deadlocks c :
  cl_isClosed c = false →
  client_Close true (SetService c) = None ∧ client_Close false (SetService c) ≠ None.
Proof. intros Hc. unfold client_Close. cbn. by rewrite Hc. Qed.

(** ** Concrete runs *)

Definition hello_request : Message :=
  SetMessageType MessageTypeRequest (SetAction (bs "a.b") NewMessage).
Definition hello_reply (n : Z) : Message := SetRequestID n (SetMessageType MessageTypeReply NewMessage).
Definition fresh_client : Client := NewClient (NewConnection open_sink).

Lemma reply_reaches_request_witness :
  let c1 := (client_Send hello_request fresh_client).1.1.1 in
  let c2 := run_ops [OpSend hello_request; OpRecv (hello_reply 2); OpRecv hello_request] c1 in
  cl_chans (dispatch (hello_reply 1) c2) !! 0 = Some (mkChan [hello_reply 1] false).
Proof.
  intros c1 c2. destruct (client_Send hello_request fresh_client) as [[[d m1] ch] e] eqn:E.
  assert (ch = Some 0 ∧ e = None ∧ m_RequestID m1 = 1%Z) as (-> & -> & Hm).
  { vm_compute in E. injection E as _ <- <- <-. done. }
  destruct (reply_reaches_request hello_request fresh_client d m1 0
    [OpSend hello_request; OpRecv (hello_reply 2); OpRecv hello_request] (hello_reply 1) (hello_reply 1))
    as (_ & H & _).
  - apply client_inv_new.
  - by vm_compute.
  - by vm_compute.
  - exact E.
  - rewrite Hm. constructor; [done|]. constructor; [by intros [_ H]|].
    constructor; [by intros [H _] | constructor].
  - reflexivity.
  - by rewrite Hm.
  - reflexivity.
  - by rewrite Hm.
  - exact H.
Defined.

Lemma early_reply_is_lost_witness :
  let c1 := (send_wire hello_request fresh_client).1.1 in dispatch (hello_reply 1) c1 = c1.
Proof.
  intros c1. destruct (send_wire hello_request fresh_client) as [[d m1] e] eqn:E.
  assert (e = None ∧ m_RequestID m1 = 1%Z) as (-> & Hm).
  { vm_compute in E. injection E as _ <- <-. done. }
  destruct (early_reply_is_lost hello_request fresh_client d m1 (hello_reply 1)) as [H _].
  - apply client_inv_new.
  - by vm_compute.
  - by vm_compute.
  - exact E.
  - reflexivity.
  - reflexivity.
  - by rewrite Hm.
  - exact H.
Defined.

Lemma message_after_close_panics_witness :
  ∃ c', client_Close false fresh_client = Some c'
    ∧ split_recv hello_request c' = Panic (bs "invalid memory address or nil pointer dereference").
Proof.
  eexists. split; [reflexivity|].
  apply (message_after_close_panics false hello_request fresh_client); reflexivity.
Defined.

Lemma close_tracked_deadlocks_witness : client_Close true (SetService fresh_client) = None.
Proof. apply (close_tracked_deadlocks fresh_client eq_refl). Defined.
