(* ===== verification/Sorter.v ===== *)
(** src/scamp/client.go, [splitReqsAndReps] once more, with the channels as
    they are: unbuffered.  The goroutine that has taken a message waits until
    somebody receives it, and takes no other before.

    Client.v's [dispatch] is the abstract view, in which a message is put on
    its channel at once: every run of this machine is a run of [dispatch]es.
    What the abstract view does not show is when the goroutine is stuck. *)
From S2P Require Import Prelude Strconv GoIO GoStrings PacketHeader Packet Message Connection Client.

(** A send the goroutine is blocked in. *)
Inductive delivery := ToRequests (m : Message) | ToReply (ch : nat) (m : Message).

Record sorter := mkSorter { so_client : Client; so_pending : option delivery }.

(** The loop's body up to the send on a channel. *)
Definition receive (m : Message) (c : Client) : Client * option delivery :=
  if m_MessageType m =b MessageTypeRequest then (c, Some (ToRequests m))
  else if m_MessageType m =b MessageTypeReply then
    match cl_openReplies c !! m_RequestID m with
    | None => (c, None)
    | Some ch =>
        (set_replies (delete (m_RequestID m) (cl_openReplies c)) (cl_chans c) c, Some (ToReply ch m))
    end
  else (c, None).

(** The send, when somebody receives. *)
Definition deliver (d : delivery) (c : Client) : Client :=
  match d with
  | ToRequests m => set_requests (cl_requests c ++ [m]) (cl_requests_closed c) c
  | ToReply ch m => set_replies (cl_openReplies c) (send_on ch m (cl_chans c)) c
  end.

Inductive sort_event :=
| Arrives (m : Message)     (* the goroutine takes it from [client.conn.msgs] *)
| TakeRequest               (* somebody receives from [client.Incoming()] *)
| TakeReply (ch : nat)      (* somebody receives from a reply channel *)
| Sends (m : Message).      (* [client.Send], from another goroutine *)

(** One step; [None] if it cannot happen now.  To take a message the
    goroutine evaluates [client.conn.msgs], which panics once [Close] has set
    the connection to nil, as in [split_recv]. *)
Definition sort_step (ev : sort_event) (s : sorter) : option (outcome unit sorter) :=
  match ev, so_pending s with
  | Arrives m, None =>
      match cl_conn (so_client s) with
      | None => Some (Panic (bs "invalid memory address or nil pointer dereference"))
      | Some _ => let '(c, d) := receive m (so_client s) in Some (Ok (mkSorter c d))
      end
  | TakeRequest, Some (ToRequests m) => Some (Ok (mkSorter (deliver (ToRequests m) (so_client s)) None))
  | TakeReply ch, Some (ToReply ch' m) =>
      if (ch =? ch')%nat then Some (Ok (mkSorter (deliver (ToReply ch' m) (so_client s)) None)) else None
  | Sends m, d => Some (Ok (mkSorter (client_Send m (so_client s)).1.1.1 d))
  | _, _ => None
  end.

Fixpoint sort_run (evs : list sort_event) (s : sorter) : option (outcome unit sorter) :=
  match evs with
  | [] => Some (Ok s)
  | ev :: r => and_then (sort_step ev s) (sort_run r)
  end.

(** The state in the abstract view: what is being sent counts as sent. *)
Definition view (s : sorter) : Client :=
  match so_pending s with Some d => deliver d (so_client s) | None => so_client s end.

Definition ops_of (evs : list sort_event) : list client_op :=
  concat (map (λ ev, match ev with Arrives m => [OpRecv m] | Sends m => [OpSend m] | _ => [] end) evs).

(** A pending reply has its channel. *)
Definition pending_ok (s : sorter) : Prop :=
  match so_pending s with
  | Some (ToReply ch _) => (ch < length (cl_chans (so_client s)))%nat
  | _ => True
  end.

(** Every open reply has its channel, as [client_inv] says. *)
Definition replies_ok (c : Client) : Prop :=
  ∀ n ch, cl_openReplies c !! n = Some ch → (ch < length (cl_chans c))%nat.

(** ** Lemmas *)

Lemma dispatch_receive m c :
  dispatch m c = match receive m c with (c', Some d) => deliver d c' | (c', None) => c' end.
Proof.
  unfold dispatch, receive. case_bool_decide; [done|]. case_bool_decide; [|done].
  by destruct (cl_openReplies c !! m_RequestID m).
Qed.

(** A send does not look at what is being delivered. *)
Lemma send_wire_deliver m d c :
  send_wire m (deliver d c)
  = let '(c1, m1, e) := send_wire m c in (deliver d c1, m1, e).
Proof.
  destruct d as [q|ch q]; unfold send_wire; cbn; destruct (cl_conn c) as [conn|]; try done;
    by destruct (conn_Send _ conn) as [[conn' m2] e].
Qed.

Lemma client_Send_deliver m d c :
  pending_ok (mkSorter c (Some d)) →
  (client_Send m (deliver d c)).1.1.1 = deliver d (client_Send m c).1.1.1.
Proof.
  intros Hd. unfold client_Send. rewrite send_wire_deliver.
  destruct (send_wire m c) as [[c1 m1] [e|]] eqn:E; [done|]. unfold register_reply.
  apply send_wire_fields in E as (_ & _ & _ & _ & Hc).
  case_bool_decide; [|done]. destruct d as [q|ch q]; cbn; [done|].
  unfold pending_ok in Hd. cbn in Hd. rewrite <- Hc in Hd. rewrite length_send_on.
  unfold set_replies. cbn. f_equal. unfold send_on. by rewrite alter_app_l.
Qed.

Lemma client_Send_chans m c : (length (cl_chans c) ≤ length (cl_chans (client_Send m c).1.1.1))%nat.
Proof.
  destruct (client_Send m c) as [[[c' m'] ch] e] eqn:E.
  apply client_Send_table in E as (_ & _ & [(_ & _ & H)|(_ & _ & _ & H)]); cbn; rewrite H; [done|].
  rewrite length_app. lia.
Qed.

Lemma replies_ok_send m c : replies_ok c → replies_ok (client_Send m c).1.1.1.
Proof.
  intros Hr. destruct (client_Send m c) as [[[c' m'] ch] e] eqn:E. cbn.
  apply client_Send_table in E as (_ & _ & [(_ & Ho & Hc)|(_ & _ & Ho & Hc)]); intros n k; rewrite Ho, Hc.
  - apply Hr.
  - rewrite length_app. cbn. intros [[_ <-]|[_ Hk]]%lookup_insert_Some; [lia|]. apply Hr in Hk. lia.
Qed.

Lemma sort_step_ok ev s s' :
  sort_step ev s = Some (Ok s') → replies_ok (so_client s) → pending_ok s →
  replies_ok (so_client s') ∧ pending_ok s'
  ∧ view s' = match ev with
              | Arrives m => dispatch m (view s)
              | Sends m => (client_Send m (view s)).1.1.1
              | _ => view s
              end.
Proof.
  intros Hs Hr Hp. destruct s as [c d]. cbn in *. destruct ev as [m| |ch|m]; cbn in Hs.
  - destruct d; [done|]. destruct (cl_conn c); [|done].
    pose proof (dispatch_receive m c) as Hd. unfold receive in *.
    unfold view. cbn. destruct (m_MessageType m =b MessageTypeRequest); [injection Hs as <-; by cbn|].
    destruct (m_MessageType m =b MessageTypeReply); [|injection Hs as <-; by cbn].
    destruct (cl_openReplies c !! m_RequestID m) as [ch|] eqn:E; injection Hs as <-; [|by cbn].
    cbn. split; [|split; [|done]].
    + intros n k. cbn. intros [_ Hk]%lookup_delete_Some. by eapply Hr.
    + by eapply Hr.
  - destruct d as [[m|]|]; try done. injection Hs as <-. by cbn.
  - destruct d as [[|k m]|]; try done. destruct (Nat.eqb_spec ch k) as [->|]; [|done].
    injection Hs as <-. cbn. split; [|done]. intros n x. cbn. rewrite length_send_on. apply Hr.
  - injection Hs as <-. cbn. split; [by apply replies_ok_send|]. split.
    + unfold pending_ok in *. cbn in *. destruct d as [[|k q]|]; try done.
      pose proof (client_Send_chans m c). lia.
    + unfold view. cbn. destruct d; [|done]. symmetry. by apply client_Send_deliver.
Qed.

(** ** Properties *)

(** C7. Refinement: whatever the interleaving of arrivals, sends and
    receivers, the state is the one [dispatch] gives for the same arrivals
    and sends, with the message that waits for its receiver counted as
    delivered. *)
Theorem sorter_refines_dispatch evs s s' :
  sort_run evs s = Some (Ok s') → replies_ok (so_client s) → pending_ok s →
  view s' = run_ops (ops_of evs) (view s).
Proof.
  revert s. induction evs as [|ev evs IH]; intros s Hs Hr Hp; [by injection Hs as <-|].
  cbn [sort_run] in Hs. apply and_then_Ok in Hs as (s1 & E & Hs).
  apply sort_step_ok in E as (Hr1 & Hp1 & Hv); [|done..].
  rewrite (IH s1 Hs Hr1 Hp1), Hv. by destruct ev.
Qed.

(** C8. A late reply stops the client for good: once the reply to a request
    whose caller has given up is taken from the connection, and as long as
    nobody receives it, no further message is taken, and whoever waits for
    another reply waits in vain, however many messages are sent. *)
Theorem late_reply_blocks m c c1 m1 ch reply s evs s' :
  client_Send m c = (c1, m1, Some ch, None) → cl_conn c1 ≠ None →
  m_MessageType reply = MessageTypeReply → m_RequestID reply = m_RequestID m1 →
  sort_step (Arrives reply) (mkSorter c1 None) = Some (Ok s) →
  sort_run evs s = Some (Ok s') → TakeReply ch ∉ evs →
  so_pending s' = Some (ToReply ch reply)
  ∧ Forall (λ ev, ∃ q, ev = Sends q) evs
  ∧ (∀ q, sort_step (Arrives q) s' = None)
  ∧ (∀ k x, cl_chans (so_client s) !! k = Some x → cl_chans (so_client s') !! k = Some x).
Proof.
  intros Hm Hc Hr Hid Hs Hrun Hn.
  assert (so_pending s = Some (ToReply ch reply)) as Hp.
  { cbn in Hs. destruct (cl_conn c1); [|done]. unfold receive in Hs. rewrite Hr, Hid in Hs.
    apply client_Send_table in Hm as (_ & _ & [(? & _)|([= ->] & _ & Ho & _)]); [done|].
    rewrite Ho, lookup_insert_eq in Hs. cbn in Hs. by injection Hs as <-. }
  clear Hm Hc Hs. revert s Hp Hrun. induction evs as [|ev evs IH]; intros s Hp Hrun.
  { injection Hrun as <-. split; [done|]. split; [constructor|]. split; [|done].
    intros q. cbn. by rewrite Hp. }
  apply not_elem_of_cons in Hn as [Hne Hn]. cbn [sort_run] in Hrun.
  apply and_then_Ok in Hrun as (s1 & E & Hrun). unfold sort_step in E. rewrite Hp in E.
  destruct ev as [q| |k|q]; try done.
  { destruct (Nat.eqb_spec k ch) as [->|]; [done | done]. }
  injection E as <-. destruct (IH Hn (mkSorter (client_Send q (so_client s)).1.1.1 (so_pending s)))
    as (H1 & H2 & H3 & H4); [done|by rewrite Hp|].
  split; [done|]. split; [constructor; [by eexists | done]|]. split; [done|].
  intros k x Hk. apply H4. cbn. destruct (client_Send q (so_client s)) as [[[c' q'] j] e] eqn:Es. cbn.
  apply client_Send_table in Es as (_ & _ & [(_ & _ & ->)|(_ & _ & _ & ->)]); [done|].
  by apply lookup_app_l_Some.
Qed.

(** After [Close] the next message makes the goroutine panic. *)
Lemma sorter_panics_after_close m c c' d :
  client_Close false c = Some c' → cl_isClosed c = false → d = None →
  ∃ w, sort_step (Arrives m) (mkSorter c' d) = Some (Panic w).
Proof.
  unfold client_Close. intros Hc Hcl ->. rewrite Hcl, andb_false_r in Hc. injection Hc as <-. by eexists.
Qed.

(** ** A concrete run *)

Lemma fresh_replies_ok : replies_ok fresh_client.
Proof. intros n ch. cbn. by rewrite lookup_empty. Qed.

Lemma sorter_refines_dispatch_witness :
  ∃ s', sort_run [Sends hello_request; Arrives (hello_reply 1); Sends hello_request; TakeReply 0;
                  Arrives hello_request; TakeRequest] (mkSorter fresh_client None) = Some (Ok s')
    ∧ view s' = run_ops [OpSend hello_request; OpRecv (hello_reply 1); OpSend hello_request;
                         OpRecv hello_request] fresh_client.
Proof.
  destruct (sort_run [Sends hello_request; Arrives (hello_reply 1); Sends hello_request; TakeReply 0;
                  Arrives hello_request; TakeRequest] (mkSorter fresh_client None)) as [[s'|e|w]|] eqn:E.
  - exists s'. split; [reflexivity|].
    exact (sorter_refines_dispatch _ (mkSorter fresh_client None) s' E fresh_replies_ok I).
  - vm_compute in E. discriminate E.
  - vm_compute in E. discriminate E.
  - vm_compute in E. discriminate E.
Defined.

Lemma late_reply_blocks_witness :
  let c1 := (client_Send hello_request fresh_client).1.1.1 in
  ∃ s s', sort_step (Arrives (hello_reply 1)) (mkSorter c1 None) = Some (Ok s)
    ∧ sort_run [Sends hello_request; Sends hello_request] s = Some (Ok s')
    ∧ sort_step (Arrives (hello_reply 2)) s' = None.
Proof.
  intros c1. destruct (client_Send hello_request fresh_client) as [[[d m1] ch] e] eqn:E.
  assert (ch = Some 0 ∧ e = None ∧ m_RequestID m1 = 1%Z ∧ cl_conn d ≠ None) as (-> & -> & Hm & Hd).
  { vm_compute in E. injection E as <- <- <- <-. done. }
  destruct (sort_step (Arrives (hello_reply 1)) (mkSorter d None)) as [[s|?|?]|] eqn:Es.
  2-4: vm_compute in E; injection E as <- <-; vm_compute in Es; discriminate Es.
  destruct (sort_run [Sends hello_request; Sends hello_request] s) as [[s'|?|?]|] eqn:Er.
  2-4: (destruct s as [c0 [[q|k q]|]]; cbn [sort_run sort_step so_pending so_client] in Er; discriminate Er).
  exists s, s'. split; [exact Es|]. split; [exact Er|].
  refine (proj1 (proj2 (proj2 (late_reply_blocks hello_request fresh_client d m1 0 (hello_reply 1) s
    [Sends hello_request; Sends hello_request] s' E Hd eq_refl _ Es Er _))) (hello_reply 2)).
  - by rewrite Hm.
  - intros [H|[H|H]%elem_of_cons]%elem_of_cons; [discriminate H | discriminate H | by apply elem_of_nil in H].
Defined.
