(* ===== verification/Handler.v ===== *)
(** src/scamp/action_options.go and the request loop of src/scamp/service.go:
    the check of a ticket before a callback runs, replies on errors, and
    [Service.Handle]. *)
From S2P Require Import Prelude Strconv GoIO GoStrings Json PacketHeader Packet Message Connection Base64 Verify Ticket Service ServiceFacts Client.

Section handler.
Context {Callback : Type} `{Crypto}.
(** What a registered function does to the client it is given, and the file
    system and the texts of ticket errors. *)
Context (run_callback : Callback → Message → Client → Client).
Context (ReadFile : bytes → bytes + bytes) (error_text : ticket_error → bytes).

(** [func ReplyOnError(message, client, errorCode, err)], on non-nil
    arguments: the error of the send is only logged. *)
Definition ReplyOnError (message : Message) (client : Client) (errorCode err : bytes) : Client :=
  let respMsg := SetError err (SetErrorCode errorCode
                   (SetRequestID (m_RequestID message) NewResponseMessage)) in
  (client_Send respMsg client).1.1.1.

(** [len(function.options.Privs) > 0] or [Verify]. *)
Definition needs_ticket (o : ActionOptions) : bool := o_Verify o || negb (o_Privs o =b []).

(** [func (function ServiceOptionsFunc) Call(message, client)]: the key
    state and client afterwards, and whether the callback ran. *)
Definition options_Call (f : @ServiceOptionsFunc Callback) (message : Message) (client : Client)
    (now : Z) (ks : key_state) : key_state * outcome unit (Client * bool) :=
  let run ks := (ks, Ok (run_callback (f_callback f) message client, true)) in
  let refuse ks err := (ks, Ok (ReplyOnError message client (bs "verification") err, false)) in
  if needs_ticket (f_options f) then
    match VerifyTicket ReadFile (m_Ticket message) (o_TicketVerifyPublicKey (f_options f)) now ks with
    | (ks', Panic w) => (ks', Panic w)
    | (ks', Err e) => refuse ks' (error_text e)
    | (ks', Ok ticket) =>
        match CheckPrivs ticket (o_Privs (f_options f)) with
        | Some e => refuse ks' e
        | None => run ks'
        end
    end
  else run ks.

(** ** The loop *)

(** What the [select] of [Handle] sees. *)
Inductive event :=
| Received (msg : Message) (now : Z)
| RequestsClosed
| TimedOut.

(** The reply to an action nobody registered. *)
Definition no_such_action : bytes :=
  bs "{" ++ in_quotes (bs "error") ++ bs ": " ++ in_quotes (bs "no such action") ++ bs "}".

Definition unknown_reply (msg : Message) : Message :=
  (msg_Write no_such_action (SetRequestID (m_RequestID msg) (SetEnvelope EnvelopeJSON
     (SetMessageType MessageTypeReply NewMessage)))).1.

(** One event: the client and whether the loop goes on.  A failed reply
    closes the client ([None]: for ever). *)
Definition handle_event (tracked : bool) (s : @Service Callback _) (ev : event) (client : Client)
    (ks : key_state) : key_state * outcome unit (option Client * bool) :=
  match ev with
  | RequestsClosed | TimedOut => (ks, Ok (Some client, false))
  | Received msg now =>
      match s_actions s !! m_Action msg with
      | Some action =>
          match options_Call (sa_callback action) msg client now ks with
          | (ks', Panic w) => (ks', Panic w)
          | (ks', Err e) => (ks', Err e)
          | (ks', Ok (client', _)) => (ks', Ok (Some client', true))
          end
      | None =>
          let '(client', _, _, err) := client_Send (unknown_reply msg) client in
          match err with
          | None => (ks, Ok (Some client', true))
          | Some _ => (ks, Ok (client_Close tracked client', false))
          end
      end
  end.

(** How [Handle] ends: still waiting when the events run out, blocked in a
    [Close], or done with the service and the client. *)
Inductive handled :=
| Waiting (client : Client)
| Blocked
| Done (s : @Service Callback _) (client : Client).

(** After the loop: [client.Close(); serv.RemoveClient(client)], the latter
    closing the client once more. *)
Definition handle_end (id : nat) (s : @Service Callback _) (client : Client) : handled :=
  match client_Close (bool_decide (id ∈ s_clients s)) client with
  | None => Blocked
  | Some client' => Done (RemoveClient id s).1 client'
  end.

(** [func (serv *Service) Handle(client *Client)], over the events that
    arrive, for the client the service knows as [id]. *)
Fixpoint Handle (id : nat) (s : @Service Callback _) (evs : list event) (client : Client)
    (ks : key_state) : key_state * outcome unit handled :=
  match evs with
  | [] => (ks, Ok (Waiting client))
  | ev :: r =>
      match handle_event (bool_decide (id ∈ s_clients s)) s ev client ks with
      | (ks', Panic w) => (ks', Panic w)
      | (ks', Err e) => (ks', Err e)
      | (ks', Ok (None, _)) => (ks', Ok Blocked)
      | (ks', Ok (Some client', true)) => Handle id s r client' ks'
      | (ks', Ok (Some client', false)) => (ks', Ok (handle_end id s client'))
      end
  end.

(** ** Properties *)

Lemma needs_ticket_spec o : o_Verify o = true ∨ o_Privs o ≠ [] → needs_ticket o = true.
Proof.
  unfold needs_ticket. intros [->|Hn]; [done|]. apply orb_true_iff. right.
  destruct (o_Privs o); [done | by destruct (_ =b _) eqn:E; [apply bool_decide_eq_true in E|]].
Qed.

(** C6. Authorisation: when an action is registered with [Verify] or with
    privileges, its callback runs only for a ticket that [VerifyTicket]
    accepts and that grants every privilege asked for; otherwise exactly one
    message is sent, an error reply with the code "verification". *)
Theorem callback_needs_ticket f message client now ks ks' client' ran :
  o_Verify (f_options f) = true ∨ o_Privs (f_options f) ≠ [] →
  options_Call f message client now ks = (ks', Ok (client', ran)) →
  if ran then
    client' = run_callback (f_callback f) message client
    ∧ ∃ ticket, VerifyTicket ReadFile (m_Ticket message) (o_TicketVerifyPublicKey (f_options f)) now ks
                = (ks', Ok ticket)
        ∧ ∀ p, p ∈ o_Privs (f_options f) → t_Privileges ticket !! p = Some true
  else ∃ err, client' = (client_Send (SetError err (SetErrorCode (bs "verification")
                (SetRequestID (m_RequestID message) NewResponseMessage))) client).1.1.1.
Proof.
  intros Hn%needs_ticket_spec. unfold options_Call. rewrite Hn.
  destruct (VerifyTicket _ _ _ _ _) as [ks1 [ticket|e|w]]; [|by intros [= <- <- <-]; eexists|done].
  unfold CheckPrivs. destruct (missingPrivs ticket (o_Privs (f_options f))) as [|q l] eqn:E.
  - intros [= <- <- <-]. split; [done|]. exists ticket. split; [done|]. intros p Hp.
    destruct (decide (t_Privileges ticket !! p = Some true)) as [|Hne]; [done|]. exfalso.
    assert (p ∈ missingPrivs ticket (o_Privs (f_options f))) as Hm by by apply missingPrivs_spec.
    rewrite E in Hm. by apply elem_of_nil in Hm.
  - intros [= <- <- <-]. by eexists.
Qed.

Lemma client_Close_ends tracked c c' :
  client_Close tracked c = Some c' → cl_isClosed c' = true.
Proof.
  unfold client_Close. destruct (cl_isClosed c) eqn:E; [by intros [= <-]|].
  destruct (_ && _); [done|]. by intros [= <-].
Qed.

Lemma filter_notin id (l : list nat) : (id ∉ l) → List.filter (λ x, negb (x =? id)%nat) l = l.
Proof.
  induction l as [|y l IH]; [done|]. intros [Hy Hl]%not_elem_of_cons. cbn.
  rewrite (proj2 (Nat.eqb_neq y id)) by congruence. cbn. f_equal. by apply IH.
Qed.

Lemma remove_first_filter id l :
  NoDup l →
  match client_index id l with Some i => take i l ++ drop (Datatypes.S i) l | None => l end
  = List.filter (λ x, negb (x =? id)%nat) l.
Proof.
  induction 1 as [|x l Hx Hl IHl]; [done|]. cbn. destruct (Nat.eqb_spec x id) as [->|Hne]; cbn [negb].
  - symmetry. by apply filter_notin.
  - rewrite <- IHl. by destruct (client_index id l).
Qed.

(** C22. When [Handle] finishes, the client is closed and no longer tracked
    (if it was tracked once), the other clients are still tracked in their
    order, and the registered actions are unchanged. *)
Theorem handle_cleans_up id s evs client ks ks' s' client' :
  NoDup (s_clients s) → Handle id s evs client ks = (ks', Ok (Done s' client')) →
  cl_isClosed client' = true ∧ (id ∉ s_clients s')
  ∧ s_clients s' = List.filter (λ x, negb (x =? id)%nat) (s_clients s)
  ∧ s_actions s' = s_actions s.
Proof.
  intros Hnd. revert client ks. induction evs as [|ev evs IH]; intros client ks; [done|].
  cbn [Handle]. destruct (handle_event _ s ev client ks) as [ks1 [[[c1|] []]|e|w]]; try done.
  { apply IH. }
  unfold handle_end. destruct (client_Close _ c1) as [c2|] eqn:Ec; [|done]. intros [= _ <- <-].
  split; [by eapply client_Close_ends|].
  assert (s_clients (RemoveClient id s).1 = List.filter (λ x, negb (x =? id)%nat) (s_clients s)
    ∧ s_actions (RemoveClient id s).1 = s_actions s) as [E Ea].
  2:{ split; [|by split]. rewrite E, list_elem_of_In, filter_In. rewrite negb_true_iff, Nat.eqb_neq.
      tauto. }
  unfold RemoveClient. pose proof (remove_first_filter id _ Hnd) as Hl.
  destruct (client_index id (s_clients s)); cbn; by split.
Qed.

(** A request for an action nobody registered is answered by one reply,
    of JSON type, whose body is the error object; if the reply cannot be
    sent, the loop ends. *)
Theorem unknown_action_reply tracked s msg now client ks :
  s_actions s !! m_Action msg = None →
  m_MessageType (unknown_reply msg) = MessageTypeReply
  ∧ msg_Bytes (unknown_reply msg) = no_such_action
  ∧ let '(client', _, ch, err) := client_Send (unknown_reply msg) client in
    ch = None
    ∧ handle_event tracked s (Received msg now) client ks
      = (ks, Ok (if err is Some _ then client_Close tracked client' else Some client',
                 if err is Some _ then false else true)).
Proof.
  intros Ha. split; [done|]. split; [done|].
  destruct (client_Send (unknown_reply msg) client) as [[[c' m'] ch] err] eqn:E. split.
  - apply client_Send_table in E as (_ & _ & [(? & _)|(_ & Hty & _)]); [done|]. by vm_compute in Hty.
  - cbn [handle_event]. rewrite Ha, E. by destruct err.
Qed.
End handler.

(** ** A concrete service *)

Definition guarded : @ServiceOptionsFunc unit := mkOptionsFunc tt (mkOptions true [5%Z] (bs "key.pem")).

Definition run_nothing (_ : unit) (_ : Message) (c : Client) : Client := c.

Definition ticketed_request : Message :=
  SetTicket (sample_body ++ bs "," ++ EncodeToString RawURLEncoding sample_sig) hello_request.

Lemma callback_needs_ticket_witness :
  @options_Call unit toy_crypto run_nothing (λ _, inl []) (λ _, []) guarded ticketed_request fresh_client
    1010 (@mkKeyState toy_crypto (Some (bs "key")) true)
  = (@mkKeyState toy_crypto (Some (bs "key")) true, Ok (fresh_client, true))
  ∧ ∃ ticket, t_Privileges ticket !! 5%Z = Some true.
Proof.
  assert (@options_Call unit toy_crypto run_nothing (λ _, inl []) (λ _, []) guarded ticketed_request fresh_client
    1010 (@mkKeyState toy_crypto (Some (bs "key")) true)
  = (@mkKeyState toy_crypto (Some (bs "key")) true, Ok (fresh_client, true))) as E
    by (vm_compute; reflexivity).
  split; [exact E|].
  destruct (@callback_needs_ticket unit toy_crypto run_nothing (λ _, inl []) (λ _, []) guarded
    ticketed_request fresh_client 1010 _ _ fresh_client true (or_introl eq_refl) E) as (_ & ticket & _ & H).
  exists ticket. apply H. left.
Defined.

Lemma handle_cleans_up_witness :
  ∃ s' c', (@Handle unit toy_crypto run_nothing (λ _, inl []) (λ _, []) 7
              (@accept_client unit toy_crypto 7 (@accept_client unit toy_crypto 3 cool_service))
              [Received hello_request 0; TimedOut] fresh_client (@mkKeyState toy_crypto None false)).2
           = Ok (Done s' c')
    ∧ s_clients s' = [3].
Proof.
  destruct (@Handle unit toy_crypto run_nothing (λ _, inl []) (λ _, []) 7
    (@accept_client unit toy_crypto 7 (@accept_client unit toy_crypto 3 cool_service))
    [Received hello_request 0; TimedOut] fresh_client (@mkKeyState toy_crypto None false))
    as [ks' o] eqn:E.
  destruct o as [[c|  |s' c']|e|w]; try (vm_compute in E; discriminate E).
  exists s', c'. split; [reflexivity|].
  pose proof (@handle_cleans_up unit toy_crypto run_nothing (λ _, inl []) (λ _, []) 7
    (@accept_client unit toy_crypto 7 (@accept_client unit toy_crypto 3 cool_service)) _ _ _ _ s' c'
    ltac:(refine (bool_decide_unpack _ _); by vm_compute) E) as (_ & _ & H & _).
  rewrite H. reflexivity.
Defined.

Lemma unknown_action_reply_witness :
  m_MessageType (unknown_reply hello_request) = MessageTypeReply
  ∧ msg_Bytes (unknown_reply hello_request) = no_such_action.
Proof.
  destruct (@unknown_action_reply unit toy_crypto run_nothing (λ _, inl []) (λ _, []) false
    cool_service hello_request 0 fresh_client (@mkKeyState toy_crypto None false))
    as (H1 & H2 & _); [vm_compute; reflexivity|].
  split; [exact H1 | exact H2].
Defined.
