(* ===== verification/RemoteCall.v ===== *)
(** A remote call from end to end: client.go, connection.go, service.go and
    action_options.go together.

    A client sends a request; the service's connection reads the bytes and
    acknowledges them on its own wire, its client sorts the message, [Handle]
    runs the callback, which answers on the same connection; the client's
    connection reads the acknowledgements and the answer, and its client
    finds the request the answer belongs to.  Every stage starts from the
    state the one before it left. *)
From S2P Require Import Prelude Utf8 Json GoIO PacketHeader Packet Message Connection Acks Base64 Verify Ticket Service ServiceFacts Client Handler.

(** ** Lemmas *)

(** [Send] of a client, which numbers the message, and the reader at the
    other end. *)
Lemma client_Send_delivered m c conn r :
  cl_conn c = Some conn → can_send conn → in_step conn r → at_rest r →
  (0 <= cl_nextRequestID c)%Z → (cl_nextRequestID c + 1 < 2 ^ 63)%Z →
  let m' := SetRequestID (cl_nextRequestID c + 1) m in
  sendable m' →
  ∃ c1 m1 ch enc conn1 r' ack, client_Send m c = (c1, m1, ch, None)
    ∧ (m_MessageType m = MessageTypeRequest → ch = Some (length (cl_chans c)))
    ∧ m_RequestID m1 = (cl_nextRequestID c + 1)%Z
    ∧ cl_conn c1 = Some conn1 ∧ wire conn1 = wire conn ++ enc ∧ at_rest conn1
    ∧ c_incomingmsgno conn1 = c_incomingmsgno conn ∧ c_pktToMsg conn1 = c_pktToMsg conn
    ∧ c_msgs conn1 = c_msgs conn
    ∧ reads enc r r' ∧ same_recv r' (received_all [m'] r) ∧ at_rest r'
    ∧ acks (length (m_packets m)) ack ∧ wire r' = wire r ++ ack.
Proof.
  intros Hc Hs Hr Har Hlo Hhi m' Hm.
  destruct (conn_Send_delivered m' conn r Hm Hs Hr Har) as
    (enc & conn1 & m1 & r' & ack & Hsend & Hw & Hrest & Hrun & Hd & Hr' & Hack & Hwr).
  pose proof (conn_Send_fields _ _ _ _ _ Hsend) as [Hid Hty].
  pose proof (conn_Send_reading _ _ _ _ _ Hsend) as (H1 & H2 & H3).
  unfold client_Send, send_wire. rewrite i64_id by (unfold in_i64; lia). cbn [cl_conn set_next].
  fold m'. rewrite Hc, Hsend. destruct (register_reply _ _) as [c2 ch] eqn:E.
  exists c2, m1, ch, enc, conn1, r', ack. split; [done|]. unfold register_reply in E.
  destruct (bool_decide (m_MessageType m1 = MessageTypeRequest)) eqn:Ht; injection E as <- <-;
    (split; [|do 11 (split; [done|]); done]); [done|].
  intros Hreq. apply bool_decide_eq_false in Ht. by rewrite Hty in Ht.
Qed.

Lemma options_Call_runs {Callback} `{Crypto} run_callback ReadFile error_text
    (f : @ServiceOptionsFunc Callback) message client now ks :
  (needs_ticket (f_options f) = false
   ∨ ∃ ks' ticket, VerifyTicket ReadFile (m_Ticket message) (o_TicketVerifyPublicKey (f_options f)) now ks
                   = (ks', Ok ticket) ∧ CheckPrivs ticket (o_Privs (f_options f)) = None) →
  ∃ ks', options_Call run_callback ReadFile error_text f message client now ks
         = (ks', Ok (run_callback (f_callback f) message client, true)).
Proof.
  unfold options_Call. intros [->|(ks' & ticket & Hv & Hp)]; [by eexists|].
  destruct (needs_ticket _); [|by eexists]. rewrite Hv, Hp. by eexists.
Qed.

(** The channel of a request that was just sent, when a reply comes in. *)
Lemma dispatch_answer m c c1 m1 r conn :
  client_inv c → (0 <= cl_nextRequestID c)%Z → (cl_nextRequestID c + 1 < 2 ^ 63)%Z →
  m_MessageType m = MessageTypeRequest → m_MessageType r = MessageTypeReply →
  client_Send m c = (c1, m1, Some (length (cl_chans c)), None) →
  cl_chans (dispatch r (set_conn conn c1)) !! length (cl_chans c)
  = Some (mkChan (if (m_RequestID r =? cl_nextRequestID c + 1)%Z then [r] else []) false).
Proof.
  intros Hi Hlo Hhi Hm Hr Hs.
  apply client_Send_table in Hs as (Hid & _ & [(? & _)|(_ & _ & Ho & Hx)]); [done|].
  rewrite i64_id in Hid by (unfold in_i64; lia).
  assert (cl_chans c1 !! length (cl_chans c) = Some (mkChan [] false)) as Hempty
    by (rewrite Hx; by apply list_lookup_middle).
  destruct (Z.eqb_spec (m_RequestID r) (cl_nextRequestID c + 1)) as [Heq|Hne].
  - rewrite (dispatch_reply _ _ (length (cl_chans c))); [|done|].
    + cbn. unfold send_on. by rewrite list_lookup_alter_eq, Hempty.
    + cbn. rewrite Ho, Hid, Heq. apply lookup_insert_eq.
  - unfold dispatch. rewrite Hr. change (MessageTypeReply =b MessageTypeRequest) with false.
    change (MessageTypeReply =b MessageTypeReply) with true. cbn [cl_openReplies set_conn]. cbv iota.
    destruct (cl_openReplies c1 !! m_RequestID r) as [k|] eqn:Ek; [|done].
    cbn [cl_chans set_replies set_conn]. rewrite send_on_ne; [done|]. intros ->.
    rewrite Ho, Hid in Ek. apply lookup_insert_Some in Ek as [[Ek _]|[_ Ek]]; [by symmetry in Ek|].
    apply Hi in Ek. lia.
Qed.

Section call.
Context {Callback : Type} `{Crypto}.
Context (run_callback : Callback → Message → Client → Client).
Context (ReadFile : bytes → bytes + bytes) (error_text : ticket_error → bytes).

(** C3. A remote call over two healthy connections, every stage from the
    state the one before it left.  The request goes out; the service's
    reader takes it off the stream, writes one acknowledgement per data
    packet on its own wire and hands the message to its client, whose
    goroutine puts it among the requests.  The callback of its action runs
    if the request is entitled to it, and answers on the same connection,
    after the acknowledgements.  The caller's reader takes both off the
    stream: the acknowledgements change nothing, and the answer is put on
    the channel of the request exactly if both clients had sent the same
    number of messages before, because [Send] numbers the answer with the
    answering client's own counter; otherwise that channel stays empty.
    Both messages arrive as they were sent, except for the identifying
    token, which the receiver drops. *)
Theorem remote_call (s : @Service Callback _) id action req reply now ks c conn sc sconn :
  cl_conn c = Some conn → can_send conn → client_inv c →
  cl_conn sc = Some sconn → can_send sconn → in_step conn sconn → in_step sconn conn →
  (0 <= cl_nextRequestID c)%Z → (cl_nextRequestID c + 1 < 2 ^ 63)%Z →
  (0 <= cl_nextRequestID sc)%Z → (cl_nextRequestID sc + 1 < 2 ^ 63)%Z →
  let request := SetRequestID (cl_nextRequestID c + 1) req in
  let answer := SetRequestID (cl_nextRequestID sc + 1) reply in
  m_MessageType req = MessageTypeRequest → sendable request →
  m_MessageType reply = MessageTypeReply → sendable answer →
  s_actions s !! m_Action req = Some action →
  (needs_ticket (f_options (sa_callback action)) = false
   ∨ ∃ ks' ticket, VerifyTicket ReadFile (m_Ticket req)
                     (o_TicketVerifyPublicKey (f_options (sa_callback action))) now ks = (ks', Ok ticket)
                   ∧ CheckPrivs ticket (o_Privs (f_options (sa_callback action))) = None) →
  (∀ client, run_callback (f_callback (sa_callback action)) (delivered request) client
             = (client_Send reply client).1.1.1) →
  ∃ c1 req1 ch enc conn1 sconn1 ack sc1 ks' sc2 enc' sconn2 conn2 c2,
    client_Send req c = (c1, req1, Some ch, None)
    ∧ cl_conn c1 = Some conn1 ∧ wire conn1 = wire conn ++ enc
    ∧ reads enc sconn sconn1 ∧ c_msgs sconn1 = c_msgs sconn ++ [delivered request]
    ∧ acks (length (m_packets req)) ack ∧ wire sconn1 = wire sconn ++ ack
    ∧ split_recv (delivered request) (set_conn (Some sconn1) sc) = Ok sc1
    ∧ cl_requests sc1 = cl_requests sc ++ [delivered request]
    ∧ Handle run_callback ReadFile error_text id s [Received (delivered request) now] sc1 ks
      = (ks', Ok (Waiting sc2))
    ∧ cl_conn sc2 = Some sconn2 ∧ wire sconn2 = wire sconn ++ ack ++ enc'
    ∧ reads (ack ++ enc') conn1 conn2 ∧ c_msgs conn2 = c_msgs conn ++ [delivered answer]
    ∧ split_recv (delivered answer) (set_conn (Some conn2) c1) = Ok c2
    ∧ cl_chans c2 !! ch
      = Some (mkChan (if (cl_nextRequestID sc =? cl_nextRequestID c)%Z then [delivered answer] else []) false)
    ∧ same_but_token request (delivered request) ∧ same_but_token answer (delivered answer)
    ∧ m_IdentifyingToken (delivered request) = [] ∧ m_IdentifyingToken (delivered answer) = [].
Proof.
  intros Hc Hcan Hi Hsc Hscan Hst Hst' Hlo Hhi Hslo Hshi request answer Hreq Hsreq Hrep Hsrep Ha Hok Hcb.
  destruct (client_Send_delivered req c conn sconn) as
    (c1 & req1 & ch & enc & conn1 & sconn1 & ack & Hs1 & Hch & Hid & Hc1 & Hw1 & Hat1 & N1 & N2 & N3 &
     Hr1 & Hm1 & Hat2 & Hack & Hwa); [done..|by destruct Hscan|done|done|done|].
  rewrite (Hch Hreq) in Hs1. clear Hch.
  destruct Hm1 as (R1 & R2 & R3 & _ & R5 & R6). cbn in R1, R2, R3, R5, R6.
  set (sc1 := dispatch (delivered request) (set_conn (Some sconn1) sc)).
  assert (sc1 = set_requests (cl_requests sc ++ [delivered request]) (cl_requests_closed sc)
                  (set_conn (Some sconn1) sc)) as Esc1.
  { unfold sc1, dispatch. rewrite bool_decide_true by exact Hreq. done. }
  assert (can_send sconn1) as Hcan1 by (destruct Hscan as (_ & ? & ? & ?); split; [done | by rewrite R5, R6]).
  assert (in_step sconn1 conn1) as Hst1
    by (destruct Hst'; split; unfold conn_inv; by rewrite ?N1, ?N2, ?R6).
  destruct (client_Send_delivered reply sc1 sconn1 conn1) as
    (sc2 & rep1 & ch2 & enc2 & sconn2 & conn2 & ack2 & Hs2 & _ & _ & Hc2 & Hw2 & _ & _ & _ & _ &
     Hr2 & Hm2 & _); [by rewrite Esc1|done..|by rewrite Esc1|by rewrite Esc1|by rewrite Esc1|].
  rewrite Esc1 in Hm2. destruct Hm2 as (_ & _ & M3 & _). cbn in M3. fold answer in M3.
  destruct (options_Call_runs run_callback ReadFile error_text (sa_callback action) (delivered request) sc1 now ks Hok)
    as [ks' Hcall].
  exists c1, req1, (length (cl_chans c)), enc, conn1, sconn1, ack, sc1, ks', sc2, enc2, sconn2, conn2.
  exists (dispatch (delivered answer) (set_conn (Some conn2) c1)).
  do 7 (split; [done|]).
  split; [unfold split_recv; fold sc1; by rewrite Esc1|]. split; [by rewrite Esc1|]. split.
  { cbn [Handle handle_event]. change (m_Action (delivered request)) with (m_Action req).
    by rewrite Ha, Hcall, Hcb, Hs2. }
  split; [done|]. split; [by rewrite Hw2, Hwa, app_assoc|].
  split; [eapply reads_app; [by eapply reads_acks | exact Hr2]|]. split; [by rewrite M3, N3|].
  split; [unfold split_recv; by rewrite dispatch_conn|].
  split; [|by repeat split; try apply delivered_same].
  rewrite (dispatch_answer req c c1 req1) by done. repeat f_equal. cbn.
  destruct (Z.eqb_spec (cl_nextRequestID sc + 1) (cl_nextRequestID c + 1)),
    (Z.eqb_spec (cl_nextRequestID sc) (cl_nextRequestID c)); (done || lia).
Qed.
End call.

(** ** A concrete call

    The service of service_test.go logs a line and answers. *)

Definition log_request : Message :=
  (msg_Write (bs "hi") (SetAction (bs "Logging.info") (SetVersion 1 NewRequestMessage))).1.
Definition log_answer : Message := (msg_Write (bs "logged") NewResponseMessage).1.

Definition answer_log (_ : unit) (_ : Message) (c : Client) : Client := (client_Send log_answer c).1.1.1.

Lemma short_sendable m :
  m_RequestID m ≠ 0%Z → wf_header (header_of m) → msg_inv m →
  forallb (λ p, (length (body p) <? 1000)%nat) (m_packets m) = true →
  (∀ n, body_length (mkPacket HEADER n (header_of m) []) ≤ maxAlloc)%Z → sendable m.
Proof.
  intros Hid Hw Hi Hp Hl. do 3 (split; [done|]). split; [|done].
  apply Forall_forall. intros p Hin. rewrite forallb_forall in Hp. apply list_elem_of_In, Hp, Nat.ltb_lt in Hin.
  eapply Z.le_trans; [apply Z.lt_le_incl, (Nat2Z.inj_lt _ 1000), Hin|]. by vm_compute.
Qed.

Lemma log_messages_sendable : sendable (SetRequestID 1 log_request) ∧ sendable (SetRequestID 1 log_answer).
Proof.
  split; (apply short_sendable; [discriminate| | apply msg_Write_inv; by split | by vm_compute
    | intros n; by vm_compute]);
    (do 5 (split; [by apply valid_utf8_ascii|]); do 3 (split; [by vm_compute|]);
     split; first [by left | by right]).
Qed.

Lemma new_can_send : can_send (NewConnection open_sink).
Proof. by repeat split. Qed.

Lemma new_in_step : in_step (NewConnection open_sink) (NewConnection open_sink).
Proof. split; [done | apply conn_inv_new]. Qed.

Lemma remote_call_witness :
  ∃ c1 req1 ch conn2 c2, client_Send log_request fresh_client = (c1, req1, Some ch, None)
    ∧ split_recv (delivered (SetRequestID 1 log_answer)) (set_conn (Some conn2) c1) = Ok c2
    ∧ cl_chans c2 !! ch = Some (mkChan [delivered (SetRequestID 1 log_answer)] false).
Proof.
  destruct (@remote_call unit toy_crypto answer_log (λ _, inl []) (λ _, []) cool_service 7 info_action
    log_request log_answer 0 (@mkKeyState toy_crypto None false) fresh_client (NewConnection open_sink)
    fresh_client (NewConnection open_sink))
    as (c1 & req1 & ch & enc & conn1 & sconn1 & ack & sc1 & ks' & sc2 & enc' & sconn2 & conn2 & c2 & H1 & H).
  - reflexivity.
  - exact new_can_send.
  - apply client_inv_new.
  - reflexivity.
  - exact new_can_send.
  - exact new_in_step.
  - exact new_in_step.
  - vm_compute. discriminate.
  - vm_compute. reflexivity.
  - vm_compute. discriminate.
  - vm_compute. reflexivity.
  - reflexivity.
  - exact (proj1 log_messages_sendable).
  - reflexivity.
  - exact (proj2 log_messages_sendable).
  - vm_compute. reflexivity.
  - left. vm_compute. reflexivity.
  - reflexivity.
  - exists c1, req1, ch, conn2, c2. split; [exact H1|]. do 13 (destruct H as [_ H]).
    destruct H as (Hr & Hc & _). split; [exact Hr | exact Hc].
Defined.
