(* ===== verification/Refresher.v ===== *)
(** src/scamp/refresher.go: when the cache is read again.  A reactive
    refresher re-reads the file inside a lookup; the other kind has a
    goroutine that [Run] starts and [Stop] ends.

    [lock] is only ever read-locked, so it excludes nothing: calls and
    goroutines interleave.  A [thread] is one of them; a step is one access
    to what they share.  The ticker's channel holds one tick, and what the
    file holds when it is read is an argument of the step that reads it. *)
From S2P Require Import Prelude Strconv GoIO Scanner Verify ServiceProxy ServiceCache ServiceCacheFacts.

Record RefresherOptions := mkROptions { WaitDuration : option Z; Reactive : bool }.

(** [context] and [cancel] name the context objects they belong to. *)
Record CacheRefresher := mkRefresher {
  r_cache : ServiceCache;
  r_context : option nat;
  r_cancel : option nat;
  r_running : Z;
  r_due : bool;
  r_initialRefresh : bool;
  r_options : RefresherOptions
}.

Definition set_cache (c : ServiceCache) (initial : bool) (r : CacheRefresher) : CacheRefresher :=
  mkRefresher c (r_context r) (r_cancel r) (r_running r) (r_due r) initial (r_options r).
Definition set_due (tick : bool) (r : CacheRefresher) : CacheRefresher :=
  mkRefresher (r_cache r) (r_context r) (r_cancel r) (r_running r) tick (r_initialRefresh r) (r_options r).
Definition set_context (ctx : option nat) (r : CacheRefresher) : CacheRefresher :=
  mkRefresher (r_cache r) ctx (r_cancel r) (r_running r) (r_due r) (r_initialRefresh r) (r_options r).
Definition set_cancel (ctx : option nat) (r : CacheRefresher) : CacheRefresher :=
  mkRefresher (r_cache r) (r_context r) ctx (r_running r) (r_due r) (r_initialRefresh r) (r_options r).
Definition set_running (n : Z) (r : CacheRefresher) : CacheRefresher :=
  mkRefresher (r_cache r) (r_context r) (r_cancel r) n (r_due r) (r_initialRefresh r) (r_options r).

(** [5 * time.Second], in nanoseconds. *)
Definition default_wait : Z := (5 * 1000000000)%Z.

(** [func NewCacheRefresher(cache, options)]: [time.NewTicker] panics unless
    the duration is positive. *)
Definition NewCacheRefresher (cache : ServiceCache) (options : RefresherOptions)
    : outcome unit CacheRefresher :=
  let waitDuration := default default_wait (WaitDuration options) in
  if (0 <? waitDuration)%Z
  then Ok (mkRefresher cache None None 0 false false options)
  else Panic (bs "non-positive interval for NewTicker").

Definition Running (r : CacheRefresher) : bool := (0 <? r_running r)%Z.

(** [func (refresher *CacheRefresher) Due() bool]: the first refresh leaves
    a tick that is already there in the channel. *)
Definition Due (r : CacheRefresher) : CacheRefresher * bool :=
  if negb (r_initialRefresh r) then (r, true)
  else if r_due r then (set_due false r, true)
  else (r, false).

(** Where a lookup is: in [Reactive() && Due()], in the [cache.Refresh()] or
    before the assignment of [markRefresh], or past [ReactiveRefresh]. *)
Inductive look_phase := Deciding | Reading | Marking | Looking.

Section refresher.
Context `{Unicode} `{Crypto}.

(** One access of a lookup; an error of the reading is logged. *)
Definition look_step (f : cache_file) (p : look_phase) (r : CacheRefresher)
    : option (outcome unit (CacheRefresher * look_phase)) :=
  match p with
  | Deciding =>
      if Reactive (r_options r) then
        let '(r', due) := Due r in Some (Ok (r', if due then Reading else Looking))
      else Some (Ok (r, Looking))
  | Reading =>
      and_then (Refresh f (r_cache r)) (λ ce, Some (Ok (set_cache ce.1 (r_initialRefresh r) r, Marking)))
  | Marking => Some (Ok (set_cache (r_cache r) true r, Looking))
  | Looking => Some (Ok (r, Looking))
  end.

(** A lookup from a phase on, with nothing in between. *)
Fixpoint look_run (n : nat) (f : cache_file) (p : look_phase) (r : CacheRefresher)
    : option (outcome unit CacheRefresher) :=
  match n with
  | O => Some (Ok r)
  | S n' => and_then (look_step f p r) (λ rp, look_run n' f rp.2 rp.1)
  end.

(** [func (refresher *CacheRefresher) markRefresh()]. *)
Definition markRefresh (f : cache_file) (r : CacheRefresher) : option (outcome unit CacheRefresher) :=
  look_run 2 f Reading r.

(** [func (refresher *CacheRefresher) ReactiveRefresh()]. *)
Definition ReactiveRefresh (f : cache_file) (r : CacheRefresher)
    : option (outcome unit CacheRefresher) :=
  look_run 3 f Deciding r.

(** The lookups of the cache, each after a [ReactiveRefresh]. *)
Definition looking_up {A} (q : ServiceCache → A) (f : cache_file) (r : CacheRefresher)
    : option (outcome unit (CacheRefresher * A)) :=
  and_then (ReactiveRefresh f r) (λ r', Some (Ok (r', q (r_cache r')))).

Definition refresher_ActionList := looking_up ActionList.
Definition refresher_Retrieve (ident : bytes) := looking_up (Retrieve ident).
Definition refresher_SearchByAction (sector action : bytes) (version : Z) (envelope : bytes) :=
  looking_up (SearchByAction sector action version envelope).
Definition refresher_Size := looking_up Size.
Definition refresher_All := looking_up All.

(** The operations that go straight to the cache. *)
Definition refresher_Store (sp : serviceProxy) (r : CacheRefresher) : CacheRefresher :=
  set_cache (Store sp (r_cache r)) (r_initialRefresh r) r.
Definition refresher_DisableRecordVerification (r : CacheRefresher) : CacheRefresher :=
  set_cache (DisableRecordVerification (r_cache r)) (r_initialRefresh r) r.
Definition refresher_EnableRecordVerification (r : CacheRefresher) : CacheRefresher :=
  set_cache (EnableRecordVerification (r_cache r)) (r_initialRefresh r) r.
Definition refresher_Refresh (f : cache_file) (r : CacheRefresher)
    : option (outcome unit (CacheRefresher * option refresh_error)) :=
  and_then (Refresh f (r_cache r))
    (λ ce, Some (Ok (set_cache ce.1 (r_initialRefresh r) r, ce.2))).
Definition refresher_DoScan (s : scanner) (r : CacheRefresher)
    : option (outcome unit (CacheRefresher * option scan_error)) :=
  and_then (DoScan s (r_cache r))
    (λ ce, Some (Ok (set_cache ce.1 (r_initialRefresh r) r, ce.2))).

(** ** Interleaving *)

Inductive thread :=
| RunSwaps (cancelled : bool)      (* [Run(ctx)]; whether [ctx] is cancelled already *)
| RunSetsContext (cancelled : bool)
| RunSetsCancel (ctx : nat)
| RunGoes                          (* the [go] statement *)
| Refreshes (p : look_phase)       (* the goroutine: first refresh, or [markRefresh] *)
| Evaluates                        (* [refresher.context.Done()] *)
| Selects (ctx : nat)              (* in the [select], on that context *)
| Returns                          (* the deferred [AddInt32] *)
| StopChecks                       (* [refresher.cancel != nil] *)
| StopCancels
| StopPolls
| StopClearsContext
| StopClearsCancel
| Looks (p : look_phase)           (* a lookup *)
| Over
| Crashed (w : bytes).

(** The context objects, each with whether it is cancelled. *)
Record system := mkSystem {
  y_r : CacheRefresher;
  y_ctxs : list bool;
  y_threads : list thread
}.

Definition idle (r : CacheRefresher) : system := mkSystem r [] [].

Inductive call := CallRun (cancelled : bool) | CallStop | CallLookup.

Definition entry_of (c : call) : thread :=
  match c with
  | CallRun cancelled => RunSwaps cancelled
  | CallStop => StopChecks
  | CallLookup => Looks Deciding
  end.

(** [tick]: which channel a [select] takes if it waits in one. *)
Inductive action :=
| Ticks
| Cancels (ctx : nat)
| Calls (c : call)
| Moves (k : nat) (f : cache_file) (tick : bool).

(** The expression [refresher.context.Done()] in the loop's [select]. *)
Definition context_Done (r : CacheRefresher) : outcome unit nat :=
  match r_context r with
  | None => Panic (bs "invalid memory address or nil pointer dereference")
  | Some ctx => Ok ctx
  end.

(** A refresh in a thread: where it goes from [p], and then. *)
Definition refreshing (f : cache_file) (p : look_phase) (r : CacheRefresher) (at_phase : look_phase → thread)
    : option (CacheRefresher * thread) :=
  match look_step f p r with
  | Some (Ok (r', p')) => Some (r', at_phase p')
  | Some (Panic w) => Some (r, Crashed w)
  | _ => None
  end.

(** One access of a thread: what it leaves, where the thread is then, and
    the goroutine it starts; [None] while it waits. *)
Definition move (f : cache_file) (tick : bool) (t : thread) (r : CacheRefresher) (ctxs : list bool)
    : option (CacheRefresher * list bool * thread * list thread) :=
  match t with
  | RunSwaps cancelled =>
      if Reactive (r_options r) then Some (r, ctxs, Over, [])
      else if (r_running r =? 0)%Z then Some (set_running 1 r, ctxs, RunSetsContext cancelled, [])
      else Some (r, ctxs, Over, [])
  | RunSetsContext cancelled =>
      Some (set_context (Some (length ctxs)) r, ctxs ++ [cancelled], RunSetsCancel (length ctxs), [])
  | RunSetsCancel ctx => Some (set_cancel (Some ctx) r, ctxs, RunGoes, [])
  | RunGoes => Some (r, ctxs, Over, [Refreshes Reading])
  | Refreshes p =>
      '(r', t') ← refreshing f p r (λ p', if p' is Looking then Evaluates else Refreshes p');
      Some (r', ctxs, t', [])
  | Evaluates =>
      match context_Done r with
      | Ok ctx => Some (r, ctxs, Selects ctx, [])
      | Panic w => Some (r, ctxs, Crashed w, [])
      | Err _ => None
      end
  | Selects ctx =>
      if tick then if r_due r then Some (set_due false r, ctxs, Refreshes Reading, []) else None
      else match ctxs !! ctx with Some true => Some (r, ctxs, Returns, []) | _ => None end
  | Returns => Some (set_running (r_running r - 1) r, ctxs, Over, [])
  | StopChecks => Some (r, ctxs, if r_cancel r is Some _ then StopCancels else StopPolls, [])
  | StopCancels =>
      match r_cancel r with
      | Some ctx => Some (r, <[ctx := true]> ctxs, StopPolls, [])
      | None => Some (r, ctxs, Crashed (bs "invalid memory address or nil pointer dereference"), [])
      end
  | StopPolls => if Running r then None else Some (r, ctxs, StopClearsContext, [])
  | StopClearsContext => Some (set_context None r, ctxs, StopClearsCancel, [])
  | StopClearsCancel => Some (set_cancel None r, ctxs, Over, [])
  | Looks Looking => Some (r, ctxs, Over, [])
  | Looks p => '(r', t') ← refreshing f p r Looks; Some (r', ctxs, t', [])
  | Over | Crashed _ => None
  end.

Definition crashed (t : thread) : bool := if t is Crashed _ then true else false.

(** A panic ends the program. *)
Definition alive (y : system) : bool := (how_many crashed (y_threads y) =? 0)%nat.

Definition step (a : action) (y : system) : option system :=
  if negb (alive y) then None else
  match a with
  | Ticks => Some (mkSystem (set_due true (y_r y)) (y_ctxs y) (y_threads y))
  | Cancels ctx => Some (mkSystem (y_r y) (<[ctx := true]> (y_ctxs y)) (y_threads y))
  | Calls c => Some (mkSystem (y_r y) (y_ctxs y) (y_threads y ++ [entry_of c]))
  | Moves k f tick =>
      t ← y_threads y !! k;
      '(r', ctxs', t', started) ← move f tick t (y_r y) (y_ctxs y);
      Some (mkSystem r' ctxs' (<[k := t']> (y_threads y) ++ started))
  end.

Fixpoint steps (l : list action) (y : system) : option system :=
  match l with
  | [] => Some y
  | a :: l' => match step a y with Some y' => steps l' y' | None => None end
  end.

(** How many refresh goroutines there are: from the swap that won the
    counter, in [Run], to the deferred decrement. *)
Definition refreshing_thread (t : thread) : bool :=
  match t with
  | RunSetsContext _ | RunSetsCancel _ | RunGoes | Refreshes _ | Evaluates | Selects _ | Returns => true
  | _ => false
  end.

(** Calls of [Run] and of [Stop] that have not returned. *)
Definition in_Run (t : thread) : bool :=
  match t with RunSwaps _ | RunSetsContext _ | RunSetsCancel _ | RunGoes => true | _ => false end.
Definition in_Stop (t : thread) : bool :=
  match t with StopChecks | StopCancels | StopPolls | StopClearsContext | StopClearsCancel => true | _ => false end.

(** [Run] and [Stop] are not called while a call of the other is under way. *)
Definition takes_turns (a : action) (y : system) : Prop :=
  match a with
  | Calls (CallRun _) => how_many in_Stop (y_threads y) = 0
  | Calls CallStop => how_many in_Run (y_threads y) = 0
  | _ => True
  end.

Inductive reachable (allowed : action → system → Prop) (y0 : system) : system → Prop :=
| reach_start : reachable allowed y0 y0
| reach_step a y y' :
    reachable allowed y0 y → allowed a y → step a y = Some y' → reachable allowed y0 y'.

(** A lookup that has not come back from [ReactiveRefresh], and what it is
    about to do. *)
Definition looks (t : thread) : bool :=
  match t with Looks (Deciding | Reading | Marking) => true | _ => false end.
Definition will_read (t : thread) : bool := match t with Looks Reading => true | _ => false end.
Definition will_mark (t : thread) : bool := match t with Looks Marking => true | _ => false end.

(** How often the lookups of a run read the file. *)
Definition reads_file (a : action) (y : system) : bool :=
  match a with
  | Moves k _ _ => match y_threads y !! k with Some t => will_read t | None => false end
  | _ => false
  end.

Fixpoint file_reads (l : list action) (y : system) : nat :=
  match l with
  | [] => 0
  | a :: l' =>
      match step a y with
      | Some y' => (if reads_file a y then 1 else 0) + file_reads l' y'
      | None => 0
      end
  end.

Definition ticks : list action → nat := how_many (λ a, if a is Ticks then true else false).

(** A [Stop] past its wait; a goroutine, or a [Run], that relies on the
    context. *)
Definition clearing (t : thread) : bool :=
  match t with StopClearsContext | StopClearsCancel => true | _ => false end.
Definition has_context (t : thread) : bool :=
  match t with
  | RunSetsCancel _ | RunGoes | Refreshes _ | Evaluates | Selects _ | Returns => true
  | _ => false
  end.

Definition loop_inv (y : system) : Prop :=
  r_running (y_r y) = Z.of_nat (how_many refreshing_thread (y_threads y))
  ∧ (how_many refreshing_thread (y_threads y) ≤ 1)%nat.

Definition turn_inv (y : system) : Prop :=
  (how_many in_Run (y_threads y) = 0 ∨ how_many in_Stop (y_threads y) = 0)%nat
  ∧ (how_many clearing (y_threads y) = 0 ∨ how_many refreshing_thread (y_threads y) = 0)%nat
  ∧ (how_many has_context (y_threads y) = 0%nat ∨ is_Some (r_context (y_r y))).

(** ** Lemmas *)

Lemma look_step_frame f p r r' p' :
  look_step f p r = Some (Ok (r', p')) →
  r_running r' = r_running r ∧ r_context r' = r_context r ∧ r_cancel r' = r_cancel r
  ∧ r_options r' = r_options r.
Proof.
  destruct p; cbn [look_step].
  - destruct (Reactive _); [|by intros [= <- _]]. unfold Due.
    destruct (negb _); [by intros [= <- _]|]. destruct (r_due r); by intros [= <- _].
  - intros (ce & _ & [= <- _])%and_then_Ok. done.
  - by intros [= <- _].
  - by intros [= <- _].
Qed.

Lemma refreshing_Some f p r at_phase r' t' :
  refreshing f p r at_phase = Some (r', t') →
  (∃ p', look_step f p r = Some (Ok (r', p')) ∧ t' = at_phase p') ∨ (r' = r ∧ crashed t' = true ∧ p = Reading).
Proof.
  unfold refreshing. destruct (look_step f p r) as [[[x p']|e|w]|] eqn:E; try done; intros [= <- <-]; [eauto|].
  right. split; [done|]. split; [done|]. destruct p; cbn in E; try done.
  destruct (Reactive _); [by destruct (Due r) | done].
Qed.

Lemma moved (p : thread → bool) l k t t' started :
  l !! k = Some t →
  (how_many p (<[k:=t']> l ++ started) + (if p t then 1 else 0)
   = how_many p l + (if p t' then 1 else 0) + how_many p started)%nat.
Proof. intros Hk. rewrite how_many_app. pose proof (how_many_insert p l k t t' Hk). lia. Qed.

(** What a move does to the counter and to the context, and which phases it
    leads to. *)
Lemma move_cases f tick t r ctxs r' ctxs' t' started :
  move f tick t r ctxs = Some (r', ctxs', t', started) →
  crashed t' = true
  ∨ (t = RunGoes ∧ t' = Over ∧ started = [Refreshes Reading] ∧ r' = r)
  ∨ (started = [] ∧
     ((∃ b, t = RunSwaps b ∧ t' = RunSetsContext b ∧ r_running r = 0%Z ∧ r' = set_running 1 r)
      ∨ (∃ b, t = RunSwaps b ∧ t' = Over ∧ r' = r)
      ∨ (∃ b n, t = RunSetsContext b ∧ t' = RunSetsCancel n ∧ r' = set_context (Some n) r)
      ∨ (t = Returns ∧ t' = Over ∧ r' = set_running (r_running r - 1) r)
      ∨ (t = StopPolls ∧ t' = StopClearsContext ∧ Running r = false ∧ r' = r)
      ∨ (t = StopClearsContext ∧ t' = StopClearsCancel ∧ r' = set_context None r)
      ∨ (r_running r' = r_running r ∧ r_context r' = r_context r
         ∧ refreshing_thread t' = refreshing_thread t ∧ has_context t' = has_context t
         ∧ in_Run t' = in_Run t ∧ (in_Stop t' = true → in_Stop t = true)
         ∧ (clearing t' = true → clearing t = true)))).
Proof.
  destruct t as [b|b|n| |p| |n| | | | | | |p| |w]; cbn [move]; try done.
  - destruct (Reactive _).
    { intros [= <- <- <- <-]. right. right. split; [done|]. right. left. by exists b. }
    destruct (Z.eqb_spec (r_running r) 0); intros [= <- <- <- <-]; right; right; (split; [done|]).
    + left. by exists b.
    + right. left. by exists b.
  - intros [= <- <- <- <-]. right. right. split; [done|]. do 2 right. left. by eexists b, _.
  - intros [= <- <- <- <-]. right. right. split; [done|]. by do 6 right.
  - intros [= <- <- <- <-]. right. by left.
  - destruct (refreshing _ _ _ _) as [[x t1]|] eqn:E; [|done]. cbn. intros [= <- <- <- <-].
    apply refreshing_Some in E as [(p' & (E1 & E2 & _)%look_step_frame & ->)|(-> & Hc & _)]; [|by left].
    right. right. split; [done|]. do 6 right. by destruct p'.
  - unfold context_Done. destruct (r_context r) eqn:E; intros [= <- <- <- <-]; [|by left].
    right. right. split; [done|]. by do 6 right.
  - destruct tick.
    + destruct (r_due r); [|done]. intros [= <- <- <- <-]. right. right. split; [done|]. by do 6 right.
    + destruct (ctxs !! n) as [[]|]; try done. intros [= <- <- <- <-]. right. right. split; [done|].
      by do 6 right.
  - intros [= <- <- <- <-]. right. right. split; [done|]. do 3 right. by left.
  - intros [= <- <- <- <-]. right. right. split; [done|]. do 6 right. by destruct (r_cancel r).
  - destruct (r_cancel r); intros [= <- <- <- <-]; [|by left]. right. right. split; [done|].
    by do 6 right.
  - destruct (Running r) eqn:E; [done|]. intros [= <- <- <- <-]. right. right. split; [done|].
    do 4 right. by left.
  - intros [= <- <- <- <-]. right. right. split; [done|]. do 5 right. by left.
  - intros [= <- <- <- <-]. right. right. split; [done|]. by do 6 right.
  - assert (∀ x, refreshing f p r Looks = Some x → x.2 = t' → x.1 = r' → started = [] → p ≠ Looking →
      crashed t' = true ∨ (r_running r' = r_running r ∧ r_context r' = r_context r ∧ ∃ p', t' = Looks p')) as Hl.
    { intros [x t1] [(p' & (E1 & E2 & _)%look_step_frame & ->)|(-> & Hc & _)]%refreshing_Some; cbn; intros <- <-; eauto. }
    destruct p; try (destruct (refreshing _ _ _ _) as [[x t1]|] eqn:E; [|done]; cbn; intros [= <- <- <- <-];
      destruct (Hl _ eq_refl eq_refl eq_refl eq_refl ltac:(done)) as [Hc|(E1 & E2 & p' & ->)]; [by left|];
      right; right; split; [done|]; do 6 right; done).
    intros [= <- <- <- <-]. right. right. split; [done|]. do 6 right. done.
Qed.

Lemma alive_moved y r' ctxs' k t' started :
  alive (mkSystem r' ctxs' (<[k := t']> (y_threads y) ++ started)) = true →
  (k < length (y_threads y))%nat → crashed t' = false.
Proof.
  unfold alive. rewrite Nat.eqb_eq. cbn. intros Hz Hk. rewrite how_many_0 in Hz. apply Hz.
  apply elem_of_app. left. apply (list_elem_of_lookup_2 _ k). by apply list_lookup_insert_eq.
Qed.

(** Every step of a thread, as a case of [move_cases]. *)
Lemma step_Moves k f tick y y' :
  step (Moves k f tick) y = Some y' → alive y' = true →
  ∃ t r' ctxs' t' started, y_threads y !! k = Some t
    ∧ move f tick t (y_r y) (y_ctxs y) = Some (r', ctxs', t', started)
    ∧ y' = mkSystem r' ctxs' (<[k := t']> (y_threads y) ++ started) ∧ crashed t' = false.
Proof.
  unfold step. destruct (negb (alive y)); [done|].
  destruct (y_threads y !! k) as [t|] eqn:Ek; [|done]. cbn.
  destruct (move f tick t _ _) as [[[[r' ctxs'] t'] started]|] eqn:Em; [|done]. cbn.
  intros [= <-] Ha. exists t, r', ctxs', t', started. split; [done|]. split; [done|]. split; [done|].
  eapply alive_moved; [exact Ha|]. by eapply lookup_lt_Some.
Qed.

Lemma step_alive a y y' : step a y = Some y' → alive y = true.
Proof. unfold step. by destruct (alive y). Qed.

Lemma loop_inv_step a y y' :
  loop_inv y → step a y = Some y' → alive y' = true → loop_inv y'.
Proof.
  intros [H1 H2] Hs Ha. destruct a as [|n|c|k f tick].
  1-3: unfold step in Hs; destruct (negb (alive y)); [done|]; injection Hs as <-.
  - by split.
  - by split.
  - unfold loop_inv. cbn. rewrite how_many_app. destruct c; cbn; by rewrite !Nat.add_0_r.
  - apply step_Moves in Hs as (t & r' & ctxs' & t' & started & Ek & Em & -> & Hc); [|done].
    pose proof (moved refreshing_thread _ _ _ t' started Ek) as Hm.
    apply move_cases in Em as [Hc'|[(-> & -> & -> & ->)|(-> & Em)]]; [congruence|..]; unfold loop_inv;
      cbn [y_r y_threads] in *; [cbn in Hm; lia|]. cbn [how_many] in Hm.
    destruct Em as [(b & -> & -> & E0 & ->)|[(b & -> & -> & ->)|[(b & n & -> & -> & ->)|[(-> & -> & ->)
      |[(-> & -> & Hr & ->)|[(-> & -> & ->)|(E1 & _ & E2 & _)]]]]]]; cbn in Hm |- *; try lia.
    rewrite E1. rewrite E2 in Hm. destruct (refreshing_thread t); lia.
Qed.

Lemma in_Run_not_clearing y :
  turn_inv y → (0 < how_many in_Run (y_threads y))%nat → how_many clearing (y_threads y) = 0%nat.
Proof.
  intros ([Hr|Hs] & _) Hp; [lia|]. pose proof (how_many_le clearing in_Stop (y_threads y)) as Hle.
  assert (∀ t, clearing t = true → in_Stop t = true) as Hi by by intros []. specialize (Hle Hi). lia.
Qed.

Lemma counts_in (p : thread → bool) l k t : l !! k = Some t → p t = true → (0 < how_many p l)%nat.
Proof. intros Hk Hp. apply how_many_pos. exists t. split; [by eapply list_elem_of_lookup_2 | done]. Qed.

Lemma turn_inv_step a y y' :
  loop_inv y → turn_inv y → takes_turns a y → step a y = Some y' → alive y' = true → turn_inv y'.
Proof.
  intros [Hl1 Hl2] Hi Ht Hs Ha. pose proof Hi as (H1 & H2 & H3). destruct a as [|n|c|k f tick].
  1-3: unfold step in Hs; destruct (negb (alive y)); [done|]; injection Hs as <-.
  - exact Hi.
  - exact Hi.
  - unfold turn_inv. cbn [y_threads y_r]. rewrite !how_many_app. cbn in Ht. destruct c; cbn [entry_of how_many];
      cbn in Ht |- *; rewrite ?Nat.add_0_r; (split; [|by split]); [right|left|]; lia.
  - apply step_Moves in Hs as (t & r' & ctxs' & t' & started & Ek & Em & -> & Hc); [|done].
    pose proof (moved refreshing_thread _ _ _ t' started Ek) as Mf.
    pose proof (moved in_Run _ _ _ t' started Ek) as Mr.
    pose proof (moved in_Stop _ _ _ t' started Ek) as Ms.
    pose proof (moved clearing _ _ _ t' started Ek) as Mc.
    pose proof (moved has_context _ _ _ t' started Ek) as Mh.
    pose proof (in_Run_not_clearing y Hi) as Hrc. pose proof (counts_in in_Run _ _ _ Ek) as Hin.
    pose proof (counts_in refreshing_thread _ _ _ Ek) as Hfin.
    pose proof (counts_in clearing _ _ _ Ek) as Hcin.
    pose proof (how_many_le has_context refreshing_thread (y_threads y) ltac:(by intros [])) as Hle.
    unfold turn_inv. cbn [y_r y_threads].
    set (threads' := <[k:=t']> (y_threads y) ++ started) in *. clearbody threads'.
    apply move_cases in Em as [Hc'|[(-> & -> & -> & ->)|(-> & Em)]]; [congruence|..].
    { cbn in *. specialize (Hin eq_refl). split; [lia|]. split; [lia|]. destruct H3 as [H3|H3]; [|by right].
      left. lia. }
    cbn [how_many] in *.
    destruct Em as [(b & -> & -> & E0 & ->)|[(b & -> & -> & ->)|[(b & n & -> & -> & ->)|[(-> & -> & ->)
      |[(-> & -> & Hr & ->)|[(-> & -> & ->)|(E1 & E2 & E3 & E4 & E5 & E6 & E7)]]]]]];
      cbn in Mf, Mr, Ms, Mc, Mh, Hin, Hfin, Hcin |- *.
    + specialize (Hin eq_refl). split; [lia|]. split; [lia|]. destruct H3; [left; lia | by right].
    + split; [lia|]. split; [lia|]. destruct H3; [left; lia | by right].
    + split; [lia|]. split; [lia|]. right. by eexists.
    + split; [lia|]. split; [lia|]. destruct H3; [left; lia | by right].
    + unfold Running in Hr. apply Z.ltb_ge in Hr. split; [lia|]. split; [lia|]. destruct H3; [left; lia | by right].
    + specialize (Hcin eq_refl). split; [lia|]. split; [lia|]. left. lia.
    + rewrite E3, E4, E5, E2 in *.
      assert ((if in_Stop t' then 1 else 0) ≤ (if in_Stop t then 1 else 0))%nat as Hst
        by (destruct (in_Stop t'); [by rewrite E6 | lia]).
      assert ((if clearing t' then 1 else 0) ≤ (if clearing t then 1 else 0))%nat as Hcl
        by (destruct (clearing t'); [by rewrite E7 | lia]).
      split; [lia|]. split; [lia|].
      destruct H3; [left; lia | by right].
Qed.

Lemma reachable_loop_inv allowed r y :
  r_running r = 0%Z → reachable allowed (idle r) y → alive y = true → loop_inv y.
Proof.
  intros Hr. induction 1 as [|a y y' _ IH _ Hs]; intros Ha; [split; [done | cbn; lia]|].
  eapply loop_inv_step; [|exact Hs | exact Ha]. eapply IH, step_alive, Hs.
Qed.

Lemma reachable_turn_inv r y :
  r_running r = 0%Z → reachable takes_turns (idle r) y → alive y = true → turn_inv y.
Proof.
  intros Hr Hreach. induction Hreach as [|a y y' Hreach IH Hal Hs]; intros Ha; [split; [by left | split; by left]|].
  pose proof (step_alive _ _ _ Hs) as Ha0.
  eapply turn_inv_step; [by eapply reachable_loop_inv | by apply IH | done | done | done].
Qed.

(** *** Lookups *)

(** What one access of a lookup does to the flag, the tick and the phase. *)
Lemma look_step_cases f p r r' p' :
  look_step f p r = Some (Ok (r', p')) →
  (p = Deciding ∧ p' = Reading ∧ r_initialRefresh r = false ∧ r' = r)
  ∨ (p = Deciding ∧ p' = Reading ∧ r_due r = true ∧ r' = set_due false r)
  ∨ (p = Deciding ∧ p' = Looking ∧ r' = r)
  ∨ (p = Reading ∧ p' = Marking ∧ r_initialRefresh r' = r_initialRefresh r ∧ r_due r' = r_due r)
  ∨ (p = Marking ∧ p' = Looking ∧ r' = set_cache (r_cache r) true r)
  ∨ (p = Looking ∧ p' = Looking ∧ r' = r).
Proof.
  destruct p; cbn [look_step].
  - destruct (Reactive _); [|intros [= <- <-]; auto 10]. unfold Due.
    destruct (r_initialRefresh r) eqn:E; cbn [negb]; [|intros [= <- <-]; auto 10].
    destruct (r_due r) eqn:Ed; intros [= <- <-]; auto 10.
  - intros (ce & _ & [= <- <-])%and_then_Ok. auto 10.
  - intros [= <- <-]. auto 10.
  - intros [= <- <-]. auto 10.
Qed.

(** A move that is none of a lookup's reading. *)
Ltac calm := split; [done|]; split; [done|]; right; left; cbn; repeat (split; [done || lia|]); auto.

Definition b2n (b : bool) : nat := if b then 1 else 0.

(** What a thread may do to the flag and the tick, and to the counts of
    lookups that will read and will mark. *)
Lemma move_lookups f tick t r ctxs r' ctxs' t' started :
  move f tick t r ctxs = Some (r', ctxs', t', started) →
  how_many will_read started = 0%nat ∧ how_many will_mark started = 0%nat
  ∧ ((will_read t = true ∧ will_read t' = false ∧ (will_mark t' = true ∨ crashed t' = true)
        ∧ r_initialRefresh r' = r_initialRefresh r ∧ r_due r' = r_due r)
     ∨ (will_read t = false ∧ will_read t' = false ∧ will_mark t' = false
        ∧ (b2n (r_due r') ≤ b2n (r_due r))%nat
        ∧ (r_initialRefresh r' = true ∨ (r_initialRefresh r' = r_initialRefresh r ∧ will_mark t = false)))
     ∨ (will_read t = false ∧ will_mark t = false ∧ will_read t' = true ∧ will_mark t' = false
        ∧ r_initialRefresh r' = r_initialRefresh r
        ∧ (r_initialRefresh r = false ∧ r_due r' = r_due r ∨ r_due r = true ∧ r_due r' = false))).
Proof.
  destruct t as [b|b|n| |p| |n| | | | | | |p| |w]; cbn [move]; try done.
  - destruct (Reactive _); [intros [= <- <- <- <-]; calm|].
    destruct (r_running r =? 0)%Z; intros [= <- <- <- <-]; calm.
  - intros [= <- <- <- <-]. calm.
  - intros [= <- <- <- <-]. calm.
  - intros [= <- <- <- <-]. calm.
  - destruct (refreshing _ _ _ _) as [[x t1]|] eqn:E; [|done]. cbn. intros [= <- <- <- <-].
    apply refreshing_Some in E as [(p' & E & ->)|(-> & Hc & _)]; [|destruct t1; try discriminate Hc; calm].
    apply look_step_cases in E as [(-> & -> & _ & ->)|[(-> & -> & Hd & ->)|[(-> & -> & ->)|[(-> & -> & E1 & E2)
      |[(-> & -> & ->)|(-> & -> & ->)]]]]]; rewrite ?E1, ?E2; calm.
  - unfold context_Done. destruct (r_context r); intros [= <- <- <- <-]; calm.
  - destruct tick.
    + destruct (r_due r) eqn:E; [|done]. intros [= <- <- <- <-]. calm.
    + destruct (ctxs !! n) as [[]|]; try done. intros [= <- <- <- <-]. calm.
  - intros [= <- <- <- <-]. calm.
  - intros [= <- <- <- <-]. destruct (r_cancel r); calm.
  - destruct (r_cancel r); intros [= <- <- <- <-]; calm.
  - destruct (Running r); [done|]. intros [= <- <- <- <-]. calm.
  - intros [= <- <- <- <-]. calm.
  - intros [= <- <- <- <-]. calm.
  - destruct p; try (destruct (refreshing _ _ _ _) as [[x t1]|] eqn:E; [|done]; cbn; intros [= <- <- <- <-];
      (split; [done|]); (split; [done|]);
      apply refreshing_Some in E as [(p' & E & ->)|(-> & Hc & Hp)];
      [apply look_step_cases in E as [(Hp & -> & E1 & ->)|[(Hp & -> & E1 & ->)|[(Hp & -> & ->)|[(Hp & -> & E1 & E2)
        |[(Hp & -> & ->)|(Hp & -> & ->)]]]]]; try discriminate Hp; cbn; auto 12 with lia
      | try discriminate Hp; destruct t1; try discriminate Hc; cbn; auto 12 with lia]).
    intros [= <- <- <- <-]. calm.
Qed.

Definition readers (y : system) : nat := how_many will_read (y_threads y).
Definition markers (y : system) : nat := how_many will_mark (y_threads y).

(** The same for a step of the whole system. *)
Lemma step_lookups a y y' :
  step a y = Some y' →
  (a = Ticks ∧ readers y' = readers y ∧ markers y' = markers y
     ∧ r_initialRefresh (y_r y') = r_initialRefresh (y_r y))
  ∨ (reads_file a y = true ∧ (readers y' + 1 = readers y)%nat
     ∧ ((markers y' = markers y + 1)%nat ∨ alive y' = false)
     ∧ r_initialRefresh (y_r y') = r_initialRefresh (y_r y) ∧ r_due (y_r y') = r_due (y_r y))
  ∨ (reads_file a y = false ∧ readers y' = readers y ∧ (b2n (r_due (y_r y')) ≤ b2n (r_due (y_r y)))%nat
     ∧ (r_initialRefresh (y_r y') = true
        ∨ r_initialRefresh (y_r y') = r_initialRefresh (y_r y) ∧ markers y' = markers y))
  ∨ (reads_file a y = false ∧ (readers y' = readers y + 1)%nat ∧ markers y' = markers y
     ∧ r_initialRefresh (y_r y') = r_initialRefresh (y_r y)
     ∧ (r_initialRefresh (y_r y) = false ∧ r_due (y_r y') = r_due (y_r y)
        ∨ r_due (y_r y) = true ∧ r_due (y_r y') = false)).
Proof.
  unfold readers, markers. destruct a as [|n|c|k f tick].
  1-3: unfold step; destruct (negb (alive y)); [done|]; intros [= <-].
  - by left.
  - right. right. left. split; [done|]. split; [done|]. split; [cbn; lia | by right].
  - right. right. left. cbn [y_threads y_r]. rewrite !how_many_app.
    destruct c; cbn; rewrite !Nat.add_0_r; (split; [done|]); (split; [done|]); (split; [lia | by right]).
  - unfold step. destruct (negb (alive y)); [done|]. unfold reads_file.
    destruct (y_threads y !! k) as [t|] eqn:Ek; [|done]. cbn.
    destruct (move f tick t _ _) as [[[[r' ctxs'] t'] started]|] eqn:Em; [|done]. cbn. intros [= <-].
    pose proof (moved will_read _ _ _ t' started Ek) as Mr. pose proof (moved will_mark _ _ _ t' started Ek) as Mm.
    apply move_lookups in Em as (S1 & S2 & Em). rewrite S1 in Mr. rewrite S2 in Mm. cbn [y_threads y_r].
    right. destruct Em as [(E1 & E2 & E3 & E4 & E5)|[(E1 & E2 & E3 & E4 & E5)|(E1 & E2 & E3 & E4 & E5 & E6)]];
      rewrite E1, E2 in Mr || rewrite E1, E3 in Mr.
    + left. split; [done|]. split; [lia|]. split; [|done].
      assert (will_mark t = false) as Hm by (destruct t; try done; by destruct p).
      rewrite Hm in Mm. destruct E3 as [E3|E3]; [left; rewrite E3 in Mm; lia|right].
      unfold alive. cbn. apply Nat.eqb_neq. intros Hz. rewrite how_many_0 in Hz.
      rewrite (Hz t') in E3; [done|]. apply elem_of_app. left. apply (list_elem_of_lookup_2 _ k).
      apply list_lookup_insert_eq. by eapply lookup_lt_Some.
    + right. left. split; [done|]. split; [lia|]. split; [done|]. destruct E5 as [E5|[E5 E6]]; [by left|right].
      split; [done|]. rewrite E3, E6 in Mm. lia.
    + right. right. split; [done|]. split; [lia|]. split; [rewrite E2, E4 in Mm; lia|]. by split.
Qed.

Lemma file_reads_dead l y : alive y = false → file_reads l y = 0%nat.
Proof. intros Ha. destruct l as [|a l]; [done|]. cbn. unfold step. by rewrite Ha. Qed.

Lemma b2n_le b : (b2n b ≤ 1)%nat.
Proof. destruct b; cbn; lia. Qed.

(** After the first refresh. *)
Lemma reads_after l y :
  r_initialRefresh (y_r y) = true →
  (file_reads l y ≤ ticks l + readers y + b2n (r_due (y_r y)))%nat.
Proof.
  revert y. induction l as [|a l IH]; intros y Hi; cbn [file_reads]; [lia|].
  destruct (step a y) as [y'|] eqn:Hs; [|lia]. unfold ticks in *. cbn [how_many].
  pose proof (b2n_le (r_due (y_r y'))).
  apply step_lookups in Hs as [(-> & E1 & E2 & E3)|[(E1 & E2 & E3 & E4 & E5)|[(E1 & E2 & E3 & E4)|(E1 & E2 & E3 & E4 & E5)]]];
    rewrite ?E1.
  - specialize (IH y' ltac:(congruence)). cbn [reads_file]. lia.
  - specialize (IH y' ltac:(congruence)). rewrite E5 in IH. lia.
  - specialize (IH y' ltac:(destruct E4 as [|[]]; congruence)). lia.
  - specialize (IH y' ltac:(congruence)). destruct E5 as [[E5 _]|[E5 E6]]; [congruence|].
    rewrite E6 in IH. rewrite E5. cbn in *. lia.
Qed.

(** Before it: whoever has read has not marked, or it would be after. *)
Lemma reads_before l y k :
  r_initialRefresh (y_r y) = false →
  (∀ l1 l2 y', l = l1 ++ l2 → steps l1 y = Some y' → r_initialRefresh (y_r y') = false →
     (how_many looks (y_threads y') ≤ k)%nat) →
  (file_reads l y + markers y ≤ ticks l + b2n (r_due (y_r y)) + k)%nat.
Proof.
  revert y. induction l as [|a l IH]; intros y Hi Hb; cbn [file_reads].
  all: assert (readers y + markers y ≤ k)%nat as Hk.
  1,3: specialize (Hb [] _ y eq_refl eq_refl Hi); etransitivity; [|exact Hb]; unfold readers, markers;
    clear; induction (y_threads y) as [|t ts IH]; [done|]; cbn; destruct t; cbn; try lia; destruct p; cbn; lia.
  { lia. }
  destruct (step a y) as [y'|] eqn:Hs; [|lia]. unfold ticks in *. cbn [how_many].
  assert (r_initialRefresh (y_r y') = false →
    (file_reads l y' + markers y' ≤ how_many (λ a, if a is Ticks then true else false) l
       + b2n (r_due (y_r y')) + k)%nat) as IH'.
  { intros Hi'. apply IH; [done|]. intros l1 l2 y'' -> Hst. apply (Hb (a :: l1) l2); [done|].
    cbn. by rewrite Hs. }
  clear IH. pose proof (b2n_le (r_due (y_r y'))). pose proof (reads_after l y') as Haft. unfold ticks in Haft.
  apply step_lookups in Hs as [(-> & E1 & E2 & E3)|[(E1 & E2 & E3 & E4 & E5)|[(E1 & E2 & E3 & E4)|(E1 & E2 & E3 & E4 & E5)]]];
    rewrite ?E1.
  - specialize (IH' ltac:(congruence)). cbn [reads_file]. lia.
  - specialize (IH' ltac:(congruence)). rewrite E5 in IH'. destruct E3 as [E3|E3]; [lia|].
    rewrite (file_reads_dead l y' E3). lia.
  - destruct E4 as [E4|[E4 E5]]; [specialize (Haft E4); lia|]. specialize (IH' ltac:(congruence)). lia.
  - specialize (IH' ltac:(congruence)). destruct E5 as [[_ E5]|[E5 E6]]; [rewrite E5 in IH'; lia|].
    rewrite E6 in IH'. rewrite E5. cbn in *. lia.
Qed.

(** *** A lookup by itself *)

Lemma markRefresh_Ok f r r' :
  markRefresh f r = Some (Ok r') → ∃ c, r' = set_cache c true r.
Proof.
  unfold markRefresh. cbn [look_run look_step]. intros ([x p] & (ce & _ & [= <- <-])%and_then_Ok & H')%and_then_Ok.
  cbn in H'. injection H' as <-. by eexists.
Qed.

Lemma ReactiveRefresh_eq f r :
  ReactiveRefresh f r
  = if Reactive (r_options r) then
      let '(r', due) := Due r in if due then markRefresh f r' else Some (Ok r')
    else Some (Ok r).
Proof.
  unfold ReactiveRefresh, markRefresh. cbn [look_run]. cbn [look_step].
  destruct (Reactive _); [|done]. by destruct (Due r) as [r' []].
Qed.

Lemma Due_cases r r' due :
  Due r = (r', due) →
  (due = true ∧ r_initialRefresh r = false ∧ r' = r)
  ∨ (due = true ∧ r_initialRefresh r = true ∧ r_due r = true ∧ r' = set_due false r)
  ∨ (due = false ∧ r_initialRefresh r = true ∧ r_due r = false ∧ r' = r).
Proof.
  unfold Due. destruct (r_initialRefresh r), (r_due r); intros [= <- <-]; cbn; auto 10.
Qed.

(** A lookup that nothing interrupts does what [ReactiveRefresh] does. *)
Lemma lookup_alone f n k p y r' :
  alive y = true → y_threads y !! k = Some (Looks p) → p ≠ Looking → look_run n f p (y_r y) = Some (Ok r') →
  (n = match p with Deciding => 3 | Reading => 2 | _ => 1 end)%nat →
  ∃ m, steps (replicate m (Moves k f false)) y
       = Some (mkSystem r' (y_ctxs y) (<[k := Looks Looking]> (y_threads y))).
Proof.
  revert y p. induction n as [|n IH]; intros y p Ha Hk Hp Hr Hn; [by destruct p|].
  cbn [look_run] in Hr. apply and_then_Ok in Hr as ([r1 p1] & Hl & Hr). cbn [fst snd] in Hr.
  assert (step (Moves k f false) y = Some (mkSystem r1 (y_ctxs y) (<[k := Looks p1]> (y_threads y)))) as Hs.
  { unfold step. rewrite Ha, Hk. cbn. destruct p; try done; cbn [move]; unfold refreshing; rewrite Hl; cbn;
      by rewrite app_nil_r. }
  assert (p1 = Looking ∨ p1 ≠ Looking) as [->|Hne] by (destruct p1; auto).
  - exists 1%nat. cbn. rewrite Hs. assert (∀ j, look_run j f Looking r1 = Some (Ok r1)) as Hj
      by (intros j; induction j as [|j IHj]; [done | exact IHj]).
    rewrite Hj in Hr. by injection Hr as ->.
  - destruct (IH (mkSystem r1 (y_ctxs y) (<[k := Looks p1]> (y_threads y))) p1) as [m Hm]; [| |done|exact Hr| |].
    + unfold alive in *. apply Nat.eqb_eq in Ha. apply Nat.eqb_eq. cbn.
      pose proof (how_many_insert crashed _ _ _ (Looks p1) Hk) as Hc. cbn in Hc. lia.
    + cbn. apply list_lookup_insert_eq. by eapply lookup_lt_Some.
    + apply look_step_cases in Hl. destruct p, p1; try done; try lia; naive_solver.
    + exists (S m). cbn [replicate steps]. rewrite Hs, Hm. cbn. by rewrite list_insert_insert_eq.
Qed.

(** ** Properties *)

(** C23. A lookup that is due answers from the file as it is now, not from
    what was stored before; until the next tick no lookup reads the file,
    whatever it then holds. *)
Theorem reactive_lookup_fresh {A B} (q : ServiceCache → A) (q2 : ServiceCache → B) data f2 r r0 :
  Reactive (r_options r) = true → verifyRecords (r_cache r) = true → Due r = (r0, true) →
  r_due r0 = false →
  ∀ c e, NewServiceCache (FileData data) = Some (Ok (c, e)) →
  ∃ r', looking_up q (FileData data) r = Some (Ok (r', q c))
    ∧ looking_up q2 f2 r' = Some (Ok (r', q2 c)).
Proof.
  intros Hr Hv Hd Ht c e Hc.
  assert (r_cache r0 = r_cache r ∧ r_options r0 = r_options r) as [E Eo]
    by by apply Due_cases in Hd as [(_ & _ & ->)|[(_ & _ & _ & ->)|(_ & _ & _ & ->)]].
  assert (Refresh (FileData data) (r_cache r0) = Some (Ok (c, e))) as Hf.
  { rewrite <- Hc. unfold NewServiceCache, Refresh, DoScan, clearNoLock. by rewrite E, Hv. }
  exists (set_cache c true r0). unfold looking_up. rewrite !ReactiveRefresh_eq.
  unfold markRefresh. cbn [look_run look_step]. rewrite Hr, Hd, Hf. cbn. split; [done|].
  unfold Due. cbn. by rewrite Eo, Hr, Ht.
Qed.

(** C24. However many lookups there are, and however they interleave, they
    read the file at most once per tick, once for a tick that was waiting,
    and, if it was not read yet, once more for each of the lookups that are
    under way together before the first of them is done (they share the lock
    for reading, so each finds the refresh due). *)
Theorem file_reads_bound l r k :
  (∀ l1 l2 y, l = l1 ++ l2 → steps l1 (idle r) = Some y → r_initialRefresh (y_r y) = false →
     (how_many looks (y_threads y) ≤ k)%nat) →
  (file_reads l (idle r) ≤ ticks l + (if r_due r then 1 else 0) + (if r_initialRefresh r then 0 else k))%nat.
Proof.
  intros Hb. destruct (r_initialRefresh r) eqn:Hi.
  - pose proof (reads_after l (idle r) Hi) as H'. cbn in H'. unfold b2n in H'. lia.
  - pose proof (reads_before l (idle r) k Hi Hb) as H'. cbn in H'. unfold b2n in H'. lia.
Qed.

(** C25. Under any interleaving of any calls, at most one refresh goroutine
    exists or is being started, and the counter says whether there is one;
    and if [Run] and [Stop] are not called while a call of the other is under
    way, no goroutine finds the context gone. *)
Theorem one_refresh_loop cache options r0 :
  NewCacheRefresher cache options = Ok r0 →
  (∀ allowed y, reachable allowed (idle r0) y → alive y = true →
     (how_many refreshing_thread (y_threads y) ≤ 1)%nat
     ∧ r_running (y_r y) = Z.of_nat (how_many refreshing_thread (y_threads y))
     ∧ (Running (y_r y) = true ↔ ∃ t, t ∈ y_threads y ∧ refreshing_thread t = true))
  ∧ (∀ y, reachable takes_turns (idle r0) y → alive y = true →
     Evaluates ∈ y_threads y → ∃ ctx, context_Done (y_r y) = Ok ctx).
Proof.
  intros Hn. assert (r_running r0 = 0%Z) as Hr.
  { unfold NewCacheRefresher in Hn. destruct (0 <? _)%Z; [|done]. by injection Hn as <-. }
  split.
  - intros allowed y Hreach Ha. destruct (reachable_loop_inv _ _ _ Hr Hreach Ha) as [H1 H2].
    split; [done|]. split; [done|]. rewrite <- how_many_pos. unfold Running. rewrite H1, Z.ltb_lt. lia.
  - intros y Hreach Ha He. destruct (reachable_turn_inv _ _ Hr Hreach Ha) as (_ & _ & [Hc|[ctx Hc]]).
    + rewrite how_many_0 in Hc. by apply Hc in He.
    + exists ctx. unfold context_Done. by rewrite Hc.
Qed.

(** [Run] called between the check and the end of a [Stop] starts a
    goroutine whose context that [Stop] then clears: the goroutine panics on
    a nil context. *)
Definition run_during_stop (f : cache_file) : list action :=
  [Calls CallStop; Moves 0 f false; Moves 0 f false;
   Calls (CallRun false); Moves 1 f false; Moves 1 f false; Moves 1 f false; Moves 1 f false;
   Moves 0 f false; Moves 0 f false; Moves 2 f false; Moves 2 f false; Moves 2 f false].

Theorem run_during_stop_panics cache options r e :
  Reactive options = false → NewCacheRefresher cache options = Ok r →
  ∃ y, steps (run_during_stop (FileError e)) (idle r) = Some y
    ∧ y_threads y !! 2 = Some (Crashed (bs "invalid memory address or nil pointer dereference")).
Proof.
  intros Hr Hn. unfold NewCacheRefresher in Hn. destruct (0 <? _)%Z; [|done]. injection Hn as <-.
  destruct options as [wd re]. cbn in Hr. subst re.
  eexists. split; [cbn -[bs]; reflexivity|]. reflexivity.
Qed.

(** A file that cannot be opened leaves the answers as they were, but counts
    as a refresh. *)
Lemma unreadable_file_keeps f e r r0 :
  f = FileError e ∨ f = Directory → Reactive (r_options r) = true → Due r = (r0, true) →
  ReactiveRefresh f r = Some (Ok (set_cache (r_cache r) true r0)).
Proof.
  intros Hf Hr Hd. rewrite ReactiveRefresh_eq. unfold markRefresh. cbn [look_run look_step]. rewrite Hr, Hd.
  assert (r_cache r0 = r_cache r) as E
    by by apply Due_cases in Hd as [(_ & _ & ->)|[(_ & _ & _ & ->)|(_ & _ & _ & ->)]].
  destruct Hf as [->| ->]; cbn; by rewrite E.
Qed.

(** [Stop] ends a goroutine that is waiting for its next tick. *)
Lemma stop_ends_loop c d i o f :
  ∃ y, steps [Calls CallStop; Moves 1 f false; Moves 1 f false; Moves 0 f false; Moves 0 f false;
              Moves 1 f false; Moves 1 f false; Moves 1 f false]
         (mkSystem (mkRefresher c (Some 0) (Some 0) 1 d i o) [false] [Selects 0]) = Some y
    ∧ y_threads y = [Over; Over] ∧ r_running (y_r y) = 0%Z ∧ r_context (y_r y) = None.
Proof. eexists. split; [cbn -[bs]; reflexivity | by repeat split]. Qed.

Lemma steps_reachable l y0 y : steps l y0 = Some y → reachable (λ _ _, True) y0 y.
Proof.
  assert (∀ l y1, reachable (λ _ _, True) y0 y1 → steps l y1 = Some y → reachable (λ _ _, True) y0 y) as H'.
  { clear. induction l as [|a l IH]; intros y1 Hr; [by intros [= <-]|]. cbn.
    destruct (step a y1) as [y2|] eqn:E; [|done]. apply IH. by eapply reach_step. }
  apply H', reach_start.
Qed.
End refresher.

(** ** A concrete refresher *)

Definition reactive_options : RefresherOptions := mkROptions None true.
Definition polling_options : RefresherOptions := mkROptions (Some 1000000%Z) false.
Definition new_refresher (o : RefresherOptions) : CacheRefresher :=
  mkRefresher emptyCache None None 0 false false o.

Lemma reactive_lookup_fresh_witness :
  ∃ r', @refresher_Retrieve ascii_only toy_crypto (sp_ident bgdispatcher)
          (FileData (concat (map text_of [good_entry]))) (new_refresher reactive_options)
        = Some (Ok (r', Some (stored_proxy good_entry)))
    ∧ @refresher_Size ascii_only toy_crypto Directory r' = Some (Ok (r', 1%nat)).
Proof.
  assert (@NewServiceCache ascii_only toy_crypto (FileData (concat (map text_of [good_entry])))
    = Some (Ok (scanned, None))) as H.
  { unfold NewServiceCache, Refresh. rewrite good_scan. reflexivity. }
  destruct (@reactive_lookup_fresh ascii_only toy_crypto _ _ (Retrieve (sp_ident bgdispatcher)) Size _
    Directory (new_refresher reactive_options) _ eq_refl eq_refl eq_refl eq_refl _ _ H)
    as (r' & H1 & H2).
  exists r'. split.
  - unfold refresher_Retrieve. rewrite H1. vm_compute. reflexivity.
  - unfold refresher_Size. rewrite H2. vm_compute. reflexivity.
Defined.

(** Two lookups that start together both read the file, without any tick: the
    bound is reached. *)
Definition together : list action :=
  [Calls CallLookup; Calls CallLookup; Moves 0 Directory false; Moves 1 Directory false;
   Moves 0 Directory false; Moves 1 Directory false; Moves 0 Directory false; Moves 1 Directory false].

Example first_lookups_race :
  @file_reads ascii_only toy_crypto together (idle (new_refresher reactive_options)) = 2%nat.
Proof. vm_compute. reflexivity. Qed.

(** One after the other: the first reads, the second reads for the tick. *)
Definition in_turn : list action :=
  [Calls CallLookup; Moves 0 Directory false; Moves 0 Directory false; Moves 0 Directory false;
   Ticks; Calls CallLookup; Moves 1 Directory false; Moves 1 Directory false; Moves 1 Directory false].

Lemma file_reads_bound_witness :
  (@file_reads ascii_only toy_crypto in_turn (idle (new_refresher reactive_options)) ≤ 2)%nat.
Proof.
  refine (@file_reads_bound ascii_only toy_crypto in_turn (new_refresher reactive_options) 1 _).
  intros l1 l2 y Hl Hy Hi.
  assert (∀ n, (n ≤ 9)%nat → ∀ y, @steps ascii_only toy_crypto (take n in_turn) (idle (new_refresher reactive_options)) = Some y →
    r_initialRefresh (y_r y) = false → (how_many looks (y_threads y) ≤ 1)%nat) as H.
  { clear. intros n Hn y. do 10 (destruct n as [|n]; [intros Hy Hi; vm_compute in Hy; injection Hy as <-;
      first [discriminate Hi | apply Nat.leb_le; vm_compute; reflexivity]|]). lia. }
  apply (H (length l1)); [|rewrite Hl, take_app_exact; exact Hy | exact Hi].
  apply (f_equal length) in Hl. rewrite length_app in Hl. cbn in Hl. lia.
Defined.

Definition two_runs : list action :=
  [Calls (CallRun false); Moves 0 Directory false; Calls (CallRun false); Moves 1 Directory false].
Definition two_runs_end : system :=
  mkSystem (set_running 1 (new_refresher polling_options)) [] [RunSetsContext false; Over].

Lemma one_refresh_loop_witness :
  @steps ascii_only toy_crypto two_runs (idle (new_refresher polling_options)) = Some two_runs_end
  ∧ (how_many refreshing_thread (y_threads two_runs_end) ≤ 1)%nat.
Proof.
  assert (@steps ascii_only toy_crypto two_runs (idle (new_refresher polling_options)) = Some two_runs_end) as H
    by (vm_compute; reflexivity).
  split; [exact H|].
  exact (proj1 (proj1 (@one_refresh_loop ascii_only toy_crypto emptyCache polling_options
    (new_refresher polling_options) eq_refl) _ _ (steps_reachable _ _ _ H) eq_refl)).
Defined.

Lemma run_during_stop_panics_witness :
  ∃ y, @steps ascii_only toy_crypto (run_during_stop (FileError [])) (idle (new_refresher polling_options))
       = Some y
    ∧ y_threads y !! 2 = Some (Crashed (bs "invalid memory address or nil pointer dereference")).
Proof. exact (@run_during_stop_panics ascii_only toy_crypto emptyCache polling_options _ [] eq_refl eq_refl). Defined.
