(* ===== verification/Requester.v ===== *)
(** src/scamp/requester.go: one request from the choice of a service to its
    reply.  A proxy has at most one client, so clients are named by the
    address of their proxy; [links] holds the proxies' [client] fields. *)
From stdpp Require Import sorting.
From S2P Require Import Prelude Strconv GoIO GoStrings PacketHeader Packet Message Connection Verify ServiceProxy ServiceCache ServiceCacheFacts Client Refresher.

Definition MAX_RETRIES : nat := 20.

Abbreviation links := (gmap nat Client).

(** [len(client.openReplies)]. *)
Definition depth (ls : links) (p : nat) : nat :=
  match ls !! p with Some c => size (cl_openReplies c) | None => 0 end.

(** The order [sort.Slice] establishes. *)
Definition no_deeper (ls : links) (p q : nat) : Prop := (depth ls p ≤ depth ls q)%nat.

#[export] Instance no_deeper_dec ls p q : Decision (no_deeper ls p q).
Proof. unfold no_deeper. apply _. Defined.
#[export] Instance no_deeper_total ls : Total (no_deeper ls).
Proof. intros p q. unfold no_deeper. lia. Qed.
#[export] Instance no_deeper_trans ls : Transitive (no_deeper ls).
Proof. intros p q r. unfold no_deeper. lia. Qed.

(** The envelope as the cache's index spells it. *)
Definition envelope_name (envelope : Z) : option bytes :=
  if (envelope =? EnvelopeJSON)%Z then Some (bs "json")
  else if (envelope =? EnvelopeJSONSTORE)%Z then Some (bs "jsonstore")
  else None.

(** What the [select] of the waiting loop sees: a message, nil for one that
    was sent as nil, the channel closed, or the timeout. *)
Inductive wait_event := GotMessage (m : option Message) | ChanClosed | TimeoutFired.

Inductive reply_result :=
| Replied (m : Message)
| RequestError (err : bytes)
| StillWaiting.

Fixpoint wait_reply (attempts : nat) (evs : list wait_event) : reply_result :=
  match attempts with
  | O => RequestError (bs "no response was found")
  | S k =>
      match evs with
      | [] => StillWaiting
      | GotMessage (Some m) :: _ => Replied m
      | GotMessage None :: evs' => wait_reply k evs'
      | ChanClosed :: _ => RequestError (bs "no response was found")
      | TimeoutFired :: _ => RequestError (bs "request timed out")
      end
  end.

(** What waiting on a channel in some state sees, if nothing else happens. *)
Definition chan_events (x : reply_chan) : list wait_event :=
  map (λ m, GotMessage (Some m)) (ch_msgs x) ++ (if ch_closed x then [ChanClosed] else []).

Section requester.
Context `{Unicode} `{Crypto}.
(** Where the [i]-th instance that was found lives (equal records may be two
    instances, and one instance may be found twice), [url.Parse], [Dial] and
    what [rand.Shuffle] does. *)
Context (address : nat → serviceProxy → nat).
Context (url_Host : bytes → bytes + bytes) (Dial : bytes → bytes + Client).
Context (shuffle : list nat → list nat).

(** The loop over the proxies: the clients obtained, in order, and the last
    error. *)
Fixpoint get_clients (i : nat) (sps : list serviceProxy) (ls : links) (err : option bytes)
    : links * list nat * option bytes :=
  match sps with
  | [] => (ls, [], err)
  | sp :: r =>
      let p := address i sp in
      let '(field, res) := GetClient cl_isClosed set_spIdent url_Host Dial sp (ls !! p) in
      let ls' := partial_alter (λ _, field) p ls in
      match res with
      | Ok _ => let '(ls'', cls, err') := get_clients (S i) r ls' err in (ls'', p :: cls, err')
      | Err e => get_clients (S i) r ls' (Some e)
      | Panic _ => get_clients (S i) r ls' err
      end
  end.

(** The loop over the clients: the first [Send] that succeeds ends it. *)
Fixpoint send_first (cls : list nat) (msg : Message) (ls : links) (err : option bytes)
    : links * Message * option (nat * option nat) * option bytes :=
  match cls with
  | [] => (ls, msg, None, err)
  | p :: r =>
      match ls !! p with
      | None => send_first r msg ls err
      | Some client =>
          let '(client', msg', ch, e) := client_Send msg client in
          let ls' := <[p := client']> ls in
          match e with
          | None => (ls', msg', Some (p, ch), None)
          | Some _ => send_first r msg' ls' e
          end
      end
  end.

(** [MakeJSONRequest] up to the wait: the client that was used and the
    channel it returned. *)
Definition send_request (sector action : bytes) (version : Z) (msg : Message)
    (found : outcome bytes (list serviceProxy)) (ls : links)
    : links * Message * outcome bytes (nat * option nat) :=
  match envelope_name (m_Envelope msg) with
  | None => (ls, msg, Err (bs "unsupported envelope type: `" ++ format_int (m_Envelope msg) ++ bs "`"))
  | Some msgType =>
      match found with
      | Err e => (ls, msg, Err e)
      | Panic w => (ls, msg, Panic w)
      | Ok [] => (ls, msg, Err (bs "could not find " ++ sector ++ bs ":" ++ action ++ bs "~"
                                  ++ format_int version ++ bs "#" ++ msgType))
      | Ok sps =>
          let msg1 := SetVersion version (SetAction action msg) in
          let '(ls1, cls, err) := get_clients 0 sps ls None in
          let order := merge_sort (no_deeper ls1) (shuffle cls) in
          let '(ls2, msg2, sent, err2) := send_first order msg1 ls1 err in
          (ls2, msg2,
           match sent with
           | Some s => Ok s
           | None => Err (bs "Request failed: " ++ sector ++ bs "." ++ action ++ bs " not found: "
                            ++ default (bs "%!s(<nil>)") err2)
           end)
      end
  end.

(** [func MakeJSONRequest(sector, action, version, msg, timeoutSeconds)],
    given what the wait sees; the search goes through the refresher. *)
Definition MakeJSONRequest (sector action : bytes) (version : Z) (msg : Message)
    (f : cache_file) (evs : list wait_event) (r : CacheRefresher) (ls : links)
    : option (outcome unit (CacheRefresher * links * Message * reply_result)) :=
  match envelope_name (m_Envelope msg) with
  | None =>
      Some (Ok (r, ls, msg, RequestError (bs "unsupported envelope type: `"
                                           ++ format_int (m_Envelope msg) ++ bs "`")))
  | Some msgType =>
      and_then (refresher_SearchByAction sector action version msgType f r) (λ rf,
        let '(ls', msg', sent) := send_request sector action version msg rf.2 ls in
        match sent with
        | Panic w => Some (Panic w)
        | Err e => Some (Ok (rf.1, ls', msg', RequestError e))
        | Ok (_, None) => Some (Ok (rf.1, ls', msg', RequestError (bs "response channel is nil")))
        | Ok (_, Some _) => Some (Ok (rf.1, ls', msg', wait_reply MAX_RETRIES evs))
        end)
  end.

(** ** Lemmas *)

Lemma send_first_sent cls msg ls err ls2 msg2 p ch err2 :
  send_first cls msg ls err = (ls2, msg2, Some (p, ch), err2) →
  ∃ before after ls' m' e' c c', cls = before ++ p :: after
    ∧ send_first before msg ls err = (ls', m', None, e')
    ∧ ls' !! p = Some c ∧ client_Send m' c = (c', msg2, ch, None) ∧ ls2 = <[p := c']> ls'.
Proof.
  revert msg ls err. induction cls as [|q r IH]; intros msg ls err; [done|]. cbn [send_first].
  assert (∀ m1 l1 e1 , (send_first r m1 l1 e1 = (ls2, msg2, Some (p, ch), err2)) →
    (∀ b, send_first (q :: b) msg ls err = send_first b m1 l1 e1) →
    ∃ before after ls' m' e' c c', q :: r = before ++ p :: after
    ∧ send_first before msg ls err = (ls', m', None, e')
    ∧ ls' !! p = Some c ∧ client_Send m' c = (c', msg2, ch, None) ∧ ls2 = <[p := c']> ls') as Hskip.
  { intros m1 l1 e1 Hr Hq. apply IH in Hr as (b & a & ls' & m' & e' & c & c' & Er & Hb & H3).
    exists (q :: b), a, ls', m', e', c, c'. split; [by rewrite Er|]. split; [by rewrite Hq | done]. }
  cbn [send_first] in Hskip. destruct (ls !! q) as [c|] eqn:Eq; [|by eauto].
  destruct (client_Send msg c) as [[[c' m1] k] [e|]] eqn:Es; [by eauto|].
  intros [= <- <- <- <- _]. exists [], r, ls, msg, err, c, c'. done.
Qed.

(** A client that can take [n] more messages. *)
Definition good (n : nat) (c : Client) : Prop :=
  client_inv c ∧ (0 <= cl_nextRequestID c)%Z ∧ (cl_nextRequestID c + Z.of_nat n < 2 ^ 63)%Z.

Lemma good_send n m c c' m' ch e :
  good (S n) c → client_Send m c = (c', m', ch, e) → good n c'.
Proof.
  intros (Hi & Hlo & Hhi) Hs. pose proof (run_op_inv (OpSend m) c Hi Hlo ltac:(lia)) as (Hi' & Hb & _).
  cbn [run_op] in Hi', Hb. rewrite Hs in Hi', Hb. cbn [fst] in Hi', Hb. split; [done|]. lia.
Qed.

Lemma good_le n k c : (k ≤ n)%nat → good n c → good k c.
Proof. intros Hk (Hi & Hlo & Hhi). split; [done|]. lia. Qed.

Lemma good_insert n (ls : links) p c :
  map_Forall (λ _, good n) ls → good n c → map_Forall (λ _, good n) (<[p := c]> ls).
Proof. intros Hl Hc. by apply map_Forall_insert_2. Qed.

Lemma send_first_good cls n msg ls err ls2 msg2 s e2 :
  map_Forall (λ _, good (length cls + n)) ls →
  send_first cls msg ls err = (ls2, msg2, s, e2) → map_Forall (λ _, good n) ls2.
Proof.
  revert msg ls err. induction cls as [|p r IH]; intros msg ls err Hl; cbn [send_first].
  { by intros [= <- <- <- <-]. }
  assert (map_Forall (λ _, good (length r + n)) ls) as Hl'.
  { eapply map_Forall_impl; [exact Hl|]. intros ? c. apply good_le. cbn. lia. }
  destruct (ls !! p) as [c|] eqn:Ep; [|by apply IH].
  destruct (client_Send msg c) as [[[c' m1] k] e] eqn:Es.
  assert (map_Forall (λ _, good (length r + n)) (<[p := c']> ls)) as Hi.
  { apply good_insert; [done|]. eapply good_send; [|exact Es]. by apply (Hl p). }
  destruct e; [by apply IH|]. intros [= <- <- <- <-].
  eapply map_Forall_impl; [exact Hi|]. intros ? x. apply good_le. lia.
Qed.

Lemma GetClient_field n sp old c :
  (∀ h c, Dial h = inr c → good n c) → (∀ x, old = Some x → good n x) →
  (GetClient cl_isClosed set_spIdent url_Host Dial sp old).1 = Some c → good n c.
Proof.
  intros Hd Hold. unfold GetClient. destruct old as [x|].
  - specialize (Hold x eq_refl). destruct (cl_isClosed x); [|by intros [= <-]].
    destruct (url_Host _) as [|h]; [by intros [= <-]|]. destruct (Dial h) eqn:E; [done|].
    intros [= <-]. exact (Hd h _ E).
  - destruct (url_Host _) as [|h]; [done|]. destruct (Dial h) eqn:E; [done|].
    intros [= <-]. exact (Hd h _ E).
Qed.

Lemma get_clients_good i sps n ls err ls1 cls e :
  (∀ h c, Dial h = inr c → good n c) → map_Forall (λ _, good n) ls →
  get_clients i sps ls err = (ls1, cls, e) →
  map_Forall (λ _, good n) ls1 ∧ (length cls ≤ length sps)%nat.
Proof.
  intros Hd. revert i ls err ls1 cls e. induction sps as [|sp r IH]; intros i ls err ls1 cls e Hl;
    cbn [get_clients]; [by intros [= <- <- _]|].
  destruct (GetClient _ _ _ _ sp _) as [field res] eqn:Eg.
  assert (map_Forall (λ _, good n) (partial_alter (λ _, field) (address i sp) ls)) as Hl'.
  { intros q c Hq. destruct (decide (q = address i sp)) as [->|Hne].
    - rewrite lookup_partial_alter_eq in Hq. subst field.
      eapply (GetClient_field n); [exact Hd| |by rewrite Eg]. intros x Hx. by eapply Hl.
    - rewrite lookup_partial_alter_ne in Hq by done. by eapply Hl. }
  destruct res as [x|x|x].
  - destruct (get_clients (S i) r _ err) as [[l2 cls2] e2] eqn:E. intros [= <- <- <-].
    apply IH in E as [E1 E2]; [|done]. split; [done|]. cbn. lia.
  - intros E. apply IH in E as [E1 E2]; [|done]. split; [done|]. cbn. lia.
  - intros E. apply IH in E as [E1 E2]; [|done]. split; [done|]. cbn. lia.
Qed.

Lemma send_request_sent sector action version msg found ls ls2 msg2 s :
  send_request sector action version msg found ls = (ls2, msg2, Ok s) →
  ∃ sps ls1 cls err err2, found = Ok sps ∧ get_clients 0 sps ls None = (ls1, cls, err)
    ∧ send_first (merge_sort (no_deeper ls1) (shuffle cls)) (SetVersion version (SetAction action msg))
        ls1 err = (ls2, msg2, Some s, err2).
Proof.
  unfold send_request. destruct (envelope_name _) as [t|]; [|done].
  destruct found as [[|sp sps]|e|w]; try done.
  destruct (get_clients 0 (sp :: sps) ls None) as [[ls1 cls] err] eqn:Eg.
  destruct (send_first _ _ ls1 err) as [[[l2 m2] sent] e2] eqn:Es.
  intros [= -> -> Hs]. destruct sent as [x|]; [|done]. injection Hs as ->.
  by exists (sp :: sps), ls1, cls, err, e2.
Qed.

(** What a request leaves behind when it was sent. *)
Lemma sent_registered n sector action version msg sps ls ls2 msg2 p ch :
  (∀ l, shuffle l ≡ₚ l) → (∀ h c, Dial h = inr c → good (length sps + n) c) →
  map_Forall (λ _, good (length sps + n)) ls →
  send_request sector action version msg (Ok sps) ls = (ls2, msg2, Ok (p, Some ch)) →
  ∃ c, ls2 !! p = Some c ∧ good n c ∧ cl_openReplies c !! m_RequestID msg2 = Some ch
    ∧ cl_chans c !! ch = Some (mkChan [] false).
Proof.
  intros Hsh Hd Hl Hs. apply send_request_sent in Hs as (sps' & ls1 & cls & err & e2 & [= <-] & Hg & Hs).
  eapply get_clients_good in Hg as [Hl1 Hc]; [|done..].
  pose proof Hs as Hgood. apply (send_first_good _ n) in Hgood.
  2:{ eapply map_Forall_impl; [exact Hl1|]. intros ? c. apply good_le.
      rewrite merge_sort_Permutation, Hsh. lia. }
  apply send_first_sent in Hs as (b & a & ls' & m' & e' & c & c' & _ & _ & _ & Hsend & ->).
  exists c'. rewrite lookup_insert_eq. split; [done|]. split.
  { apply (Hgood p). apply lookup_insert_eq. }
  apply client_Send_table in Hsend as (_ & _ & [(? & _)|([= ->] & _ & -> & ->)]); [done|].
  split; [apply lookup_insert_eq | by apply list_lookup_middle].
Qed.

Lemma MakeJSONRequest_sent sector action version msg msgType f evs r r' sps ls ls2 msg2 p ch :
  envelope_name (m_Envelope msg) = Some msgType →
  refresher_SearchByAction sector action version msgType f r = Some (Ok (r', Ok sps)) →
  send_request sector action version msg (Ok sps) ls = (ls2, msg2, Ok (p, Some ch)) →
  MakeJSONRequest sector action version msg f evs r ls
  = Some (Ok (r', ls2, msg2, wait_reply MAX_RETRIES evs)).
Proof. intros He Hf Hs. unfold MakeJSONRequest. rewrite He, Hf. cbn [and_then fst snd]. by rewrite Hs. Qed.

(** ** Properties *)

(** C10. The request goes to the client with the fewest open replies among
    those obtained for the action: the ones tried before it were no busier
    and their [Send] failed, the ones left are no less busy. *)
Theorem least_loaded_first sector action version msg sps ls ls2 msg2 p ch :
  (∀ l, shuffle l ≡ₚ l) →
  send_request sector action version msg (Ok sps) ls = (ls2, msg2, Ok (p, ch)) →
  ∃ ls1 cls err before after ls' m' e' c c',
    get_clients 0 sps ls None = (ls1, cls, err) ∧ cls ≡ₚ before ++ p :: after
    ∧ (∀ q, q ∈ before → (depth ls1 q ≤ depth ls1 p)%nat)
    ∧ (∀ q, q ∈ after → (depth ls1 p ≤ depth ls1 q)%nat)
    ∧ send_first before (SetVersion version (SetAction action msg)) ls1 err = (ls', m', None, e')
    ∧ ls' !! p = Some c ∧ client_Send m' c = (c', msg2, ch, None) ∧ ls2 = <[p := c']> ls'.
Proof.
  intros Hsh Hs. apply send_request_sent in Hs as (sps' & ls1 & cls & err & e2 & [= <-] & Hg & Hs).
  apply send_first_sent in Hs as (b & a & ls' & m' & e' & c & c' & Eo & Hrest).
  exists ls1, cls, err, b, a, ls', m', e', c, c'. split; [done|].
  pose proof (StronglySorted_merge_sort (no_deeper ls1) (shuffle cls)) as Hss. rewrite Eo in Hss.
  split; [by rewrite <- Eo, merge_sort_Permutation, Hsh|]. split; [|split; [|exact Hrest]].
  - intros q Hq. apply (StronglySorted_app_1_elem_of (no_deeper ls1) b (p :: a)); [done|done|left].
  - intros q Hq. apply StronglySorted_app_1_r in Hss. inversion Hss as [|x l _ Hall]; subst.
    rewrite Forall_forall in Hall. by apply Hall.
Qed.

(** C9. A request that was sent is answered: whatever else the client sends
    and receives meanwhile, the first reply with the number the request was
    given is what [MakeJSONRequest] returns. *)
Theorem request_answered n sector action version msg msgType f r r' sps ls ls2 msg2 p ch :
  (∀ l, shuffle l ≡ₚ l) → (∀ h c, Dial h = inr c → good (length sps + n) c) →
  map_Forall (λ _, good (length sps + n)) ls → envelope_name (m_Envelope msg) = Some msgType →
  refresher_SearchByAction sector action version msgType f r = Some (Ok (r', Ok sps)) →
  send_request sector action version msg (Ok sps) ls = (ls2, msg2, Ok (p, Some ch)) →
  ∃ c, ls2 !! p = Some c ∧ ∀ ops reply, (length ops ≤ n)%nat →
    Forall (leaves_alone (m_RequestID msg2)) ops →
    m_MessageType reply = MessageTypeReply → m_RequestID reply = m_RequestID msg2 →
    ∃ x, cl_chans (dispatch reply (run_ops ops c)) !! ch = Some x
      ∧ MakeJSONRequest sector action version msg f (chan_events x) r ls
        = Some (Ok (r', ls2, msg2, Replied reply)).
Proof.
  intros Hsh Hd Hl He Hf Hs.
  destruct (sent_registered n _ _ _ _ _ _ _ _ _ _ Hsh Hd Hl Hs) as (c & Hc & (Hi & Hlo & Hhi) & Ho & Hx).
  exists c. split; [done|]. intros ops reply Hn Hops Hr Hid.
  destruct (run_ops_keeps ops c (m_RequestID msg2) ch (mkChan [] false)) as (_ & Ho' & Hx');
    [done|done|lia|done..|].
  exists (mkChan [reply] false). split.
  - rewrite (dispatch_reply reply _ ch) by (done || by rewrite Hid).
    cbn. unfold send_on. by rewrite list_lookup_alter_eq, Hx'.
  - by rewrite (MakeJSONRequest_sent _ _ _ _ _ _ _ _ _ _ _ _ _ _ _ He Hf Hs).
Qed.

(** A request that times out stays in the client's table of open
    replies, whatever the client does afterwards, until its reply comes: the
    queue depth by which clients are chosen counts it for good. *)
Theorem timed_out_request_stays n sector action version msg msgType f r r' sps ls ls2 msg2 p ch :
  (∀ l, shuffle l ≡ₚ l) → (∀ h c, Dial h = inr c → good (length sps + n) c) →
  map_Forall (λ _, good (length sps + n)) ls → envelope_name (m_Envelope msg) = Some msgType →
  refresher_SearchByAction sector action version msgType f r = Some (Ok (r', Ok sps)) →
  send_request sector action version msg (Ok sps) ls = (ls2, msg2, Ok (p, Some ch)) →
  MakeJSONRequest sector action version msg f [TimeoutFired] r ls
  = Some (Ok (r', ls2, msg2, RequestError (bs "request timed out")))
  ∧ ∃ c, ls2 !! p = Some c ∧ ∀ ops, (length ops ≤ n)%nat →
      Forall (leaves_alone (m_RequestID msg2)) ops →
      cl_openReplies (run_ops ops c) !! m_RequestID msg2 = Some ch
      ∧ (1 ≤ depth (<[p := run_ops ops c]> ls2) p)%nat.
Proof.
  intros Hsh Hd Hl He Hf Hs.
  destruct (sent_registered n _ _ _ _ _ _ _ _ _ _ Hsh Hd Hl Hs) as (c & Hc & (Hi & Hlo & Hhi) & Ho & Hx).
  split; [by rewrite (MakeJSONRequest_sent _ _ _ _ _ _ _ _ _ _ _ _ _ _ _ He Hf Hs)|].
  exists c. split; [done|]. intros ops Hn Hops.
  destruct (run_ops_keeps ops c (m_RequestID msg2) ch (mkChan [] false)) as (_ & Ho' & _);
    [done|done|lia|done..|].
  split; [done|]. unfold depth. rewrite lookup_insert_eq.
  destruct (size (cl_openReplies (run_ops ops c))) eqn:E; [|lia].
  apply map_size_empty_inv in E. rewrite E, lookup_empty in Ho'. done.
Qed.

(** ** Closing a client *)

(** The start of [func (client *Client) Close()]: the proxy that the cache
    now knows under the ident of the client's proxy, wherever that is, loses
    its client, this one or another. *)
Definition Close_unlinks (known_at : serviceProxy → nat) (f : cache_file) (r : CacheRefresher) (ls : links) (c : Client)
    : option (outcome unit (CacheRefresher * links)) :=
  if cl_spIdent c =b [] then Some (Ok (r, ls))
  else and_then (refresher_Retrieve (cl_spIdent c) f r) (λ rsp,
         Some (Ok (rsp.1, match rsp.2 with Some sp => delete (known_at sp) ls | None => ls end))).
End requester.

(** ** A concrete request

    The cache of ServiceCacheFacts, one reachable instance. *)

Definition loaded_refresher : CacheRefresher :=
  mkRefresher scanned None None 0 false true polling_options.
Definition poll_request : Message := SetMessageType MessageTypeRequest NewMessage.
Definition poll_found : list serviceProxy := [stored_proxy good_entry].

Abbreviation poll_sent := (@send_request (λ _ _, 4) inr (λ _, inr fresh_client) id
  (bs "main") (bs "bgdispatcher.poll") 1 poll_request (Ok poll_found) ∅).
Abbreviation poll_MakeJSONRequest evs := (@MakeJSONRequest ascii_only toy_crypto
  (λ _ _, 4) inr (λ _, inr fresh_client) id
  (bs "main") (bs "bgdispatcher.poll") 1 poll_request Directory evs loaded_refresher ∅).

Lemma fresh_client_good n : (Z.of_nat n < 2 ^ 63)%Z → good n fresh_client.
Proof. intros Hn. split; [apply client_inv_new|]. cbn. lia. Qed.

Lemma poll_search :
  @refresher_SearchByAction ascii_only toy_crypto (bs "main") (bs "bgdispatcher.poll") 1 (bs "json")
    Directory loaded_refresher = Some (Ok (loaded_refresher, Ok poll_found)).
Proof. vm_compute. reflexivity. Qed.

Lemma least_loaded_first_witness :
  ∃ ls2 msg2, poll_sent = (ls2, msg2, Ok (4, Some 0)) ∧ ∃ c, ls2 !! 4 = Some c.
Proof.
  destruct poll_sent as [[ls2 msg2] s] eqn:E.
  assert (s = Ok (4, Some 0)) as -> by (vm_compute in E; injection E as _ _ <-; reflexivity).
  exists ls2, msg2. split; [reflexivity|].
  destruct (@least_loaded_first (λ _ _, 4) inr (λ _, inr fresh_client) id _ _ _ _ _ _ _ _ _ _
    ltac:(intros l; reflexivity) E)
    as (ls1 & cls & err & b & a & ls' & m' & e' & c & c' & _ & _ & _ & _ & _ & _ & _ & ->).
  exists c'. apply lookup_insert_eq.
Defined.

Lemma request_answered_witness :
  ∃ ls2 msg2 evs, poll_MakeJSONRequest evs
    = Some (Ok (loaded_refresher, ls2, msg2, Replied (hello_reply 1))).
Proof.
  destruct poll_sent as [[ls2 msg2] s] eqn:E.
  assert (s = Ok (4, Some 0) ∧ m_RequestID msg2 = 1%Z) as [-> Hm]
    by (vm_compute in E; injection E as _ <- <-; split; reflexivity).
  destruct (@request_answered ascii_only toy_crypto (λ _ _, 4) inr (λ _, inr fresh_client) id 2
    (bs "main") (bs "bgdispatcher.poll") 1 poll_request (bs "json") _ _ _ poll_found _ _ _ _ _ ltac:(intros l; reflexivity)
    ltac:(intros h c [= <-]; apply fresh_client_good; vm_compute; reflexivity) ltac:(apply map_Forall_empty)
    eq_refl poll_search E) as (c & _ & Hc).
  destruct (Hc [OpSend hello_request; OpRecv (hello_reply 2)] (hello_reply 1)) as (x & _ & Hx).
  - cbn. lia.
  - rewrite Hm. constructor; [done|]. constructor; [intros [_ H]; discriminate H | constructor].
  - reflexivity.
  - by rewrite Hm.
  - exists ls2, msg2, (chan_events x). exact Hx.
Defined.

Lemma timed_out_request_stays_witness :
  ∃ ls2 msg2, poll_MakeJSONRequest [TimeoutFired]
    = Some (Ok (loaded_refresher, ls2, msg2, RequestError (bs "request timed out")))
  ∧ ∃ c, ls2 !! 4 = Some c ∧ cl_openReplies (dispatch (hello_reply 2) c) !! 1%Z = Some 0.
Proof.
  destruct poll_sent as [[ls2 msg2] s] eqn:E.
  assert (s = Ok (4, Some 0) ∧ m_RequestID msg2 = 1%Z) as [-> Hm]
    by (vm_compute in E; injection E as _ <- <-; split; reflexivity).
  destruct (@timed_out_request_stays ascii_only toy_crypto (λ _ _, 4) inr (λ _, inr fresh_client) id 2
    (bs "main") (bs "bgdispatcher.poll") 1 poll_request (bs "json") _ _ _ poll_found _ _ _ _ _ ltac:(intros l; reflexivity)
    ltac:(intros h c [= <-]; apply fresh_client_good; vm_compute; reflexivity) ltac:(apply map_Forall_empty)
    eq_refl poll_search E) as (H & c & Hc & Hr).
  exists ls2, msg2. split; [exact H|]. exists c. split; [exact Hc|].
  destruct (Hr [OpRecv (hello_reply 2)]) as [Ho _].
  - cbn. lia.
  - rewrite Hm. constructor; [intros [_ H']; discriminate H' | constructor].
  - rewrite Hm in Ho. exact Ho.
Defined.
