(* ===== verification/ConfigLine.v ===== *)
(** src/scamp/config.go, the regular expression of a configuration line,
    [^\s*([\S^=]+)\s*=\s*([\S]+)]: its language, and the match Go's leftmost
    greedy search returns.

    Inside a class, [\S] already holds every non-blank, the [^] and the [=]
    included, so the key is any word.  A blank is one of the five ASCII
    bytes below, and a match can only end next to one of them or to a [=]:
    matching bytes is matching runes. *)
From S2P Require Import Prelude.

(** [\s] of Go's regular expressions. *)
Definition blank (c : byte) : bool :=
  let b := bv c in (b =? 9)%N || (b =? 10)%N || (b =? 12)%N || (b =? 13)%N || (b =? 32)%N.
Definition nonblank (c : byte) : bool := negb (blank c).

(** The language: what a key and a value may be in a line. *)
Definition line_match (line key value after : bytes) : Prop :=
  ∃ before b1 b2, line = before ++ key ++ b1 ++ bs "=" ++ b2 ++ value ++ after
    ∧ forallb blank (before ++ b1 ++ b2) = true
    ∧ forallb nonblank (key ++ value) = true ∧ key ≠ [] ∧ value ≠ [].

(** [\s*=\s*([\S]+)]: where the value starts, and the value. *)
Definition match_value (s : bytes) : option (nat * bytes) :=
  match span blank s with
  | (b1, c :: s1) =>
      if c =b "="%char then
        let '(b2, s2) := span blank s1 in
        match span nonblank s2 with
        | ([], _) => None
        | (v, _) => Some (length b1 + 1 + length b2, v)
        end
      else None
  | (_, []) => None
  end.

(** The key is the first [k] bytes of the word, for the largest [k] that
    leaves a match of the rest. *)
Fixpoint match_key (k : nat) (s : bytes) : option (nat * nat * bytes) :=
  match k with
  | O => None
  | S k' =>
      match match_value (drop k s) with
      | Some (i, v) => Some (k, k + i, v)
      | None => match_key k' s
      end
  end.

(** [configLine.FindSubmatch(line)]: the key, the offset of the value in the
    line, and the value. *)
Definition configLine (line : bytes) : option (bytes * nat * bytes) :=
  let '(before, s) := span blank line in
  let '(word, _) := span nonblank s in
  match match_key (length word) s with
  | Some (k, i, v) => Some (take k s, length before + i, v)
  | None => None
  end.

(** ** Lemmas *)

Lemma blank_not_nonblank c : blank c = true → nonblank c = false.
Proof. unfold nonblank. by intros ->. Qed.

Lemma eq_nonblank : nonblank "="%char = true.
Proof. reflexivity. Qed.

Lemma span_forallb {A} (p : A → bool) l : forallb p (span p l).1 = true.
Proof.
  induction l as [|x l IH]; [done|]. cbn. destruct (p x) eqn:E; [|done].
  destruct (span p l). cbn in *. by rewrite E.
Qed.

Lemma span_rest_head {A} (p : A → bool) l x r : (span p l).2 = x :: r → p x = false.
Proof.
  induction l as [|y l IH]; [done|]. cbn. destruct (p y) eqn:E; [|by intros [= <- _]].
  destruct (span p l). cbn in *. exact IH.
Qed.

(** Splitting at the end of a block is unique. *)
Lemma span_of_app {A} (p : A → bool) a b :
  forallb p a = true → (∀ x r, b = x :: r → p x = false) → span p (a ++ b) = (a, b).
Proof.
  intros Ha Hb. induction a as [|x a IH]; cbn in *.
  - destruct b as [|x b]; [done|]. cbn. by rewrite (Hb x b).
  - apply andb_true_iff in Ha as [-> Ha]. by rewrite IH.
Qed.

Lemma match_value_sound s i v :
  match_value s = Some (i, v) →
  ∃ b1 b2 after, s = b1 ++ bs "=" ++ b2 ++ v ++ after
    ∧ i = (length b1 + 1 + length b2)%nat
    ∧ forallb blank (b1 ++ b2) = true ∧ forallb nonblank v = true ∧ v ≠ []
    ∧ (∀ x r, after = x :: r → blank x = true).
Proof.
  unfold match_value. destruct (span blank s) as [b1 [|c s1]] eqn:E1; [done|].
  case_bool_decide as Hc; [subst c|done].
  destruct (span blank s1) as [b2 s2] eqn:E2. destruct (span nonblank s2) as [[|x v'] after] eqn:E3; [done|].
  intros [= <- <-]. exists b1, b2, after.
  pose proof (span_eq _ _ _ _ E1) as ->. pose proof (span_eq _ _ _ _ E2) as ->.
  pose proof (span_eq _ _ _ _ E3) as ->.
  pose proof (span_forallb blank (b1 ++ "="%char :: b2 ++ (x :: v') ++ after)) as F1.
  rewrite E1 in F1. pose proof (span_forallb blank (b2 ++ (x :: v') ++ after)) as F2. rewrite E2 in F2.
  pose proof (span_forallb nonblank ((x :: v') ++ after)) as F3. rewrite E3 in F3.
  split; [done|]. split; [done|]. split; [by rewrite forallb_app; apply andb_true_iff|].
  split; [done|]. split; [done|]. intros y r ->.
  assert (nonblank y = false) as Hy by (eapply (span_rest_head nonblank); by rewrite E3).
  unfold nonblank in Hy. by apply negb_false_iff in Hy.
Qed.

(** A match of the tail is found, whatever its value is cut to. *)
Lemma match_value_complete b1 b2 v after :
  forallb blank (b1 ++ b2) = true → forallb nonblank v = true → v ≠ [] →
  match_value (b1 ++ bs "=" ++ b2 ++ v ++ after) ≠ None.
Proof.
  intros Hb Hv Hn. rewrite forallb_app in Hb. apply andb_true_iff in Hb as [Hl Hr].
  destruct v as [|x v]; [done|]. cbn [forallb] in Hv. apply andb_true_iff in Hv as [Hx Hv].
  unfold match_value. rewrite (span_of_app blank b1); [|done|by intros ? ? [= <- _]].
  change (bs "=") with ["="%char]. cbn [app]. rewrite bool_decide_true by done.
  rewrite (span_of_app blank b2); [|done|].
  2:{ intros y r [= <- _]. unfold nonblank in Hx. by apply negb_true_iff in Hx. }
  cbn [app span]. rewrite Hx. by destruct (span nonblank (v ++ after)).
Qed.

Lemma match_key_sound k s k' i v :
  match_key k s = Some (k', i, v) →
  (0 < k' ≤ k)%nat ∧ (∃ j, match_value (drop k' s) = Some (j, v) ∧ i = (k' + j)%nat)
  ∧ ∀ n, (k' < n ≤ k)%nat → match_value (drop n s) = None.
Proof.
  induction k as [|k IH]; [done|]. cbn [match_key].
  destruct (match_value (drop (S k) s)) as [[j w]|] eqn:E.
  - intros [= <- <- <-]. split; [lia|]. split; [by exists j|]. intros n Hn. lia.
  - intros (H1 & H2 & H3)%IH. split; [lia|]. split; [done|]. intros n Hn.
    destruct (decide (n = S k)) as [->|]; [done|]. apply H3. lia.
Qed.

Lemma match_key_none k s :
  match_key k s = None → ∀ n, (0 < n ≤ k)%nat → match_value (drop n s) = None.
Proof.
  induction k as [|k IH]; [lia|]. cbn [match_key].
  destruct (match_value (drop (S k) s)) as [[j w]|] eqn:E; [done|]. intros H n Hn.
  destruct (decide (n = S k)) as [->|]; [done|]. apply IH; [done|lia].
Qed.

Lemma nonblank_head k x r : forallb nonblank k = true → k = x :: r → blank x = false.
Proof. intros Hk ->. cbn in Hk. apply andb_true_iff in Hk as [Hx _]. by apply negb_true_iff in Hx. Qed.

(** Every match of a line is one [match_key] tries. *)
Lemma line_match_tried line key v after :
  line_match line key v after →
  let s := (span blank line).2 in
  (0 < length key ≤ length (span nonblank s).1)%nat ∧ match_value (drop (length key) s) ≠ None.
Proof.
  intros (before & b1 & b2 & -> & Hb & Hw & Hk & Hv) s.
  rewrite !forallb_app in Hb, Hw. apply andb_true_iff in Hb as [Hb0 Hb12], Hw as [Hwk Hwv].
  assert (s = key ++ b1 ++ bs "=" ++ b2 ++ v ++ after) as Es.
  { unfold s. rewrite span_of_app; [done|done|]. intros x r E.
    destruct key as [|y key]; [done|]. injection E as -> _. eapply nonblank_head; [exact Hwk | reflexivity]. }
  split.
  - split; [destruct key; [done|cbn; lia]|]. rewrite Es. clear -Hwk.
    induction key as [|x key IH]; [cbn; lia|]. cbn [forallb] in Hwk. cbn [app span]. apply andb_true_iff in Hwk as [-> Hwk].
    destruct (span nonblank (key ++ _)) as [a b]. cbn in *. specialize (IH Hwk). lia.
  - rewrite Es, drop_app_exact. by apply match_value_complete.
Qed.

(** The match that is found. *)
Lemma configLine_found line key i v :
  configLine line = Some (key, i, v) →
  (∃ after, line_match line key v after ∧ (∀ x r, after = x :: r → blank x = true))
  ∧ take (length v) (drop i line) = v
  ∧ ∀ n, (length key < n ≤ length (span nonblank (span blank line).2).1)%nat →
      match_value (drop n (span blank line).2) = None.
Proof.
  unfold configLine. destruct (span blank line) as [before s] eqn:E1.
  destruct (span nonblank s) as [word r] eqn:E2. cbn [fst snd]. rewrite E2. cbn [fst].
  destruct (match_key (length word) s) as [[[k j] w]|] eqn:E; [|done]. intros [= <- <- ->].
  apply match_key_sound in E as (Hk & (m & Hv & ->) & Hl).
  apply match_value_sound in Hv as (b1 & b2 & after & Es & -> & Hb & Hw & Hv & Ha).
  pose proof (span_eq _ _ _ _ E1) as ->. pose proof (span_eq _ _ _ _ E2) as ->.
  pose proof (span_forallb blank (before ++ word ++ r)) as F1. rewrite E1 in F1.
  pose proof (span_forallb nonblank (word ++ r)) as F2. rewrite E2 in F2. cbn [fst] in F1, F2.
  assert (length (take k (word ++ r)) = k) as Hlk by (rewrite length_take, length_app; lia).
  assert (forallb nonblank (take k (word ++ r)) = true) as Hwk.
  { rewrite take_app_le by lia. rewrite <- (take_drop k word), forallb_app in F2.
    by apply andb_true_iff in F2 as [F2 _]. }
  rewrite Hlk. assert (before ++ word ++ r
    = before ++ take k (word ++ r) ++ b1 ++ bs "=" ++ b2 ++ v ++ after) as Et.
  { rewrite <- Es. by rewrite take_drop. }
  split; [|split; [|exact Hl]].
  - exists after. split; [|done]. exists before, b1, b2. split; [done|].
    rewrite !forallb_app in *. apply andb_true_iff in Hb as [-> ->]. rewrite F1, Hwk, Hw.
    split; [done|]. split; [done|]. split; [|done]. intros En. rewrite En in Hlk. cbn in Hlk. lia.
  - rewrite Et. revert Hlk. generalize (take k (word ++ r)). intros key <-. rewrite !app_assoc.
    replace (length before + (length key + (length b1 + 1 + length b2)))%nat
      with (length ((((before ++ key) ++ b1) ++ bs "=") ++ b2))
      by (rewrite !length_app; change (length (bs "=")) with 1; lia).
    rewrite <- (app_assoc _ v after), drop_app_exact. apply take_app_exact.
Qed.

(** C27. [FindSubmatch] on a configuration line: a match is found exactly
    when the line has one; it is one of the language, its key is the longest
    possible, its value runs to the next blank, and the offset is where the
    value stands in the line. *)
Theorem configLine_greedy line :
  match configLine line with
  | Some (key, i, v) =>
      (∃ after, line_match line key v after ∧ (∀ x r, after = x :: r → blank x = true))
      ∧ take (length v) (drop i line) = v
      ∧ (∀ key' v' after', line_match line key' v' after' → (length key' ≤ length key)%nat)
  | None => ∀ key v after, ¬ line_match line key v after
  end.
Proof.
  pose proof (line_match_tried line) as Hm. destruct (configLine line) as [[[key i] v]|] eqn:E.
  - apply configLine_found in E as (H1 & H2 & H3). split; [done|]. split; [done|].
    intros key' v' after' [Hk Hn]%Hm. destruct (decide (length key' ≤ length key)%nat); [done|].
    exfalso. apply Hn, H3. lia.
  - intros key v after [Hk Hn]%Hm. unfold configLine in E.
    destruct (span blank line) as [before s]. cbn [snd] in *.
    destruct (span nonblank s) as [word r]. cbn [fst] in *.
    destruct (match_key (length word) s) as [[[k j] w]|] eqn:Em; [done|].
    by apply Hn, (match_key_none _ _ Em).
Qed.

(** Values that hold a [=] are cut, and a comment is a key. *)
Example equals_in_value : configLine (bs "url=http://x/?a=b") = Some (bs "url=http://x/?a", 16, bs "b").
Proof. vm_compute. reflexivity. Qed.
Example comment_is_key : configLine (bs "#port = 80") = Some (bs "#port", 8, bs "80").
Proof. vm_compute. reflexivity. Qed.
Example plain_line : configLine (bs "  port = 80 # http") = Some (bs "port", 9, bs "80").
Proof. vm_compute. reflexivity. Qed.

Lemma configLine_greedy_witness : (length (bs "url") ≤ length (bs "url=http://x/?a"))%nat.
Proof.
  pose proof (configLine_greedy (bs "url=http://x/?a=b")) as H.
  replace (configLine (bs "url=http://x/?a=b")) with (Some (bs "url=http://x/?a", 16, bs "b")) in H
    by (vm_compute; reflexivity).
  destruct H as (_ & _ & H). apply (H (bs "url") (bs "http://x/?a=b") []).
  exists [], [], []. split; [vm_compute; reflexivity|]. split; [reflexivity|].
  split; [vm_compute; reflexivity|]. split; discriminate.
Defined.
