(* ===== verification/Config.v ===== *)
(** src/scamp/config.go: the configuration file and its values.

    [doLoad] stores the second group of the match, which is a slice of the
    scanner's buffer, and the scanner goes on using that buffer: the model
    therefore has a heap of buffers, the values are slices of it, and
    [bufio.Scanner] is written out with its shifting and growing.  The sizes
    of the buffer, 4096 bytes at first and at most 64 kB, are parameters of
    the scanner; a file delivers as many bytes as are asked for. *)
From S2P Require Import Prelude Strconv GoIO Scanner Service ConfigLine.

(** ** Slices of a heap of buffers *)

Record slice := mkSlice { sl_buf : nat; sl_off : nat; sl_len : nat }.

Definition buffer (h : list bytes) (b : nat) : bytes := default [] (h !! b).
Definition read_slice (h : list bytes) (x : slice) : bytes :=
  take (sl_len x) (drop (sl_off x) (buffer h (sl_buf x))).

(** [copy(buf[at:], src)], for a source that fits. *)
Definition overwrite (at_ : nat) (src buf : bytes) : bytes :=
  take at_ buf ++ src ++ drop (at_ + length src) buf.

(** ** bufio.Scanner *)

Definition startBufSize : nat := Z.to_nat 4096.

(** The scanner: its buffer, the bounds of the data in it, the unread rest
    of the file, and whether it has met the end of the file or an error. *)
Record line_scanner := mkLineScanner {
  ls_buf : nat; ls_start : nat; ls_end : nat; ls_rest : bytes; ls_err : bool
}.

(** [bufio.ScanLines]: the advance, and the length of the token. *)
Definition ScanLines (data : bytes) (atEOF : bool) : nat * option nat :=
  if atEOF && (data =b []) then (0, None)
  else match span not_lf data with
       | (line, _ :: _) => (S (length line), Some (length (drop_cr line)))
       | (_, []) => if atEOF then (length data, Some (length (drop_cr data))) else (0, None)
       end.

Definition pending (h : list bytes) (s : line_scanner) : bytes :=
  take (ls_end s - ls_start s) (drop (ls_start s) (buffer h (ls_buf s))).

(** "shift data to beginning of buffer if there's lots of empty space or
    space is needed" *)
Definition shift_data (h : list bytes) (s : line_scanner) : list bytes * line_scanner :=
  let buf := buffer h (ls_buf s) in
  if (0 <? ls_start s)%nat && ((ls_end s =? length buf)%nat || (length buf / 2 <? ls_start s)%nat)
  then (<[ls_buf s := overwrite 0 (pending h s) buf]> h,
        mkLineScanner (ls_buf s) 0 (ls_end s - ls_start s) (ls_rest s) (ls_err s))
  else (h, s).

(** "Is the buffer full? If so, resize."  [None]: [ErrTooLong]. *)
Definition grow (first max : nat) (h : list bytes) (s : line_scanner)
    : option (list bytes * line_scanner) :=
  let buf := buffer h (ls_buf s) in
  if (ls_end s =? length buf)%nat then
    if (max <=? length buf)%nat then None
    else
      let newSize := Nat.min (if (length buf =? 0)%nat then first else length buf * 2) max in
      let newBuf := overwrite 0 (pending h s) (replicate newSize (chr 0)) in
      Some (h ++ [newBuf],
            mkLineScanner (length h) 0 (ls_end s - ls_start s) (ls_rest s) (ls_err s))
  else Some (h, s).

(** One [Read] into the free part of the buffer. *)
Definition read_more (h : list bytes) (s : line_scanner) : list bytes * line_scanner :=
  let buf := buffer h (ls_buf s) in
  match ls_rest s with
  | [] => (h, mkLineScanner (ls_buf s) (ls_start s) (ls_end s) [] true)
  | rest =>
      let chunk := take (length buf - ls_end s) rest in
      (<[ls_buf s := overwrite (ls_end s) chunk buf]> h,
       mkLineScanner (ls_buf s) (ls_start s) (ls_end s + length chunk)
         (drop (length chunk) rest) (ls_err s))
  end.

(** [func (s *Scanner) Scan() bool], with the token.  Every round reads a
    byte or meets the end of the file, so the unread bytes bound them. *)
Fixpoint scan_token (first max fuel : nat) (h : list bytes) (s : line_scanner)
    : option (list bytes * line_scanner * option slice) :=
  match fuel with
  | O => None
  | S f =>
      let '(advance, token) :=
        if (ls_start s <? ls_end s)%nat || ls_err s then ScanLines (pending h s) (ls_err s)
        else (0, None) in
      match token with
      | Some n =>
          Some (h, mkLineScanner (ls_buf s) (ls_start s + advance) (ls_end s) (ls_rest s) (ls_err s),
                Some (mkSlice (ls_buf s) (ls_start s) n))
      | None =>
          if ls_err s
          then Some (h, mkLineScanner (ls_buf s) 0 0 (ls_rest s) true, None)
          else
            let '(h1, s1) := shift_data h s in
            match grow first max h1 s1 with
            | None => Some (h1, mkLineScanner (ls_buf s1) (ls_start s1) (ls_end s1) (ls_rest s1) true, None)
            | Some (h2, s2) =>
                let '(h3, s3) := read_more h2 s2 in scan_token first max f h3 s3
            end
      end
  end.

(** ** The configuration *)

Record Config := mkConfig { heap : list bytes; values : gmap bytes slice }.

Definition NewConfig : Config := mkConfig [] ∅.

(** The loop of [doLoad], over the heap and the values. *)
Fixpoint load_loop (first max fuel : nat) (h : list bytes) (s : line_scanner) (vs : gmap bytes slice)
    : option (list bytes * gmap bytes slice) :=
  match fuel with
  | O => None
  | S f =>
      match scan_token first max (S (S (length (ls_rest s)))) h s with
      | None => None
      | Some (h', s', None) => Some (h', vs)
      | Some (h', s', Some tok) =>
          let vs' := match configLine (read_slice h' tok) with
                     | Some (key, i, v) => <[key := mkSlice (sl_buf tok) (sl_off tok + i) (length v)]> vs
                     | None => vs
                     end in
          load_loop first max f h' s' vs'
      end
  end.

(** [func (conf *Config) doLoad(scanner)], on a new scanner of a file: its
    buffer is nil at first.  The scanner's error is not looked at. *)
Definition doLoad (first max : nat) (file : bytes) (conf : Config) : option Config :=
  let h := heap conf ++ [[]] in
  let s := mkLineScanner (length (heap conf)) 0 0 file false in
  match load_loop first max (S (length file)) h s (values conf) with
  | Some (h', vs) => Some (mkConfig h' vs)
  | None => None
  end.

(** [func (conf *Config) Load(configPath string) (err error)], on what
    [os.Open] gives. *)
Definition Load (configPath : bytes) (opened : bytes + bytes) (conf : Config)
    : option (Config * option bytes) :=
  match opened with
  | inl err => Some (conf, Some (bs "couldn't read config from `" ++ configPath ++ bs "`: " ++ err))
  | inr file =>
      match doLoad startBufSize MaxScanTokenSize file conf with
      | Some conf' => Some (conf', None)
      | None => None
      end
  end.

(** [conf.values[key]], read now; [None] for a key that is not there. *)
Definition value_of (key : bytes) (conf : Config) : option bytes :=
  read_slice (heap conf) <$> values conf !! key.

(** [func (conf *Config) Get(key string) (value string, ok bool)]. *)
Definition Get (key : bytes) (conf : Config) : bytes * bool :=
  (default [] (value_of key conf), if value_of key conf is Some _ then true else false).

(** [func (conf *Config) Set(key string, value string)]: a buffer of its own. *)
Definition Config_Set (key value : bytes) (conf : Config) : Config :=
  mkConfig (heap conf ++ [value]) (<[key := mkSlice (length (heap conf)) 0 (length value)]> (values conf)).

Definition ServiceKeyPath (serviceName : bytes) (conf : Config) : bytes :=
  default (bs "/etc/GT_private/services/" ++ serviceName ++ bs ".key")
    (value_of (serviceName ++ bs ".soa_key") conf).
Definition ServiceCertPath (serviceName : bytes) (conf : Config) : bytes :=
  default (bs "/etc/GT_private/services/" ++ serviceName ++ bs ".crt")
    (value_of (serviceName ++ bs ".soa_cert") conf).

(** [net.IPv4(239, 63, 248, 106)] is in its 16-byte form. *)
Definition defaultGroupIP : IP := v4InV6Prefix ++ map chr [239; 63; 248; 106]%N.
Definition defaultGroupPort : Z := 5555.
Definition defaultLogLevel : Z := 2.

(** A number, or the default if there is none or it does not parse. *)
Definition number_of (key : bytes) (dflt : Z) (conf : Config) : Z :=
  match value_of key conf with
  | None => dflt
  | Some v => match ParseInt v with inl _ => dflt | inr n => n end
  end.

Definition DiscoveryMulticastPort : Config → Z := number_of (bs "discovery.port") defaultGroupPort.
Definition LocalDiscoveryMulticastPort : Config → Z :=
  number_of (bs "discovery.local_port") defaultGroupPort.
Definition LogLevel : Config → Z := number_of (bs "log.level") defaultLogLevel.
Definition LocalDiscoveryMulticast (conf : Config) : bool :=
  if value_of (bs "discovery.local_multicast") conf is Some _ then true else false.

Section net.
(** [net.ParseIP]; [None] is nil. *)
Context (ParseIP : bytes → option IP).

Definition ip_of (key : bytes) (conf : Config) : option IP :=
  match value_of key conf with
  | Some rawAddr => ParseIP rawAddr
  | None => Some defaultGroupIP
  end.
Definition DiscoveryMulticastIP : Config → option IP := ip_of (bs "discovery.multicast_address").
Definition LocalDiscoveryMulticastIP : Config → option IP :=
  ip_of (bs "discovery.local_multicast_address").
End net.

Definition RunningServiceFileDirPath (conf : Config) : option bytes * option bytes :=
  let v := value_of (bs "service.running_service_file_dir_path") conf in
  (v, if v is Some _ then None else Some (bs "Running service file dir path config value not found")).
