(* ===== verification/ConfigFacts.v ===== *)
(** Config.v: loading ends, a file of terminated lines that fits the first
    buffer is loaded as written, and what the shared buffer does to others. *)
From S2P Require Import Prelude Strconv GoIO Scanner Service ConfigLine Config.

(** ** Buffers *)

Lemma length_overwrite at_ src buf :
  (at_ + length src ≤ length buf)%nat → length (overwrite at_ src buf) = length buf.
Proof. intros H. unfold overwrite. rewrite !length_app, length_take, length_drop. lia. Qed.

Lemma buffer_insert h b l : (b < length h)%nat → buffer (<[b := l]> h) b = l.
Proof. intros H. unfold buffer. by rewrite list_lookup_insert_eq. Qed.

Lemma buffer_snoc h l : buffer (h ++ [l]) (length h) = l.
Proof. unfold buffer. by rewrite list_lookup_middle. Qed.

Lemma read_slice_app h h2 x : (sl_buf x < length h)%nat → read_slice (h ++ h2) x = read_slice h x.
Proof. intros H. unfold read_slice, buffer. by rewrite lookup_app_l. Qed.

(** The data of the scanner lie in its buffer. *)
Definition scanner_wf (h : list bytes) (s : line_scanner) : Prop :=
  (ls_buf s < length h)%nat ∧ (ls_start s ≤ ls_end s ≤ length (buffer h (ls_buf s)))%nat.

(** What a scan has left: unread bytes and bytes in the buffer. *)
Definition left_to_scan (s : line_scanner) : nat := length (ls_rest s) + (ls_end s - ls_start s).

Lemma length_pending h s : scanner_wf h s → length (pending h s) = (ls_end s - ls_start s)%nat.
Proof. intros [_ H]. unfold pending. rewrite length_take, length_drop. lia. Qed.

Lemma shift_data_wf h s h1 s1 :
  scanner_wf h s → shift_data h s = (h1, s1) →
  scanner_wf h1 s1 ∧ length h1 = length h ∧ ls_rest s1 = ls_rest s ∧ ls_err s1 = ls_err s
  ∧ left_to_scan s1 = left_to_scan s.
Proof.
  intros Hw. unfold shift_data. destruct (_ && _); intros [= <- <-]; [|done].
  pose proof (length_pending h s Hw) as Hp. destruct Hw as [Hb Hse]. unfold left_to_scan, scanner_wf.
  cbn. rewrite length_insert, buffer_insert by done. rewrite length_overwrite by lia.
  split; [lia|]. repeat (split; [done|]). lia.
Qed.

Lemma new_size_larger len first max :
  (0 < first)%nat → (len < max)%nat → (len < Nat.min (if (len =? 0)%nat then first else len * 2) max)%nat.
Proof. intros Hf Hm. apply Nat.min_glb_lt; [|done]. destruct (Nat.eqb_spec len 0); lia. Qed.

Lemma grow_wf first max h s h2 s2 :
  (0 < first)%nat → scanner_wf h s → grow first max h s = Some (h2, s2) →
  scanner_wf h2 s2 ∧ (length h ≤ length h2)%nat ∧ ls_rest s2 = ls_rest s ∧ ls_err s2 = ls_err s
  ∧ left_to_scan s2 = left_to_scan s ∧ (ls_end s2 < length (buffer h2 (ls_buf s2)))%nat.
Proof.
  intros Hf Hw. unfold grow. pose proof (length_pending h s Hw) as Hp.
  destruct Hw as [Hb Hse]. destruct (Nat.eqb_spec (ls_end s) (length (buffer h (ls_buf s)))) as [He|He].
  2:{ intros [= <- <-]. split; [by split|]. repeat (split; [done|]). lia. }
  destruct (Nat.leb_spec max (length (buffer h (ls_buf s)))) as [|Hm]; [done|].
  intros [= <- <-]. unfold left_to_scan, scanner_wf. cbn [ls_buf ls_start ls_end ls_rest ls_err].
  rewrite buffer_snoc, length_app. cbn [length].
  pose proof (new_size_larger _ first max Hf Hm) as Hn. revert Hn. generalize (Nat.min
    (if (length (buffer h (ls_buf s)) =? 0)%nat then first else length (buffer h (ls_buf s)) * 2) max).
  intros n Hn.
  rewrite length_overwrite by (rewrite length_replicate; lia). rewrite length_replicate.
  split_and!; (done || lia).
Qed.

Lemma read_more_wf h s h3 s3 :
  scanner_wf h s → (ls_end s < length (buffer h (ls_buf s)))%nat → ls_err s = false →
  read_more h s = (h3, s3) →
  scanner_wf h3 s3 ∧ length h3 = length h ∧ left_to_scan s3 = left_to_scan s
  ∧ (ls_err s3 = true ∧ ls_rest s3 = [] ∧ ls_rest s = []
     ∨ ls_err s3 = false ∧ (length (ls_rest s3) < length (ls_rest s))%nat).
Proof.
  intros [Hb Hse] Hfree He. unfold read_more, left_to_scan, scanner_wf.
  destruct (ls_rest s) as [|c rest] eqn:Er; intros [= <- <-]; cbn [ls_buf ls_start ls_end ls_rest ls_err].
  - split; [by split|]. repeat (split; [done|]). by left.
  - rewrite length_insert, buffer_insert by done.
    assert (length (take (length (buffer h (ls_buf s)) - ls_end s) (c :: rest))
      = Nat.min (length (buffer h (ls_buf s)) - ls_end s) (S (length rest))) as Hl
      by by rewrite length_take.
    rewrite length_overwrite, length_drop by lia. rewrite Hl. cbn [length].
    split; [lia|]. split; [done|]. split; [lia|]. right. split; [done|]. lia.
Qed.

Lemma ScanLines_advance data e a n :
  ScanLines data e = (a, Some n) → (0 < a ≤ length data)%nat.
Proof.
  unfold ScanLines. destruct (e && (data =b [])) eqn:E; [done|].
  destruct (span not_lf data) as [line [|c r]] eqn:Es.
  - destruct e; [|done]. intros [= <- _]. cbn in E. case_bool_decide; [done|]. by destruct data; cbn; [|lia].
  - intros [= <- _]. apply span_eq in Es as ->. rewrite length_app. cbn. lia.
Qed.

(** A scan ends, and takes something off. *)
Lemma scan_token_ends first max fuel h s :
  (0 < first)%nat → scanner_wf h s →
  (length (ls_rest s) + (if ls_err s then 0 else 1) < fuel)%nat →
  ∃ h' s' tok, scan_token first max fuel h s = Some (h', s', tok)
    ∧ scanner_wf h' s' ∧ (length h ≤ length h')%nat
    ∧ (∀ x, tok = Some x → (sl_buf x < length h')%nat ∧ (left_to_scan s' < left_to_scan s)%nat).
Proof.
  intros Hf. revert h s. induction fuel as [|fuel IH]; intros h s Hw Hfu; [lia|]. cbn [scan_token].
  destruct (if _ || ls_err s then _ else _) as [a [n|]] eqn:Et.
  - destruct ((ls_start s <? ls_end s)%nat || ls_err s); [|done].
    apply ScanLines_advance in Et. rewrite (length_pending h s Hw) in Et. destruct Hw as [Hb Hse].
    eexists _, _, _. split; [reflexivity|]. unfold scanner_wf, left_to_scan. cbn.
    split; [lia|]. split; [lia|]. intros x [= <-]. cbn. lia.
  - destruct (ls_err s) eqn:Ee.
    { eexists _, _, _. split; [reflexivity|]. destruct Hw as [Hb Hse]. unfold scanner_wf. cbn.
      split; [lia|]. split; [lia | done]. }
    destruct (shift_data h s) as [h1 s1] eqn:E1.
    apply shift_data_wf in E1 as (Hw1 & Hh1 & Hr1 & He1 & Hl1); [|done].
    destruct (grow first max h1 s1) as [[h2 s2]|] eqn:E2.
    2:{ eexists _, _, _. split; [reflexivity|]. split; [exact Hw1|]. split; [lia | done]. }
    apply grow_wf in E2 as (Hw2 & Hh2 & Hr2 & He2 & Hl2 & Hfree); [|done..].
    destruct (read_more h2 s2) as [h3 s3] eqn:E3.
    apply read_more_wf in E3 as (Hw3 & Hh3 & Hl3 & Hc); [|done|done|congruence].
    destruct (IH h3 s3 Hw3) as (h' & s' & tok & Hs & Hw' & Hh' & Htok).
    { destruct Hc as [(-> & -> & _)|(-> & Hlt)]; cbn [length]; rewrite ?Hr2, ?Hr1 in *; lia. }
    exists h', s', tok. split; [done|]. split; [done|]. split; [lia|].
    intros x Hx. apply Htok in Hx as [H1 H2]. split; [done|]. lia.
Qed.

(** ** Loading *)

(** The slices of a configuration lie in its heap. *)
Definition values_wf (h : list bytes) (vs : gmap bytes slice) : Prop :=
  ∀ k x, vs !! k = Some x → (sl_buf x < length h)%nat.
Definition conf_wf (conf : Config) : Prop := values_wf (heap conf) (values conf).

Lemma values_wf_grow h h' vs : (length h ≤ length h')%nat → values_wf h vs → values_wf h' vs.
Proof. intros Hh Hv k x Hk. specialize (Hv k x Hk). lia. Qed.

Lemma values_wf_insert h vs k x :
  (sl_buf x < length h)%nat → values_wf h vs → values_wf h (<[k := x]> vs).
Proof. intros Hx Hv k' y [[_ <-]|[_ Hy]]%lookup_insert_Some; [done | by eapply Hv]. Qed.

Lemma load_loop_ends first max fuel h s vs :
  (0 < first)%nat → scanner_wf h s → values_wf h vs → (left_to_scan s < fuel)%nat →
  ∃ h' vs', load_loop first max fuel h s vs = Some (h', vs') ∧ values_wf h' vs'.
Proof.
  intros Hf. revert h s vs. induction fuel as [|fuel IH]; intros h s vs Hw Hv Hfu; [lia|].
  cbn [load_loop].
  destruct (scan_token_ends first max (S (S (length (ls_rest s)))) h s) as (h1 & s1 & tok & -> & Hw1 & Hh1 & Ht);
    [done|done|destruct (ls_err s); lia|].
  destruct tok as [x|]; [|by exists h1, vs; eauto using values_wf_grow].
  destruct (Ht x eq_refl) as [Hx Hl]. apply IH; [done| |lia].
  assert (values_wf h1 vs) as Hv1 by by eapply values_wf_grow.
  destruct (configLine _) as [[[key i] v]|]; [|done]. by apply values_wf_insert.
Qed.

Lemma doLoad_ends first max file conf :
  (0 < first)%nat → conf_wf conf → ∃ conf', doLoad first max file conf = Some conf' ∧ conf_wf conf'.
Proof.
  intros Hf Hc. unfold doLoad.
  destruct (load_loop_ends first max (S (length file)) (heap conf ++ [[]])
    (mkLineScanner (length (heap conf)) 0 0 file false) (values conf)) as (h' & vs' & -> & Hv);
    [done| | |unfold left_to_scan; cbn; lia|by eexists].
  - unfold scanner_wf. cbn. rewrite length_app. cbn. lia.
  - eapply values_wf_grow; [|exact Hc]. rewrite length_app. lia.
Qed.

(** What the lines say about a key: the last line that sets it. *)
Fixpoint last_setting (lines : list bytes) (key : bytes) (before : option bytes) : option bytes :=
  match lines with
  | [] => before
  | l :: r =>
      last_setting r key
        (match configLine (drop_cr l) with
         | Some (k, _, v) => if k =b key then Some v else before
         | None => before
         end)
  end.

Definition file_of (lines : list bytes) : bytes := concat (map (λ l, l ++ [LF]) lines).

(** A scanner whose whole file is in its buffer, after some of its data. *)
Definition loaded (h : list bytes) (hb : nat) (done_ rest : bytes) : line_scanner :=
  mkLineScanner hb (length done_) (length done_ + length rest) [] false.
Definition holds (h : list bytes) (hb : nat) (file : bytes) : Prop :=
  (hb < length h)%nat ∧ ∃ pad, buffer h hb = file ++ pad.

Lemma pending_loaded h hb d rest :
  holds h hb (d ++ rest) → pending h (loaded h hb d rest) = rest.
Proof.
  intros (_ & pad & E). unfold pending, loaded. cbn. rewrite E, <- app_assoc, drop_app_exact.
  replace (length d + length rest - length d)%nat with (length rest) by lia. apply take_app_exact.
Qed.

Lemma drop_cr_prefix l : ∃ t, l = drop_cr l ++ t.
Proof.
  unfold drop_cr. destruct (last l); [|by exists []; rewrite app_nil_r]. case_bool_decide.
  - exists (drop (length l - 1) l). by rewrite take_drop.
  - exists []. by rewrite app_nil_r.
Qed.

(** The next line is returned from the buffer. *)
Lemma scan_loaded_line first max fuel h hb d l rest :
  forallb not_lf l = true → holds h hb (d ++ l ++ LF :: rest) → (0 < fuel)%nat →
  scan_token first max fuel h (loaded h hb d (l ++ LF :: rest))
  = Some (h, loaded h hb (d ++ l ++ [LF]) rest, Some (mkSlice hb (length d) (length (drop_cr l)))).
Proof.
  intros Hl Hh Hf. destruct fuel as [|fuel]; [lia|]. cbn [scan_token].
  rewrite pending_loaded by done. unfold loaded. cbn [ls_start ls_end ls_err ls_buf ls_rest].
  rewrite (proj2 (Nat.ltb_lt _ _)) by (rewrite length_app; cbn; lia). cbn [orb].
  unfold ScanLines. cbn [andb]. rewrite (span_of_app not_lf l); [|done|by intros ? ? [= <- _]].
  rewrite !length_app. cbn [length].
  replace (length d + (length l + S (length rest)))%nat with (length d + (length l + 1) + length rest)%nat by lia.
  by replace (length d + S (length l))%nat with (length d + (length l + 1))%nat by lia.
Qed.

(** After the last line the scanner finds the end of the file, and moves no
    data. *)
Lemma scan_loaded_end first max fuel h hb d :
  holds h hb d → (0 < length (buffer h hb))%nat → (1 < fuel)%nat →
  ∃ s', scan_token first max fuel h (loaded h hb d []) = Some (h, s', None).
Proof.
  intros (Hb & pad & E) Hn Hf. destruct fuel as [|[|fuel]]; [lia..|]. cbn [scan_token].
  assert (length d ≤ length (buffer h hb))%nat as Hd by (rewrite E, length_app; lia).
  unfold loaded. cbn [ls_start ls_end ls_err]. cbn [length]. rewrite Nat.add_0_r, Nat.ltb_irrefl. cbn [orb].
  assert (∀ s1, ls_buf s1 = hb → ls_start s1 = ls_end s1 → ls_rest s1 = [] → ls_err s1 = false →
    ls_end s1 ≠ length (buffer h hb) →
    ∃ s', match grow first max h s1 with
          | None => Some (h, mkLineScanner (ls_buf s1) (ls_start s1) (ls_end s1) (ls_rest s1) true, None)
          | Some (h2, s2) => let '(h3, s3) := read_more h2 s2 in scan_token first max (S fuel) h3 s3
          end = Some (h, s', None)) as Hend.
  { intros s1 E1 E2 E3 E4 E5. unfold grow. rewrite E1, (proj2 (Nat.eqb_neq _ _) E5).
    unfold read_more. rewrite E3. cbn [scan_token ls_start ls_end ls_err].
    rewrite E2, Nat.ltb_irrefl. cbn [orb]. unfold ScanLines, pending. cbn [ls_start ls_end ls_buf].
    rewrite Nat.sub_diag, take_0, bool_decide_true by done. cbn [andb]. by eexists. }
  unfold shift_data. cbn [ls_start ls_end ls_buf ls_rest ls_err].
  destruct ((0 <? length d)%nat && _) eqn:Es.
  - replace (<[hb := _]> h) with h; [apply Hend; cbn; lia || done|].
    unfold pending. cbn. rewrite Nat.sub_diag, take_0. unfold overwrite. cbn.
    symmetry. apply list_insert_id. unfold buffer. destruct (h !! hb) eqn:Eh; [done|].
    apply lookup_ge_None in Eh. lia.
  - apply Hend; cbn; try done. intros Ed. rewrite Ed in Es.
    rewrite Nat.eqb_refl, andb_true_r in Es. apply Nat.ltb_ge in Es. lia.
Qed.

(** The first scan reads a file that fits in one piece. *)
Lemma scan_initial first max f h0 file :
  (0 < first ≤ max)%nat → (length file ≤ first)%nat → file ≠ [] →
  ∃ h, holds h (S (length h0)) file ∧ (length (buffer h (S (length h0))) = first)
    ∧ (∀ x, (sl_buf x < length h0)%nat → read_slice h x = read_slice h0 x)
    ∧ scan_token first max (S f) (h0 ++ [[]]) (mkLineScanner (length h0) 0 0 file false)
      = scan_token first max f h (loaded h (S (length h0)) [] file).
Proof.
  intros [Hf Hm] Hl Hn. exists (h0 ++ [[]; file ++ drop (length file) (replicate first (chr 0))]).
  assert (length (h0 ++ [[] : bytes]) = S (length h0)) as Hlen by (rewrite length_app; cbn; lia).
  assert (∀ l : bytes, buffer (h0 ++ [[]; l]) (S (length h0)) = l) as Hbuf.
  { intros l. change [[]; l] with ([[]] ++ [l]). rewrite app_assoc, <- Hlen. apply buffer_snoc. }
  split; [split; [rewrite length_app; cbn; lia | rewrite Hbuf; by eexists]|].
  split; [rewrite Hbuf, length_app, length_drop, length_replicate; lia|].
  split; [intros x Hx; by apply read_slice_app|].
  cbn [scan_token ls_start ls_end ls_err]. cbn [Nat.ltb Nat.leb orb].
  unfold shift_data. cbn [ls_start ls_end ls_buf]. cbn [Nat.ltb Nat.leb andb].
  unfold grow. cbn [ls_start ls_end ls_buf ls_rest ls_err]. rewrite buffer_snoc. cbn [length Nat.eqb].
  destruct (Nat.leb_spec max 0) as [|_]; [lia|]. rewrite (Nat.min_l first max) by lia.
  unfold pending. cbn [ls_start ls_end ls_buf]. rewrite Nat.sub_diag, take_0.
  unfold overwrite at 1. cbn [length app Nat.add]. rewrite take_0, drop_0. cbn [app].
  rewrite Hlen. unfold read_more. cbn [ls_rest ls_buf ls_start ls_end ls_err].
  destruct file as [|c file']; [done|]. set (file := c :: file') in *.
  rewrite <- app_assoc. cbn [app]. rewrite Hbuf, length_replicate, Nat.sub_0_r, (take_ge file) by done.
  rewrite drop_all. unfold loaded. cbn [length Nat.add].
  f_equal. rewrite insert_app_r_alt by lia.
  replace (S (length h0) - length h0)%nat with 1 by lia. done.
Qed.

(** What a map of slices says, read in a heap. *)
Definition reading (h : list bytes) (vs : gmap bytes slice) (key : bytes) : option bytes :=
  read_slice h <$> vs !! key.

(** One line, from the buffer: its value is a slice of the buffer. *)
Definition set_line (hb at_ : nat) (l : bytes) (vs : gmap bytes slice) : gmap bytes slice :=
  match configLine (drop_cr l) with
  | Some (key, i, v) => <[key := mkSlice hb (at_ + i) (length v)]> vs
  | None => vs
  end.

Lemma read_loaded h hb d l rest i v :
  holds h hb (d ++ l ++ LF :: rest) → take (length v) (drop i (drop_cr l)) = v →
  read_slice h (mkSlice hb (length d + i) (length v)) = v.
Proof.
  intros (_ & pad & E) Hv. unfold read_slice. cbn. rewrite E, <- app_assoc.
  rewrite <- drop_drop, drop_app_exact. destruct (drop_cr_prefix l) as [t Et]. rewrite Et, <- !app_assoc.
  destruct (decide (v = [])) as [->|Hne]; [apply take_0|].
  assert (length v + i ≤ length (drop_cr l))%nat as Hle.
  { apply (f_equal length) in Hv. rewrite length_take, length_drop in Hv.
    assert (0 < length v)%nat by (destruct v; [done | cbn; lia]). lia. }
  rewrite drop_app_le by lia. rewrite take_app_le by (rewrite length_drop; lia). exact Hv.
Qed.

Lemma read_line h hb d l rest :
  holds h hb (d ++ l ++ LF :: rest) →
  read_slice h (mkSlice hb (length d) (length (drop_cr l))) = drop_cr l.
Proof.
  intros Hh. rewrite <- (Nat.add_0_r (length d)). apply (read_loaded h hb d l rest); [done|].
  rewrite drop_0. apply take_ge. done.
Qed.

Lemma set_line_reading h hb d l rest vs key :
  holds h hb (d ++ l ++ LF :: rest) →
  reading h (set_line hb (length d) l vs) key
  = match configLine (drop_cr l) with
    | Some (k, _, v) => if k =b key then Some v else reading h vs key
    | None => reading h vs key
    end.
Proof.
  intros Hh. unfold set_line, reading. destruct (configLine (drop_cr l)) as [[[k i] v]|] eqn:E; [|done].
  apply configLine_found in E as (_ & Hv & _). case_bool_decide as Hk.
  - subst k. rewrite lookup_insert_eq. cbn. f_equal. by apply (read_loaded h hb d l rest).
  - by rewrite lookup_insert_ne.
Qed.

Lemma load_step first max fuel n h hb d l rest vs :
  forallb not_lf l = true → holds h hb (d ++ l ++ LF :: rest) → (0 < n)%nat →
  match scan_token first max n h (loaded h hb d (l ++ LF :: rest)) with
  | None => None
  | Some (h', s', None) => Some (h', vs)
  | Some (h', s', Some tok) =>
      load_loop first max fuel h' s'
        match configLine (read_slice h' tok) with
        | Some (key, i, v) => <[key := mkSlice (sl_buf tok) (sl_off tok + i) (length v)]> vs
        | None => vs
        end
  end = load_loop first max fuel h (loaded h hb (d ++ l ++ [LF]) rest) (set_line hb (length d) l vs).
Proof.
  intros Hl Hh Hn. rewrite scan_loaded_line by done. cbn [sl_buf sl_off].
  by rewrite (read_line h hb d l rest).
Qed.

Lemma load_loaded first max fuel h hb d lines vs :
  Forall (λ l, forallb not_lf l = true) lines → holds h hb (d ++ file_of lines) →
  (0 < length (buffer h hb))%nat → (length lines < fuel)%nat →
  ∃ vs', load_loop first max fuel h (loaded h hb d (file_of lines)) vs = Some (h, vs')
    ∧ ∀ key, reading h vs' key = last_setting lines key (reading h vs key).
Proof.
  intros Hls. revert fuel d vs. induction Hls as [|l lines Hl _ IH]; intros [|fuel] d vs Hh Hb Hf;
    cbn [length] in Hf; try lia; cbn [load_loop file_of map concat].
  - destruct (scan_loaded_end first max (S (S (length (ls_rest (loaded h hb d []))))) h hb d) as [s' ->];
      [by rewrite app_nil_r in Hh | done | lia |]. by exists vs.
  - fold (file_of lines). cbn [file_of map concat] in Hh. fold (file_of lines) in Hh.
    rewrite <- !app_assoc in *. cbn [app] in *. rewrite load_step by (done || lia).
    destruct (IH fuel (d ++ l ++ [LF]) (set_line hb (length d) l vs)) as (vs' & -> & Hk).
    + rewrite <- !app_assoc. exact Hh.
    + done.
    + lia.
    + exists vs'. split; [done|]. intros key. rewrite Hk. cbn [last_setting].
      by rewrite (set_line_reading h hb d l (file_of lines)).
Qed.

Lemma length_file_of lines : (length lines ≤ length (file_of lines))%nat.
Proof.
  induction lines as [|l lines IH]; [done|]. unfold file_of in *. cbn [map concat length].
  rewrite !length_app. cbn [length]. lia.
Qed.

Lemma load_empty first max h0 vs :
  (0 < first ≤ max)%nat →
  ∃ h, (∀ x, (sl_buf x < length h0)%nat → read_slice h x = read_slice h0 x)
    ∧ load_loop first max 1 (h0 ++ [[]]) (mkLineScanner (length h0) 0 0 [] false) vs = Some (h, vs).
Proof.
  intros [Hf Hm]. eexists. split; cycle 1.
  - cbn [load_loop ls_rest length scan_token ls_start ls_end ls_err]. cbn [Nat.ltb Nat.leb orb].
    unfold shift_data. cbn [ls_start ls_end ls_buf]. cbn [Nat.ltb Nat.leb andb].
    unfold grow. cbn [ls_start ls_end ls_buf ls_rest ls_err]. rewrite buffer_snoc. cbn [length Nat.eqb].
    destruct (Nat.leb_spec max 0) as [|_]; [lia|].
    unfold read_more. cbn [ls_rest ls_buf ls_start ls_end ls_err Nat.sub].
    cbn [Nat.ltb Nat.leb orb]. unfold ScanLines, pending. cbn [ls_start ls_end ls_buf].
    rewrite !take_0. rewrite bool_decide_true by done. cbn [andb]. reflexivity.
  - intros x Hx. rewrite <- app_assoc. by apply read_slice_app.
Qed.

(** ** Properties *)

(** C26. A file of terminated lines that fits the scanner's first buffer is
    loaded as it is written: a key has the value of the last line that sets
    it, and a key that no line sets keeps the value it had. *)
Theorem small_file_loads first max lines conf :
  (0 < first ≤ max)%nat → Forall (λ l, forallb not_lf l = true) lines →
  (length (file_of lines) ≤ first)%nat → conf_wf conf →
  ∃ conf', doLoad first max (file_of lines) conf = Some conf' ∧ conf_wf conf'
    ∧ ∀ key, value_of key conf' = last_setting lines key (value_of key conf).
Proof.
  intros Hf Hls Hn Hc. destruct (doLoad_ends first max (file_of lines) conf) as (conf' & Hd & Hw);
    [lia|done|]. exists conf'. split; [done|]. split; [done|]. unfold doLoad in Hd.
  assert (∀ h, (∀ x, (sl_buf x < length (heap conf))%nat → read_slice h x = read_slice (heap conf) x) →
    ∀ key, reading h (values conf) key = value_of key conf) as Hold.
  { intros h Hh key. unfold reading, value_of. destruct (values conf !! key) as [x|] eqn:E; [|done].
    cbn. by rewrite Hh by by eapply Hc. }
  destruct Hls as [|l lines Hl Hls].
  - unfold file_of in Hd. cbn [map concat length] in Hd. destruct (load_empty first max (heap conf) (values conf) Hf) as (h & Hh & E).
    rewrite E in Hd. injection Hd as <-. exact (Hold h Hh).
  - destruct (scan_initial first max (S (length (file_of (l :: lines)))) (heap conf) (file_of (l :: lines)))
      as (h & Hh & Hb & Hr & E); [done|done|unfold file_of; cbn; by destruct l|].
    cbn [load_loop ls_rest] in Hd. rewrite E in Hd. unfold file_of in Hd, Hh. cbn [map concat] in Hd, Hh.
    fold (file_of lines) in Hd, Hh. rewrite <- !app_assoc in Hd, Hh. cbn [app] in Hd, Hh.
    rewrite (load_step first max _ _ h _ [] l (file_of lines)) in Hd by (done || lia).
    destruct (load_loaded first max (length ((l ++ LF :: file_of lines))) h (S (length (heap conf)))
      ([] ++ l ++ [LF]) lines (set_line (S (length (heap conf))) (length (@nil byte)) l (values conf)))
      as (vs' & E' & Hk); [done|cbn [app]; by rewrite <- app_assoc|lia| |].
    { rewrite length_app. cbn. pose proof (length_file_of lines). lia. }
    rewrite E' in Hd. injection Hd as <-. intros key. change (reading h vs' key = last_setting (l :: lines) key (value_of key conf)).
    rewrite Hk. cbn [last_setting]. rewrite (set_line_reading h _ [] l (file_of lines)) by done.
    by rewrite Hold.
Qed.

(** The values are slices of the scanner's buffer, and the scanner moves
    data within it: when the last line is not terminated and starts beyond
    the middle of the buffer, it is copied over the start of the file, and
    the values loaded from there change.  Here [a = 1] is loaded, two
    kilobytes of comment follow, and the last line changes [a]. *)
Theorem unterminated_file_corrupts :
  let comment := replicate 2100 "-"%char in
  let lines := [bs "a=1"; comment; bs "b=2"] in
  let file := bs "a=1" ++ [LF] ++ comment ++ [LF] ++ bs "b=2" in
  last_setting lines (bs "a") None = Some (bs "1")
  ∧ ∃ conf, Load (bs "soa.conf") (inr file) NewConfig = Some (conf, None)
    ∧ value_of (bs "a") conf = Some (bs "2") ∧ value_of (bs "b") conf = Some (bs "2").
Proof.
  cbv zeta. split; [vm_compute; reflexivity|].
  destruct (Load (bs "soa.conf") (inr _) NewConfig) as [[conf e]|] eqn:E; [|vm_compute in E; discriminate].
  exists conf. assert (e = None) as -> by (vm_compute in E; by injection E). split; [done|].
  vm_compute in E. injection E as <-. split; vm_compute; reflexivity.
Qed.

(** [Set] and [Get]: a key has the value it was last set to, and keeps
    it, whatever is set under other keys or loaded before. *)
Theorem get_after_set key value key' conf :
  conf_wf conf →
  Get key (Config_Set key value conf) = (value, true)
  ∧ (key' ≠ key → Get key' (Config_Set key value conf) = Get key' conf)
  ∧ conf_wf (Config_Set key value conf).
Proof.
  intros Hc. split; [|split].
  - unfold Get, value_of, Config_Set. cbn. rewrite lookup_insert_eq. cbn. f_equal.
    unfold read_slice. cbn. rewrite buffer_snoc, drop_0. by apply take_ge.
  - intros Hk. unfold Get, value_of, Config_Set. cbn. rewrite lookup_insert_ne by done.
    destruct (values conf !! key') as [x|] eqn:E; [|done]. cbn. by rewrite read_slice_app by by eapply Hc.
  - unfold conf_wf, Config_Set. cbn. apply values_wf_insert; [cbn; rewrite length_app; cbn; lia|].
    eapply values_wf_grow; [|exact Hc]. rewrite length_app. lia.
Qed.

Lemma new_conf_wf : conf_wf NewConfig.
Proof. intros k x. cbn. by rewrite lookup_empty. Qed.

Definition sample_lines : list bytes :=
  [bs "# services"; bs "discovery.port = 5556"; bs "a.soa_key=/keys/a"; bs "a.soa_key = /keys/b"].

Lemma small_file_loads_witness :
  ∃ conf, doLoad 128 256 (file_of sample_lines) NewConfig = Some conf
    ∧ value_of (bs "a.soa_key") conf = Some (bs "/keys/b").
Proof.
  destruct (small_file_loads 128 256 sample_lines NewConfig) as (conf & Hd & _ & Hk).
  - lia.
  - repeat constructor.
  - apply Nat.leb_le. vm_compute. reflexivity.
  - apply new_conf_wf.
  - exists conf. split; [exact Hd|]. rewrite Hk. vm_compute. reflexivity.
Defined.

Lemma get_after_set_witness :
  Get (bs "k") (Config_Set (bs "k") (bs "v") NewConfig) = (bs "v", true).
Proof. exact (proj1 (get_after_set (bs "k") (bs "v") (bs "k") NewConfig new_conf_wf)). Defined.
