(* ===== verification/Authorized.v ===== *)
(** src/scamp/authorizedservices.go: the lines of the authorised-services
    file.  [NewAuthorizedServicesSpec] splits a line into words: the
    fingerprint, then the actions, into an array of a hundred classes. *)
From S2P Require Import Prelude Utf8 GoStrings GoIO Scanner ServiceProxy.

Record AuthorizedServiceSpec := mkSpec { Fingerprint : bytes; Actions : list serviceProxyClass }.

Definition AuthorizedServicesCache : Type := list AuthorizedServiceSpec.

Definition zeroSpec : AuthorizedServiceSpec := mkSpec [] [].
Definition zeroClass : serviceProxyClass := mkClass [] [].

Definition NewAuthorizedServicesCache : AuthorizedServicesCache := replicate 100 zeroSpec.

(** [bufio.ScanWords], over the runes of a text. *)
Fixpoint words_from (cur : bytes) (cs : list (N * bytes)) : list bytes :=
  match cs with
  | [] => if cur =b [] then [] else [cur]
  | (r, b) :: t =>
      if is_space r then (if cur =b [] then words_from [] t else cur :: words_from [] t)
      else words_from (cur ++ b) t
  end.

(** The tokens a scanner delivers: it stops at a word that does not fit. *)
Fixpoint fitting (l : list bytes) : list bytes :=
  match l with
  | [] => []
  | w :: r => if (length w <? MaxScanTokenSize)%nat then w :: fitting r else []
  end.

Definition ScanWords (line : bytes) : list bytes := fitting (words_from [] (chunks line)).

(** The loop over the actions: [spec.Actions[index]] panics beyond the
    array. *)
Fixpoint fill_actions (index : nat) (ws : list bytes) (acts : list serviceProxyClass)
    : outcome bytes (list serviceProxyClass) :=
  match ws with
  | [] => Ok acts
  | w :: r =>
      if (index <? length acts)%nat
      then fill_actions (S index) r (alter (λ c, mkClass w (actions c)) index acts)
      else Panic (bs "index out of range")
  end.

(** [func NewAuthorizedServicesSpec(line []byte) (spec, err)]. *)
Definition NewAuthorizedServicesSpec (line : bytes) : outcome bytes AuthorizedServiceSpec :=
  match ScanWords line with
  | [] => Err (bs "invalid")
  | w :: ws =>
      if head w =b Some "#"%char then Err (bs "invalid")
      else acts ← fill_actions 0 ws (replicate 100 zeroClass); Ok (mkSpec w acts)
  end.

(** [func (cache) LoadAuthorizedServices(s *bufio.Scanner) (err error)]: the
    spec of a line is dropped, its error is kept until the next line. *)
Fixpoint load_services (fuel : nat) (s : scanner) (cache : AuthorizedServicesCache)
    (err : option bytes) : option (outcome unit (AuthorizedServicesCache * option bytes)) :=
  match fuel with
  | O => None
  | S f =>
      let '(s', read) := Scan s in
      if negb read then Some (Ok (cache, err))
      else if sc_token s' =b [] then load_services f s' cache err
      else match NewAuthorizedServicesSpec (sc_token s') with
           | Ok _ => load_services f s' cache None
           | Err e => load_services f s' cache (Some e)
           | Panic w => Some (Panic w)
           end
  end.

Definition LoadAuthorizedServices (s : scanner) (cache : AuthorizedServicesCache)
    : option (outcome unit (AuthorizedServicesCache * option bytes)) :=
  load_services (S (length (sc_data s))) s cache None.

(** ** Lemmas *)

Lemma fill_actions_spec ws pre n :
  fill_actions (length pre) ws (pre ++ replicate n zeroClass)
  = if (length ws <=? n)%nat
    then Ok (pre ++ map (λ w, mkClass w []) ws ++ replicate (n - length ws) zeroClass)
    else Panic (bs "index out of range").
Proof.
  revert pre n. induction ws as [|w ws IH]; intros pre n; cbn [fill_actions length].
  { by rewrite Nat.sub_0_r. }
  rewrite length_app, length_replicate. destruct n as [|n].
  { rewrite Nat.add_0_r, Nat.ltb_irrefl. done. }
  rewrite (proj2 (Nat.ltb_lt _ _)) by lia. cbn [replicate].
  rewrite alter_app_r_alt, Nat.sub_diag by lia.
  cbn [alter list_alter]. change (actions zeroClass) with (@nil actionDescription).
  rewrite cons_middle, app_assoc.
  replace (S (length pre)) with (length (pre ++ [mkClass w []])) by (rewrite length_app; cbn; lia).
  rewrite IH. cbn [Nat.leb Nat.sub map].
  destruct (length ws <=? n)%nat; [|done]. by rewrite <- app_assoc.
Qed.

(** ** Properties *)

(** A line is a fingerprint and up to a hundred actions, each recorded
    under its name; a hundred and one make the parser panic; a blank line
    and one that starts with [#] are errors. *)
Theorem NewAuthorizedServicesSpec_spec line :
  NewAuthorizedServicesSpec line
  = match ScanWords line with
    | [] => Err (bs "invalid")
    | w :: ws =>
        if head w =b Some "#"%char then Err (bs "invalid")
        else if (length ws <=? 100)%nat
        then Ok (mkSpec w (map (λ a, mkClass a []) ws ++ replicate (100 - length ws) zeroClass))
        else Panic (bs "index out of range")
    end.
Proof.
  unfold NewAuthorizedServicesSpec. destruct (ScanWords line) as [|w ws]; [done|].
  case_bool_decide; [done|]. pose proof (fill_actions_spec ws [] 100) as F.
  cbn [length app] in F. rewrite F.
  by destruct (length ws <=? 100)%nat.
Qed.

(** Loading a file ends, and never records a service: the cache it
    returns is the one it was given. *)
Theorem LoadAuthorizedServices_ends s cache :
  (∃ err, LoadAuthorizedServices s cache = Some (Ok (cache, err)))
  ∨ (∃ w, LoadAuthorizedServices s cache = Some (Panic w)).
Proof.
  unfold LoadAuthorizedServices. generalize (@None bytes) as err.
  assert (∀ fuel s err, (length (sc_data s) < fuel)%nat →
    (∃ e, load_services fuel s cache err = Some (Ok (cache, e)))
    ∨ (∃ w, load_services fuel s cache err = Some (Panic w))) as H.
  { induction fuel as [|fuel IH]; intros x err Hf; [lia|]. cbn [load_services].
    destruct (Scan x) as [x' b] eqn:E. apply Scan_data in E as [_ Hlt].
    destruct b; cbn [negb]; [|by left; eexists]. specialize (Hlt eq_refl).
    case_bool_decide; [apply IH; lia|].
    destruct (NewAuthorizedServicesSpec _); [apply IH; lia..|by right; eexists]. }
  intros err. apply H. lia.
Qed.
