(* ===== verification/ServiceRun.v ===== *)
(** src/scamp/service.go: [NewService], the liveness file, and [Run] with
    the goroutines it starts.

    The file system is an interface; of its laws only what the liveness file
    needs is stated.  [Run] is a state machine at the granularity of what
    one goroutine does to the shared list of clients. *)
From S2P Require Import Prelude Strconv GoIO GoStrings PacketHeader Packet Message Connection Base64 Verify ServiceProxy Service ServiceFacts Client Handler Scanner ConfigLine Config ConfigFacts.

(** ** The file system *)

Class Files := {
  disk : Type;
  (** [os.IsNotExist] of the error of [os.Stat] *)
  missing : bytes → disk → bool;
  (** [os.MkdirAll], [os.Create], [os.Remove]: the disk and the error *)
  MkdirAll : bytes → disk → disk * option bytes;
  Create : bytes → disk → disk * option bytes;
  Remove : bytes → disk → disk * option bytes
}.

Class FilesLaws `{Files} := {
  create_there : ∀ p d d', Create p d = (d', None) → missing p d' = false;
  remove_gone : ∀ p d d', Remove p d = (d', None) → missing p d' = true
}.

Section run.
Context {Callback : Type} `{Crypto} `{Files}.

(** ** Construction *)

(** [func NewService(sector, serviceSpec, humanName string)]:
    the paths are never nil, so the first check never fails. *)
Definition NewService (LoadX509KeyPair : bytes → bytes → bytes + PrivateKey)
    (ReadFile : bytes → bytes + bytes) (conf : Config) (sector serviceSpec humanName : bytes)
    (randBytes : option bytes) (tls_Listen : bytes + Z) (infs : bytes + list interface)
    : outcome bytes (@Service Callback _) :=
  let crtPath := ServiceCertPath humanName conf in
  let keyPath := ServiceKeyPath humanName conf in
  match LoadX509KeyPair crtPath keyPath with
  | inl err => Err err
  | inr keypair =>
      match ReadFile crtPath with
      | inl err => Err err
      | inr pemCert =>
          NewServiceExplicitCert sector serviceSpec humanName keypair pemCert randBytes tls_Listen infs
      end
  end.

(** ** The liveness file *)

(** [func (serv *Service) createRunningServiceFile() error]. *)
Definition createRunningServiceFile (conf : Config) (s : @Service Callback _) (d : disk)
    : disk * option bytes :=
  match RunningServiceFileDirPath conf with
  | (Some dir, None) =>
      let '(d1, mkdirErr) := if missing dir d then MkdirAll dir d else (d, None) in
      match mkdirErr with
      | Some e => (d1, Some e)
      | None => Create (runningServiceFilePath dir s) d1
      end
  | (_, err) => (d, err)
  end.

(** [func (serv *Service) removeRunningServiceFile() error]. *)
Definition removeRunningServiceFile (conf : Config) (s : @Service Callback _) (d : disk)
    : disk * option bytes :=
  match RunningServiceFileDirPath conf with
  | (Some dir, None) => Remove (runningServiceFilePath dir s) d
  | (_, err) => (d, err)
  end.

(** ** Run *)

(** Where [Run] is: before [Accept], between the append and the [AddUint64]
    of its loop, in [serv.statsCloseChan <- true], or returned. *)
Inductive run_phase := Accepting | Counting | SendingStats | Finished.

(** Clients are numbered in the order they were accepted; [rn_ended] lists
    those whose [Handle] is over; [rn_crashed] is the panic that ended the
    process. *)
Record running := mkRunning {
  rn_serv : @Service Callback _;
  rn_clients : list Client;
  rn_ended : list nat;
  rn_disk : disk;
  rn_listening : bool;
  rn_phase : run_phase;
  rn_crashed : option bytes
}.

Definition set_run (s : @Service Callback _) (clients : list Client) (p : run_phase) (r : running) : running :=
  mkRunning s clients (rn_ended r) (rn_disk r) (rn_listening r) p (rn_crashed r).
Definition put_client (id : nat) (c : Client) (r : running) : running :=
  set_run (rn_serv r) (<[id := c]> (rn_clients r)) (rn_phase r) r.

(** [Run] up to its loop: an error of the liveness file is only printed. *)
Definition run_start (conf : Config) (s : @Service Callback _) (d : disk) : running :=
  mkRunning s [] [] (createRunningServiceFile conf s d).1 true Accepting None.

(** [client.Close()] on every client of the list, with [clientsM] held: a
    client that knows the service waits for that mutex for ever. *)
Fixpoint close_all (ids : list nat) (clients : list Client) : option (list Client) :=
  match ids with
  | [] => Some clients
  | id :: r =>
      match clients !! id with
      | None => close_all r clients
      | Some c =>
          match client_Close true c with
          | None => None
          | Some c' => close_all r (<[id := c']> clients)
          end
      end
  end.

(** What the goroutines of a client do to it: its handler and whoever else
    holds it send and close it or give it the service, its connection's
    reader routes a packet or ends, and [splitReqsAndReps] takes a message or
    finds the channel closed. *)
Inductive client_work :=
| Sends (m : Message)
| Closes
| GivenService
| PacketIn (pkt : Packet)
| ReaderEnds
| Takes (m : Message)
| ChannelClosed.

(** The client afterwards; [None]: the call never returns. *)
Definition work (tracked : bool) (w : client_work) (c : Client) : outcome unit (option Client) :=
  match w with
  | Sends m => Ok (Some (client_Send m c).1.1.1)
  | Closes => Ok (client_Close tracked c)
  | GivenService => Ok (Some (SetService c))
  | PacketIn pkt => Ok (Some (set_conn ((λ conn, (routePacket pkt conn).1) <$> cl_conn c) c))
  | ReaderEnds => Ok (Some (set_conn (close_msgs <$> cl_conn c) c))
  | Takes m => c' ← split_recv m c; Ok (Some c')
  | ChannelClosed => Ok (split_end tracked c)
  end.

Inductive run_event :=
| Accepted (conn : Connection)         (* [Accept] returns a connection: the client is made and tracked *)
| Counted                              (* its handler is started, and the connection counted *)
| AcceptFails                          (* [Accept] returns an error, as it does after [Stop] *)
| Stop                                 (* a call of [Stop], at any time *)
| Works (id : nat) (w : client_work)   (* the goroutines of a client *)
| HandlerEnds (id : nat)               (* the end of [Handle] *)
| StatsReceived.                       (* somebody receives from [statsCloseChan] *)

(** [func (serv *Service) Stop()]: the service of [NewService] has a
    listener. *)
Definition service_Stop (r : running) : running :=
  mkRunning (rn_serv r) (rn_clients r) (rn_ended r) (rn_disk r) false (rn_phase r) (rn_crashed r).

(** A step of a process that has not panicked.  A call that never returns is
    no step. *)
Definition live_step (conf : Config) (ev : run_event) (r : running) : option running :=
  match ev with
  | Accepted conn =>
      match rn_phase r, rn_listening r with
      | Accepting, true =>
          Some (set_run (accept_client (length (rn_clients r)) (rn_serv r)) (rn_clients r ++ [NewClient conn]) Counting r)
      | _, _ => None
      end
  | Counted =>
      match rn_phase r with
      | Counting => Some (set_run (count_connection (rn_serv r)) (rn_clients r) Accepting r)
      | _ => None
      end
  | AcceptFails =>
      match rn_phase r with
      | Accepting =>
          clients ← close_all (s_clients (rn_serv r)) (rn_clients r);
          Some (set_run (rn_serv r) clients SendingStats r)
      | _ => None
      end
  | Stop => Some (service_Stop r)
  | Works id w =>
      c ← rn_clients r !! id;
      match work (bool_decide (id ∈ s_clients (rn_serv r))) w c with
      | Ok (Some c') => Some (put_client id c' r)
      | Panic why =>
          Some (mkRunning (rn_serv r) (rn_clients r) (rn_ended r) (rn_disk r) (rn_listening r) (rn_phase r) (Some why))
      | _ => None
      end
  | HandlerEnds id =>
      if bool_decide (id ∈ rn_ended r) then None
      else
        c ← rn_clients r !! id;
        match handle_end id (rn_serv r) c with
        | Done s c' =>
            Some (mkRunning s (<[id := c']> (rn_clients r)) (id :: rn_ended r) (rn_disk r) (rn_listening r) (rn_phase r)
                    (rn_crashed r))
        | _ => None
        end
  | StatsReceived =>
      match rn_phase r with
      | SendingStats =>
          Some (mkRunning (rn_serv r) (rn_clients r) (rn_ended r)
                  (removeRunningServiceFile conf (rn_serv r) (rn_disk r)).1 (rn_listening r) Finished (rn_crashed r))
      | _ => None
      end
  end.

Definition run_step (conf : Config) (ev : run_event) (r : running) : option running :=
  match rn_crashed r with
  | Some _ => None
  | None => live_step conf ev r
  end.

Fixpoint run_steps (conf : Config) (evs : list run_event) (r : running) : option running :=
  match evs with
  | [] => Some r
  | ev :: evs' => match run_step conf ev r with Some r' => run_steps conf evs' r' | None => None end
  end.

(** The accepted clients that have been counted: all, or all but the last. *)
Definition counted (r : running) : nat :=
  match rn_phase r with Counting => length (rn_clients r) - 1 | _ => length (rn_clients r) end.

(** The clients the service tracks are the accepted ones whose [Handle] is
    not over, in the order of acceptance. *)
Definition run_inv (accepted : Z) (r : running) : Prop :=
  s_clients (rn_serv r)
    = List.filter (λ id, negb (bool_decide (id ∈ rn_ended r))) (seq 0 (length (rn_clients r)))
  ∧ s_connectionsAccepted (rn_serv r) = u64 (accepted + Z.of_nat (counted r))
  ∧ NoDup (rn_ended r) ∧ Forall (λ id, (id < length (rn_clients r))%nat) (rn_ended r)
  ∧ (rn_phase r = Counting → (0 < length (rn_clients r))%nat).

(** ** Lemmas *)

Lemma length_close_all ids l l' : close_all ids l = Some l' → length l' = length l.
Proof.
  revert l. induction ids as [|id ids IH]; intros l; cbn [close_all]; [by intros [= <-]|].
  destruct (l !! id) as [c|]; [|apply IH]. destruct (client_Close true c); [|done].
  intros ->%IH. apply length_insert.
Qed.

Lemma client_Close_closed t c c' :
  client_Close t c = Some c' → cl_isClosed c' = true ∧ cl_serv c' = cl_serv c.
Proof.
  unfold client_Close. destruct (cl_isClosed c) eqn:E; [by intros [= <-]|].
  destruct (_ && _); [done|]. by intros [= <-].
Qed.

Lemma close_all_keeps ids l l' id c :
  close_all ids l = Some l' → l !! id = Some c → cl_isClosed c = true →
  ∃ c', l' !! id = Some c' ∧ cl_isClosed c' = true.
Proof.
  revert l c. induction ids as [|k ids IH]; intros l c; cbn [close_all].
  { intros [= <-] Hc Hcl. by exists c. }
  destruct (l !! k) as [d|] eqn:Ek; [|apply IH]. destruct (client_Close true d) as [d'|] eqn:Ed; [|done].
  intros H' Hc Hcl. apply client_Close_closed in Ed as [Ed _]. destruct (decide (k = id)) as [->|Hne].
  - apply (IH _ d' H'); [|done]. apply list_lookup_insert_eq. by eapply lookup_lt_Some.
  - apply (IH _ c H'); [|done]. by rewrite list_lookup_insert_ne.
Qed.

Lemma close_all_closes ids l l' :
  close_all ids l = Some l' →
  ∀ id, id ∈ ids → (id < length l)%nat → ∃ c, l' !! id = Some c ∧ cl_isClosed c = true.
Proof.
  revert l. induction ids as [|k ids IH]; intros l Hl id Hin Hlt; [by apply elem_of_nil in Hin|].
  cbn [close_all] in Hl. destruct (l !! k) as [d|] eqn:Ek.
  - destruct (client_Close true d) as [d'|] eqn:Ed; [|done]. apply client_Close_closed in Ed as [Ed _].
    destruct (decide (id = k)) as [->|Hne].
    + eapply close_all_keeps; [exact Hl| |exact Ed]. by apply list_lookup_insert_eq.
    + apply elem_of_cons in Hin as [|Hin]; [done|]. eapply IH; [exact Hl | done|]. by rewrite length_insert.
  - apply elem_of_cons in Hin as [->|Hin]; [apply lookup_ge_None in Ek; lia|]. by eapply IH.
Qed.

(** The mutexes: closing the tracked clients gets stuck on one that knows
    the service, and only then. *)
Lemma close_all_None ids l :
  NoDup ids → close_all ids l = None ↔
  ∃ id c, id ∈ ids ∧ l !! id = Some c ∧ cl_isClosed c = false ∧ cl_serv c = true.
Proof.
  intros Hnd. revert l. induction Hnd as [|k ids Hk _ IH]; intros l; cbn [close_all].
  { split; [done|]. intros (id & c & Hin & _). by apply elem_of_nil in Hin. }
  destruct (l !! k) as [d|] eqn:Ek.
  - destruct (client_Close true d) as [d'|] eqn:Ed.
    + rewrite IH. split.
      * intros (id & c & Hin & Hc & H'). exists id, c. split; [by right|]. split; [|done].
        rewrite list_lookup_insert_ne in Hc; [done|]. by intros ->.
      * intros (id & c & [->|Hin]%elem_of_cons & Hc & Hop & Hsv).
        { exfalso. assert (d = c) as -> by congruence. unfold client_Close in Ed. rewrite Hop in Ed.
          cbn in Ed. by rewrite Hsv in Ed. }
        exists id, c. split; [done|]. split; [|done]. rewrite list_lookup_insert_ne; [done|]. by intros ->.
    + split; [intros _|done]. exists k, d. split; [left|]. split; [done|].
      unfold client_Close in Ed. destruct (cl_isClosed d); [done|]. cbn in Ed.
      destruct (cl_serv d); [done | done].
  - rewrite IH. split.
    + intros (id & c & Hin & H'). exists id, c. split; [by right | done].
    + intros (id & c & [->|Hin]%elem_of_cons & Hc & H'); [congruence|]. by exists id, c.
Qed.

Lemma length_filter_out (ended : list nat) n :
  NoDup ended → Forall (λ id, (id < n)%nat) ended →
  length (List.filter (λ id, negb (bool_decide (id ∈ ended))) (seq 0 n)) = (n - length ended)%nat.
Proof.
  intros Hnd Hlt. pose proof (filter_length (λ id, bool_decide (id ∈ ended)) (seq 0 n)) as Hl.
  rewrite length_seq in Hl. rewrite Forall_forall in Hlt.
  assert (ended ≡ₚ List.filter (λ id, bool_decide (id ∈ ended)) (seq 0 n)) as Hp.
  { apply NoDup_Permutation; [done| |].
    - apply NoDup_ListNoDup, List.NoDup_filter, NoDup_ListNoDup, NoDup_seq.
    - intros x. rewrite list_elem_of_In, list_elem_of_In, filter_In, in_seq, bool_decide_eq_true.
      rewrite <- !list_elem_of_In. split; [|tauto]. intros Hx. split; [|done]. specialize (Hlt x Hx). lia. }
  rewrite <- Hp in Hl. lia.
Qed.

Lemma filter_and {A} (f g : A → bool) l :
  List.filter f (List.filter g l) = List.filter (λ x, g x && f x) l.
Proof. induction l as [|x l IH]; [done|]. cbn. destruct (g x); cbn; [destruct (f x)|]; by rewrite IH. Qed.

Lemma filter_ext_bool {A} (f g : A → bool) l : (∀ x, f x = g x) → List.filter f l = List.filter g l.
Proof. intros Hfg. induction l as [|x l IH]; [done|]. cbn. by rewrite Hfg, IH. Qed.

Lemma RemoveClient_fields id (s : @Service Callback _) :
  NoDup (s_clients s) →
  s_clients (RemoveClient id s).1 = List.filter (λ x, negb (x =? id)%nat) (s_clients s)
  ∧ s_connectionsAccepted (RemoveClient id s).1 = s_connectionsAccepted s
  ∧ s_name (RemoveClient id s).1 = s_name s.
Proof.
  intros Hnd. pose proof (remove_first_filter id _ Hnd) as Hl. unfold RemoveClient.
  by destruct (client_index id (s_clients s)).
Qed.

Lemma u64_succ a n : u64 (u64 (a + n) + 1) = u64 (a + (n + 1)).
Proof. unfold u64. rewrite Z.add_mod_idemp_l by done. f_equal. lia. Qed.

(** Nothing the goroutines of a client do opens it again. *)
Lemma work_closed t w c c' : cl_isClosed c = true → work t w c = Ok (Some c') → cl_isClosed c' = true.
Proof.
  intros Hc. destruct w as [m| | |pkt| |m|]; cbn [work].
  - destruct (client_Send m c) as [[[c1 m1] ch] e] eqn:E. apply client_Send_isClosed in E. intros [= <-]. cbn. congruence.
  - destruct (client_Close t c) as [c1|] eqn:E; [|done]. by apply client_Close_closed in E as [? _]; intros [= <-].
  - by intros [= <-].
  - by intros [= <-].
  - by intros [= <-].
  - unfold split_recv. intros (x & Hx & [= <-])%bind_Ok. destruct (cl_conn _); [|done]. injection Hx as <-.
    by rewrite dispatch_isClosed.
  - unfold split_end. cbn. rewrite Hc. by intros [= <-].
Qed.

Lemma run_inv_tracked_NoDup a r : run_inv a r → NoDup (s_clients (rn_serv r)).
Proof.
  intros (-> & _). apply NoDup_ListNoDup, List.NoDup_filter, NoDup_ListNoDup, NoDup_seq.
Qed.

(** The invariant, when as many clients are there and counted, and the same
    are tracked and ended. *)
Lemma run_inv_same a r r' :
  run_inv a r → s_clients (rn_serv r') = s_clients (rn_serv r) →
  s_connectionsAccepted (rn_serv r') = s_connectionsAccepted (rn_serv r) →
  length (rn_clients r') = length (rn_clients r) → rn_ended r' = rn_ended r → counted r' = counted r →
  (rn_phase r' = Counting → rn_phase r = Counting) → run_inv a r'.
Proof. unfold run_inv. intros (? & ? & ? & ? & ?) -> -> -> -> -> Hp. eauto 10. Qed.

Lemma run_inv_step conf a ev r r' : run_inv a r → run_step conf ev r = Some r' → run_inv a r'.
Proof.
  intros Hi. unfold run_step. destruct (rn_crashed r); [done|].
  pose proof (run_inv_tracked_NoDup a r Hi) as Hnd.
  destruct ev as [conn| | | |id w|id|]; cbn [live_step].
  - destruct (rn_phase r) eqn:Ep, (rn_listening r); try done. intros [= <-]. destruct Hi as (H1 & H2 & H3 & H4 & _).
    unfold counted in H2. rewrite Ep in H2. unfold run_inv, counted. cbn.
    rewrite length_app. cbn [length]. rewrite seq_app, List.filter_app, Nat.add_sub. cbn [seq Nat.add].
    assert (length (rn_clients r) ∉ rn_ended r) as Hn.
    { intros Hin. rewrite Forall_forall in H4. specialize (H4 _ Hin). lia. }
    split; [rewrite <- H1; cbn; by rewrite bool_decide_false|]. split; [done|]. split; [done|].
    split; [|lia]. eapply Forall_impl; [exact H4|]. cbn. lia.
  - destruct (rn_phase r) eqn:Ep; try done. intros [= <-]. destruct Hi as (H1 & H2 & H3 & H4 & H5).
    unfold counted in H2. rewrite Ep in H2. specialize (H5 Ep). unfold run_inv, counted. cbn.
    rewrite H2, u64_succ. split; [done|]. split; [f_equal; lia|]. by split.
  - destruct (rn_phase r) eqn:Ep; try done. destruct (close_all _ _) as [l|] eqn:E; [|done].
    intros [= <-]. apply length_close_all in E. eapply run_inv_same; [exact Hi|done|done|exact E|done| |done].
    unfold counted. cbn. by rewrite Ep, E.
  - intros [= <-]. by eapply run_inv_same.
  - destruct (rn_clients r !! id) as [c|]; [|done]. cbn [mbind option_bind].
    destruct (work _ w c) as [[c'|]|e|why]; try done; intros [= <-]; [|by eapply run_inv_same].
    eapply run_inv_same; [exact Hi|done|done| |done| |done]; unfold counted; cbn; by rewrite length_insert.
  - case_bool_decide as He; [done|]. destruct (rn_clients r !! id) as [c|] eqn:Ec; [|done]. cbn [mbind option_bind].
    unfold handle_end. destruct (client_Close _ c) as [c'|]; [|done]. intros [= <-].
    destruct (RemoveClient_fields id (rn_serv r) Hnd) as (E1 & E2 & _). destruct Hi as (H1 & H2 & H3 & H4 & H5).
    unfold run_inv, counted in *. cbn. rewrite length_insert, E1, E2, H1, filter_and. split; [|split; [done|]].
    + apply filter_ext_bool. intros x. destruct (Nat.eqb_spec x id) as [->|Hne].
      * rewrite andb_false_r, bool_decide_true by left. done.
      * rewrite andb_true_r. f_equal. apply bool_decide_ext. rewrite elem_of_cons. tauto.
    + split; [by constructor|]. split; [|done]. constructor; [by eapply lookup_lt_Some | done].
  - destruct (rn_phase r) eqn:Ep; try done. intros [= <-]. eapply run_inv_same; [exact Hi|done..| |done].
    unfold counted. cbn. by rewrite Ep.
Qed.

(** A closed client stays closed. *)
Lemma run_step_closed conf ev r r' id c :
  rn_clients r !! id = Some c → cl_isClosed c = true → run_step conf ev r = Some r' →
  ∃ c', rn_clients r' !! id = Some c' ∧ cl_isClosed c' = true.
Proof.
  intros Hc Hcl. unfold run_step. destruct (rn_crashed r); [done|].
  assert (∀ k d, (k = id → cl_isClosed d = true) → ∃ c', <[k := d]> (rn_clients r) !! id = Some c' ∧ cl_isClosed c' = true)
    as Hput.
  { intros k d Hd. destruct (decide (k = id)) as [->|Hne].
    - exists d. split; [apply list_lookup_insert_eq; by eapply lookup_lt_Some | by apply Hd].
    - exists c. by rewrite list_lookup_insert_ne. }
  destruct ev as [conn| | | |k w|k|]; cbn [live_step].
  - destruct (rn_phase r), (rn_listening r); try done. intros [= <-]. cbn. exists c. by rewrite (lookup_app_l_Some _ _ _ c).
  - destruct (rn_phase r); try done. intros [= <-]. by exists c.
  - destruct (rn_phase r); try done. destruct (close_all _ _) as [l|] eqn:E; [|done]. intros [= <-].
    by eapply close_all_keeps.
  - intros [= <-]. by exists c.
  - destruct (rn_clients r !! k) as [ck|] eqn:Ek; [|done]. cbn [mbind option_bind].
    destruct (work _ w ck) as [[c'|]|e|why] eqn:Ew; try done; intros [= <-]; [|by exists c].
    apply Hput. intros ->. eapply work_closed; [|exact Ew]. congruence.
  - destruct (bool_decide _); [done|]. destruct (rn_clients r !! k) as [ck|] eqn:Ek; [|done]. cbn [mbind option_bind].
    unfold handle_end. destruct (client_Close _ ck) as [c'|] eqn:Ec; [|done]. intros [= <-].
    apply Hput. intros _. by apply client_Close_closed in Ec as [? _].
  - destruct (rn_phase r); try done. intros [= <-]. by exists c.
Qed.

Lemma run_steps_ind (P : running → Prop) conf evs r r' :
  (∀ ev x y, ev ∈ evs → P x → run_step conf ev x = Some y → P y) →
  P r → run_steps conf evs r = Some r' → P r'.
Proof.
  intros Hs. revert r. induction evs as [|ev evs IH]; intros r Hr; [by intros [= <-]|].
  cbn [run_steps]. destruct (run_step conf ev r) as [x|] eqn:E; [|done].
  apply IH; [intros ev' y z Hin; apply Hs; by right|]. eapply Hs; [left | exact Hr | exact E].
Qed.

Lemma run_steps_inv conf s d evs r :
  s_clients s = [] → in_u64 (s_connectionsAccepted s) →
  run_steps conf evs (run_start conf s d) = Some r → run_inv (s_connectionsAccepted s) r.
Proof.
  intros Hs Hu. apply run_steps_ind.
  - intros ev x y _. apply run_inv_step.
  - unfold run_inv, run_start, counted. cbn. rewrite Hs, Z.add_0_r, u64_id by done.
    by repeat (split; [done || constructor|]).
Qed.

Lemma counted_le r : (counted r ≤ length (rn_clients r))%nat.
Proof. unfold counted. destruct (rn_phase r); lia. Qed.

Lemma run_inv_stats a r :
  run_inv a r →
  gatherStats (rn_serv r)
  = mkStats (u64 (a + Z.of_nat (counted r)))
      (u64 (Z.of_nat (length (rn_clients r) - length (rn_ended r)))).
Proof. intros (H1 & H2 & H3 & H4 & _). unfold gatherStats. by rewrite H2, H1, length_filter_out. Qed.

(** ** Properties *)

(** C33. Bookkeeping of [Run], under any interleaving: the tracked clients
    are the accepted ones whose [Handle] is not over, in the order of
    acceptance, and the statistics count the accepted clients (modulo 2^64;
    the last one only after its handler has been started) and the open
    ones. *)
Theorem run_accounting conf s d evs r :
  s_clients s = [] → in_u64 (s_connectionsAccepted s) →
  run_steps conf evs (run_start conf s d) = Some r →
  s_clients (rn_serv r)
  = List.filter (λ id, negb (bool_decide (id ∈ rn_ended r))) (seq 0 (length (rn_clients r)))
  ∧ gatherStats (rn_serv r)
    = mkStats (u64 (s_connectionsAccepted s + Z.of_nat (counted r)))
        (u64 (Z.of_nat (length (rn_clients r) - length (rn_ended r)))).
Proof.
  intros Hs Hu Hr. assert (run_inv (s_connectionsAccepted s) r) as Hi by (by eapply run_steps_inv).
  split; [apply Hi | by apply run_inv_stats].
Qed.

(** C34. Nothing in the program receives from [statsCloseChan]: without a
    receiver [Run] never returns, and the liveness file stays as it was
    created, however the service ends. *)
Theorem run_never_returns `{!FilesLaws} conf s d evs r dir :
  RunningServiceFileDirPath conf = (Some dir, None) →
  (createRunningServiceFile conf s d).2 = None →
  run_steps conf evs (run_start conf s d) = Some r → StatsReceived ∉ evs →
  rn_phase r ≠ Finished ∧ missing (runningServiceFilePath dir s) (rn_disk r) = false.
Proof.
  intros Hd Hc Hr Hn.
  assert (rn_phase r ≠ Finished ∧ rn_disk r = (createRunningServiceFile conf s d).1) as [Hph Hdisk].
  { eapply (run_steps_ind (λ x, rn_phase x ≠ Finished ∧ rn_disk x = (createRunningServiceFile conf s d).1));
      [| |exact Hr]; [|by split].
    intros ev x y Hin [Hp Hx]. unfold run_step. destruct (rn_crashed x); [done|].
    destruct ev as [conn| | | |id w|id|]; cbn [live_step].
    - destruct (rn_phase x), (rn_listening x); try done. by intros [= <-].
    - destruct (rn_phase x); try done. by intros [= <-].
    - destruct (rn_phase x); try done. destruct (close_all _ _); [|done]. by intros [= <-].
    - by intros [= <-].
    - destruct (rn_clients x !! id) as [c|]; [|done]. cbn [mbind option_bind].
      destruct (work _ w c) as [[c'|]|e|why]; try done; by intros [= <-].
    - destruct (bool_decide _); [done|]. destruct (rn_clients x !! id); [|done]. cbn [mbind option_bind].
      destruct (handle_end _ _ _); try done. by intros [= <-].
    - done. }
  split; [done|]. rewrite Hdisk. unfold createRunningServiceFile in *. rewrite Hd in *.
  destruct (if missing dir d then _ else _) as [d1 [e|]]; [done|].
  destruct (Create _ d1) as [d2 e] eqn:E. cbn in *. subst e. by eapply create_there.
Qed.

(** C35. When the listener fails, [Run] goes on exactly if no open client was
    given the service with [SetService] (else it waits for its own mutex);
    then every tracked client is closed, and stays closed. *)
Theorem shutdown_closes_clients conf a r :
  run_inv a r → rn_phase r = Accepting → rn_crashed r = None →
  match run_step conf AcceptFails r with
  | None => ∃ id c, id ∈ s_clients (rn_serv r) ∧ rn_clients r !! id = Some c
              ∧ cl_isClosed c = false ∧ cl_serv c = true
  | Some r' => rn_phase r' = SendingStats
      ∧ ∀ id evs r2, id ∈ s_clients (rn_serv r) → run_steps conf evs r' = Some r2 →
          ∃ c, rn_clients r2 !! id = Some c ∧ cl_isClosed c = true
  end.
Proof.
  intros Hi Hp Hcr. pose proof (run_inv_tracked_NoDup a r Hi) as Hnd. destruct Hi as (H1 & _).
  unfold run_step at 1. cbn [live_step]. rewrite Hcr, Hp. destruct (close_all _ _) as [l|] eqn:E; cbn [mbind option_bind].
  2:{ by apply close_all_None in E. }
  split; [done|]. intros id evs r2 Hin.
  apply (run_steps_ind (λ x, ∃ c, rn_clients x !! id = Some c ∧ cl_isClosed c = true)).
  - intros ev x y _ (c & Hc & Hcl). by eapply run_step_closed.
  - cbn. eapply close_all_closes; [exact E | done|].
    rewrite H1 in Hin. apply list_elem_of_In, filter_In in Hin as [Hin _]. apply in_seq in Hin. lia.
Qed.
End run.

(** ** A concrete service

    A disk that is a set of paths. *)

#[export] Instance path_files : Files := {|
  disk := gset bytes;
  missing := λ p d, negb (bool_decide (p ∈ d));
  MkdirAll := λ p d, ({[p]} ∪ d, None);
  Create := λ p d, ({[p]} ∪ d, None);
  Remove := λ p d, if bool_decide (p ∈ d) then (d ∖ {[p]}, None) else (d, Some (bs "no such file"))
|}.

#[export] Instance path_files_laws : FilesLaws.
Proof.
  split; cbn.
  - intros p d d' [= <-]. rewrite bool_decide_true by set_solver. done.
  - intros p d d'. case_bool_decide; intros [= <-]. by rewrite bool_decide_false by (clear; set_solver).
Qed.

Definition live_conf : Config :=
  Config_Set (bs "service.running_service_file_dir_path") (bs "/run/scamp") NewConfig.

Definition log_like : Message := SetMessageType MessageTypeRequest hello_message.

Definition busy : list run_event :=
  [Accepted (NewConnection open_sink); Counted; Accepted (NewConnection open_sink); HandlerEnds 0; Stop;
   Works 1 (Takes log_like); Counted; AcceptFails].

Definition cool_start : @running unit toy_crypto path_files := run_start live_conf cool_service ∅.

Definition busy_end : @running unit toy_crypto path_files :=
  default cool_start (run_steps live_conf busy cool_start).

Lemma busy_runs : run_steps live_conf busy cool_start = Some busy_end.
Proof.
  unfold busy_end. assert ((if run_steps live_conf busy cool_start is Some _ then true else false) = true) as H
    by (vm_compute; reflexivity).
  destruct (run_steps live_conf busy cool_start); [reflexivity | discriminate H].
Qed.

Lemma run_accounting_witness : gatherStats (rn_serv busy_end) = mkStats 2 1.
Proof.
  destruct (@run_accounting unit toy_crypto path_files live_conf cool_service ∅ busy busy_end eq_refl
    ltac:(split; vm_compute; [discriminate | reflexivity]) busy_runs) as [_ H].
  rewrite H. vm_compute. reflexivity.
Defined.

Lemma run_never_returns_witness :
  missing (runningServiceFilePath (bs "/run/scamp") cool_service) (rn_disk busy_end) = false.
Proof.
  refine (proj2 (@run_never_returns unit toy_crypto path_files path_files_laws live_conf cool_service
    ∅ busy busy_end (bs "/run/scamp") _ _ busy_runs _)).
  - vm_compute. reflexivity.
  - vm_compute. reflexivity.
  - unfold busy. rewrite !not_elem_of_cons. repeat (split; [discriminate|]). apply not_elem_of_nil.
Defined.

Definition one_client : @running unit toy_crypto path_files :=
  mkRunning (count_connection (accept_client 0 cool_service)) [fresh_client] [] ∅ true Accepting None.

Lemma one_client_inv : run_inv 0 one_client.
Proof. do 2 (split; [vm_compute; reflexivity|]). split; [constructor|]. split; [constructor | discriminate]. Qed.

Lemma shutdown_closes_clients_witness :
  ∃ r', run_step live_conf AcceptFails one_client = Some r' ∧ rn_phase r' = SendingStats.
Proof.
  pose proof (@shutdown_closes_clients unit toy_crypto path_files live_conf 0 one_client one_client_inv
    eq_refl eq_refl) as H.
  destruct (run_step live_conf AcceptFails one_client) as [r'|].
  - exists r'. split; [reflexivity|]. apply H.
  - destruct H as (id & c & H1 & H2 & H3 & H4). destruct id; [|discriminate H2]. injection H2 as <-. discriminate H4.
Defined.
