(* ===== verification/Stats.v ===== *)
(** src/scamp/stats.go and src/scamp/service_stats.go: the two copies of
    the statistics, and the loops that print them.

    A loop is a function of what its [select] receives.  What it prints goes
    to [Trace], which logger.go connects to a writer that drops it. *)
From S2P Require Import Prelude Strconv Utf8 Json JsonFacts GoIO GoStrings PacketHeader Packet Message Connection Base64 Verify ServiceProxy Service ServiceFacts Client Handler ConfigLine Config ServiceRun.

Section stats.
Context {Callback : Type} `{Crypto}.

(** [func GatherStats(service *Service)] of service_stats.go, whose
    [ServiceStats] has the fields of [serviceStats]. *)
Definition GatherStats (s : @Service Callback _) : serviceStats :=
  mkStats (s_connectionsAccepted s) (u64 (Z.of_nat (length (s_clients s)))).

(** [json.Marshal(&stats)], with the names of the fields' tags; it has no
    error for two integers. *)
Definition stats_json (st : serviceStats) : json :=
  JObj [(bs "total_clients_accepted", jint (st_ClientsAccepted st));
        (bs "open_connections", jint (st_OpenConnections st))].

Definition stats_line (s : @Service Callback _) (st : serviceStats) : bytes :=
  bs "periodic stats (" ++ s_name s ++ bs "): `" ++ render (stats_json st) ++ bs "`".

(** What the [select] of a loop takes: the timer, with the service as it is
    then, or a value of [closeChan]. *)
Inductive stats_event := TimeAfter (s : @Service Callback _) | CloseReceived.

(** [printStatsLoop]: the lines, and whether the loop has returned. *)
Fixpoint printStatsLoop (evs : list stats_event) : list bytes * bool :=
  match evs with
  | [] => ([], false)
  | CloseReceived :: _ => ([], true)
  | TimeAfter s :: evs' =>
      let '(ls, ended) := printStatsLoop evs' in (stats_line s (gatherStats s) :: ls, ended)
  end.

(** [PrintStatsLoop] says goodbye. *)
Fixpoint PrintStatsLoop (evs : list stats_event) : list bytes * bool :=
  match evs with
  | [] => ([], false)
  | CloseReceived :: _ => ([bs "exiting PrintStatsLoop"], true)
  | TimeAfter s :: evs' =>
      let '(ls, ended) := PrintStatsLoop evs' in (stats_line s (GatherStats s) :: ls, ended)
  end.

(** ** Lemmas *)

Lemma wf_stats_json st : wf_json (stats_json st).
Proof.
  cbn. split; [|split; [|done]]; (split; [|apply wf_jint]);
    by apply raw_piece_ok, raw_piece_all_plain.
Qed.

Lemma parse_stats st : parse (render (stats_json st)) = Some (stats_json st).
Proof.
  rewrite <- (app_nil_r (render _)). apply parse_render; [apply wf_stats_json | by vm_compute | done].
Qed.

(** The two loops print the same lines, up to the last one. *)
Lemma loops_agree evs :
  PrintStatsLoop evs
  = let '(ls, ended) := printStatsLoop evs in
    (ls ++ (if ended then [bs "exiting PrintStatsLoop"] else []), ended).
Proof.
  induction evs as [|[s|] evs IH]; [done| |done]. cbn [PrintStatsLoop printStatsLoop].
  rewrite IH. by destruct (printStatsLoop evs) as [ls ended].
Qed.

Lemma printStatsLoop_closed l rest :
  printStatsLoop (map TimeAfter l ++ CloseReceived :: rest)
  = (map (λ s, stats_line s (gatherStats s)) l, true).
Proof. induction l as [|s l IH]; [done|]. cbn. by rewrite IH. Qed.

Context `{Files}.

Lemma app_three {A} (a b c d e : list A) : a ++ b ++ c ++ d ++ e = (a ++ b ++ c) ++ d ++ e.
Proof. by rewrite <- !app_assoc. Qed.

Lemma stats_of_run conf (s : @Service Callback _) d r :
  s_clients s = [] → s_connectionsAccepted s = 0%Z →
  (∃ evs, run_steps conf evs (run_start conf s d) = Some r) →
  (Z.of_nat (length (rn_clients r)) < 2 ^ 63)%Z →
  gatherStats (rn_serv r)
  = mkStats (Z.of_nat (counted r)) (Z.of_nat (length (rn_clients r) - length (rn_ended r))).
Proof.
  intros Hs Ha [evs Hr] Hb.
  assert (run_inv 0 r) as Hi.
  { rewrite <- Ha. eapply run_steps_inv; [done | | exact Hr]. rewrite Ha. done. }
  pose proof (counted_le r). rewrite (run_inv_stats 0 r Hi), Z.add_0_l. by rewrite !u64_id by (unfold in_u64; lia).
Qed.

(** C38. The statistics of a running service can be read back: at each tick
    one line is printed, which ends in the JSON text of the counters, and
    parsing it gives how many clients were accepted and counted, and how many
    are still handled, up to 2^63 of them; the loop returns when it is told to. *)
Theorem stats_report conf (s : @Service Callback _) d ticks rest :
  s_clients s = [] → s_connectionsAccepted s = 0%Z →
  Forall (λ r, ∃ evs, run_steps conf evs (run_start conf s d) = Some r) ticks →
  Forall (λ r, (Z.of_nat (length (rn_clients r)) < 2 ^ 63)%Z) ticks →
  ∃ lines, printStatsLoop (map (λ r, TimeAfter (rn_serv r)) ticks ++ CloseReceived :: rest) = (lines, true)
  ∧ Forall2 (λ line r, ∃ pre text a o, line = pre ++ text ++ bs "`"
      ∧ parse text = Some (JObj [(bs "total_clients_accepted", a); (bs "open_connections", o)])
      ∧ into_int 0 a = Some (Z.of_nat (counted r))
      ∧ into_int 0 o = Some (Z.of_nat (length (rn_clients r) - length (rn_ended r)))) lines ticks.
Proof.
  intros Hs Ha Hr Hb. eexists. rewrite <- (map_map rn_serv TimeAfter), printStatsLoop_closed.
  split; [reflexivity|]. rewrite map_map. induction Hr as [|r ticks Hr _ IH]; [constructor|].
  apply Forall_cons in Hb as [Hb Hbs]. cbn [map]. constructor; [|by apply IH].
  rewrite (stats_of_run conf s d r Hs Ha Hr Hb). unfold stats_line.
  eexists (bs "periodic stats (" ++ s_name (rn_serv r) ++ bs "): `"), _, _, _.
  split; [apply app_three|]. split; [apply parse_stats|].
  pose proof (counted_le r). split; apply into_int_jint; unfold in_i64; lia.
Qed.
End stats.

Example stats_printed :
  printStatsLoop [TimeAfter cool_service; CloseReceived]
  = ([bs "periodic stats (" ++ s_name cool_service ++ bs "): `{" ++ [quote_char]
      ++ bs "total_clients_accepted" ++ [quote_char] ++ bs ":0," ++ [quote_char]
      ++ bs "open_connections" ++ [quote_char] ++ bs ":0}`"], true).
Proof. by vm_compute. Qed.

Lemma stats_report_witness :
  ∃ lines, printStatsLoop [TimeAfter (rn_serv cool_start); TimeAfter (rn_serv busy_end); CloseReceived]
    = (lines, true) ∧ length lines = 2.
Proof.
  destruct (@stats_report unit toy_crypto path_files live_conf cool_service ∅ [cool_start; busy_end] [])
    as (lines & H1 & H2).
  - reflexivity.
  - reflexivity.
  - constructor; [by exists []|]. constructor; [|constructor]. exists busy. exact busy_runs.
  - repeat constructor; by vm_compute.
  - exists lines. split; [exact H1 | by apply Forall2_length in H2].
Defined.
