(* ===== verification/Announcer.v ===== *)
(** src/scamp/discoveryannounce.go and the sockets of
    src/scamp/multicast.go: the announcer, its loop and how it is stopped.

    [stopSig] is unbuffered: [Stop] waits until the loop polls the channel,
    which it does between two rounds.  Goroutines interleave as [an_step]s:
    one datagram of a round is one step, so [Stop] and [Track] may be called
    in the middle of a round. *)
From S2P Require Import Prelude Strconv Scanner GoStrings Verify Service ConfigLine Config ConfigFacts.

(** ** Sockets *)

Section multicast.
(** The packages [net] and [ipv4]: interfaces by name, sockets, the text of
    an address. *)
Context {Interface Socket : Type}.
Context (InterfaceByName : bytes → bytes + Interface) (ListenPacket : bytes → bytes + Socket).
Context (ParseIP : bytes → option IP) (IP_text : option IP → bytes).

(** [func loopbackInterface() (lo *net.Interface, err error)]. *)
Definition loopbackInterface : bytes + Interface :=
  match InterfaceByName (bs "lo0") with
  | inr lo => inr lo
  | inl _ => InterfaceByName (bs "lo")
  end.

(** A packet connection and the interface its multicast goes out on. *)
Record PacketConn := mkPacketConn { pc_socket : Socket; pc_interface : option Interface }.

(** [func localMulticastPacketConn(config *Config)]: a failure to find the
    interface still leaves the connection in the result. *)
Definition localMulticastPacketConn (config : Config) : option PacketConn * option bytes :=
  let localMulticastSpec :=
    if LocalDiscoveryMulticast config
    then IP_text (LocalDiscoveryMulticastIP ParseIP config) ++ bs ":"
         ++ format_int (LocalDiscoveryMulticastPort config)
    else bs "127.0.0.1:" in
  match ListenPacket localMulticastSpec with
  | inl err => (None, Some err)
  | inr udpConn =>
      match InterfaceByName (bs "eth0") with
      | inl err => (Some (mkPacketConn udpConn None), Some err)
      | inr ifEth0 => (Some (mkPacketConn udpConn (Some ifEth0)), None)
      end
  end.

(** ** The announcer *)

(** [services] and the two ends of the multicast; the channel is in the
    state of the loop below. *)
Record DiscoveryAnnouncer {S : Type} := mkAnnouncer {
  services : list S;
  multicastConn : option PacketConn;
  multicastDest : option IP * Z
}.
Arguments mkAnnouncer {S}.

(** [func NewDiscoveryAnnouncer() (announcer *DiscoveryAnnouncer, err error)]. *)
Definition NewDiscoveryAnnouncer {S : Type} (config : Config) : DiscoveryAnnouncer * option bytes :=
  let '(conn, err) := localMulticastPacketConn config in
  (mkAnnouncer (@nil S) conn (DiscoveryMulticastIP ParseIP config, DiscoveryMulticastPort config), err).

(** [func (announcer *DiscoveryAnnouncer) Track(serv *Service)]. *)
Definition Track {S : Type} (serv : S) (a : DiscoveryAnnouncer) : DiscoveryAnnouncer :=
  mkAnnouncer (services a ++ [serv]) (multicastConn a) (multicastDest a).
End multicast.

(** One service of a round, given what [MarshalText] gives for it: the
    datagram handed to the socket and the socket's error, or the panic.  A
    service that cannot be marshalled is not skipped: [serviceDesc] is nil,
    and an empty datagram is sent for it. *)
Definition announce_one (d : outcome bytes bytes) (WriteTo : bytes → option bytes)
    : bytes + bytes * option bytes :=
  match d with
  | Panic w => inl w
  | Ok serviceDesc => inr (serviceDesc, WriteTo serviceDesc)
  | Err _ => inr ([], WriteTo [])
  end.

(** [func (announcer *DiscoveryAnnouncer) doAnnounce() (err error)], given
    what [MarshalText] gives for each tracked service, in order, and what
    the socket answers to the datagrams: those handed to it, and the error. *)
Fixpoint doAnnounce (described : list (outcome bytes bytes)) (WriteTo : bytes → option bytes)
    : outcome unit (list bytes * option bytes) :=
  match described with
  | [] => Ok ([], None)
  | d :: r =>
      match announce_one d WriteTo with
      | inl w => Panic w
      | inr (serviceDesc, Some err) => Ok ([serviceDesc], Some err)
      | inr (serviceDesc, None) =>
          match doAnnounce r WriteTo with
          | Ok (sent, err) => Ok (serviceDesc :: sent, err)
          | Err e => Err e
          | Panic w => Panic w
          end
      end
  end.

(** Over a working socket each tracked service gets one datagram, in the
    order of tracking: its announcement, or nothing at all in it when it
    could not be signed. *)
Theorem doAnnounce_sends described WriteTo :
  (∀ d, WriteTo d = None) → Forall (λ d, is_panic d = false) described →
  doAnnounce described WriteTo
  = Ok (map (λ d, match d with Ok text => text | _ => [] end) described, None).
Proof.
  intros Hw Hd. induction Hd as [|d r Hp _ IH]; [done|]. cbn [doAnnounce map].
  by destruct d; [|..|done]; cbn; rewrite Hw, IH.
Qed.

(** ** The loop *)

(** Where [AnnounceLoop] is: not running, about to poll [stopSig], in a
    round of [doAnnounce] with these services still to come, asleep, or dead
    of a panic. *)
Inductive loop_phase (S : Type) :=
| Stopped
| Polling
| Announcing (rest : list S)
| Asleep
| Crashed (w : bytes).
Arguments Stopped {S}. Arguments Polling {S}. Arguments Announcing {S}.
Arguments Asleep {S}. Arguments Crashed {S}.

(** The tracked services, the loop, the calls of [Stop] that wait and those
    that have returned, and the datagrams sent so far. *)
Record announcing {S : Type} := mkAnnouncing {
  an_services : list S;
  an_phase : loop_phase S;
  an_waiting : nat;
  an_returned : nat;
  an_sent : list bytes
}.
Arguments announcing : clear implicits.
Arguments mkAnnouncing {S}.

Definition set_phase {S} (p : loop_phase S) (a : announcing S) : announcing S :=
  mkAnnouncing (an_services a) p (an_waiting a) (an_returned a) (an_sent a).
Definition add_sent {S} (d : bytes) (a : announcing S) : announcing S :=
  mkAnnouncing (an_services a) (an_phase a) (an_waiting a) (an_returned a) (an_sent a ++ [d]).

(** What can happen; a turn of the loop that announces a service is given
    what it marshals to by then and what the socket answers. *)
Inductive an_event (S : Type) :=
| StartLoop
| LoopTurn (MarshalText : S → outcome bytes bytes) (WriteTo : bytes → option bytes)
| LoopWakes
| CallStop
| CallTrack (serv : S).
Arguments StartLoop {S}. Arguments LoopTurn {S}. Arguments LoopWakes {S}.
Arguments CallStop {S}. Arguments CallTrack {S}.

(** The next step of [AnnounceLoop] when it is awake.  The [range] of
    [doAnnounce] is over the services tracked when the round begins; an error
    of the socket ends the round. *)
Definition loop_turn {S} (MarshalText : S → outcome bytes bytes) (WriteTo : bytes → option bytes)
    (a : announcing S) : option (announcing S) :=
  match an_phase a with
  | Polling =>
      match an_waiting a with
      | Datatypes.S w => Some (mkAnnouncing (an_services a) Stopped w (Datatypes.S (an_returned a)) (an_sent a))
      | O => Some (set_phase (Announcing (an_services a)) a)
      end
  | Announcing [] => Some (set_phase Asleep a)
  | Announcing (serv :: rest) =>
      match announce_one (MarshalText serv) WriteTo with
      | inl why => Some (set_phase (Crashed why) a)
      | inr (serviceDesc, Some _) => Some (add_sent serviceDesc (set_phase Asleep a))
      | inr (serviceDesc, None) => Some (add_sent serviceDesc (set_phase (Announcing rest) a))
      end
  | _ => None
  end.

(** One step.  One [AnnounceLoop] runs at a time; after a panic there is no
    process any more. *)
Definition an_step {S} (ev : an_event S) (a : announcing S) : option (announcing S) :=
  match ev, an_phase a with
  | _, Crashed _ => None
  | StartLoop, Stopped => Some (set_phase Polling a)
  | LoopTurn MarshalText WriteTo, _ => loop_turn MarshalText WriteTo a
  | LoopWakes, Asleep => Some (set_phase Polling a)
  | CallStop, p =>
      Some (mkAnnouncing (an_services a) p (Datatypes.S (an_waiting a)) (an_returned a) (an_sent a))
  | CallTrack serv, p =>
      Some (mkAnnouncing (an_services a ++ [serv]) p (an_waiting a) (an_returned a) (an_sent a))
  | _, _ => None
  end.

Fixpoint an_steps {S} (evs : list (an_event S)) (a : announcing S) : option (announcing S) :=
  match evs with
  | [] => Some a
  | ev :: r => match an_step ev a with Some a' => an_steps r a' | None => None end
  end.

(** ** Specification *)

(** The steps of the loop itself, its starts, and the calls of [Stop]. *)
Definition is_loop_step {S} (ev : an_event S) : bool :=
  match ev with LoopTurn _ _ | LoopWakes => true | _ => false end.
Definition is_start {S} (ev : an_event S) : bool := match ev with StartLoop => true | _ => false end.
Definition is_stop {S} (ev : an_event S) : bool := match ev with CallStop => true | _ => false end.

(** The services the current round has still to announce. *)
Definition round_rest {S} (p : loop_phase S) : list S :=
  match p with Announcing rest => rest | _ => [] end.

(** How many steps of its own the loop takes at most until it has polled. *)
Definition steps_left {S} (p : loop_phase S) : nat :=
  match p with Polling => 1 | Asleep => 2 | Announcing rest => length rest + 3 | _ => 0 end.

(** A panic of [MarshalText] on a service of the current round. *)
Definition marshal_panics {S} (evs : list (an_event S)) (p : loop_phase S) (why : bytes) : Prop :=
  ∃ MarshalText WriteTo serv, LoopTurn MarshalText WriteTo ∈ evs ∧ serv ∈ round_rest p ∧ MarshalText serv = Panic why.

(** ** Lemmas *)

Lemma an_step_start {S} (a : announcing S) ev : 0 < steps_left (an_phase a) → is_start ev = true → an_step ev a = None.
Proof. unfold an_step. by destruct ev, (an_phase a); cbn; try lia. Qed.

(** A turn of a loop while a [Stop] waits: it ends, or comes closer to its
    end, or panics; only a round under way sends a datagram. *)
Lemma loop_turn_stopping {S} mt wt (a a' : announcing S) :
  0 < an_waiting a → loop_turn mt wt a = Some a' →
  (an_phase a = Polling ∧ an_phase a' = Stopped ∧ an_sent a' = an_sent a
   ∧ an_returned a' = Datatypes.S (an_returned a) ∧ Datatypes.S (an_waiting a') = an_waiting a)
  ∨ (an_returned a' = an_returned a ∧ an_waiting a' = an_waiting a
     ∧ (∀ s, s ∈ round_rest (an_phase a') → s ∈ round_rest (an_phase a))
     ∧ (∃ sent, an_sent a' = an_sent a ++ sent
          ∧ length sent + length (round_rest (an_phase a')) ≤ length (round_rest (an_phase a)))
     ∧ ((0 < steps_left (an_phase a') < steps_left (an_phase a))
        ∨ ∃ why serv, an_phase a' = Crashed why ∧ serv ∈ round_rest (an_phase a) ∧ mt serv = Panic why)).
Proof.
  intros Hw. unfold loop_turn. destruct (an_phase a) as [| |[|serv rest]| |] eqn:Ep; try done.
  - destruct (an_waiting a) as [|w]; [lia|]. intros [= <-]. by left.
  - intros [= <-]. right. cbn. do 3 (split; [done|]). split; [exists []; by rewrite app_nil_r|]. left. lia.
  - unfold announce_one. right. destruct (mt serv) as [text|err|why] eqn:Em.
    3:{ simplify_eq/=. do 2 (split; [done|]). split; [by intros s ?%elem_of_nil|].
        split; [exists []; rewrite app_nil_r; split; [done | cbn; lia]|]. right. exists why, serv.
        split; [done|]. split; [left | done]. }
    all: destruct (wt _); simplify_eq/=; (do 2 (split; [done|])).
    all: (split; [by intros s ?; first [by apply elem_of_nil in H | right]|]).
    all: split; [eexists [_]; split; [done | cbn; lia] | left; lia].
Qed.

Lemma stopped_stays {S} evs (a a' : announcing S) :
  an_phase a = Stopped → how_many is_start evs = 0 → an_steps evs a = Some a' →
  an_sent a' = an_sent a ∧ an_phase a' = Stopped ∧ an_returned a' = an_returned a
  ∧ an_waiting a' = an_waiting a + how_many is_stop evs.
Proof.
  revert a. induction evs as [|ev evs IH]; intros a Ha Hs; [intros [= <-]; cbn; auto with lia|].
  cbn [an_steps]. destruct (an_step ev a) as [a1|] eqn:E; [|done]. unfold an_step in E. rewrite Ha in E.
  destruct ev as [|mt wt| | |serv]; try done.
  - unfold loop_turn in E. by rewrite Ha in E.
  - injection E as <-. intros (? & ? & ? & Hn)%IH; [|done|done]. cbn in Hn |- *. repeat split; (done || lia).
  - injection E as <-. by intros (? & ? & ? & Hn)%IH.
Qed.

Lemma crashed_stays {S} evs (a a' : announcing S) why :
  an_phase a = Crashed why → an_steps evs a = Some a' → evs = [] ∧ a' = a.
Proof.
  destruct evs as [|ev evs]; [by intros _ [= <-]|]. intros Ha. cbn. unfold an_step. rewrite Ha. by destruct ev.
Qed.

(** A loop with a waiting [Stop], over any run. *)
Lemma stop_pending {S} evs (a a' : announcing S) :
  0 < steps_left (an_phase a) → 0 < an_waiting a → how_many is_start evs = 0 → an_steps evs a = Some a' →
  ∃ sent, an_sent a' = an_sent a ++ sent
    ∧ length sent + length (round_rest (an_phase a')) ≤ length (round_rest (an_phase a))
    ∧ ((an_phase a' = Stopped ∧ an_returned a' = Datatypes.S (an_returned a)
        ∧ Datatypes.S (an_waiting a') = an_waiting a + how_many is_stop evs)
       ∨ (an_returned a' = an_returned a ∧ an_waiting a' = an_waiting a + how_many is_stop evs
          ∧ ((0 < steps_left (an_phase a')
              ∧ how_many is_loop_step evs + steps_left (an_phase a') ≤ steps_left (an_phase a))
             ∨ ∃ why, an_phase a' = Crashed why ∧ marshal_panics evs (an_phase a) why))).
Proof.
  revert a. induction evs as [|ev evs IH]; intros a Hp Hw Hs.
  { intros [= <-]. exists []. rewrite app_nil_r. do 2 (split; [done|]). right. cbn. auto with lia. }
  cbn [an_steps]. destruct (an_step ev a) as [a1|] eqn:E; [|done]. intros Hr.
  assert (how_many is_start evs = 0 ∧ is_start ev = false) as [Hs' Hst]
    by (cbn in Hs; destruct (is_start ev); [lia | done]).
  assert ((∃ mt wt, ev = LoopTurn mt wt ∧ loop_turn mt wt a = Some a1)
    ∨ (an_sent a1 = an_sent a ∧ an_returned a1 = an_returned a
       ∧ an_waiting a1 = an_waiting a + (if is_stop ev then 1 else 0)
       ∧ round_rest (an_phase a1) = round_rest (an_phase a) ∧ 0 < steps_left (an_phase a1)
       ∧ (if is_loop_step ev then 1 else 0) + steps_left (an_phase a1) = steps_left (an_phase a)))
    as [(mt & wt & -> & Ht)|(H1 & H2 & H3 & H4 & H5 & H6)].
  { unfold an_step in E. destruct ev as [|mt wt| | |serv]; [done|left|right..].
    - exists mt, wt. by destruct (an_phase a).
    - destruct (an_phase a) eqn:Ep; simplify_eq/=. auto with lia.
    - destruct (an_phase a) eqn:Ep; simplify_eq/=; rewrite ?Ep; auto 10 with lia.
    - destruct (an_phase a) eqn:Ep; simplify_eq/=; rewrite ?Ep; auto 10 with lia. }
  - apply loop_turn_stopping in Ht as [(Hq & Hq' & Hse & Hre & Hwa)|(Hre & Hwa & Hsub & (s1 & Hs1 & Hl1) & Ht)]; [|..|done].
    + apply stopped_stays in Hr as (-> & -> & -> & ->); [|done..]. exists []. rewrite app_nil_r, Hse, Hq.
      cbn. do 2 (split; [done|]). left. repeat split; (done || lia).
    + destruct Ht as [Ht|(why & serv & Hc & Hin & Hm)].
      * apply IH in Hr as (s2 & -> & Hl2 & Hr); [|lia|lia|done]. exists (s1 ++ s2).
        rewrite Hs1, app_assoc, length_app. split; [done|]. split; [lia|]. rewrite Hre, Hwa in Hr. cbn.
        destruct Hr as [?|(? & ? & [[? ?]|(why & ? & mt' & wt' & serv & Hin & Hser & Hm)])]; [by left|right..].
        -- do 2 (split; [done|]). left. lia.
        -- do 2 (split; [done|]). right. exists why. split; [done|]. exists mt', wt', serv.
           split; [by right|]. by split; [apply Hsub|].
      * eapply crashed_stays in Hr as [-> ->]; [|done]. exists s1. split; [done|]. split; [done|]. right.
        cbn. split; [done|]. split; [lia|]. right. exists why. split; [done|].
        exists mt, wt, serv. split; [left|]. done.
  - apply IH in Hr as (s2 & -> & Hl2 & Hr); [|done|lia|done]. exists s2. rewrite H1, <- H4. do 2 (split; [done|]).
    rewrite H2, H3 in Hr. cbn [how_many]. rewrite <- H6.
    destruct Hr as [(? & ? & ?)|(? & ? & [[? ?]|(why & ? & mt' & wt' & serv & Hin & Hser & Hm)])]; [left|right..].
    + repeat split; (done || lia).
    + do 2 (split; [done || lia|]). left. lia.
    + do 2 (split; [done || lia|]). right. exists why. split; [done|]. exists mt', wt', serv.
      split; [by right|]. by rewrite <- H4.
Qed.

(** A round that nothing interrupts is [doAnnounce]. *)
Lemma round_is_doAnnounce {S} mt wt rest (a : announcing S) :
  an_phase a = Announcing rest →
  ∃ k a', an_steps (replicate k (LoopTurn mt wt)) a = Some a'
    ∧ match doAnnounce (map mt rest) wt with
      | Ok (sent, _) => an_phase a' = Asleep ∧ an_sent a' = an_sent a ++ sent
      | Panic why => an_phase a' = Crashed why
      | Err _ => False
      end.
Proof.
  revert a. induction rest as [|serv rest IH]; intros a Hp.
  - exists 1. cbn. unfold loop_turn. rewrite Hp. eexists. split; [done|]. by rewrite app_nil_r.
  - cbn [map doAnnounce]. destruct (announce_one (mt serv) wt) as [why|[d [err|]]] eqn:E.
    1,2: exists 1; cbn; unfold loop_turn; rewrite Hp, E; by eexists.
    destruct (IH (add_sent d (set_phase (Announcing rest) a)) eq_refl) as (k & a' & Hk & Ha').
    exists (Datatypes.S k), a'. split; [by cbn; unfold loop_turn; rewrite Hp, E|].
    destruct (doAnnounce _ _) as [[sent err]| |]; [|done..]. cbn in Ha'. by rewrite <- app_assoc in Ha'.
Qed.

Definition loop_running {S} (p : loop_phase S) : nat :=
  match p with Polling | Announcing _ | Asleep => 1 | _ => 0 end.

(** One step: returned calls and the running loop against the starts. *)
Lemma an_step_returned {S} ev (a a' : announcing S) :
  an_step ev a = Some a' →
  an_returned a' + loop_running (an_phase a')
  ≤ an_returned a + loop_running (an_phase a) + (if is_start ev then 1 else 0).
Proof.
  unfold an_step, loop_turn. destruct (an_phase a) as [| |[|serv rest]| |] eqn:Ep, ev as [|mt wt| | |s];
    intros H; simplify_eq/=; rewrite ?Ep; cbn; try lia.
  - destruct (an_waiting a); simplify_eq/=; lia.
  - destruct (announce_one _ _) as [why|[d [err|]]]; simplify_eq/=; lia.
Qed.

(** ** Properties *)

(** C36. Liveness of [Stop], called at any point of the loop, in the middle
    of a round too: what is still sent is at most the rest of that round,
    and nothing if the loop was asleep or about to poll.  After a bounded
    number of the loop's own steps the loop has ended, unless marshalling a
    service of that round panics.  Exactly one of the waiting calls returns
    then, and the others stay waiting; until then none does, and the loop
    can always take its next step, whatever marshalling and the socket
    answer. *)
Theorem stop_ends_announcing {S} (a a' : announcing S) evs :
  loop_running (an_phase a) = 1 → 0 < an_waiting a → how_many is_start evs = 0 → an_steps evs a = Some a' →
  (∃ sent, an_sent a' = an_sent a ++ sent
     ∧ length sent + length (round_rest (an_phase a')) ≤ length (round_rest (an_phase a)))
  ∧ (length (round_rest (an_phase a)) + 3 ≤ how_many is_loop_step evs →
       an_phase a' = Stopped ∨ ∃ why, an_phase a' = Crashed why ∧ marshal_panics evs (an_phase a) why)
  ∧ (if loop_running (an_phase a') =? 1
     then ∀ MarshalText WriteTo,
            is_Some (an_step (LoopTurn MarshalText WriteTo) a') ∨ is_Some (an_step LoopWakes a')
     else True)
  ∧ match an_phase a' with
    | Stopped => an_returned a' = Datatypes.S (an_returned a)
                 ∧ Datatypes.S (an_waiting a') = an_waiting a + how_many is_stop evs
    | _ => an_returned a' = an_returned a ∧ an_waiting a' = an_waiting a + how_many is_stop evs
    end.
Proof.
  intros Hp Hw Hs Hr.
  destruct (stop_pending evs a a') as (sent & Hse & Hl & Ht); [by destruct (an_phase a); cbn in *; lia|done..|].
  split; [by exists sent|]. split; [|split].
  - intros Hn. destruct Ht as [[? _]|(_ & _ & [[H1 H2]|?])]; [by left| |by right]. exfalso.
    destruct (an_phase a); cbn in *; lia.
  - destruct (loop_running (an_phase a')) as [|[|]] eqn:El; cbn; [done| |done]. intros mt wt.
    unfold an_step, loop_turn. destruct (an_phase a') as [| |[|serv rest]| |]; cbn in El; try done.
    + left. by destruct (an_waiting a').
    + by left.
    + left. by destruct (announce_one _ _) as [|[? [|]]].
    + by right.
  - destruct Ht as [(-> & ?)|(? & ? & [[H1 _]|(why & -> & _)])]; [done| |done].
    by destruct (an_phase a'); cbn in H1; try lia.
Qed.

(** A call of [Stop] returns only by ending a loop: never without one,
    and each time [AnnounceLoop] runs it serves at most one call. *)
Theorem stops_need_loops {S} (a a' : announcing S) evs :
  an_phase a = Stopped → an_steps evs a = Some a' →
  an_returned a' ≤ an_returned a + how_many is_start evs.
Proof.
  intros Hp. enough (∀ a : announcing S, an_steps evs a = Some a' →
    an_returned a' + loop_running (an_phase a')
    ≤ an_returned a + loop_running (an_phase a) + how_many is_start evs) as H.
  { intros Hr%H. rewrite Hp in Hr. cbn in Hr. lia. }
  clear a Hp. induction evs as [|ev evs IH]; intros a; [intros [= <-]; cbn; lia|].
  cbn [an_steps how_many]. destruct (an_step ev a) as [a1|] eqn:E; [|done].
  apply an_step_returned in E. intros Hr%IH. lia.
Qed.

(** ** A concrete announcer: two services, stopped in its first round. *)

Definition two_services : announcing bytes := mkAnnouncing [bs "a"; bs "b"] Polling 0 0 [].

Definition turn : an_event bytes := LoopTurn (λ s, Ok s) (λ _, None).

(** The second datagram of the round still goes out after [Stop]. *)
Definition first_sent : announcing bytes :=
  mkAnnouncing [bs "a"; bs "b"] (Announcing [bs "b"]) 2 0 [bs "a"].

Lemma doAnnounce_sends_witness :
  doAnnounce [Ok (bs "a"); Err (bs "no key"); Ok (bs "b")] (λ _, None)
  = Ok ([bs "a"; []; bs "b"], None).
Proof. apply (doAnnounce_sends [Ok (bs "a"); Err (bs "no key"); Ok (bs "b")]); repeat constructor. Defined.

Lemma stop_ends_announcing_witness :
  an_steps [turn; turn; CallStop; CallStop] two_services = Some first_sent
  ∧ ∃ a', an_steps [turn; turn; LoopWakes; turn] first_sent = Some a'
      ∧ an_sent a' = [bs "a"; bs "b"] ∧ an_phase a' = Stopped ∧ an_returned a' = 1 ∧ an_waiting a' = 1.
Proof.
  split; [reflexivity|].
  destruct (stop_ends_announcing first_sent (mkAnnouncing [bs "a"; bs "b"] Stopped 1 1 [bs "a"; bs "b"])
    [turn; turn; LoopWakes; turn]) as (_ & _ & _ & Hr & Hw);
    [reflexivity | cbn; lia | reflexivity | reflexivity |].
  eexists. split; [reflexivity|]. split; [reflexivity|]. split; [reflexivity|]. split; [exact Hr|].
  cbn in Hw |- *. lia.
Defined.

Lemma stops_need_loops_witness :
  ∃ a', an_steps [CallStop; CallStop; StartLoop; turn] (mkAnnouncing [bs "a"] Stopped 0 0 []) = Some a'
    ∧ an_returned a' ≤ 1.
Proof.
  eexists. split; [reflexivity|].
  exact (stops_need_loops (mkAnnouncing [bs "a"] Stopped 0 0 []) _ [CallStop; CallStop; StartLoop; turn]
    eq_refl eq_refl).
Defined.
