(* ===== verification/Tools.v ===== *)
(** src/scamp/scamp.go: the two commands, one that signs an announcement
    into an entry of a cache file and one that prints a fingerprint.

    A command prints a text, dies with [Error.Fatalf], or panics. *)
From S2P Require Import Prelude Utf8 GoIO GoStrings Scanner Base64 Verify ServiceProxy ServiceCache ServiceCacheFacts Service ServiceFacts.

Section tools.
Context `{Crypto}.
(** [ioutil.ReadFile]; [pem.Decode] with the type of the block (the bytes
    are those of [pem_Decode]); [x509.ParsePKCS1PrivateKey]. *)
Context (ReadFile : bytes → bytes + bytes) (pem_type : bytes → bytes).
Context (ParsePKCS1PrivateKey : bytes → bytes + PrivateKey).

(** What [fmt.Printf] writes for the entry. *)
Definition fake_entry (announceData certData announceSig : bytes) : bytes :=
  LF :: bs "%%%" ++ [LF] ++ announceData ++ [LF; LF] ++ trim_space certData ++ [LF; LF]
  ++ announceSig ++ [LF].

(** [func doFakeDiscoveryCache(keyPath, certPath, announcePath string)]: the
    message for a key that is not PEM reads a field of the nil block. *)
Definition doFakeDiscoveryCache (keyPath certPath announcePath : bytes) : outcome bytes bytes :=
  match ReadFile keyPath with
  | inl _ => Err (bs "could not read key at " ++ keyPath)
  | inr keyRawBytes =>
  match pem_Decode keyRawBytes with
  | None => Panic (bs "invalid memory address or nil pointer dereference")
  | Some blk =>
  if negb (pem_type keyRawBytes =b bs "RSA PRIVATE KEY") then
    Err (bs "expected key type 'RSA PRIVATE KEY' but got '" ++ pem_type keyRawBytes ++ bs "'")
  else
  match ParsePKCS1PrivateKey blk with
  | inl _ => Err (bs "could not parse key from " ++ keyPath ++ bs " (" ++ pem_type keyRawBytes ++ bs ")")
  | inr privKey =>
  match ReadFile announcePath with
  | inl _ => Err (bs "could not read announce data from " ++ announcePath)
  | inr announceData =>
      announceSig ← map_err (λ e, bs "could not sign announce data: " ++ e) (signSHA256 announceData privKey);
      match ReadFile certPath with
      | inl _ => Err (bs "could not read cert from " ++ certPath)
      | inr certData => Ok (fake_entry announceData certData announceSig)
      end
  end end end end.

(** [func doCertFingerprint(fingerprintPath string)]. *)
Definition doCertFingerprint (fingerprintPath : bytes) : outcome bytes bytes :=
  match ReadFile fingerprintPath with
  | inl _ => Err (bs "could not read cert from " ++ fingerprintPath)
  | inr certData =>
      match pem_Decode certData with
      | None => Err (bs "could not decode cert. is it PEM encoded?")
      | Some decoded =>
          match x509_ParseCertificate decoded with
          | inl _ => Err (bs "could not parse certificate. is it valid x509?")
          | inr cert =>
              let fingerprint := GetSHA1FingerPrint cert in
              if (0 <? length fingerprint)%nat
              then Ok (bs "fingerprint: " ++ fingerprint ++ [LF])
              else Err (bs "could not fingerprint certificate")
          end
      end
  end.

(** [func main()], on the flags; the error of [Initialize] is ignored. *)
Definition main (keyPath certPath announcePath fingerprintPath : bytes) : outcome bytes bytes :=
  if ((length keyPath =? 0)%nat || (length announcePath =? 0)%nat || (length certPath =? 0)%nat)
     && (length fingerprintPath =? 0)%nat
  then Ok (bs "fingerprintpath: " ++ fingerprintPath ++ [LF]
           ++ bs "not enough options specified, must provide: tcertpath, keypath, and announcepath, OR fingerprintpath"
           ++ [LF])
  else if negb (length keyPath =? 0)%nat then doFakeDiscoveryCache keyPath certPath announcePath
  else doCertFingerprint fingerprintPath.
End tools.

(** ** Lemmas *)

(** A block that the end of the file ends. *)
Lemma scan_block_eof st ls f tok acc :
  Forall (λ x, line_ok x ∧ x ≠ [] ∧ x ≠ sep) ls → (length ls < f)%nat →
  scan_block st f (mkScanner (concat (map (λ l, l ++ [LF]) ls)) false tok) acc
  = (mkScanner [] false [], acc ++ concat (map (λ l, l ++ [LF]) ls)).
Proof.
  intros Hls. revert f tok acc. induction Hls as [|x ls (Hx & Hne & Hsep) _ IH]; intros [|f] tok acc Hf;
    cbn [length] in Hf; try lia.
  - cbn. by rewrite app_nil_r.
  - cbn [map concat scan_block]. rewrite <- !app_assoc. cbn [app].
    rewrite (Scan_line x) by done. cbn [negb sc_token].
    rewrite (bool_decide_false (x = [])), (bool_decide_false (x = sep)) by done.
    rewrite andb_false_r, IH by lia. by rewrite <- !app_assoc.
Qed.

Section entry.
Context `{Unicode} `{Crypto}.

(** The last entry of a file, without the empty line after it and after an
    empty line. *)
Lemma scan_round_last record cert sig f tok c :
  entry_ok (mkEntry record cert sig) → (length (text_of (mkEntry record cert sig)) < f)%nat →
  scan_round f (mkScanner (LF :: sep ++ [LF] ++ record ++ [LF; LF]
    ++ concat (map (λ l, l ++ [LF]) cert) ++ [LF] ++ concat (map (λ l, l ++ [LF]) sig)) false tok) c
  = match process_record record (join [LF] cert) (join [LF] sig) c with
    | Ok c' => Next (mkScanner [] false []) c'
    | Err err => Failed c err
    | Panic w => Crashed w
    end.
Proof.
  intros (Hr & Hrn & [Hcn Hc] & [Hsn Hs]) Hf. cbn [e_record e_cert e_sig] in *.
  unfold text_of, entry_text in Hf. cbn [e_record e_cert e_sig] in Hf.
  pose proof (length_lines cert) as Hlc. pose proof (length_lines sig) as Hls.
  rewrite !length_app in Hf. cbn [length] in Hf. change (length sep) with 3 in Hf.
  unfold scan_round. destruct f as [|[|f]]; [lia..|]. cbn [skip_to_sep].
  rewrite Scan_empty_line. cbn [sc_token negb orb]. rewrite bool_decide_false by done. cbn [orb].
  rewrite <- ?app_assoc. cbn [app]. rewrite (Scan_line sep) by apply line_ok_sep.
  cbn [sc_token negb orb]. rewrite bool_decide_true by done. cbn [orb].
  rewrite (Scan_line record) by done. cbn [fst sc_token]. rewrite bool_decide_false by done.
  rewrite Scan_empty_line. cbn [fst sc_token].
  rewrite bool_decide_true by done. cbn [negb].
  rewrite scan_block_lines by (done || lia). cbn [app].
  rewrite bool_decide_false by by apply concat_lines_nonempty.
  rewrite scan_block_eof by (done || lia). cbn [app].
  rewrite bool_decide_false by by apply concat_lines_nonempty.
  by rewrite !but_last_lines.
Qed.

(** What one entry at the end of the file does to an empty cache. *)
Lemma DoScan_last record cert sig c :
  entry_ok (mkEntry record cert sig) →
  DoScan (NewScanner (LF :: sep ++ [LF] ++ record ++ [LF; LF]
    ++ concat (map (λ l, l ++ [LF]) cert) ++ [LF] ++ concat (map (λ l, l ++ [LF]) sig))) c
  = Some (process_all [mkEntry record cert sig] (clearNoLock c)).
Proof.
  intros He. unfold DoScan, NewScanner. set (file := LF :: _). cbn [sc_data].
  assert (length (text_of (mkEntry record cert sig)) < S (length file))%nat as Hl.
  { unfold file, text_of, entry_text. cbn [e_record e_cert e_sig].
    rewrite ?length_app. cbn [length]. rewrite ?length_app. cbn [length]. lia. }
  revert Hl. generalize (S (length file)) as f. intros f Hl. unfold file.
  destruct f as [|f]; [lia|]. cbn [scan_loop process_all e_record e_cert e_sig].
  rewrite scan_round_last by done.
  destruct (process_record _ _ _ _) as [c'| |]; [|done|done].
  destruct f as [|f]; [unfold text_of, entry_text in Hl; rewrite length_app in Hl; cbn in Hl; lia|].
  reflexivity.
Qed.

(** Base64 text is one line without breaks. *)
Lemma std_line sig : forallb std_byte sig = true → (length sig < MaxScanTokenSize)%nat → line_ok sig.
Proof.
  intros Hb Hl. split; [|split; [done|]].
  - revert Hb. apply forallb_impl. unfold std_byte. intros c Hc.
    by apply andb_true_iff in Hc as [[[Hc _]%andb_true_iff _]%andb_true_iff _].
  - intros Hc. apply last_Some_elem_of, list_elem_of_In in Hc. rewrite forallb_forall in Hb.
    by apply Hb in Hc.
Qed.

Lemma std_no_breaks sig : forallb std_byte sig = true → strip_breaks sig = sig.
Proof.
  intros Hb. apply strip_breaks_id. revert Hb. apply forallb_impl. unfold std_byte. intros c Hc.
  by apply andb_true_iff in Hc as [].
Qed.

(** C37. Round trip: what [doFakeDiscoveryCache] prints for a class record,
    used as a cache file, is an entry that a verifying reader stores, if the
    certificate belongs to the key. *)
Theorem fake_cache_read_back `{!CryptoLaws} ReadFile pem_type ParseKey keyPath certPath announcePath
    text keyRaw blk key sp certData certLines der cert c :
  doFakeDiscoveryCache ReadFile pem_type ParseKey keyPath certPath announcePath = Ok text →
  (length text < MaxScanTokenSize)%nat →
  ReadFile keyPath = inr keyRaw → pem_Decode keyRaw = Some blk → ParseKey blk = inr key →
  ReadFile announcePath = inr (proxy_MarshalJSON sp) → wf_proxy sp →
  ReadFile certPath = inr certData →
  trim_space certData = join [LF] certLines → block_ok certLines →
  pem_Decode (trim_space certData) = Some der → x509_ParseCertificate der = inr cert →
  cert_PublicKey cert = Some (public_of key) → verifyRecords c = true →
  ∃ sig, signSHA256 (proxy_MarshalJSON sp) key = Ok sig
    ∧ DoScan (NewScanner text) c
      = Some (Ok (storeNoLock (announced sp (trim_space certData) sig) (clearNoLock c), None)).
Proof.
  intros Ht Hlen Hk Hblk Hkey Hrec Hsp Hcert Htrim Hcl Hder Hx509 Hpub Hv.
  unfold doFakeDiscoveryCache in Ht. rewrite Hk, Hblk, Hkey, Hrec, Hcert in Ht.
  destruct (negb _); [done|]. destruct (signSHA256 _ key) as [sig|e|w] eqn:Hsig; [|done|done].
  cbn [map_err] in Ht. go_simpl. injection Ht as <-. exists sig. split; [done|].
  destruct (signature_text _ _ _ Hsig) as [Hsb Hsn].
  unfold fake_entry in *. cbn [length] in Hlen. rewrite !length_app in Hlen.
  assert (entry_ok (mkEntry (proxy_MarshalJSON sp) certLines [sig])) as He.
  { split; [apply printable_line; [by apply record_printable | cbn [e_record]; lia]|].
    split; [by unfold proxy_MarshalJSON, proxy_json|]. split; [done|]. split; [done|].
    constructor; [|constructor]. split; [apply std_line; [done | lia]|]. split; [done|].
    intros Es. rewrite Es in Hsb. by vm_compute in Hsb. }
  clear Hlen. replace (trim_space certData ++ [LF; LF] ++ sig ++ [LF])
    with (concat (map (λ l, l ++ [LF]) certLines) ++ [LF] ++ concat (map (λ l, l ++ [LF]) [sig])).
  2:{ rewrite (lines_join certLines) by apply Hcl. rewrite <- Htrim, <- !app_assoc. cbn.
      by rewrite app_nil_r. }
  change (bs "%%%") with sep. rewrite DoScan_last by done. unfold process_all, process_record.
  cbn [e_record e_cert e_sig join]. rewrite <- Htrim, read_MarshalJSON by done. cbn [map_err]. go_simpl.
  cbn [clearNoLock verifyRecords]. rewrite Hv. unfold Validate, validateSignature.
  cbn [announced sp_rawCert sp_rawClassRecords sp_rawSig]. rewrite Hder. go_simpl. rewrite Hx509, Hpub.
  go_simpl. by rewrite (signSHA256_verify _ _ _ _ Hsig (std_no_breaks _ Hsb)).
Qed.

(** An announcement file that ends with a newline, as editors leave it,
    makes an entry that is passed over: the certificate seems to be empty. *)
Lemma fake_cache_final_newline record f tok c :
  line_ok record → record ≠ [] → (3 < f)%nat →
  ∀ rest, ∃ s', scan_round f (mkScanner (LF :: sep ++ [LF] ++ (record ++ [LF]) ++ [LF; LF] ++ rest) false tok) c
  = Next s' c ∧ sc_data s' = rest.
Proof.
  intros Hr Hrn Hf rest. unfold scan_round. destruct f as [|[|f]]; [lia..|]. cbn [skip_to_sep].
  rewrite Scan_empty_line. cbn [sc_token negb orb]. rewrite bool_decide_false by done. cbn [orb].
  rewrite <- ?app_assoc. cbn [app]. rewrite (Scan_line sep) by apply line_ok_sep.
  cbn [sc_token negb orb]. rewrite bool_decide_true by done. cbn [orb].
  rewrite (Scan_line record) by done. cbn [fst sc_token]. rewrite bool_decide_false by done.
  rewrite Scan_empty_line. cbn [fst sc_token]. rewrite bool_decide_true by done. cbn [negb scan_block].
  rewrite Scan_empty_line. cbn [negb sc_token]. rewrite !bool_decide_true by done.
  eexists. split; [done | done].
Qed.
End entry.

(** ** A concrete disk, under the toy signature scheme *)

Definition tool_files (path : bytes) : bytes + bytes :=
  if path =b bs "key" then inr (bs "cert")
  else if path =b bs "crt" then inr (bs "  cert" ++ [LF])
  else if path =b bs "record" then inr (proxy_MarshalJSON bgdispatcher)
  else inl (bs "no such file").

Definition rsa_type (_ : bytes) : bytes := bs "RSA PRIVATE KEY".

Definition printed_entry : bytes :=
  fake_entry (proxy_MarshalJSON bgdispatcher) (bs "  cert" ++ [LF])
    (EncodeToString StdEncoding (bs "cert" ++ take 32 (proxy_MarshalJSON bgdispatcher))).

Example main_prints :
  @main toy_crypto tool_files rsa_type inr (bs "key") (bs "crt") (bs "record") [] = Ok printed_entry.
Proof. vm_compute. reflexivity. Qed.

Example key_without_pem_panics :
  @doFakeDiscoveryCache toy_crypto (λ _, inr []) rsa_type inr (bs "key") (bs "crt") (bs "record")
  = Panic (bs "invalid memory address or nil pointer dereference").
Proof. vm_compute. reflexivity. Qed.

Lemma fake_cache_read_back_witness :
  ∃ c', @DoScan ascii_only toy_crypto (NewScanner printed_entry) emptyCache = Some (Ok (c', None))
    ∧ Retrieve (sp_ident bgdispatcher) c' ≠ None.
Proof.
  destruct (@fake_cache_read_back ascii_only toy_crypto toy_laws tool_files rsa_type inr (bs "key")
    (bs "crt") (bs "record") printed_entry (bs "cert") (bs "cert") (bs "cert") bgdispatcher
    (bs "  cert" ++ [LF]) [bs "cert"] (bs "cert") (bs "cert") emptyCache) as (sig & _ & H).
  - vm_compute. reflexivity.
  - apply Nat.ltb_lt. vm_compute. reflexivity.
  - vm_compute. reflexivity.
  - reflexivity.
  - reflexivity.
  - vm_compute. reflexivity.
  - exact bgdispatcher_wf.
  - vm_compute. reflexivity.
  - vm_compute. reflexivity.
  - split; [done|]. constructor; [|constructor].
    split; [apply line_ok_short; [by vm_compute | by apply Nat.ltb_lt; vm_compute]|]. by vm_compute.
  - vm_compute. reflexivity.
  - reflexivity.
  - reflexivity.
  - reflexivity.
  - eexists. split; [exact H|]. unfold Retrieve. cbn. rewrite lookup_insert_eq. discriminate.
Defined.
