(* ===== verification/Debugger.v ===== *)
(** src/scamp/debugger.go: the files of the protocol debugger, and the
    counter its instances are numbered by.

    [newScampDebugger] takes its number with a compare-and-swap that it tries
    ten times; several connections may do so at once, so the atomic
    operations are the steps of a machine. *)
From S2P Require Import Prelude Strconv GoStrings Base64.

(** ** Formatting *)

(** [handle.file.Write] of the line; [Sprintf] of [time.Now().Unix()] and
    the bytes.  The file's error is the result. *)
Definition debug_line (direction : bytes) (unix : Z) (p : bytes) : bytes :=
  direction ++ bs ": " ++ format_int unix ++ bs " " ++ p.

Definition debugger_Write (file_Write : bytes → option bytes) (unix : Z) (p : bytes)
    : nat * option bytes :=
  match file_Write (debug_line (bs "write") unix p) with
  | Some err => (0, Some err)
  | None => (length p, None)
  end.

(** [func (handle *scampDebugger) ReadWriter(p []byte)], which the reader
    side's [Write] calls. *)
Definition debugger_ReadWriter (file_Write : bytes → option bytes) (unix : Z) (p : bytes)
    : nat * option bytes :=
  match file_Write (debug_line (bs "read") unix p) with
  | Some err => (0, Some err)
  | None => (length p, None)
  end.

(** [func scampDebuggerRandomString() string], given four random bytes. *)
Definition scampDebuggerRandomString (randBytes : option bytes) : outcome unit bytes :=
  match randBytes with
  | None => Panic (bs "shouldn't happen")
  | Some b => Ok (EncodeToString StdEncoding b)
  end.

(** The path of a debugger's file. *)
Definition debugger_path (target random clientType : bytes) (id : Z) : bytes :=
  target ++ bs "." ++ random ++ bs "." ++ clientType ++ bs "." ++ format_int id.

(** ** Numbers *)

(** A call of [newScampDebugger] in its loop: before the load, or between
    the load and the compare-and-swap; [i] rounds are behind it. *)
Inductive numbering :=
| Loading (i : nat)
| Swapping (i : nat) (loadedVal : Z)
| Numbered (id : Z)
| GaveUp. (* panic("never should happen...") *)

(** [scampDebuggerID], and the calls under way or done. *)
Record debug_ids := mkIds { scampDebuggerID : Z; calls : list numbering }.

Definition no_ids : debug_ids := mkIds 0 [].

Definition max_rounds : nat := 10.

(** One atomic operation of a call. *)
Definition number_step (n : numbering) (counter : Z) : Z * numbering :=
  match n with
  | Loading i => (counter, if (i <? max_rounds)%nat then Swapping i counter else GaveUp)
  | Swapping i loadedVal =>
      let thisDebuggerID := u64 (loadedVal + 1) in
      if (counter =? loadedVal)%Z then (thisDebuggerID, Numbered thisDebuggerID)
      else (counter, if (S i <? max_rounds)%nat then Loading (S i) else GaveUp)
  | _ => (counter, n)
  end.

(** The rest of [func newScampDebugger(conn, clientType)], once the call has
    its number: the path of the file and [os.Create]; the handle is returned
    with the error too. *)
Definition writeTeeTargetPath : bytes := bs "/tmp/scamp_proto.bin".

Definition newScampDebugger {File : Type} (os_Create : bytes → bytes + File)
    (randomDebuggerString clientType : bytes) (n : numbering)
    : option (outcome unit (option File * option bytes)) :=
  match n with
  | Numbered id =>
      match os_Create (debugger_path writeTeeTargetPath randomDebuggerString clientType id) with
      | inl err => Some (Ok (None, Some err))
      | inr file => Some (Ok (Some file, None))
      end
  | GaveUp => Some (Panic (bs "never should happen..."))
  | _ => None
  end.

Inductive id_event := NewCall | CallStep (k : nat).

Definition id_step (ev : id_event) (d : debug_ids) : option debug_ids :=
  match ev with
  | NewCall => Some (mkIds (scampDebuggerID d) (calls d ++ [Loading 0]))
  | CallStep k =>
      match calls d !! k with
      | Some n =>
          let '(counter, n') := number_step n (scampDebuggerID d) in
          Some (mkIds counter (<[k := n']> (calls d)))
      | None => None
      end
  end.

Fixpoint id_steps (evs : list id_event) (d : debug_ids) : option debug_ids :=
  match evs with
  | [] => Some d
  | ev :: r => match id_step ev d with Some d' => id_steps r d' | None => None end
  end.

(** What was loaded or given out is at most the counter, and the numbers
    given out differ. *)
Definition ids_inv (d : debug_ids) : Prop :=
  (0 <= scampDebuggerID d)%Z
  ∧ (∀ k i v, calls d !! k = Some (Swapping i v) → (0 <= v <= scampDebuggerID d)%Z ∧ (i < max_rounds)%nat)
  ∧ (∀ k id, calls d !! k = Some (Numbered id) → (1 <= id <= scampDebuggerID d)%Z)
  ∧ (∀ k j id, calls d !! k = Some (Numbered id) → calls d !! j = Some (Numbered id) → k = j).

(** A call that has lost [i] rounds has seen the counter move [i] times; the
    counter counts the calls that have a number. *)
Definition lost_rounds (counter : Z) (n : numbering) : Prop :=
  match n with
  | Loading i => (Z.of_nat i <= counter)%Z
  | Swapping i v => (Z.of_nat i <= v <= counter)%Z
  | Numbered _ => True
  | GaveUp => (Z.of_nat max_rounds <= counter)%Z
  end.
Definition is_numbered (n : numbering) : bool := if n is Numbered _ then true else false.
Definition numbered : list numbering → nat := how_many is_numbered.

Definition rounds_inv (d : debug_ids) : Prop :=
  scampDebuggerID d = Z.of_nat (numbered (calls d)) ∧ Forall (lost_rounds (scampDebuggerID d)) (calls d).

(** ** Lemmas *)

Lemma after_last {A} (x : A) a b u v : x ∉ u → x ∉ v → a ++ x :: u = b ++ x :: v → u = v.
Proof.
  intros Hu Hv [(k & -> & Hk)|(k & -> & Hk)]%app_eq_inv; destruct k as [|y k]; cbn in Hk; simplify_eq;
    try done; exfalso; set_solver.
Qed.

Lemma digits_no_dot n : "."%char ∉ format_uint n.
Proof.
  intros Hin. pose proof (format_uint_digits n) as Hd. rewrite forallb_forall in Hd.
  apply list_elem_of_In in Hin. by apply Hd in Hin.
Qed.

Lemma debugger_path_inj t r c t' r' c' i j :
  (0 <= i)%Z → (0 <= j)%Z → debugger_path t r c i = debugger_path t' r' c' j → i = j.
Proof.
  intros Hi Hj. unfold debugger_path, format_int.
  rewrite (proj2 (Z.ltb_ge i 0)), (proj2 (Z.ltb_ge j 0)) by done.
  change (bs ".") with ["."%char : byte]. rewrite !(app_assoc _ [_]), !(app_assoc _ _ (format_uint _)).
  rewrite !app_assoc, <- !(app_assoc _ [_] (format_uint _)). cbn [app]. intros H.
  apply after_last in H; [|apply digits_no_dot..].
  apply (f_equal digits_val) in H. rewrite !format_uint_val in H. lia.
Qed.

Lemma lost_rounds_mono c c' n : (c <= c')%Z → lost_rounds c n → lost_rounds c' n.
Proof. destruct n; cbn; lia. Qed.

Lemma rounds_inv_set d k n n' c :
  rounds_inv d → calls d !! k = Some n →
  c = (scampDebuggerID d + (if is_numbered n' then 1 else 0) - (if is_numbered n then 1 else 0))%Z →
  (scampDebuggerID d <= c)%Z → lost_rounds c n' → rounds_inv (mkIds c (<[k := n']> (calls d))).
Proof.
  intros [Hc Hl] Hk Ec Hle Hn. assert (k < length (calls d))%nat as Hlt by by eapply lookup_lt_Some.
  split; cbn [calls scampDebuggerID].
  - pose proof (how_many_insert is_numbered _ _ _ n' Hk) as Hm. unfold numbered in *.
    destruct (is_numbered n), (is_numbered n'); lia.
  - apply Forall_insert; [|done]. eapply Forall_impl; [exact Hl|]. intros x. by apply lost_rounds_mono.
Qed.

Lemma rounds_inv_step ev d d' :
  rounds_inv d → (scampDebuggerID d + 1 < 2 ^ 64)%Z → id_step ev d = Some d' →
  rounds_inv d' ∧ (scampDebuggerID d' <= scampDebuggerID d + 1)%Z.
Proof.
  intros Hi Hlt. destruct ev as [|k]; cbn [id_step].
  - intros [= <-]. split; [|cbn; lia]. destruct Hi as [Hc Hl]. split; cbn [calls scampDebuggerID].
    + unfold numbered in *. rewrite how_many_app, Hc. cbn. lia.
    + apply Forall_app_2; [done|]. constructor; [cbn; lia | constructor].
  - destruct (calls d !! k) as [n|] eqn:Ek; [|done].
    destruct (number_step n (scampDebuggerID d)) as [counter n'] eqn:En. intros [= <-]. cbn [scampDebuggerID].
    assert (lost_rounds (scampDebuggerID d) n) as Hn by (destruct Hi as [_ Hl]; by eapply Forall_lookup_1).
    assert (0 <= scampDebuggerID d)%Z as H0 by (destruct Hi as [-> _]; lia).
    destruct n as [i|i v|id|]; cbn [number_step] in En; cbn [lost_rounds] in Hn.
    + injection En as <- <-. split; [|lia]. destruct (Nat.ltb_spec i max_rounds);
        eapply rounds_inv_set; try done; cbn; lia.
    + destruct (Z.eqb_spec (scampDebuggerID d) v) as [Hv|Hv].
      * rewrite u64_id in En by (unfold in_u64; lia). injection En as <- <-. split; [|lia].
        eapply rounds_inv_set; try done; cbn; lia.
      * injection En as <- <-. split; [|lia]. destruct (Nat.ltb_spec (S i) max_rounds);
          eapply rounds_inv_set; try done; cbn [is_numbered lost_rounds]; lia.
    + injection En as <- <-. split; [|lia]. eapply rounds_inv_set; try done; cbn; lia.
    + injection En as <- <-. split; [|lia]. eapply rounds_inv_set; try done; cbn; lia.
Qed.

(** An invariant that moves the counter by at most one per step. *)
Lemma id_steps_ind (P : debug_ids → Prop) evs d d' :
  (∀ ev x y, P x → (scampDebuggerID x + 1 < 2 ^ 64)%Z → id_step ev x = Some y →
     P y ∧ (scampDebuggerID y <= scampDebuggerID x + 1)%Z) →
  P d → (scampDebuggerID d + Z.of_nat (length evs) < 2 ^ 64)%Z → id_steps evs d = Some d' → P d'.
Proof.
  intros Hs. revert d. induction evs as [|ev evs IH]; intros d Hi Hl; [by intros [= <-]|].
  cbn [id_steps length] in *. destruct (id_step ev d) as [d1|] eqn:E; [|done].
  apply Hs in E as [Hi1 Hd1]; [|done|lia]. apply IH; [done|lia].
Qed.

(** A call that changes without the counter: nothing new is numbered. *)
Lemma ids_inv_local d k n n' :
  ids_inv d → calls d !! k = Some n →
  (∀ id, n' = Numbered id → n = Numbered id) →
  (∀ i v, n' = Swapping i v → (0 <= v <= scampDebuggerID d)%Z ∧ (i < max_rounds)%nat) →
  ids_inv (mkIds (scampDebuggerID d) (<[k := n']> (calls d))).
Proof.
  intros (H0 & H1 & H2 & H3) Hk Hid Hsw. split; [done|].
  assert (∀ j id, <[k:=n']> (calls d) !! j = Some (Numbered id) → calls d !! j = Some (Numbered id)) as Hback.
  { intros j id Hj. destruct (decide (k = j)) as [->|Hne].
    - rewrite list_lookup_insert_eq in Hj by by eapply lookup_lt_Some. injection Hj as Hj.
      rewrite Hk. f_equal. by apply Hid.
    - by rewrite list_lookup_insert_ne in Hj. }
  split; [|split; cbn].
  - cbn. intros j i v Hj. destruct (decide (k = j)) as [->|Hne].
    + rewrite list_lookup_insert_eq in Hj by by eapply lookup_lt_Some. injection Hj as Hj. by apply Hsw.
    + rewrite list_lookup_insert_ne in Hj by done. by eapply H1.
  - intros j id Hj. by eapply H2, Hback.
  - intros j l id Hj Hl. eapply H3; by apply Hback.
Qed.

Lemma ids_inv_swap d k i v :
  ids_inv d → (scampDebuggerID d + 1 < 2 ^ 64)%Z → calls d !! k = Some (Swapping i v) →
  v = scampDebuggerID d →
  ids_inv (mkIds (u64 (v + 1)) (<[k := Numbered (u64 (v + 1))]> (calls d))).
Proof.
  intros (H0 & H1 & H2 & H3) Hlt Hk ->. rewrite u64_id by (unfold in_u64; lia).
  assert (∀ j id, <[k:=Numbered (scampDebuggerID d + 1)]> (calls d) !! j = Some (Numbered id) →
    (j = k ∧ id = scampDebuggerID d + 1)%Z ∨ (j ≠ k ∧ calls d !! j = Some (Numbered id))) as Hback.
  { intros j id Hj. destruct (decide (j = k)) as [->|Hne].
    - rewrite list_lookup_insert_eq in Hj by by eapply lookup_lt_Some. injection Hj as <-. by left.
    - rewrite list_lookup_insert_ne in Hj by done. by right. }
  split; [cbn; lia|]. split; [|split; cbn].
  - cbn. intros j i' v Hj. destruct (decide (j = k)) as [->|Hne].
    + rewrite list_lookup_insert_eq in Hj by by eapply lookup_lt_Some. discriminate Hj.
    + rewrite list_lookup_insert_ne in Hj by done. destruct (H1 _ _ _ Hj). lia.
  - intros j id [[_ ->]|[_ Hj%H2]]%Hback; lia.
  - intros j l id [[-> ->]|[Hjk Hj]]%Hback [[-> Hl]|[Hlk Hl]]%Hback.
    + done.
    + apply H2 in Hl. lia.
    + subst id. apply H2 in Hj. lia.
    + by eapply H3.
Qed.

Lemma ids_inv_step ev d d' :
  ids_inv d → (scampDebuggerID d + 1 < 2 ^ 64)%Z → id_step ev d = Some d' →
  ids_inv d' ∧ (scampDebuggerID d' <= scampDebuggerID d + 1)%Z.
Proof.
  intros Hi Hlt. destruct ev as [|k]; cbn [id_step].
  - intros [= <-]. split; [|cbn; lia]. destruct Hi as (H0 & H1 & H2 & H3).
    assert (∀ j n, (calls d ++ [Loading 0]) !! j = Some n → n = Loading 0 ∨ calls d !! j = Some n) as Hb.
    { intros j n [Hj|[_ Hj]]%lookup_app_Some; [by right|]. left.
      by apply list_lookup_singleton_Some in Hj as [_ <-]. }
    split; [done|]. split; [|split]; cbn.
    + intros j i v [|Hj]%Hb; [done|]. by eapply H1.
    + intros j id [|Hj]%Hb; [done|]. by eapply H2.
    + intros j l id [|Hj]%Hb [|Hl]%Hb; try done. by eapply H3.
  - destruct (calls d !! k) as [n|] eqn:Ek; [|done].
    destruct (number_step n (scampDebuggerID d)) as [counter n'] eqn:En. intros [= <-]. cbn.
    destruct n as [i|i v|id|]; cbn [number_step] in En.
    + injection En as <- <-. split; [|lia]. apply (ids_inv_local d k (Loading i)); try done.
      * intros id. by destruct (i <? max_rounds)%nat.
      * intros i' v. destruct (Nat.ltb_spec i max_rounds); intros [= <- <-].
        destruct Hi as [H0 _]. split; [lia | done].
    + destruct (Z.eqb_spec (scampDebuggerID d) v) as [Hv|Hv].
      * injection En as <- <-. split; [by eapply ids_inv_swap|].
        rewrite <- Hv, u64_id by (unfold in_u64; destruct Hi; lia). lia.
      * injection En as <- <-. split; [|lia].
        apply (ids_inv_local d k (Swapping i v)); try done; intros *; by destruct (_ <? _)%nat.
    + injection En as <- <-. split; [|lia]. by apply (ids_inv_local d k (Numbered id)).
    + injection En as <- <-. split; [|lia]. by apply (ids_inv_local d k GaveUp).
Qed.

(** ** Properties *)

(** C39. However many connections are numbered at once, no two debuggers write
    to the same file, whatever their client types. *)
Theorem debugger_numbers_differ evs d k j id id' t r c t' r' c' :
  (Z.of_nat (length evs) < 2 ^ 64)%Z → id_steps evs no_ids = Some d →
  calls d !! k = Some (Numbered id) → calls d !! j = Some (Numbered id') → k ≠ j →
  debugger_path t r c id ≠ debugger_path t' r' c' id'.
Proof.
  intros Hlen Hr Hk Hj Hne. assert (ids_inv d) as (_ & _ & H2 & Hu).
  { eapply (id_steps_ind ids_inv evs no_ids); [apply ids_inv_step| |exact Hlen|exact Hr].
    split; [done|]. split; [|split]; intros *; cbn [no_ids calls]; by rewrite lookup_nil. }
  pose proof (H2 _ _ Hk). pose proof (H2 _ _ Hj). intros ->%debugger_path_inj; [|lia..].
  by apply Hne, (Hu k j id').
Qed.

(** The panic that never should happen needs ten other connections: when
    a call has given up, at least ten have taken a number. *)
Theorem debugger_gives_up evs d k :
  (Z.of_nat (length evs) < 2 ^ 64)%Z → id_steps evs no_ids = Some d →
  calls d !! k = Some GaveUp → (max_rounds ≤ numbered (calls d))%nat.
Proof.
  intros Hlen Hr Hk. assert (rounds_inv d) as [Hc Hl].
  { eapply (id_steps_ind rounds_inv evs no_ids); [apply rounds_inv_step| |exact Hlen|exact Hr].
    split; [done | constructor]. }
  apply (Forall_lookup_1 _ _ _ _ Hl) in Hk. cbn [lost_rounds] in Hk. lia.
Qed.

(** Ten other connections, each numbered while the first call is between its
    load and its swap, make that call panic. *)
Definition contention : list id_event :=
  NewCall :: concat (map (λ k, [NewCall; CallStep k; CallStep 0; CallStep k; CallStep 0]) (seq 1 10)).
Definition contended : debug_ids := mkIds 10 (GaveUp :: map (λ k, Numbered (Z.of_nat k)) (seq 1 10)).

Example contention_panics : id_steps contention no_ids = Some contended.
Proof. by vm_compute. Qed.

Definition racing : list id_event :=
  [NewCall; NewCall; CallStep 0; CallStep 1; CallStep 0; CallStep 1; CallStep 1; CallStep 1].
Definition raced : debug_ids := mkIds 2 [Numbered 1; Numbered 2].

Lemma debugger_numbers_differ_witness :
  debugger_path (bs "f") (bs "r") (bs "service") 1 ≠ debugger_path (bs "f") (bs "r") (bs "client") 2.
Proof.
  apply (debugger_numbers_differ racing raced 0 1); [reflexivity.. | discriminate].
Defined.

Lemma debugger_gives_up_witness : (10 ≤ numbered (calls contended))%nat.
Proof.
  apply (debugger_gives_up contention contended 0);
    [vm_compute; reflexivity | vm_compute; reflexivity | reflexivity].
Defined.
