(* ===== verification/Startup.v ===== *)
(** The ends of the program: src/scamp/init.go ([Initialize]) and
    src/scamp/mocked.go (the requester used in tests). *)
From S2P Require Import Prelude Strconv GoIO Scanner PacketHeader Packet Message Verify ServiceProxy ServiceCache ServiceCacheFacts Service ServiceFacts Refresher ConfigLine Config ConfigFacts Debugger.

(** ** Initialize *)

(** The package variables [defaultConfig], [DefaultCache] and
    [randomDebuggerString]. *)
Record globals := mkGlobals {
  g_config : option Config;
  g_cache : option CacheRefresher;
  g_debugger : bytes
}.

(** [func SetDefaultConfig(conf *Config)], apart from the loggers. *)
Definition SetDefaultConfig (conf : Config) (g : globals) : globals :=
  mkGlobals (Some conf) (g_cache g) (g_debugger g).

(** [func DefaultConfig() (conf *Config)]. *)
Definition DefaultConfig (g : globals) : outcome unit Config :=
  match g_config g with
  | Some conf => Ok conf
  | None => Panic (bs "Global configuration defaultConfig is not initialized! Call scamp.Initialize() before using package functionality.")
  end.

Inductive init_error :=
| ConfigError (e : bytes)
| NoCachePath
| CacheError (e : refresh_error).

Section initialize.
Context `{Unicode} `{Crypto}.
(** What [os.Open] finds at a path, what the cache finds there, and four
    random bytes. *)
Context (open_file : bytes → bytes + bytes) (cache_at : bytes → cache_file).
Context (randBytes : option bytes).

(** [func initConfig(configPath string) (err error)]: the new configuration
    is the global one even if it could not be loaded. *)
Definition initConfig (configPath : bytes) (g : globals)
    : option (outcome unit (globals * option bytes)) :=
  match Load configPath (open_file configPath) NewConfig with
  | Some (conf, Some e) =>
      Some (Ok (SetDefaultConfig conf g, Some (bs "could not load config: " ++ e)))
  | Some (conf, None) =>
      match scampDebuggerRandomString randBytes with
      | Ok random => Some (Ok (mkGlobals (Some conf) (g_cache g) random, None))
      | Err e => Some (Err e)
      | Panic w => Some (Panic w)
      end
  | None => None
  end.

(** [func Initialize(configPath string, options RefresherOptions) (err error)]. *)
Definition Initialize (configPath : bytes) (options : RefresherOptions) (g : globals)
    : option (outcome unit (globals * option init_error)) :=
  and_then (initConfig configPath g) (λ ge,
    let '(g1, err) := ge in
    match err with
    | Some e => Some (Ok (g1, Some (ConfigError e)))
    | None =>
        match DefaultConfig g1 with
        | Err e => Some (Err e)
        | Panic w => Some (Panic w)
        | Ok conf =>
            match Get (bs "discovery.cache_path") conf with
            | (_, false) => Some (Ok (g1, Some NoCachePath))
            | (cachePath, true) =>
                and_then (NewServiceCache (cache_at cachePath)) (λ ce,
                  match ce.2 with
                  | Some e => Some (Ok (g1, Some (CacheError e)))
                  | None =>
                      match NewCacheRefresher ce.1 options with
                      | Ok r => Some (Ok (mkGlobals (g_config g1) (Some r) (g_debugger g1), None))
                      | Err e => Some (Err e)
                      | Panic w => Some (Panic w)
                      end
                  end)
            end
        end
    end).

(** [Initialize] ends; without an error the default cache is a fresh
    refresher over what the configured file holds, with an error the default
    cache is the one there was. *)
Theorem Initialize_spec configPath options g :
  match Initialize configPath options g with
  | None => False
  | Some (Ok (g', Some _)) => g_cache g' = g_cache g
  | Some (Ok (g', None)) =>
      ∃ conf path c r random, g' = mkGlobals (Some conf) (Some r) random ∧ conf_wf conf
        ∧ scampDebuggerRandomString randBytes = Ok random
        ∧ Load configPath (open_file configPath) NewConfig = Some (conf, None)
        ∧ value_of (bs "discovery.cache_path") conf = Some path
        ∧ NewServiceCache (cache_at path) = Some (Ok (c, None))
        ∧ r_cache r = c ∧ r_initialRefresh r = false ∧ r_options r = options
  | Some _ => True
  end.
Proof.
  unfold Initialize, initConfig. destruct (Load configPath (open_file configPath) NewConfig) as [[conf e]|] eqn:El.
  2:{ unfold Load in El. destruct (open_file configPath) as [x|file]; [done|].
      destruct (doLoad_ends startBufSize MaxScanTokenSize file NewConfig) as (c & Hc & _);
        [by apply Nat.ltb_lt; vm_compute | apply new_conf_wf|]. by rewrite Hc in El. }
  assert (conf_wf conf) as Hw.
  { unfold Load in El. destruct (open_file configPath) as [x|file]; [injection El as <- _; apply new_conf_wf|].
    destruct (doLoad_ends startBufSize MaxScanTokenSize file NewConfig) as (c & Hc & Hcw);
      [by apply Nat.ltb_lt; vm_compute | apply new_conf_wf|]. rewrite Hc in El. by injection El as <- _. }
  destruct e as [e|]; cbn [and_then]; [done|].
  destruct (scampDebuggerRandomString randBytes) as [random|e|w] eqn:Er; cbn [and_then]; try done.
  unfold Get. cbn [DefaultConfig g_config].
  destruct (value_of (bs "discovery.cache_path") conf) as [path|] eqn:Ev; [|done].
  change (default [] (Some path)) with path.
  unfold NewServiceCache. destruct (Refresh_ends (cache_at path) emptyCache) as [o Ho]. rewrite Ho.
  destruct o as [[c [e|]]|e|w]; cbn; try done. unfold NewCacheRefresher.
  destruct (0 <? _)%Z; [|done]. eexists _, path, c, _, random. by repeat (split; [done|]).
Qed.
End initialize.

(** ** The mock requester *)

Record mockedScampRequester := mkMocked { mockRequests : gmap bytes bytes; mockErrors : list bytes }.

Definition NewMockedScampRequester (mocks : gmap bytes bytes) : mockedScampRequester := mkMocked mocks [].

(** [func (r *mockedScampRequester) getMockedResponse(action string)]. *)
Definition getMockedResponse (action : bytes) (r : mockedScampRequester) : outcome bytes Message :=
  match mockRequests r !! action with
  | Some ((_ :: _) as response) => Ok (msg_Write response (SetAction action NewResponseMessage)).1
  | _ => Err (bs "No response was found for action: " ++ action)
  end.

(** [func (r *mockedScampRequester) MockErrors() []error]. *)
Definition MockErrors (r : mockedScampRequester) : list bytes := mockErrors r.

Definition addError (err : bytes) (r : mockedScampRequester) : mockedScampRequester :=
  mkMocked (mockRequests r) (mockErrors r ++ [err]).

(** [func (r *mockedScampRequester) MakeJSONRequest(ctx, mssg, _, _)]. *)
Definition mocked_MakeJSONRequest (mssg : Message) (r : mockedScampRequester)
    : mockedScampRequester * outcome bytes Message :=
  match getMockedResponse (m_Action mssg) r with
  | Ok response => (r, Ok response)
  | Err e => let err := bs "Error getting mocked response: " ++ e in (addError err r, Err err)
  | Panic w => (r, Panic w)
  end.

Definition MakeChannelJSONRequest : outcome bytes Message :=
  Panic (bs "MakeChannelJSONRequest NOT YET SUPPORTED").

(** The mock answers with the registered text, in one packet, or records the
    error it returns. *)
Lemma mocked_reply mssg r :
  match mocked_MakeJSONRequest mssg r with
  | (r', Ok m) => r' = r ∧ mockRequests r !! m_Action mssg = Some (msg_Bytes m)
                  ∧ m_MessageType m = MessageTypeReply ∧ m_Action m = m_Action mssg
  | (r', Err e) => mockErrors r' = mockErrors r ++ [e] ∧ mockRequests r' = mockRequests r
  | (_, Panic _) => False
  end.
Proof.
  unfold mocked_MakeJSONRequest, getMockedResponse.
  destruct (mockRequests r !! m_Action mssg) as [[|c t]|] eqn:E; [done| |done].
  split; [done|]. unfold msg_Bytes. cbn. by rewrite app_nil_r.
Qed.
